(* ===== verification/_CoqProject ===== *)
-Q . S2P
Prelude.v
Text.v
Utf8.v
Protocol.v
Wire.v
Proto.v
Stream.v
Session.v
Link.v
Quic.v
Ip.v
UdpFrame.v
Addrfam.v
Forward.v
Hex.v
X11.v
ShellQuote.v
Bootstrap.v
Connection.v
ServerLoop.v
Login.v
Escape.v
Stdin.v
Console.v
ClientLoop.v
Config.v
X11Setup.v
X11Session.v
UdpSenders.v
LogFile.v
Settings.v
Tunnel.v
Acceptors.v
UdpReverse.v
UdpForward.v
UdpReverseTrip.v
LinkSpec.v
ServerStart.v
Shell.v
RunSession.v
ShellExit.v
Control.v
ClientStart.v
Transport.v
Reconnect.v
Stress.v
UnitTests.v
