(* ===== verification/Prelude.v ===== *)
(** * Eternal Terminal in Rust ([etr], [etrs]): a verified model

    The program is a remote shell that survives the loss of its network
    connection.  The client [etr] starts the server [etrs] over [ssh], exchanges
    a session identifier, a pass key, a port and a certificate with it, and then
    talks to it over QUIC.  Both ends number what they send on the terminal
    stream, keep a bounded history of it, and tell each other in every handshake
    and heartbeat what they have received, so that after a reconnection each
    replays what the other has missed.  Ports, UDP and X11 are forwarded over the
    same connection.

    Paths below are relative to the crate, [src/] being its source directory.

    ** The files

    - [Prelude]: machine integers as [Z] with their wrap-around, big-endian
      encodings, results and panics, tactics and the hint database [etr].
    - [Text]: Rust's [str] as the list of its scalar values, with the standard
      library's splitting, trimming, line and number functions.
    - [Utf8]: which characters and byte strings are text.
    - [Protocol]: the messages of [src/protocol/mod.rs], with the Rust types of
      their fields as predicates.
    - [Wire], [Proto]: the protobuf wire format (varints, tags, lengths, unknown
      and repeated fields), and the encoding that the derive attributes of
      [src/protocol/mod.rs] give each message.
    - [Stream]: the per-stream state of [src/session/stream.rs]: numbering,
      history with its cap of 4 MiB, acknowledgement, replay.
    - [Session]: the stream table of [src/session/mod.rs] and the handshake
      operations on it.
    - [Link]: the terminal relay of both [run_session] functions and
      [handle_connection] as an interleaving machine: handshake, standard input,
      PTY and standard output tasks with their bounded channels, heartbeats, and
      the loss of the connection at either end at any point.
    - [Quic]: framing of messages and PTY chunks, and the comparison of secrets
      ([src/quic.rs]).
    - [Ip]: printing and parsing of IP addresses, as the standard library does.
    - [UdpFrame]: the reusable datagram encoder and the check of received peer
      addresses ([src/forward.rs]).
    - [UdpSenders]: the table of per-sender sockets of a UDP forward
      ([serve_udp_forward] of [src/bin/etrs.rs], the same code in
      [src/bin/etr.rs]).
    - [Addrfam]: the address-family preference ([src/addrfam.rs]) and the
      functions that resolve and connect with it.
    - [Forward]: forwarding specifications ([src/forward.rs]) and the client's
      check of streams opened by the server.
    - [Hex], [X11], [X11Setup]: hexadecimal text; display names and the choice of
      an authority cookie on the client; the display, and the exchange of cookies
      in a connection's setup message, on the server.
    - [X11Session]: the effects of a session's display, from the listeners and
      [xauth] entries to their removal.
    - [ShellQuote], [Bootstrap], [Settings]: the remote command line and a model
      of the shell that reads it; the text written to the server's standard input
      and its answer; how command line, configuration file and environment become
      that text.
    - [Connection], [ServerLoop]: one connection of the server from its first
      byte, and the loop over connections with its exits and the teardown.
    - [Login]: the login records ([src/login.rs]), in the order of the loop's, the
      connections' and the shell watcher's calls.
    - [RunSession]: the server's [run_session] as a whole, from the display and the
      PTY to what is undone at its end.
    - [Reconnect]: an outage, timed: the client's attempts against the server's loop.
    - [Transport]: transport parameters, the server's certificate and the client
      that trusts it ([src/quic.rs]).
    - [Stdin]: standard input from its reader to the server's PTY reader, with
      the end of the input.
    - [Escape], [Console], [ClientLoop]: the keyboard filter; the modes of a
      Windows console; and the client's reconnect loop with its exit codes and the
      terminal it leaves.
    - [Tunnel], [UdpReverse]: a forwarded connection from the header that the
      accepting end writes to the connection at the other end, and the pipe of
      two tasks between a socket and a stream; the reverse UDP listener across
      reconnections (both binaries).
    - [Acceptors]: the tasks that bind, accept and open for forwarded TCP
      connections, of both programs, across sessions and reconnections.
    - [UdpForward], [UdpReverseTrip]: a local and a reverse UDP forward from end to
      end, composed of the writers, the checks of the accepting end, its sockets, and
      the way of the replies.
    - [LinkSpec]: two lossless queues as the specification of [Link], and the
      refinement.
    - [ServerStart], [ClientStart]: the server from its options to the port that
      it reports, and with [Settings] the whole exchange over [ssh]; the client's
      modes, paths, X11 cookie and peer address, up to the first message.
    - [Shell], [ShellExit], [Control]: the program and environment of the shell; how its end reaches the
      client; the client's sender of window sizes and heartbeats.
    - [Stress]: the load generator ([tools/stress/src/main.rs]).
    - [UnitTests]: the unit tests of the crate, run on the definitions.
    - [Config], [LogFile]: the merge of defaults into a configuration file; the
      checked walk to the private log file ([src/config.rs]).

    ** How the code is represented

    A struct is a record, an enum an inductive type, a hash map a [gmap], an
    operation on a mutable value a function from the old to the new value, a
    fallible function one into [result] or [option], a possible panic the
    [outcome] [Panic].  Concurrency is made explicit where it matters: in [Link]
    every task's progress between two awaits is a label, and a run is any list of
    labels that [step] executes; elsewhere the order of events is an argument.
    Environment (name resolution, connecting, [xauth], signals, time limits,
    access control) appears as parameters or as the outcomes in a turn's record.
    What uses messages is proved against the class [EnvelopeCodec] and its law
    ([LawfulCodec]: a message whose fields have their types and whose encoding has
    a length that fits 32 bits decodes from its encoding; [TypedCodec]: what is
    decoded has its types); [proto_codec] of [Proto], the protobuf encoding,
    discharges both.  [DatagramField] does the same for the fields that the
    datagram encoder writes itself.

    ** What is shown

    - Reliability of the terminal: while the gap stays within the history and no
      task is cut off at one of the named points, input is delivered exactly once
      and in order across any number of reconnections, and output is printed
      exactly once while handshakes are quiet, their replays fit in the outgoing
      channel and standard output keeps up ([Link], resting on [Stream] and [Session]: the history is the
      exact window of what is not acknowledged, replay starts after the
      watermark); under these conditions the relay refines two lossless queues
      ([LinkSpec]); a lost connection can always be recovered, in both directions;
      without those conditions nothing is ever delivered twice.  The points where
      output or input can be lost are exhibited as runs, among them the end of the
      session, which overtakes the output ([ShellExit]).
    - Start: for an accepted combination of options, file and environment of which
      nothing can be taken for another line of the exchange ([exchange_ok] of
      [ServerStart]) the server runs exactly the session that was asked for, the
      client learns its port and certificate, and its first message is let in
      ([ClientStart]); the shell's environment is characterised variable by variable,
      from the entries that the server has read and from the user's options
      ([Shell]); an address family is a preference and no restriction ([Addrfam]);
      merging the defaults keeps the user's file ([Config]).
    - Forwards: a connection accepted at one end reaches the target of its
      specification at the other, the bytes arrive as a prefix in order under any
      interleaving, and the pipe terminates ([Tunnel]); every accepted connection is
      accounted for once, the server's listeners survive a reconnection, and the
      client's, as the code is, do not ([Acceptors]); datagrams of a reverse UDP
      listener arrive across reconnections, and theirs and those of a local forward
      get their replies ([UdpReverseTrip], [UdpForward]).
    - Who gets in: a connection without the session's identifier and pass key
      changes nothing and cannot end the session ([Connection],
      [ServerLoop]); a stream opened by the server is served only when the user
      asked for it ([Forward]); the X11 cookie exchange ([X11Setup]); the log file
      ([LogFile]); the filtered environment and the quoted command line.  The
      client in turn talks only to the server that ssh started ([Transport]).
    - Round trips of every encoding the two programs share: messages down to
      their bytes ([Proto]), chunks, datagrams, the bootstrap text and its answer,
      specifications, addresses, hexadecimal; and what the readers do with arbitrary bytes ([Quic]).
    - Bounds: history bytes, replay queue, UDP sockets, message sizes.
    - Life cycle: exits and exit codes of both loops, the terminal after each of
      them, the signals of the teardown, the login records ([Login]); what is
      left of a session when it has ended or could not be set up ([RunSession]); an
      outage that ends 52 seconds before the reconnect window is survived, and the
      session is back within 113 seconds of its end ([Reconnect]).

    Fuel occurs in two kinds of places.  Readers of a whole stream take a count
    of messages, which the theorems take large enough for all that was written;
    readers that a task runs ([ctrl_reader], [pty_reader]) take as many messages
    as arrive before the task is stopped.  [dec_aux] takes the number of bits,
    which bounds the number of digits; a varint has at most ten bytes, and a
    message at most as many fields as bytes.  [outage] takes a number of attempts,
    and its theorem gives one that is enough.

    ** What is not modelled

    The packets of QUIC and the cryptography of TLS ([quinn], [rustls], [rcgen]:
    the class [TlsLib] of [Transport] with its laws), the parsing of arguments and
    TOML ([clap], [toml]), what libutempter writes, PTY allocation, logging, and
    what is specific to Windows apart from the console's modes.
    [fork], [bind], [accept] and [connect] appear by their outcomes only.  The
    command builder of the PTY library is the class [CommandBuilder] of [Shell]
    with its documented laws. *)
From stdpp Require Export base tactics numbers list list_numbers option gmap.
From Stdlib Require Export ZArith Lia.
Open Scope Z_scope.
Open Scope list_scope.

(** ** Machine integers

    A Rust integer is a [Z]; the release build wraps, which is written out. *)

Abbreviation u8 := Z (only parsing).
Abbreviation u16 := Z (only parsing).
Abbreviation u32 := Z (only parsing).
Abbreviation u64 := Z (only parsing).
Abbreviation usize := Z (only parsing).

Definition U8_MAX : Z := 255.
Definition U16_MAX : Z := 65535.
Definition U32_MAX : Z := 4294967295.
Definition U64_MAX : Z := 18446744073709551615.

(** [x as uw] and the result of an operator that wraps at width [w]. *)
Definition wrap (w x : Z) : Z := x mod 2 ^ w.

(** [x.checked_sub(y)] on an unsigned type. *)
Definition checked_sub (x y : Z) : option Z :=
  if y <=? x then Some (x - y) else None.

(** [u16::try_from(x)] of an unsigned value. *)
Definition u16_try_from (x : Z) : option Z :=
  if (0 <=? x) && (x <=? U16_MAX) then Some x else None.

(** [v.to_be_bytes()] of an [n]-byte integer. *)
Fixpoint to_be (n : nat) (v : Z) : list u8 :=
  match n with
  | O => []
  | S k => (v / 256 ^ Z.of_nat k) mod 256 :: to_be k v
  end.

(** [uN::from_be_bytes]. *)
Definition from_be (bs : list u8) : Z :=
  fold_left (fun acc b => acc * 256 + b) bs 0.

(** [v.to_le_bytes()] and [uN::from_le_bytes]. *)
Definition to_le (n : nat) (v : Z) : list u8 := rev (to_be n v).
Definition from_le (bs : list u8) : Z := from_be (rev bs).

Definition is_byte (b : Z) : Prop := 0 <= b < 256.

(** ** Results, errors and panics *)

Inductive result (A E : Type) : Type :=
| Ok (a : A)
| Err (e : E).
Arguments Ok {A E} a.
Arguments Err {A E} e.

(** A computation that may panic (an out-of-boundary slice, an [expect]). *)
Inductive outcome (A : Type) : Type :=
| Ret (a : A)
| Panic.
Arguments Ret {A} a.
Arguments Panic {A}.

(** [std::io::ErrorKind], the kinds the program distinguishes. *)
Inductive ErrorKind : Type :=
| NotFound | PermissionDenied | ConnectionAborted | BrokenPipe
| InvalidInput | InvalidData | UnexpectedEof | AddrNotAvailable | OtherKind.

#[export] Instance ErrorKind_eq_dec : EqDecision ErrorKind.
Proof. solve_decision. Defined.

Definition result_bind {A B E} (r : result A E) (f : A -> result B E) : result B E :=
  match r with Ok a => f a | Err e => Err e end.

Definition is_ok {A E} (r : result A E) : bool :=
  match r with Ok _ => true | Err _ => false end.

Definition ok_or {A E} (o : option A) (e : E) : result A E :=
  match o with Some a => Ok a | None => Err e end.

Declare Scope rust_scope.
Delimit Scope rust_scope with rust.
Notation "'let?' x ':=' e 'in' k" := (result_bind e (fun x => k))
  (at level 10, x pattern, e at level 200, k at level 200) : rust_scope.
Open Scope rust_scope.

(** ** Automation

    [etr] holds the facts that [eauto] uses for the common side conditions;
    [etr_rw] the equations that normalise encoded bytes and lists. *)
Create HintDb etr.
Create Rewrite HintDb etr_rw.

(** Reflect the boolean comparisons and connectives of the code. *)
Ltac zreflect :=
  repeat match goal with
  | H : context [?x =? ?y] |- _ => destruct (Z.eqb_spec x y); subst
  | H : context [?x <=? ?y] |- _ => destruct (Z.leb_spec x y)
  | H : context [?x <? ?y] |- _ => destruct (Z.ltb_spec x y)
  | |- context [?x =? ?y] => destruct (Z.eqb_spec x y); subst
  | |- context [?x <=? ?y] => destruct (Z.leb_spec x y)
  | |- context [?x <? ?y] => destruct (Z.ltb_spec x y)
  end; cbn [andb orb negb] in *.

(** Case analysis on every [match] in sight, closing the impossible cases. *)
Ltac crush_match :=
  repeat (case_match; simplify_eq/=); try done.

(** Split a boolean conjunction hypothesis. *)
Ltac destruct_andb :=
  repeat match goal with
  | H : _ && _ = true |- _ => apply andb_true_iff in H as [? ?]
  | H : _ || _ = false |- _ => apply orb_false_iff in H as [? ?]
  end.

(** ** Lemmas on integers and bytes *)

Lemma length_to_be n v : length (to_be n v) = n.
Proof. by induction n as [|n IH]; simpl; rewrite ?IH. Qed.

Lemma to_be_bytes n v : Forall is_byte (to_be n v).
Proof.
  induction n as [|n IH]; simpl; constructor; [|done].
  unfold is_byte. apply Z.mod_pos_bound. lia.
Qed.

Lemma from_be_app l1 l2 :
  from_be (l1 ++ l2) = from_be l1 * 256 ^ Z.of_nat (length l2) + from_be l2.
Proof.
  unfold from_be. rewrite fold_left_app. generalize (fold_left (fun acc b => acc * 256 + b) l1 0).
  induction l2 as [|b l2 IH] using rev_ind; intros acc; simpl.
  - lia.
  - rewrite !fold_left_app, length_app, Nat.add_1_r, Nat2Z.inj_succ, Z.pow_succ_r by lia.
    simpl. rewrite IH. lia.
Qed.

Lemma from_be_cons b l : from_be (b :: l) = b * 256 ^ Z.of_nat (length l) + from_be l.
Proof. change (b :: l) with ([b] ++ l). rewrite from_be_app. unfold from_be at 1. simpl. lia. Qed.

Lemma from_be_to_be n v : from_be (to_be n v) = v mod 256 ^ Z.of_nat n.
Proof.
  induction n as [|n IH]; [by rewrite Z.mod_1_r|].
  simpl to_be. rewrite from_be_cons, length_to_be, IH.
  rewrite Nat2Z.inj_succ, Z.pow_succ_r by lia.
  rewrite (Z.mul_comm 256), Z.rem_mul_r by lia. lia.
Qed.

Lemma from_be_to_be_small n v :
  0 <= v < 256 ^ Z.of_nat n -> from_be (to_be n v) = v.
Proof. intros. rewrite from_be_to_be. by apply Z.mod_small. Qed.

Lemma from_be_bound l :
  Forall is_byte l -> 0 <= from_be l < 256 ^ Z.of_nat (length l).
Proof.
  induction 1 as [|b l Hb _ IH]; [unfold from_be; simpl; lia|].
  rewrite from_be_cons. simpl length.
  rewrite Nat2Z.inj_succ, Z.pow_succ_r by lia. unfold is_byte in Hb. nia.
Qed.

Lemma from_le_to_le n v : from_le (to_le n v) = v mod 256 ^ Z.of_nat n.
Proof. unfold from_le, to_le. by rewrite rev_involutive, from_be_to_be. Qed.

Lemma length_to_le n v : length (to_le n v) = n.
Proof. unfold to_le. by rewrite length_rev, length_to_be. Qed.

(** Encoding looks at the low bytes only. *)
Lemma to_be_add_high b r (n k : nat) :
  (k <= n)%nat -> to_be k (b * 256 ^ Z.of_nat n + r) = to_be k r.
Proof.
  induction k as [|k IHk]; intros Hle; [done|]. simpl. f_equal; [|apply IHk; lia].
  replace (Z.of_nat n) with (Z.of_nat (n - k - 1) + 1 + Z.of_nat k) by lia.
  rewrite !Z.pow_add_r, Z.mul_assoc, Z.div_add_l by lia.
  rewrite Z.add_comm, Z.mul_assoc. by rewrite Z.mod_add by lia.
Qed.

Lemma to_be_from_be l :
  Forall is_byte l -> to_be (length l) (from_be l) = l.
Proof.
  induction 1 as [|b l Hb Hl IH]; [done|]. unfold is_byte in Hb.
  pose proof (from_be_bound l Hl) as Hr. simpl length. simpl to_be.
  rewrite from_be_cons, to_be_add_high, IH by lia. f_equal.
  rewrite Z.div_add_l, (Z.div_small (from_be l)), Z.add_0_r by lia.
  by apply Z.mod_small.
Qed.

Lemma wrap_small w x : 0 <= x < 2 ^ w -> wrap w x = x.
Proof. apply Z.mod_small. Qed.

Lemma wrap_bound w x : 0 <= w -> 0 <= wrap w x < 2 ^ w.
Proof. intros. apply Z.mod_pos_bound. lia. Qed.

(** A 64-bit increment below the maximum does not wrap. *)
Lemma wrap64_succ x : 0 <= x < U64_MAX -> wrap 64 (x + 1) = x + 1.
Proof. intros. apply wrap_small. change (2 ^ 64) with (U64_MAX + 1). lia. Qed.

#[export] Hint Rewrite length_to_be length_to_le @length_app : etr_rw.
#[export] Hint Resolve to_be_bytes : etr.

(** ** Lemmas on lists *)

(** The total length of a list of buffers, [iter().map(len).sum()]. *)
Definition total_len {A} (l : list (list A)) : Z :=
  Z.of_nat (length (concat l)).

Lemma total_len_cons {A} (x : list A) l :
  total_len (x :: l) = Z.of_nat (length x) + total_len l.
Proof. unfold total_len. simpl. rewrite length_app. lia. Qed.

Lemma total_len_app {A} (l1 l2 : list (list A)) :
  total_len (l1 ++ l2) = total_len l1 + total_len l2.
Proof. unfold total_len. rewrite concat_app, length_app. lia. Qed.

Lemma total_len_nonneg {A} (l : list (list A)) : 0 <= total_len l.
Proof. unfold total_len. lia. Qed.

(** [l] is a subsequence of [k]: the elements of [l] occur in [k] in order. *)
Lemma sublist_app_insert {A} (a b c : list A) : (a ++ b) `sublist_of` (a ++ c ++ b).
Proof. apply sublist_app; [done|]. by apply sublist_inserts_l. Qed.

Lemma sublist_Forall {A} (P : A -> Prop) (l k : list A) :
  l `sublist_of` k -> Forall P k -> Forall P l.
Proof.
  induction 1 as [|x l k _ IH|x l k _ IH]; intros Hk; [done|..]; apply Forall_cons in Hk as [? ?]; auto.
Qed.

Lemma list_filter_all {A} (P : A -> Prop) `{!forall x, Decision (P x)} (l : list A) :
  (forall x, x ∈ l -> P x) -> filter P l = l.
Proof.
  induction l as [|x l IH]; intros Hall; [done|].
  rewrite filter_cons_True by (apply Hall; by left). f_equal. apply IH.
  intros y Hy. apply Hall. by right.
Qed.

Lemma list_filter_none {A} (P : A -> Prop) `{!forall x, Decision (P x)} (l : list A) :
  (forall x, x ∈ l -> ~ P x) -> filter P l = [].
Proof.
  induction l as [|x l IH]; intros Hall; [done|].
  rewrite filter_cons_False by (apply Hall; by left). apply IH.
  intros y Hy. apply Hall. by right.
Qed.

#[global] Opaque to_be from_be.
