(* ===== verification/Text.v ===== *)
(** Rust's [str], as the program uses it.

    A [str] is the list of its Unicode scalar values; [utf8] gives the bytes
    that [str::len] and byte slicing see.  The functions below are the standard
    library operations the program calls ([strip_prefix], [split], [trim],
    [lines], integer parsing and printing, ...), with their edge cases. *)
From S2P Require Import Prelude.
From Stdlib Require Import Ascii String.

Open Scope Z_scope.
Open Scope list_scope.

Abbreviation char := Z (only parsing).
Abbreviation str := (list Z) (only parsing).

(** ** Literals *)

(** Decode the UTF-8 bytes of a source literal; the literals of the program are
    well formed, so a malformed tail (which does not occur) is dropped. *)
Fixpoint utf8_decode (bs : list Z) : str :=
  match bs with
  | [] => []
  | b0 :: r0 =>
    if b0 <? 128 then b0 :: utf8_decode r0
    else match r0 with
    | [] => []
    | b1 :: r1 =>
      if b0 <? 224 then (b0 - 192) * 64 + (b1 - 128) :: utf8_decode r1
      else match r1 with
      | [] => []
      | b2 :: r2 =>
        if b0 <? 240 then
          (b0 - 224) * 4096 + (b1 - 128) * 64 + (b2 - 128) :: utf8_decode r2
        else match r2 with
        | [] => []
        | b3 :: r3 =>
          (b0 - 240) * 262144 + (b1 - 128) * 4096 + (b2 - 128) * 64 + (b3 - 128)
            :: utf8_decode r3
        end
      end
    end
  end.

Definition lit (s : string) : str :=
  utf8_decode (map (fun a => Z.of_N (N_of_ascii a)) (list_ascii_of_string s)).

(** A literal of the source that holds double quotes, written with backquotes. *)
Definition qlit (s : string) : str :=
  map (fun c => if c =? 96 then 34 else c) (lit s).

Definition LF : char := 10.
Definition CR : char := 13.
Definition NUL : char := 0.
Definition SPACE : char := 32.
Definition SLASH : char := 47.
Definition COLON : char := 58.
Definition DOT : char := 46.
Definition EQUALS : char := 61.
Definition TILDE : char := 126.
Definition SQUOTE : char := 39.
Definition BACKSLASH : char := 92.
Definition TAB : char := 9.
Definition LBRACKET : char := 91.
Definition RBRACKET : char := 93.

(** ** Bytes of a string *)

(** [char::len_utf8]. *)
Definition len_utf8 (c : char) : Z :=
  if c <? 128 then 1 else if c <? 2048 then 2 else if c <? 65536 then 3 else 4.

(** [char::encode_utf8]. *)
Definition encode_utf8 (c : char) : list u8 :=
  if c <? 128 then [c]
  else if c <? 2048 then [192 + c / 64; 128 + c mod 64]
  else if c <? 65536 then [224 + c / 4096; 128 + c / 64 mod 64; 128 + c mod 64]
  else [240 + c / 262144; 128 + c / 4096 mod 64; 128 + c / 64 mod 64; 128 + c mod 64].

(** [str::as_bytes]. *)
Definition as_bytes (s : str) : list u8 := s ≫= encode_utf8.

(** [str::len]: bytes, not characters. *)
Definition str_len (s : str) : Z := foldr (fun c n => len_utf8 c + n) 0 s.

(** Literals in the files that use this one. *)
Abbreviation string := String.string (only parsing).
Export StringSyntax.
Delimit Scope string_scope with string.
#[global] Arguments lit _%_string.
#[global] Arguments qlit _%_string.

(** ** Characters *)

Definition is_digit (c : char) : bool := (48 <=? c) && (c <=? 57).
Definition is_upper (c : char) : bool := (65 <=? c) && (c <=? 90).
Definition is_lower (c : char) : bool := (97 <=? c) && (c <=? 122).

(** [u8::is_ascii_alphanumeric]. *)
Definition is_ascii_alphanumeric (c : char) : bool :=
  is_digit c || is_upper c || is_lower c.

(** [char::to_ascii_lowercase]. *)
Definition to_ascii_lower (c : char) : char := if is_upper c then c + 32 else c.

Definition to_ascii_lowercase (s : str) : str := map to_ascii_lower s.

(** [char::is_whitespace]: the Unicode property White_Space. *)
Definition is_whitespace (c : char) : bool :=
  ((9 <=? c) && (c <=? 13)) || (c =? 32) || (c =? 133) || (c =? 160)
  || (c =? 5760) || ((8192 <=? c) && (c <=? 8202)) || (c =? 8232) || (c =? 8233)
  || (c =? 8239) || (c =? 8287) || (c =? 12288).

(** ** Comparison and search *)

Definition str_eqb (a b : str) : bool := bool_decide (a = b).

(** [str::eq_ignore_ascii_case]. *)
Definition eq_ignore_ascii_case (a b : str) : bool :=
  str_eqb (to_ascii_lowercase a) (to_ascii_lowercase b).

(** [str::strip_prefix], [starts_with], [strip_suffix]. *)
Fixpoint strip_prefix (p s : str) : option str :=
  match p, s with
  | [], _ => Some s
  | a :: p', b :: s' => if a =? b then strip_prefix p' s' else None
  | _ :: _, [] => None
  end.

Definition starts_with (p s : str) : bool :=
  match strip_prefix p s with Some _ => true | None => false end.

Definition strip_suffix (p s : str) : option str :=
  reverse <$> strip_prefix (reverse p) (reverse s).

(** [s.contains(c)] and [s.contains([c1, c2, ...])]. *)
Definition contains_char (c : char) (s : str) : bool := existsb (Z.eqb c) s.
Definition contains_any (cs : list char) (s : str) : bool :=
  existsb (fun c => existsb (Z.eqb c) cs) s.

(** [s.split(c)]: one piece more than there are separators. *)
Fixpoint split_on (c : char) (s : str) : list str :=
  match s with
  | [] => [[]]
  | x :: r =>
    if x =? c then [] :: split_on c r
    else match split_on c r with
         | [] => [[x]]
         | p :: ps => (x :: p) :: ps
         end
  end.

(** [s.split_once(c)] and [s.find(c)] followed by slicing. *)
Fixpoint split_once (c : char) (s : str) : option (str * str) :=
  match s with
  | [] => None
  | x :: r =>
    if x =? c then Some ([], r)
    else match split_once c r with
         | Some (a, b) => Some (x :: a, b)
         | None => None
         end
  end.

(** [&s[s.rfind(c)? + 1..]]: what follows the last separator. *)
Fixpoint after_last (c : char) (s : str) : option str :=
  match s with
  | [] => None
  | x :: r =>
    match after_last c r with
    | Some t => Some t
    | None => if x =? c then Some r else None
    end
  end.

(** ** Trimming and lines *)

Fixpoint trim_start (s : str) : str :=
  match s with
  | [] => []
  | c :: r => if is_whitespace c then trim_start r else s
  end.

Definition trim_end (s : str) : str := reverse (trim_start (reverse s)).

Definition trim (s : str) : str := trim_end (trim_start s).

(** [str::split_whitespace]: maximal runs of non-white characters. *)
Fixpoint split_whitespace_aux (cur : str) (s : str) : list str :=
  match s with
  | [] => match cur with [] => [] | _ => [reverse cur] end
  | c :: r =>
    if is_whitespace c
    then match cur with
         | [] => split_whitespace_aux [] r
         | _ => reverse cur :: split_whitespace_aux [] r
         end
    else split_whitespace_aux (c :: cur) r
  end.

Definition split_whitespace (s : str) : list str := split_whitespace_aux [] s.

(** [str::lines]: split after each line feed; a line feed, and a carriage return
    before it, are dropped; a final piece without line feed keeps its carriage
    return; there is no empty final piece. *)
Definition strip_cr (s : str) : str :=
  match strip_suffix [CR] s with Some t => t | None => s end.

Fixpoint lines_aux (cur : str) (s : str) : list str :=
  match s with
  | [] => match cur with [] => [] | _ => [reverse cur] end
  | c :: r =>
    if c =? LF then strip_cr (reverse cur) :: lines_aux [] r
    else lines_aux (c :: cur) r
  end.

Definition lines (s : str) : list str := lines_aux [] s.

(** The lines, each followed by a line feed. *)
Definition unlines (ls : list str) : str := ls ≫= (fun l => l ++ [LF]).

(** [v.join(sep)]. *)
Fixpoint join (sep : str) (v : list str) : str :=
  match v with
  | [] => []
  | [x] => x
  | x :: r => x ++ sep ++ join sep r
  end.

(** ** Integers as text *)

Definition digit_val (c : char) : option Z :=
  if is_digit c then Some (c - 48) else None.

Fixpoint parse_digits (max acc : Z) (s : str) : option Z :=
  match s with
  | [] => Some acc
  | c :: r =>
    match digit_val c with
    | None => None
    | Some d =>
      if max <? acc * 10 + d then None else parse_digits max (acc * 10 + d) r
    end
  end.

(** [s.parse::<uN>()], for [max = uN::MAX]: an optional [+], then at least one
    digit, no overflow. *)
Definition parse_uint (max : Z) (s : str) : option Z :=
  match s with
  | [] => None
  | c :: r =>
    if c =? 43
    then match r with [] => None | _ => parse_digits max 0 r end
    else parse_digits max 0 s
  end.

(** [n.to_string()]: decimal digits, most significant first.  [fuel] bounds the
    digit count; [dec] takes the bit length, which is at least that. *)
Fixpoint dec_aux (fuel : nat) (n : Z) (acc : str) : str :=
  match fuel with
  | O => acc
  | S k =>
    if n <? 10 then 48 + n :: acc
    else dec_aux k (n / 10) (48 + n mod 10 :: acc)
  end.

Definition dec (n : Z) : str := dec_aux (Z.to_nat (Z.log2 n + 1)) n [].

(** [format!("{b:02x}")] of a byte. *)
Definition hex_digit (n : Z) : char := if n <? 10 then 48 + n else 87 + n.
Definition hex2 (b : u8) : str := [hex_digit (b / 16); hex_digit (b mod 16)].

(** [char::to_digit(16)]. *)
Definition hex_val (c : char) : option Z :=
  if is_digit c then Some (c - 48)
  else if (97 <=? c) && (c <=? 102) then Some (c - 87)
  else if (65 <=? c) && (c <=? 70) then Some (c - 55)
  else None.

(** [u8::from_str_radix(s, 16)] on a slice of at most two bytes (which cannot
    overflow): a sign followed by a digit is accepted. *)
Definition u8_from_hex (s : str) : option Z :=
  match s with
  | [c] => hex_val c
  | [c1; c2] =>
    if c1 =? 43 then hex_val c2
    else match hex_val c1, hex_val c2 with
         | Some a, Some b => Some (a * 16 + b)
         | _, _ => None
         end
  | _ => None
  end.

(** ** Lemmas *)

Lemma strip_prefix_Some p s t : strip_prefix p s = Some t <-> s = p ++ t.
Proof.
  revert s. induction p as [|a p IH]; intros [|b s]; simpl.
  - split; congruence.
  - split; congruence.
  - done.
  - destruct (Z.eqb_spec a b) as [->|Hne]; [rewrite IH|]; split; congruence.
Qed.

Lemma strip_prefix_app p t : strip_prefix p (p ++ t) = Some t.
Proof. by apply strip_prefix_Some. Qed.

Lemma strip_prefix_None p s : strip_prefix p s = None <-> ~ exists t, s = p ++ t.
Proof.
  destruct (strip_prefix p s) as [t|] eqn:H; split; try done.
  - apply strip_prefix_Some in H. intros Hn. destruct Hn. by exists t.
  - intros _ [t ->]. by rewrite strip_prefix_app in H.
Qed.

Lemma strip_suffix_Some p s t : strip_suffix p s = Some t <-> s = t ++ p.
Proof.
  unfold strip_suffix. rewrite fmap_Some. setoid_rewrite strip_prefix_Some. split.
  - intros (u & Hs & ->). rewrite <- (reverse_involutive s), Hs.
    by rewrite reverse_app, reverse_involutive.
  - intros ->. exists (reverse t). by rewrite reverse_app, reverse_involutive.
Qed.

Lemma strip_suffix_app p t : strip_suffix p (t ++ p) = Some t.
Proof. by apply strip_suffix_Some. Qed.

Lemma strip_suffix_None p s : strip_suffix p s = None <-> ~ exists t, s = t ++ p.
Proof.
  destruct (strip_suffix p s) as [t|] eqn:H; split; try done.
  - apply strip_suffix_Some in H. intros Hn. destruct Hn. by exists t.
  - intros _ [t ->]. by rewrite strip_suffix_app in H.
Qed.

Lemma starts_with_spec p s : starts_with p s = true <-> exists t, s = p ++ t.
Proof.
  unfold starts_with. destruct (strip_prefix p s) as [t|] eqn:H; split; try done.
  - intros _. exists t. by apply strip_prefix_Some.
  - intros [t ->]. by rewrite strip_prefix_app in H.
Qed.

Lemma str_eqb_spec a b : str_eqb a b = true <-> a = b.
Proof. apply bool_decide_eq_true. Qed.

Lemma contains_char_spec c s : contains_char c s = true <-> c ∈ s.
Proof.
  unfold contains_char. rewrite existsb_exists. setoid_rewrite <- list_elem_of_In.
  setoid_rewrite Z.eqb_eq. split; [by intros (? & ? & ->)|by exists c].
Qed.

Lemma contains_any_spec cs s :
  contains_any cs s = true <-> exists c, c ∈ s /\ c ∈ cs.
Proof.
  unfold contains_any. rewrite existsb_exists. setoid_rewrite <- list_elem_of_In.
  split; intros (c & Hc & Hcs); exists c; split; auto; by apply contains_char_spec.
Qed.

Lemma contains_any_false cs s :
  contains_any cs s = false <-> forall c, c ∈ s -> c ∉ cs.
Proof.
  rewrite <- not_true_iff_false, contains_any_spec. split.
  - intros H c Hc Hcs. apply H. by exists c.
  - intros H (c & Hc & Hcs). by apply (H c).
Qed.

(** *** Splitting *)

Lemma split_on_no c s : c ∉ s -> split_on c s = [s].
Proof.
  induction s as [|x s IH]; simpl; [done|]. rewrite not_elem_of_cons. intros [Hx Hs].
  destruct (Z.eqb_spec x c); [done|]. by rewrite IH.
Qed.

Lemma split_on_nonempty c s : split_on c s <> [].
Proof. induction s as [|x s IH]; simpl; repeat case_match; done. Qed.

Lemma split_on_sep c a b :
  c ∉ a -> split_on c (a ++ c :: b) = a :: split_on c b.
Proof.
  induction a as [|x a IH]; simpl; [by rewrite Z.eqb_refl|].
  rewrite not_elem_of_cons. intros [Hx Ha].
  destruct (Z.eqb_spec x c); [done|]. by rewrite IH.
Qed.

Lemma split_once_Some c s a b :
  split_once c s = Some (a, b) <-> s = a ++ c :: b /\ c ∉ a.
Proof.
  revert a b. induction s as [|x s IH]; intros a b; simpl.
  { split; [done|]. intros [H _]. by destruct a. }
  destruct (Z.eqb_spec x c) as [->|Hne].
  - split; [intros; simplify_eq; split; [done|set_solver]|].
    intros [H Hn]. destruct a as [|y a]; simplify_eq/=; [done|]. set_solver.
  - split.
    + destruct (split_once c s) as [[a' b']|] eqn:Hs; [|done].
      intros; simplify_eq. destruct (IH a' b) as [[-> Hn] _]; [done|].
      split; [done|]. set_solver.
    + intros [H Hn]. destruct a as [|y a]; simplify_eq/=.
      destruct (IH a b) as [_ ->]; [done|]. split; [done|]. set_solver.
Qed.

Lemma split_once_None c s : split_once c s = None <-> c ∉ s.
Proof.
  split.
  - intros Hs Hc. apply list_elem_of_split in Hc as (a & b & ->).
    induction a as [|x a IH]; simpl in Hs; [by rewrite Z.eqb_refl in Hs|].
    case_match; [done|]. destruct (split_once c (a ++ c :: b)) as [[]|]; [done|]. by apply IH.
  - intros Hc. destruct (split_once c s) as [[a b]|] eqn:Hs; [|done].
    apply split_once_Some in Hs as [-> _]. destruct Hc. by apply elem_of_app; right; left.
Qed.

Lemma after_last_app c a b :
  c ∉ b -> after_last c (a ++ c :: b) = Some b.
Proof.
  intros Hb. induction a as [|x a IH]; simpl; [|by rewrite IH].
  assert (after_last c b = None) as ->; [|by rewrite Z.eqb_refl].
  clear -Hb. induction b as [|y b IH]; simpl; [done|].
  apply not_elem_of_cons in Hb as [? ?]. rewrite IH by done.
  destruct (Z.eqb_spec y c); done.
Qed.

(** *** Decimal numbers *)

Lemma dec_aux_digits k n acc :
  0 <= n -> Forall (fun c => is_digit c = true) acc ->
  Forall (fun c => is_digit c = true) (dec_aux k n acc).
Proof.
  revert n acc. induction k as [|k IH]; intros n acc Hn Ha; simpl; [done|].
  destruct (Z.ltb_spec n 10).
  - constructor; [|done]. unfold is_digit. lia.
  - apply IH; [apply Z.div_pos; lia|]. constructor; [|done].
    pose proof (Z.mod_pos_bound n 10). unfold is_digit. lia.
Qed.

Lemma dec_digits n : 0 <= n -> Forall (fun c => is_digit c = true) (dec n).
Proof. intros. by apply dec_aux_digits. Qed.

Lemma dec_aux_nonempty k n acc : acc <> [] -> dec_aux k n acc <> [].
Proof.
  revert n acc. induction k as [|k IH]; intros n acc Ha; simpl; [done|].
  case_match; [done|]. by apply IH.
Qed.

Lemma dec_nonempty n : dec n <> [].
Proof.
  unfold dec. replace (Z.to_nat (Z.log2 n + 1)) with (S (Z.to_nat (Z.log2 n))).
  - simpl. case_match; [done|]. by apply dec_aux_nonempty.
  - pose proof (Z.log2_nonneg n). lia.
Qed.

Lemma dec_elem c n : 0 <= n -> c ∈ dec n -> is_digit c = true.
Proof. intros Hn Hc. pose proof (dec_digits n Hn) as H. rewrite Forall_forall in H. eauto. Qed.

Lemma parse_dec_aux max k n acc :
  0 <= n <= max -> n < 10 ^ Z.of_nat k -> (0 < k)%nat ->
  parse_digits max 0 (dec_aux k n acc) = parse_digits max n acc.
Proof.
  revert n acc. induction k as [|k IH]; intros n acc Hn Hk H0; [lia|].
  cbn [dec_aux]. destruct (Z.ltb_spec n 10).
  - cbn [parse_digits]. unfold digit_val, is_digit.
    replace ((48 <=? 48 + n) && (48 + n <=? 57)) with true by lia.
    replace (0 * 10 + (48 + n - 48)) with n by lia.
    by destruct (Z.ltb_spec max n); [lia|].
  - pose proof (Z.mod_pos_bound n 10). pose proof (Z.div_mod n 10).
    rewrite Nat2Z.inj_succ, Z.pow_succ_r in Hk by lia.
    rewrite IH.
    + cbn [parse_digits]. unfold digit_val, is_digit.
      replace ((48 <=? 48 + n mod 10) && (48 + n mod 10 <=? 57)) with true by lia.
      replace (n / 10 * 10 + (48 + n mod 10 - 48)) with n by lia.
      by destruct (Z.ltb_spec max n); [lia|].
    + split; [apply Z.div_pos; lia|]. apply Z.div_le_upper_bound; lia.
    + apply Z.div_lt_upper_bound; lia.
    + destruct k; [|lia]. simpl in Hk. lia.
Qed.

(** Printing then parsing gives the number back. *)
Lemma parse_uint_dec max n : 0 <= n <= max -> parse_uint max (dec n) = Some n.
Proof.
  intros Hn. pose proof (dec_nonempty n) as Hne. pose proof (dec_digits n) as Hd.
  unfold parse_uint. destruct (dec n) as [|c r] eqn:E; [done|].
  assert ((c =? 43) = false) as ->.
  { specialize (Hd ltac:(lia)). apply Forall_cons in Hd as [Hc _].
    unfold is_digit in Hc. lia. }
  rewrite <- E. unfold dec. pose proof (Z.log2_nonneg n).
  rewrite parse_dec_aux; [done|lia| |lia].
  destruct (decide (n = 0)) as [->|]; [done|].
  rewrite Z2Nat.id by lia. apply Z.lt_le_trans with (2 ^ (Z.log2 n + 1)).
  - pose proof (Z.log2_spec n). rewrite Z.add_1_r. lia.
  - apply Z.pow_le_mono_l. lia.
Qed.

Lemma parse_digits_bound max acc s n :
  0 <= acc <= max -> parse_digits max acc s = Some n -> 0 <= n <= max.
Proof.
  revert acc. induction s as [|c s IH]; intros acc Ha; simpl; [congruence|].
  destruct (digit_val c) as [d|] eqn:Ed; [|done].
  destruct (Z.ltb_spec max (acc * 10 + d)); [done|]. apply IH.
  unfold digit_val, is_digit in Ed. case_match; simplify_eq. lia.
Qed.

Lemma parse_uint_bound max s n :
  0 <= max -> parse_uint max s = Some n -> 0 <= n <= max.
Proof.
  intros Hm. unfold parse_uint. repeat case_match; try done; by apply parse_digits_bound.
Qed.

(** A parsed number is written with digits and at most a leading plus. *)
Lemma parse_digits_elem max acc s n c :
  parse_digits max acc s = Some n -> c ∈ s -> is_digit c = true.
Proof.
  revert acc. induction s as [|x s IH]; intros acc; simpl; [set_solver|].
  unfold digit_val. destruct (is_digit x) eqn:Ex; [|done].
  case_match; [done|]. intros H0 [->|Hc]%elem_of_cons; eauto.
Qed.

Lemma parse_uint_elem max s n c :
  parse_uint max s = Some n -> c ∈ s -> is_digit c = true \/ c = 43.
Proof.
  unfold parse_uint. destruct s as [|x s]; [done|].
  destruct (Z.eqb_spec x 43) as [->|].
  - destruct s; [done|]. intros H [->|Hc]%elem_of_cons; [by right|].
    left. by eapply parse_digits_elem.
  - intros. left. by eapply parse_digits_elem.
Qed.

(** *** Hexadecimal *)

Lemma hex_val_digit n : 0 <= n < 16 -> hex_val (hex_digit n) = Some n.
Proof.
  intros. unfold hex_digit, hex_val, is_digit.
  destruct (Z.ltb_spec n 10); zreflect; f_equal; lia.
Qed.

Lemma hex_digit_not_plus n : 0 <= n < 16 -> (hex_digit n =? 43) = false.
Proof. unfold hex_digit. intros. case_match; lia. Qed.

Lemma u8_from_hex2 b : is_byte b -> u8_from_hex (hex2 b) = Some b.
Proof.
  unfold is_byte. intros Hb. unfold hex2, u8_from_hex.
  assert (0 <= b / 16 < 16) by (split; [apply Z.div_pos|apply Z.div_lt_upper_bound]; lia).
  pose proof (Z.mod_pos_bound b 16). pose proof (Z.div_mod b 16).
  rewrite hex_digit_not_plus, !hex_val_digit by lia. f_equal. lia.
Qed.

(** *** Lines and trimming *)

Lemma lines_aux_app cur l r :
  LF ∉ l -> lines_aux cur (l ++ LF :: r) = strip_cr (reverse cur ++ l) :: lines_aux [] r.
Proof.
  revert cur. induction l as [|c l IH]; intros cur Hl; [simpl; by rewrite app_nil_r|].
  apply not_elem_of_cons in Hl as [Hc Hl]. cbn [app lines_aux].
  rewrite (proj2 (Z.eqb_neq _ _)) by done.
  rewrite IH by done. by rewrite reverse_cons, <- app_assoc.
Qed.

Lemma strip_cr_no l : CR ∉ l -> strip_cr l = l.
Proof.
  intros Hl. unfold strip_cr. destruct (strip_suffix [CR] l) as [t|] eqn:E; [|done].
  apply strip_suffix_Some in E as ->. set_solver.
Qed.

Lemma lines_unlines ls :
  Forall (fun l => (LF ∉ l) /\ (CR ∉ l)) ls -> lines (unlines ls) = ls.
Proof.
  unfold lines, unlines. induction 1 as [|l ls [Hlf Hcr] Hls IH]; [done|].
  cbn [mbind list_bind]. rewrite <- app_assoc. cbn [app].
  rewrite lines_aux_app by done. simpl. by rewrite strip_cr_no, IH.
Qed.

Lemma trim_end_lf s : trim_end (s ++ [LF]) = trim_end s.
Proof. unfold trim_end. by rewrite reverse_app. Qed.

Lemma trim_end_id s d : is_whitespace d = false -> trim_end (s ++ [d]) = s ++ [d].
Proof.
  intros Hd. unfold trim_end. rewrite reverse_app.
  change (reverse [d] ++ reverse s) with (d :: reverse s). simpl. rewrite Hd.
  by rewrite reverse_cons, reverse_involutive.
Qed.

Lemma trim_line c s d :
  is_whitespace c = false -> is_whitespace d = false ->
  trim ((c :: s) ++ [d] ++ [LF]) = (c :: s) ++ [d].
Proof.
  intros Hc Hd. unfold trim. cbn [app trim_start]. rewrite Hc.
  change (c :: s ++ [d; LF]) with ((c :: s) ++ [d] ++ [LF]).
  by rewrite app_assoc, trim_end_lf, trim_end_id.
Qed.
