(* ===== verification/Utf8.v ===== *)
(** Validation of UTF-8: [str::from_utf8], which a protobuf decoder applies to
    every string field.  [Text] has the encoder. *)
From S2P Require Import Prelude Text.

Open Scope Z_scope.
Open Scope list_scope.

(** [char]: a Unicode scalar value. *)
Definition is_scalar (c : char) : bool :=
  ((0 <=? c) && (c <? 55296)) || ((57344 <=? c) && (c <? 1114112)).

Definition is_text (s : str) : Prop := Forall (fun c => is_scalar c = true) s.

#[export] Instance is_text_dec s : Decision (is_text s).
Proof. unfold is_text. apply _. Defined.

(** A decoded character is kept when it is a scalar value and the bytes are its
    (shortest) encoding. *)
Definition push_char (c : char) (bytes : list u8) (rest : option str) : option str :=
  if is_scalar c && bool_decide (encode_utf8 c = bytes) then cons c <$> rest else None.

Fixpoint from_utf8 (bs : list u8) : option str :=
  match bs with
  | [] => Some []
  | b0 :: r0 =>
    if b0 <? 128 then push_char b0 [b0] (from_utf8 r0)
    else match r0 with
    | [] => None
    | b1 :: r1 =>
      if b0 <? 224 then push_char ((b0 - 192) * 64 + (b1 - 128)) [b0; b1] (from_utf8 r1)
      else match r1 with
      | [] => None
      | b2 :: r2 =>
        if b0 <? 240 then
          push_char ((b0 - 224) * 4096 + (b1 - 128) * 64 + (b2 - 128)) [b0; b1; b2] (from_utf8 r2)
        else match r2 with
        | [] => None
        | b3 :: r3 =>
          push_char ((b0 - 240) * 262144 + (b1 - 128) * 4096 + (b2 - 128) * 64 + (b3 - 128))
            [b0; b1; b2; b3] (from_utf8 r3)
        end
      end
    end
  end.

Lemma push_char_Some c bytes rest s :
  push_char c bytes rest = Some s <->
  exists s', s = c :: s' /\ rest = Some s' /\ is_scalar c = true /\ bytes = encode_utf8 c.
Proof.
  unfold push_char. destruct (is_scalar c) eqn:Ec; cbn [andb]; [|naive_solver].
  case_bool_decide as Eb; [|naive_solver]. rewrite fmap_Some. naive_solver.
Qed.

Lemma scalar_bounds c : is_scalar c = true -> 0 <= c < 1114112.
Proof. unfold is_scalar. intros H. zreflect; try done; lia. Qed.

Lemma encode_utf8_bytes c : is_scalar c = true -> Forall is_byte (encode_utf8 c).
Proof.
  intros Hc%scalar_bounds. unfold encode_utf8, is_byte.
  zreflect; repeat constructor; Z.to_euclidean_division_equations; lia.
Qed.

Lemma from_utf8_encode c bs :
  is_scalar c = true -> from_utf8 (encode_utf8 c ++ bs) = cons c <$> from_utf8 bs.
Proof.
  intros Hs. pose proof (scalar_bounds c Hs) as Hb.
  assert (forall d e r, d = c -> e = encode_utf8 c -> push_char d e r = cons c <$> r) as Hpush.
  { intros d e r -> ->. unfold push_char. by rewrite Hs, bool_decide_eq_true_2. }
  pose proof (eq_refl (encode_utf8 c)) as He. unfold encode_utf8 at 1 in He.
  pose proof (Z.div_mod c 64). pose proof (Z.mod_pos_bound c 64).
  unfold encode_utf8 at 1. destruct (Z.ltb_spec c 128); [|destruct (Z.ltb_spec c 2048); [|destruct (Z.ltb_spec c 65536)]];
    cbn [app from_utf8].
  - rewrite (proj2 (Z.ltb_lt _ _)) by lia. by apply Hpush.
  - rewrite (proj2 (Z.ltb_ge _ _)), (proj2 (Z.ltb_lt _ _)) by (Z.to_euclidean_division_equations; lia).
    apply Hpush; [lia|done].
  - rewrite !(proj2 (Z.ltb_ge _ _)), (proj2 (Z.ltb_lt _ _)) by (Z.to_euclidean_division_equations; lia).
    apply Hpush; [Z.to_euclidean_division_equations; lia|done].
  - rewrite !(proj2 (Z.ltb_ge _ _)) by (Z.to_euclidean_division_equations; lia).
    apply Hpush; [Z.to_euclidean_division_equations; lia|done].
Qed.

(** Every text is read back from its bytes. *)
Lemma from_utf8_as_bytes s : is_text s -> from_utf8 (as_bytes s) = Some s.
Proof.
  unfold as_bytes. induction 1 as [|c s Hc _ IH]; [done|]. cbn [mbind list_bind].
  by rewrite from_utf8_encode, IH.
Qed.

Lemma as_bytes_bytes s : is_text s -> Forall is_byte (as_bytes s).
Proof.
  unfold as_bytes. induction 1 as [|c s Hc _ IH]; [constructor|]. cbn [mbind list_bind].
  apply Forall_app. split; [by apply encode_utf8_bytes|done].
Qed.

(** What is accepted is the encoding of a text and of no other. *)
Lemma from_utf8_Some bs s : from_utf8 bs = Some s -> is_text s /\ bs = as_bytes s.
Proof.
  enough (forall n bs s, (length bs <= n)%nat -> from_utf8 bs = Some s -> is_text s /\ bs = as_bytes s) as H
    by (by apply (H (length bs))).
  clear bs s. intros n. induction n as [|n IH]; intros [|b0 r0] s Hn Hs; cbn in Hn, Hs;
    [simplify_eq; by split; [constructor|]|lia|simplify_eq; by split; [constructor|]|].
  assert (forall c bytes r, push_char c bytes (from_utf8 r) = Some s -> (length r <= n)%nat ->
    is_text s /\ bytes ++ r = as_bytes s) as Hp.
  { intros c bytes r (s' & -> & Hr & Hc & ->)%push_char_Some Hl. destruct (IH r s' Hl Hr) as [Ht ->].
    split; [by constructor|done]. }
  destruct (b0 <? 128); [apply (Hp _ _ _ Hs); lia|]. destruct r0 as [|b1 r1]; [done|]. cbn in Hn.
  destruct (b0 <? 224); [apply (Hp _ _ _ Hs); lia|]. destruct r1 as [|b2 r2]; [done|]. cbn in Hn.
  destruct (b0 <? 240); [apply (Hp _ _ _ Hs); lia|]. destruct r2 as [|b3 r3]; [done|]. cbn in Hn.
  apply (Hp _ _ _ Hs). lia.
Qed.
