(* ===== verification/Protocol.v ===== *)
(** The messages of the control and forward streams ([src/protocol/mod.rs]).

    Each protobuf message is a record with the fields of the Rust struct, in its
    order; [Payload] is the oneof inside [Envelope].  Enumeration fields travel
    as [i32], so they are integers here as they are there.  The protobuf byte
    encoding is the [prost] crate's and is a parameter where it is used. *)
From S2P Require Import Prelude Text Utf8.

Open Scope Z_scope.

Inductive StreamType : Type := Terminal | PortForward | X11.

Inductive ForwardProto : Type := Tcp | Udp.

#[export] Instance StreamType_eq_dec : EqDecision StreamType.
Proof. solve_decision. Defined.
#[export] Instance ForwardProto_eq_dec : EqDecision ForwardProto.
Proof. solve_decision. Defined.

(** [t as i32]. *)
Definition StreamType_as_i32 (t : StreamType) : Z :=
  match t with Terminal => 0 | PortForward => 1 | X11 => 2 end.

Definition ForwardProto_as_i32 (p : ForwardProto) : Z :=
  match p with Tcp => 0 | Udp => 1 end.

(** [ForwardProto::try_from(i32)], which the derive of the enumeration gives. *)
Definition ForwardProto_try_from (v : Z) : option ForwardProto :=
  if v =? 0 then Some Tcp else if v =? 1 then Some Udp else None.

Record SessionOpen : Type := mkSessionOpen {
  so_session_id : list u8;
  so_passkey : str;
  so_last_received_seq : gmap Z Z;
  so_reverse_forwards : list str;
  so_gateway_ports : bool;
  so_x11_enabled : bool;
  so_x11_auth_proto : str;
  so_x11_auth_cookie : list u8
}.

Record SessionAccept : Type := mkSessionAccept {
  sa_last_received_seq : gmap Z Z
}.

Record StreamOpen : Type := mkStreamOpen {
  open_stream_id : u32;
  open_stream_type : Z;
  open_remote_host : str;
  open_remote_port : u32;
  open_forward_proto : Z
}.

Record StreamClose : Type := mkStreamClose {
  close_stream_id : u32;
  close_error_code : u32
}.

Record TerminalResize : Type := mkTerminalResize {
  rows : u32;
  cols : u32
}.

Record Heartbeat : Type := mkHeartbeat {
  hb_last_received_seq : gmap Z Z
}.

Record Disconnect : Type := mkDisconnect {}.

Record UdpDatagram : Type := mkUdpDatagram {
  peer_addr : str;
  peer_port : u32;
  dg_data : list u8
}.

Inductive Payload : Type :=
| PStreamOpen (m : StreamOpen)
| PStreamClose (m : StreamClose)
| PTerminalResize (m : TerminalResize)
| PHeartbeat (m : Heartbeat)
| PDisconnect (m : Disconnect)
| PSessionOpen (m : SessionOpen)
| PSessionAccept (m : SessionAccept)
| PUdpDatagram (m : UdpDatagram).

Record Envelope : Type := mkEnvelope { payload : option Payload }.

(** Decidable equality, message by message. *)
#[export] Instance SessionOpen_eq_dec : EqDecision SessionOpen.
Proof. solve_decision. Defined.
#[export] Instance SessionAccept_eq_dec : EqDecision SessionAccept.
Proof. solve_decision. Defined.
#[export] Instance StreamOpen_eq_dec : EqDecision StreamOpen.
Proof. solve_decision. Defined.
#[export] Instance StreamClose_eq_dec : EqDecision StreamClose.
Proof. solve_decision. Defined.
#[export] Instance TerminalResize_eq_dec : EqDecision TerminalResize.
Proof. solve_decision. Defined.
#[export] Instance Heartbeat_eq_dec : EqDecision Heartbeat.
Proof. solve_decision. Defined.
#[export] Instance Disconnect_eq_dec : EqDecision Disconnect.
Proof. solve_decision. Defined.
#[export] Instance UdpDatagram_eq_dec : EqDecision UdpDatagram.
Proof. solve_decision. Defined.
#[export] Instance Payload_eq_dec : EqDecision Payload.
Proof. solve_decision. Defined.
#[export] Instance Envelope_eq_dec : EqDecision Envelope.
Proof. solve_decision. Defined.

Lemma ForwardProto_try_from_as p :
  ForwardProto_try_from (ForwardProto_as_i32 p) = Some p.
Proof. by destruct p. Qed.

Lemma ForwardProto_try_from_Some v p :
  ForwardProto_try_from v = Some p <-> v = ForwardProto_as_i32 p.
Proof.
  unfold ForwardProto_try_from, ForwardProto_as_i32.
  zreflect; destruct p; split; intros; simplify_eq; done || lia.
Qed.

(** ** Types as predicates

    The Rust types of the fields, which bound what a message can hold. *)

Definition is_u16 (x : Z) : Prop := 0 <= x <= U16_MAX.
Definition is_u32 (x : Z) : Prop := 0 <= x <= U32_MAX.
Definition is_u64 (x : Z) : Prop := 0 <= x <= U64_MAX.
Definition is_i32 (x : Z) : Prop := -2147483648 <= x <= 2147483647.

(** [HashMap<u32, u64>]. *)
Definition watermarks_typed (m : gmap Z Z) : Prop := map_Forall (fun id n => is_u32 id /\ is_u64 n) m.

Definition payload_typed (p : Payload) : Prop :=
  match p with
  | PStreamOpen m => is_u32 (open_stream_id m) /\ is_i32 (open_stream_type m) /\ is_text (open_remote_host m) /\ is_u32 (open_remote_port m) /\
                     is_i32 (open_forward_proto m)
  | PStreamClose m => is_u32 (close_stream_id m) /\ is_u32 (close_error_code m)
  | PTerminalResize m => is_u32 (rows m) /\ is_u32 (cols m)
  | PHeartbeat m => watermarks_typed (hb_last_received_seq m)
  | PDisconnect _ => True
  | PSessionOpen m => Forall is_byte (so_session_id m) /\ is_text (so_passkey m) /\
                      watermarks_typed (so_last_received_seq m) /\ Forall is_text (so_reverse_forwards m) /\
                      is_text (so_x11_auth_proto m) /\ Forall is_byte (so_x11_auth_cookie m)
  | PSessionAccept m => watermarks_typed (sa_last_received_seq m)
  | PUdpDatagram m => is_text (peer_addr m) /\ is_u32 (peer_port m) /\ Forall is_byte (dg_data m)
  end.

Definition envelope_typed (e : Envelope) : Prop :=
  match payload e with Some p => payload_typed p | None => True end.

#[export] Instance is_byte_dec b : Decision (is_byte b).
Proof. unfold is_byte. apply _. Defined.

#[export] Instance payload_typed_dec p : Decision (payload_typed p).
Proof. destruct p; cbn; unfold watermarks_typed, is_u32, is_u64, is_i32; apply _. Defined.

#[export] Instance envelope_typed_dec e : Decision (envelope_typed e).
Proof. unfold envelope_typed. destruct (payload e); apply _. Defined.
