(* ===== verification/Wire.v ===== *)
(** The protobuf wire format: numbered fields, whose values are varints, strings of
    bytes of a given length, or four or eight bytes; and the reading of a message
    field by field.  [Proto] has the messages. *)
From S2P Require Import Prelude Protocol.

Open Scope Z_scope.
Open Scope list_scope.

(** ** The wire format *)

(** A varint: seven bits to a byte, lowest first; at most ten bytes. *)
Fixpoint varint_aux (k : nat) (n : Z) : list u8 :=
  match k with
  | O => []
  | S k => if n <? 128 then [n] else (128 + n mod 128) :: varint_aux k (n / 128)
  end.

Definition put_varint (n : u64) : list u8 := varint_aux 10 n.

(** The last of the ten bytes has one bit left. *)
Fixpoint read_varint_aux (k : nat) (bs : list u8) : option (u64 * list u8) :=
  match k, bs with
  | S k, b :: bs =>
    if b <? 128 then
      if (k =? 0)%nat && (2 <=? b) then None else Some (b, bs)
    else '(n, bs) ← read_varint_aux k bs; Some (b - 128 + 128 * n, bs)
  | _, _ => None
  end.

Definition read_varint (bs : list u8) : option (u64 * list u8) := read_varint_aux 10 bs.

Inductive wire_value : Type :=
| WVarint (n : u64)
| WFixed64 (bs : list u8)
| WBytes (bs : list u8)
| WFixed32 (bs : list u8).

(** A field: its number and its value. *)
Abbreviation field := (Z * wire_value)%type (only parsing).

Definition wire_type (w : wire_value) : Z :=
  match w with WVarint _ => 0 | WFixed64 _ => 1 | WBytes _ => 2 | WFixed32 _ => 5 end.

Definition put_wire (w : wire_value) : list u8 :=
  match w with
  | WVarint n => put_varint n
  | WFixed64 bs | WFixed32 bs => bs
  | WBytes bs => put_varint (Z.of_nat (length bs)) ++ bs
  end.

Definition put_field (f : field) : list u8 := put_varint (8 * f.1 + wire_type f.2) ++ put_wire f.2.

Definition put_fields (fs : list field) : list u8 := concat (put_field <$> fs).

(** The first [n] bytes. *)
Definition take_bytes (n : Z) (bs : list u8) : option (list u8 * list u8) :=
  if n <=? Z.of_nat (length bs) then Some (take (Z.to_nat n) bs, drop (Z.to_nat n) bs) else None.

Definition read_wire (wt : Z) (bs : list u8) : option (wire_value * list u8) :=
  if wt =? 0 then '(n, bs) ← read_varint bs; Some (WVarint n, bs)
  else if wt =? 1 then '(v, bs) ← take_bytes 8 bs; Some (WFixed64 v, bs)
  else if wt =? 2 then '(n, bs) ← read_varint bs; '(v, bs) ← take_bytes n bs; Some (WBytes v, bs)
  else if wt =? 5 then '(v, bs) ← take_bytes 4 bs; Some (WFixed32 v, bs)
  else None.

Definition read_field (bs : list u8) : option (field * list u8) :=
  '(key, bs) ← read_varint bs;
  if (U32_MAX <? key) || (key / 8 =? 0) then None
  else '(w, bs) ← read_wire (key mod 8) bs; Some ((key / 8, w), bs).

(** Every field takes a byte, so the number of bytes bounds the number of fields. *)
Fixpoint read_fields_aux (fuel : nat) (bs : list u8) : option (list field) :=
  match bs, fuel with
  | [], _ => Some []
  | _, O => None
  | _, S fuel => '(f, bs) ← read_field bs; fs ← read_fields_aux fuel bs; Some (f :: fs)
  end.

Definition read_fields (bs : list u8) : option (list field) := read_fields_aux (length bs) bs.

Definition get_bytes (w : wire_value) : option (list u8) :=
  match w with WBytes bs => Some bs | _ => None end.

(** ** Merging *)

(** A message is read field by field into the value built so far. *)
Fixpoint merge {A} (step : A -> Z -> wire_value -> option A) (a : A) (fs : list field) : option A :=
  match fs with
  | [] => Some a
  | (t, w) :: fs => a ← step a t w; merge step a fs
  end.

(** A field that is a message itself. *)
Definition sub {A} (step : A -> Z -> wire_value -> option A) (a : A) (w : wire_value) : option A :=
  bs ← get_bytes w; fs ← read_fields bs; merge step a fs.

(** Fields with the default value are left out. *)
Definition opt_field (skip : bool) (f : field) : list field := if skip then [] else [f].

(** ** Reading what was written *)

Lemma read_varint_aux_put k n bs :
  0 <= n < 2 * 128 ^ Z.of_nat k -> read_varint_aux (S k) (varint_aux (S k) n ++ bs) = Some (n, bs).
Proof.
  revert n. induction k as [|k IH]; intros n Hn.
  - cbn [varint_aux]. rewrite (proj2 (Z.ltb_lt _ _)) by lia. cbn [app read_varint_aux].
    rewrite (proj2 (Z.ltb_lt n 128)), (proj2 (Z.leb_gt 2 n)) by lia. done.
  - rewrite Nat2Z.inj_succ, Z.pow_succ_r in Hn by lia. cbn [varint_aux].
    destruct (Z.ltb_spec n 128) as [Hlt|Hge].
    + cbn [app read_varint_aux]. by rewrite (proj2 (Z.ltb_lt n 128)).
    + cbn [app]. change (if n / 128 <? 128 then _ else _) with (varint_aux (S k) (n / 128)).
      cbn [read_varint_aux]. pose proof (Z.mod_pos_bound n 128 eq_refl).
      rewrite (proj2 (Z.ltb_ge _ _)) by lia. change (match _ with [] => None | b :: bs => _ end)
        with (read_varint_aux (S k) (varint_aux (S k) (n / 128) ++ bs)).
      rewrite IH by (split; [apply Z.div_pos; lia|apply Z.div_lt_upper_bound; lia]). cbn [mbind option_bind].
      pose proof (Z.div_mod n 128). do 2 f_equal. lia.
Qed.

Lemma read_varint_put n bs : is_u64 n -> read_varint (put_varint n ++ bs) = Some (n, bs).
Proof.
  unfold is_u64, U64_MAX. intros Hn. apply (read_varint_aux_put 9).
  change (2 * 128 ^ Z.of_nat 9) with 18446744073709551616. lia.
Qed.

Lemma take_bytes_app a b : take_bytes (Z.of_nat (length a)) (a ++ b) = Some (a, b).
Proof.
  unfold take_bytes. rewrite length_app, (proj2 (Z.leb_le _ _)) by lia.
  by rewrite Nat2Z.id, take_app_length, drop_app_length.
Qed.

(** A field that fits. *)
Definition field_ok (f : field) : Prop :=
  1 <= f.1 < 536870912 /\
  match f.2 with
  | WVarint n => is_u64 n
  | WFixed64 bs => length bs = 8%nat
  | WBytes bs => Z.of_nat (length bs) <= U32_MAX
  | WFixed32 bs => length bs = 4%nat
  end.

Lemma read_wire_put w bs :
  match w with
  | WVarint n => is_u64 n
  | WFixed64 v => length v = 8%nat
  | WBytes v => Z.of_nat (length v) <= U32_MAX
  | WFixed32 v => length v = 4%nat
  end -> read_wire (wire_type w) (put_wire w ++ bs) = Some (w, bs).
Proof.
  intros Hw. destruct w as [n|v|v|v]; unfold read_wire; cbn [wire_type put_wire Z.eqb Pos.eqb].
  - by rewrite read_varint_put.
  - replace 8 with (Z.of_nat (length v)) by lia. by rewrite take_bytes_app.
  - rewrite <- app_assoc, read_varint_put by (unfold is_u64, U64_MAX, U32_MAX in *; lia).
    cbn [mbind option_bind]. by rewrite take_bytes_app.
  - replace 4 with (Z.of_nat (length v)) by lia. by rewrite take_bytes_app.
Qed.

Lemma read_field_put f bs : field_ok f -> read_field (put_field f ++ bs) = Some (f, bs).
Proof.
  destruct f as [t w]. intros [Ht Hw]. cbn [fst snd] in *.
  assert (0 <= wire_type w < 8) as Hwt by (by destruct w; cbn).
  unfold read_field, put_field. cbn [fst snd]. rewrite <- app_assoc.
  rewrite read_varint_put by (unfold is_u64, U64_MAX; lia). cbn [mbind option_bind].
  replace ((8 * t + wire_type w) / 8) with t by (Z.to_euclidean_division_equations; lia).
  replace ((8 * t + wire_type w) mod 8) with (wire_type w) by (Z.to_euclidean_division_equations; lia).
  rewrite (proj2 (Z.ltb_ge _ _)), (proj2 (Z.eqb_neq _ _)) by (unfold U32_MAX; lia). cbn [orb].
  by rewrite read_wire_put.
Qed.

Lemma varint_aux_nonempty k n : varint_aux (S k) n <> [].
Proof. cbn. by destruct (n <? 128). Qed.

Lemma length_put_field f : (1 <= length (put_field f))%nat.
Proof.
  unfold put_field, put_varint. rewrite length_app.
  pose proof (varint_aux_nonempty 9 (8 * f.1 + wire_type f.2)) as Hn.
  destruct (varint_aux 10 _); [done|]. cbn. lia.
Qed.

Lemma read_put_fields fs : Forall field_ok fs -> read_fields (put_fields fs) = Some fs.
Proof.
  intros Hok. unfold read_fields.
  enough (forall fuel, (length (put_fields fs) <= fuel)%nat -> read_fields_aux fuel (put_fields fs) = Some fs)
    as H by by apply H.
  induction Hok as [|f fs Hf _ IH]; intros fuel Hl; [by destruct fuel|].
  unfold put_fields in *. rewrite fmap_cons in *. cbn [concat] in *. rewrite length_app in Hl.
  pose proof (length_put_field f) as H1. destruct fuel as [|fuel]; [lia|].
  destruct (put_field f ++ concat (put_field <$> fs)) as [|b bs] eqn:Eb.
  { apply (f_equal length) in Eb. rewrite length_app in Eb. change (length []) with 0%nat in Eb. lia. }
  cbn [read_fields_aux]. rewrite <- Eb, read_field_put by done. cbn [mbind option_bind].
  rewrite IH by lia. done.
Qed.

(** What is inside a field is shorter than the whole. *)
Lemma put_fields_length t bs fs :
  (t, WBytes bs) ∈ fs -> (length bs <= length (put_fields fs))%nat.
Proof.
  unfold put_fields. induction fs as [|f fs IH]; [by intros ?%not_elem_of_nil|].
  rewrite fmap_cons. cbn [concat]. rewrite length_app. intros [<-|Hin]%elem_of_cons.
  - unfold put_field. cbn [fst snd put_wire]. rewrite !length_app. lia.
  - apply IH in Hin. lia.
Qed.

(** The numbers and varints of fields; the lengths follow from that of the whole. *)
Definition field_shape (f : field) : Prop :=
  1 <= f.1 < 536870912 /\ match f.2 with WVarint n => is_u64 n | WBytes _ => True | _ => False end.

Lemma fields_ok fs :
  Forall field_shape fs -> Z.of_nat (length (put_fields fs)) <= U32_MAX -> Forall field_ok fs.
Proof.
  intros Hs Hl. rewrite Forall_forall in *. intros [t w] Hin. destruct (Hs _ Hin) as [Ht Hw].
  split; [done|]. cbn in *. destruct w as [n|?|bs|?]; try done. apply put_fields_length in Hin. lia.
Qed.

(** Reading a message that is a field. *)
Lemma sub_put {A} (step : A -> Z -> wire_value -> option A) a fs :
  Forall field_shape fs -> Z.of_nat (length (put_fields fs)) <= U32_MAX ->
  sub step a (WBytes (put_fields fs)) = merge step a fs.
Proof.
  intros Hs Hl. unfold sub. cbn [get_bytes mbind option_bind]. by rewrite read_put_fields by by apply fields_ok.
Qed.

Lemma merge_app {A} (step : A -> Z -> wire_value -> option A) a fs gs :
  merge step a (fs ++ gs) = a' ← merge step a fs; merge step a' gs.
Proof.
  revert a. induction fs as [|[t w] fs IH]; intros a; [done|]. cbn [app merge].
  destruct (step a t w); cbn [mbind option_bind]; [apply IH|done].
Qed.

(** An optional field: skipped where the value is already there. *)
Lemma merge_opt {A} (step : A -> Z -> wire_value -> option A) a a' skip t w fs :
  step a t w = Some a' -> (skip = true -> a' = a) ->
  merge step a (opt_field skip (t, w) ++ fs) = merge step a' fs.
Proof.
  intros Hs Hk. destruct skip; cbn [opt_field app merge]; [by rewrite Hk|]. by rewrite Hs.
Qed.

(** Fields that the message does not know are ignored, wherever they are. *)
Lemma merge_known {A} (step : A -> Z -> wire_value -> option A) (P : Z -> Prop) `{forall t, Decision (P t)} a fs :
  (forall a t w, ~ P t -> step a t w = Some a) ->
  merge step a fs = merge step a (filter (fun f => P f.1) fs).
Proof.
  intros Hu. revert a. induction fs as [|[t w] fs IH]; intros a; [done|]. rewrite filter_cons. cbn [fst].
  destruct (decide (P t)) as [Hp|Hp]; cbn [merge].
  - destruct (step a t w); cbn [mbind option_bind]; [apply IH|done].
  - rewrite Hu by done. apply IH.
Qed.

Lemma put_fields_app fs gs : put_fields (fs ++ gs) = put_fields fs ++ put_fields gs.
Proof. unfold put_fields. by rewrite fmap_app, concat_app. Qed.

Lemma length_varint k n : (length (varint_aux k n) <= k)%nat.
Proof.
  revert n. induction k as [|k IH]; intros n; [done|]. cbn [varint_aux].
  destruct (n <? 128); cbn [length]; [lia|]. specialize (IH (n / 128)). lia.
Qed.

(** ** What is read *)

Definition wire_typed (w : wire_value) : Prop :=
  match w with WVarint n => is_u64 n | WBytes bs | WFixed64 bs | WFixed32 bs => Forall is_byte bs end.

Lemma read_varint_aux_typed k bs n r :
  Forall is_byte bs -> read_varint_aux (S k) bs = Some (n, r) ->
  0 <= n < 2 * 128 ^ Z.of_nat k /\ Forall is_byte r.
Proof.
  intros Hb. revert k n. induction Hb as [|b bs Hb Hbs IH]; intros k n Hr; [done|]. cbn [read_varint_aux] in Hr.
  unfold is_byte in Hb. assert (0 < 128 ^ Z.of_nat k) by (apply Z.pow_pos_nonneg; lia).
  destruct (Z.ltb_spec b 128).
  - destruct ((k =? 0)%nat && (2 <=? b)) eqn:Ek; [done|]. simplify_eq. split; [|done].
    destruct k as [|k]; cbn [Nat.eqb andb] in Ek; [apply Z.leb_gt in Ek; cbn; lia|].
    rewrite Nat2Z.inj_succ, Z.pow_succ_r by lia. pose proof (Z.pow_pos_nonneg 128 (Z.of_nat k)). lia.
  - destruct k as [|k]; [done|]. apply bind_Some in Hr as ([n' r'] & Hr & Hn). simplify_eq.
    destruct (IH k n' Hr) as [Hn Hr']. rewrite Nat2Z.inj_succ, Z.pow_succ_r by lia. split; [lia|done].
Qed.

Lemma read_varint_typed bs n r :
  Forall is_byte bs -> read_varint bs = Some (n, r) -> is_u64 n /\ Forall is_byte r.
Proof.
  intros Hb Hr. destruct (read_varint_aux_typed 9 _ _ _ Hb Hr) as [Hn ?]. split; [|done].
  change (2 * 128 ^ Z.of_nat 9) with 18446744073709551616 in Hn. unfold is_u64, U64_MAX. lia.
Qed.

Lemma take_bytes_typed n bs v r :
  Forall is_byte bs -> take_bytes n bs = Some (v, r) -> Forall is_byte v /\ Forall is_byte r.
Proof.
  unfold take_bytes. intros Hb Ht. destruct (n <=? _); simplify_eq. split; [by apply Forall_take|by apply Forall_drop].
Qed.

Lemma read_wire_typed wt bs w r :
  Forall is_byte bs -> read_wire wt bs = Some (w, r) -> wire_typed w /\ Forall is_byte r.
Proof.
  intros Hb Hr. unfold read_wire in Hr.
  destruct (wt =? 0); [|destruct (wt =? 1); [|destruct (wt =? 2); [|destruct (wt =? 5); [|done]]]];
    apply bind_Some in Hr as ([v r'] & Hv & Hr).
  - simplify_eq. by eapply read_varint_typed.
  - simplify_eq. by eapply take_bytes_typed.
  - apply read_varint_typed in Hv as [_ Hr']; [|done]. apply bind_Some in Hr as ([v' r2] & Hv & Hr).
    simplify_eq. by eapply take_bytes_typed.
  - simplify_eq. by eapply take_bytes_typed.
Qed.

Lemma read_fields_typed bs fs :
  Forall is_byte bs -> read_fields bs = Some fs -> Forall (fun f => wire_typed f.2) fs.
Proof.
  unfold read_fields. generalize (length bs) as fuel. intros fuel. revert bs fs.
  induction fuel as [|fuel IH]; intros [|b bs] fs Hb Hr; cbn [read_fields_aux] in Hr; simplify_eq; try constructor.
  apply bind_Some in Hr as ([f r] & Hf & Hr). apply bind_Some in Hr as (fs' & Hfs & Hr). simplify_eq.
  unfold read_field in Hf. apply bind_Some in Hf as ([key r1] & Hk & Hf).
  apply read_varint_typed in Hk as [_ Hr1]; [|done]. destruct (_ || _); [done|].
  apply bind_Some in Hf as ([w r2] & Hw & Hf). simplify_eq.
  apply read_wire_typed in Hw as [Hw Hr2]; [|done]. constructor; [done|]. by apply (IH r).
Qed.

Lemma merge_typed {A} (P : A -> Prop) (step : A -> Z -> wire_value -> option A) a fs a' :
  (forall a t w a', P a -> wire_typed w -> step a t w = Some a' -> P a') ->
  P a -> Forall (fun f => wire_typed f.2) fs -> merge step a fs = Some a' -> P a'.
Proof.
  intros Hst Ha Hfs. revert a Ha. induction Hfs as [|[t w] fs Hw _ IH]; intros a Ha Hm; cbn [merge] in Hm.
  - by simplify_eq.
  - apply bind_Some in Hm as (a1 & H1 & Hm). eauto.
Qed.

Lemma sub_typed {A} (P : A -> Prop) (step : A -> Z -> wire_value -> option A) a w a' :
  (forall a t w a', P a -> wire_typed w -> step a t w = Some a' -> P a') ->
  P a -> wire_typed w -> sub step a w = Some a' -> P a'.
Proof.
  intros Hst Ha Hw Hs. unfold sub in Hs. apply bind_Some in Hs as (bs & Hb & Hs).
  apply bind_Some in Hs as (fs & Hf & Hs). destruct w; simplify_eq/=.
  eapply merge_typed; [exact Hst|exact Ha| |exact Hs]. by eapply read_fields_typed.
Qed.
