(* ===== verification/Proto.v ===== *)
(** The protobuf encoding of the messages.

    [prost] derives it from the attributes of [src/protocol/mod.rs]: field numbers,
    types, and which variant of the oneof has which number.  The development is
    parametric in the codec, through the class [EnvelopeCodec] and its law, because
    the derived code is not part of the repository; this file has the class, and the
    instance that the attributes and the protobuf wire format describe, with its
    laws.  Groups, which none of the messages uses, are refused. *)
From S2P Require Import Prelude Text Utf8 Protocol Wire.

Open Scope Z_scope.
Open Scope list_scope.

(** ** The interface *)

Class EnvelopeCodec : Type := {
  encode : Envelope -> list u8;
  decode : list u8 -> option Envelope
}.

(** A message whose fields have their types, and whose length fits the prefix of a
    frame, is decoded from its encoding. *)
Class LawfulCodec (C : EnvelopeCodec) : Prop := {
  decode_encode env :
    envelope_typed env -> Z.of_nat (length (encode env)) <= U32_MAX -> decode (encode env) = Some env
}.

(** A decoder fills a struct, so it can only give values of the fields' types. *)
Class TypedCodec (C : EnvelopeCodec) : Prop := {
  decode_typed bytes m : Forall is_byte bytes -> decode bytes = Some m -> envelope_typed m
}.

(** ** Values *)

(** The values of a known field; another wire type is an error. *)
Definition get_u32 (w : wire_value) : option u32 :=
  match w with WVarint n => Some (wrap 32 n) | _ => None end.

Definition get_u64 (w : wire_value) : option u64 :=
  match w with WVarint n => Some n | _ => None end.

(** [value as i32]. *)
Definition get_i32 (w : wire_value) : option Z :=
  match w with
  | WVarint n => let v := wrap 32 n in Some (if v <? 2147483648 then v else v - 4294967296)
  | _ => None
  end.

Definition get_bool (w : wire_value) : option bool :=
  match w with WVarint n => Some (negb (n =? 0)) | _ => None end.

Definition get_string (w : wire_value) : option str := bs ← get_bytes w; from_utf8 bs.

Definition uint_field (t : Z) (n : Z) : list field := opt_field (n =? 0) (t, WVarint n).
Definition int_field (t : Z) (n : Z) : list field := opt_field (n =? 0) (t, WVarint (wrap 64 n)).
Definition bool_field (t : Z) (b : bool) : list field := opt_field (negb b) (t, WVarint 1).
Definition bytes_field (t : Z) (bs : list u8) : list field := opt_field (bool_decide (bs = [])) (t, WBytes bs).
Definition string_field (t : Z) (s : str) : list field := opt_field (bool_decide (s = [])) (t, WBytes (as_bytes s)).
Definition strings_field (t : Z) (ss : list str) : list field := map (fun s => (t, WBytes (as_bytes s))) ss.

(** An entry of a [map<uint32, uint64>] is a message of two fields. *)
Definition entry_fields (e : Z * Z) : list field := uint_field 1 e.1 ++ uint_field 2 e.2.
Definition map_field (t : Z) (es : list (Z * Z)) : list field := map (fun e => (t, WBytes (put_fields (entry_fields e)))) es.

Definition step_entry (e : Z * Z) (t : Z) (w : wire_value) : option (Z * Z) :=
  match t with
  | 1 => k ← get_u32 w; Some (k, e.2)
  | 2 => v ← get_u64 w; Some (e.1, v)
  | _ => Some e
  end.

Definition get_entry (w : wire_value) (m : gmap Z Z) : option (gmap Z Z) :=
  e ← sub step_entry (0, 0) w; Some (<[e.1 := e.2]> m).

(** ** The messages

    [step_m] reads a field of the message into it and ignores fields it does not
    know; [m_fields] are the fields of a message, in the order of their numbers, the
    entries of its map in the order [es]. *)
Definition step_stream_open (m : StreamOpen) (t : Z) (w : wire_value) : option StreamOpen :=
  let '(mkStreamOpen id ty host port fp) := m in
  match t with
  | 1 => v ← get_u32 w; Some (mkStreamOpen v ty host port fp)
  | 2 => v ← get_i32 w; Some (mkStreamOpen id v host port fp)
  | 3 => v ← get_string w; Some (mkStreamOpen id ty v port fp)
  | 4 => v ← get_u32 w; Some (mkStreamOpen id ty host v fp)
  | 5 => v ← get_i32 w; Some (mkStreamOpen id ty host port v)
  | _ => Some m
  end.

Definition stream_open_fields (m : StreamOpen) : list field :=
  uint_field 1 (open_stream_id m) ++ int_field 2 (open_stream_type m) ++ string_field 3 (open_remote_host m) ++
  uint_field 4 (open_remote_port m) ++ int_field 5 (open_forward_proto m).

Definition step_stream_close (m : StreamClose) (t : Z) (w : wire_value) : option StreamClose :=
  let '(mkStreamClose id code) := m in
  match t with
  | 1 => v ← get_u32 w; Some (mkStreamClose v code)
  | 2 => v ← get_u32 w; Some (mkStreamClose id v)
  | _ => Some m
  end.

Definition stream_close_fields (m : StreamClose) : list field :=
  uint_field 1 (close_stream_id m) ++ uint_field 2 (close_error_code m).

Definition step_terminal_resize (m : TerminalResize) (t : Z) (w : wire_value) : option TerminalResize :=
  let '(mkTerminalResize r c) := m in
  match t with
  | 1 => v ← get_u32 w; Some (mkTerminalResize v c)
  | 2 => v ← get_u32 w; Some (mkTerminalResize r v)
  | _ => Some m
  end.

Definition terminal_resize_fields (m : TerminalResize) : list field :=
  uint_field 1 (rows m) ++ uint_field 2 (cols m).

Definition step_heartbeat_msg (m : Heartbeat) (t : Z) (w : wire_value) : option Heartbeat :=
  match t with
  | 1 => v ← get_entry w (hb_last_received_seq m); Some (mkHeartbeat v)
  | _ => Some m
  end.

Definition step_session_accept (m : SessionAccept) (t : Z) (w : wire_value) : option SessionAccept :=
  match t with
  | 1 => v ← get_entry w (sa_last_received_seq m); Some (mkSessionAccept v)
  | _ => Some m
  end.

Definition step_session_open (m : SessionOpen) (t : Z) (w : wire_value) : option SessionOpen :=
  let '(mkSessionOpen id key seqs revs gw x11 xp xc) := m in
  match t with
  | 1 => v ← get_bytes w; Some (mkSessionOpen v key seqs revs gw x11 xp xc)
  | 2 => v ← get_string w; Some (mkSessionOpen id v seqs revs gw x11 xp xc)
  | 3 => v ← get_entry w seqs; Some (mkSessionOpen id key v revs gw x11 xp xc)
  | 4 => v ← get_string w; Some (mkSessionOpen id key seqs (revs ++ [v]) gw x11 xp xc)
  | 5 => v ← get_bool w; Some (mkSessionOpen id key seqs revs v x11 xp xc)
  | 6 => v ← get_bool w; Some (mkSessionOpen id key seqs revs gw v xp xc)
  | 7 => v ← get_string w; Some (mkSessionOpen id key seqs revs gw x11 v xc)
  | 8 => v ← get_bytes w; Some (mkSessionOpen id key seqs revs gw x11 xp v)
  | _ => Some m
  end.

Definition session_open_fields (es : list (Z * Z)) (m : SessionOpen) : list field :=
  bytes_field 1 (so_session_id m) ++ string_field 2 (so_passkey m) ++ map_field 3 es ++
  strings_field 4 (so_reverse_forwards m) ++ bool_field 5 (so_gateway_ports m) ++ bool_field 6 (so_x11_enabled m) ++
  string_field 7 (so_x11_auth_proto m) ++ bytes_field 8 (so_x11_auth_cookie m).

Definition step_udp_datagram (m : UdpDatagram) (t : Z) (w : wire_value) : option UdpDatagram :=
  let '(mkUdpDatagram addr port data) := m in
  match t with
  | 1 => v ← get_string w; Some (mkUdpDatagram v port data)
  | 2 => v ← get_u32 w; Some (mkUdpDatagram addr v data)
  | 3 => v ← get_bytes w; Some (mkUdpDatagram addr port v)
  | _ => Some m
  end.

Definition udp_datagram_fields (m : UdpDatagram) : list field :=
  string_field 1 (peer_addr m) ++ uint_field 2 (peer_port m) ++ bytes_field 3 (dg_data m).

(** The oneof: a variant that comes again is merged, another one replaces it. *)
Definition step_envelope (e : Envelope) (t : Z) (w : wire_value) : option Envelope :=
  let some p := mkEnvelope (Some p) in
  match t with
  | 3 => m ← sub step_stream_open (match payload e with Some (PStreamOpen m) => m | _ => mkStreamOpen 0 0 [] 0 0 end) w;
         Some (some (PStreamOpen m))
  | 4 => m ← sub step_stream_close (match payload e with Some (PStreamClose m) => m | _ => mkStreamClose 0 0 end) w;
         Some (some (PStreamClose m))
  | 7 => m ← sub step_terminal_resize (match payload e with Some (PTerminalResize m) => m | _ => mkTerminalResize 0 0 end) w;
         Some (some (PTerminalResize m))
  | 8 => m ← sub step_heartbeat_msg (match payload e with Some (PHeartbeat m) => m | _ => mkHeartbeat ∅ end) w;
         Some (some (PHeartbeat m))
  | 9 => m ← sub (fun m _ _ => Some m) mkDisconnect w;
         Some (some (PDisconnect m))
  | 10 => m ← sub step_session_open
            (match payload e with Some (PSessionOpen m) => m | _ => mkSessionOpen [] [] ∅ [] false false [] [] end) w;
          Some (some (PSessionOpen m))
  | 11 => m ← sub step_session_accept (match payload e with Some (PSessionAccept m) => m | _ => mkSessionAccept ∅ end) w;
          Some (some (PSessionAccept m))
  | 12 => m ← sub step_udp_datagram (match payload e with Some (PUdpDatagram m) => m | _ => mkUdpDatagram [] 0 [] end) w;
          Some (some (PUdpDatagram m))
  | _ => Some e
  end.

(** The number of a variant, the map it holds, and its fields. *)
Definition payload_tag (p : Payload) : Z :=
  match p with
  | PStreamOpen _ => 3 | PStreamClose _ => 4 | PTerminalResize _ => 7 | PHeartbeat _ => 8
  | PDisconnect _ => 9 | PSessionOpen _ => 10 | PSessionAccept _ => 11 | PUdpDatagram _ => 12
  end.

Definition payload_map (p : Payload) : gmap Z Z :=
  match p with
  | PHeartbeat m => hb_last_received_seq m
  | PSessionOpen m => so_last_received_seq m
  | PSessionAccept m => sa_last_received_seq m
  | _ => ∅
  end.

Definition payload_fields (es : list (Z * Z)) (p : Payload) : list field :=
  match p with
  | PStreamOpen m => stream_open_fields m
  | PStreamClose m => stream_close_fields m
  | PTerminalResize m => terminal_resize_fields m
  | PHeartbeat _ | PSessionAccept _ => map_field 1 es
  | PDisconnect _ => []
  | PSessionOpen m => session_open_fields es m
  | PUdpDatagram m => udp_datagram_fields m
  end.

(** The fields of the envelope: at most one. *)
Definition envelope_fields (e : Envelope) : list field :=
  match payload e with
  | None => []
  | Some p => [(payload_tag p, WBytes (put_fields (payload_fields (map_to_list (payload_map p)) p)))]
  end.

Definition proto_codec : EnvelopeCodec := {|
  encode e := put_fields (envelope_fields e);
  decode bs := fs ← read_fields bs; merge step_envelope (mkEnvelope None) fs
|}.

(** Known messages, byte for byte. *)
Example heartbeat_bytes :
  @encode proto_codec (mkEnvelope (Some (PHeartbeat (mkHeartbeat {[0 := 300]})))) = [66; 5; 10; 3; 16; 172; 2].
Proof. reflexivity. Qed.

Example resize_bytes :
  @encode proto_codec (mkEnvelope (Some (PTerminalResize (mkTerminalResize 24 80)))) = [58; 4; 8; 24; 16; 80].
Proof. reflexivity. Qed.

Example disconnect_bytes : @encode proto_codec (mkEnvelope (Some (PDisconnect mkDisconnect))) = [74; 0].
Proof. reflexivity. Qed.

(** ** Values come back *)

Lemma get_u32_put n : is_u32 n -> get_u32 (WVarint n) = Some n.
Proof. intros Hn. cbn [get_u32]. f_equal. apply wrap_small. unfold is_u32, U32_MAX in Hn. lia. Qed.

Lemma get_i32_put n : is_i32 n -> get_i32 (WVarint (wrap 64 n)) = Some n.
Proof.
  unfold is_i32. intros Hn. cbn [get_i32]. unfold wrap. change (2 ^ 32) with 4294967296.
  change (2 ^ 64) with 18446744073709551616. f_equal.
  destruct (Z.ltb_spec ((n mod 18446744073709551616) mod 4294967296) 2147483648);
    Z.to_euclidean_division_equations; lia.
Qed.

Lemma get_string_put s : is_text s -> get_string (WBytes (as_bytes s)) = Some s.
Proof. intros Hs. unfold get_string. cbn [get_bytes mbind option_bind]. by apply from_utf8_as_bytes. Qed.

Lemma uint_field_shape t n : 1 <= t < 536870912 -> is_u64 n -> Forall field_shape (uint_field t n).
Proof. intros. unfold uint_field, opt_field. destruct (n =? 0); [constructor|]. by apply Forall_singleton. Qed.

Lemma int_field_shape t n : 1 <= t < 536870912 -> Forall field_shape (int_field t n).
Proof.
  intros. unfold int_field, opt_field. destruct (n =? 0); [constructor|]. apply Forall_singleton. split; [done|].
  cbn. pose proof (wrap_bound 64 n). unfold is_u64, U64_MAX. lia.
Qed.

Lemma bool_field_shape t b : 1 <= t < 536870912 -> Forall field_shape (bool_field t b).
Proof. intros. destruct b; cbn; [|constructor]. apply Forall_singleton. by split. Qed.

Lemma bytes_field_shape t bs : 1 <= t < 536870912 -> Forall field_shape (bytes_field t bs).
Proof. intros. unfold bytes_field, opt_field. case_bool_decide; [constructor|]. apply Forall_singleton. by split. Qed.

Lemma string_field_shape t s : 1 <= t < 536870912 -> Forall field_shape (string_field t s).
Proof. intros. unfold string_field, opt_field. case_bool_decide; [constructor|]. apply Forall_singleton. by split. Qed.

Lemma strings_field_shape t ss : 1 <= t < 536870912 -> Forall field_shape (strings_field t ss).
Proof. intros. apply Forall_fmap, Forall_true. by split. Qed.

Lemma map_field_shape t es : 1 <= t < 536870912 -> Forall field_shape (map_field t es).
Proof. intros. apply Forall_fmap, Forall_true. by split. Qed.

Lemma u32_u64 n : is_u32 n -> is_u64 n.
Proof. unfold is_u32, is_u64, U32_MAX, U64_MAX. lia. Qed.

#[export] Hint Resolve uint_field_shape int_field_shape bool_field_shape bytes_field_shape string_field_shape
  strings_field_shape map_field_shape u32_u64 : etr.

(** An entry of a map. *)
Definition entry_typed (e : Z * Z) : Prop := is_u32 e.1 /\ is_u64 e.2.

Lemma uint_field_length t n : (length (put_fields (uint_field t n)) <= 20)%nat.
Proof.
  unfold uint_field, opt_field. destruct (n =? 0); cbn [put_fields fmap list_fmap concat length]; [lia|].
  unfold put_fields. cbn [fmap list_fmap concat]. unfold put_field, put_varint. cbn [fst snd put_wire].
  rewrite app_nil_r, length_app. pose proof (length_varint 10 (8 * t + wire_type (WVarint n))).
  pose proof (length_varint 10 n). unfold put_varint. lia.
Qed.

Lemma get_entry_put e m :
  entry_typed e -> get_entry (WBytes (put_fields (entry_fields e))) m = Some (<[e.1 := e.2]> m).
Proof.
  destruct e as [k v]. intros [Hk Hv]. unfold get_entry, entry_fields. cbn [fst snd] in *. rewrite sub_put.
  - rewrite <- (app_nil_r (uint_field 2 v)). unfold uint_field.
    rewrite (merge_opt _ _ (k, 0)); [|cbn [step_entry]; by rewrite get_u32_put|by intros ->%Z.eqb_eq].
    by rewrite (merge_opt _ _ (k, v)); [|reflexivity|intros ->%Z.eqb_eq].
  - apply Forall_app. split; auto with lia etr.
  - rewrite put_fields_app, length_app. pose proof (uint_field_length 1 k). pose proof (uint_field_length 2 v).
    unfold U32_MAX. lia.
Qed.

(** The entries of a map, inserted one after the other. *)
Definition insert_all (es : list (Z * Z)) (m : gmap Z Z) : gmap Z Z := fold_left (fun m e => <[e.1 := e.2]> m) es m.

Lemma merge_map {A} (step : A -> Z -> wire_value -> option A) (mk : gmap Z Z -> A) t es m fs :
  (forall m w, step (mk m) t w = v ← get_entry w m; Some (mk v)) -> Forall entry_typed es ->
  merge step (mk m) (map_field t es ++ fs) = merge step (mk (insert_all es m)) fs.
Proof.
  intros Hst Hes. revert m. induction Hes as [|e es He _ IH]; intros m; [done|].
  cbn [map_field map app merge]. rewrite Hst, get_entry_put by done. apply IH.
Qed.

Lemma insert_all_map es m : es ≡ₚ map_to_list m -> insert_all es ∅ = m.
Proof.
  intros Hp. unfold insert_all. rewrite <- fold_left_rev_right.
  transitivity (list_to_map (rev es) : gmap Z Z).
  - induction (rev es) as [|[k v] l IH]; [done|]. cbn. by rewrite IH.
  - rewrite <- (list_to_map_to_list m). apply list_to_map_proper.
    + rewrite <- Permutation_rev, Hp. apply NoDup_fst_map_to_list.
    + by rewrite <- Permutation_rev.
Qed.

(** ** Messages come back *)

(** The next optional field, whose value gives the message [v]. *)
Ltac next_field v :=
  rewrite (merge_opt _ _ v);
    [|cbn [step_stream_open step_stream_close step_terminal_resize step_session_open step_udp_datagram]; rewrite ?get_u32_put, ?get_i32_put, ?get_string_put by done; reflexivity
     |first [by intros ->%Z.eqb_eq | by intros ->%bool_decide_eq_true]].

Lemma merge_nil_r {A} (step : A -> Z -> wire_value -> option A) a fs r :
  merge step a (fs ++ []) = r -> merge step a fs = r.
Proof. by rewrite app_nil_r. Qed.

Lemma merge_stream_open m :
  payload_typed (PStreamOpen m) -> merge step_stream_open (mkStreamOpen 0 0 [] 0 0) (stream_open_fields m) = Some m.
Proof.
  destruct m as [id ty host port fp]. cbn [payload_typed open_stream_id open_stream_type open_remote_host
    open_remote_port open_forward_proto]. intros (H1 & H2 & H3 & H4 & H5).
  apply merge_nil_r. unfold stream_open_fields, uint_field, int_field, string_field. rewrite <- !app_assoc.
  cbn [open_stream_id open_stream_type open_remote_host open_remote_port open_forward_proto].
  next_field (mkStreamOpen id 0 [] 0 0). next_field (mkStreamOpen id ty [] 0 0).
  next_field (mkStreamOpen id ty host 0 0). next_field (mkStreamOpen id ty host port 0).
  by next_field (mkStreamOpen id ty host port fp).
Qed.

Lemma merge_stream_close m :
  payload_typed (PStreamClose m) -> merge step_stream_close (mkStreamClose 0 0) (stream_close_fields m) = Some m.
Proof.
  destruct m as [id code]. cbn [payload_typed close_stream_id close_error_code]. intros (H1 & H2).
  apply merge_nil_r. unfold stream_close_fields, uint_field. rewrite <- !app_assoc. cbn [close_stream_id close_error_code].
  next_field (mkStreamClose id 0). by next_field (mkStreamClose id code).
Qed.

Lemma merge_terminal_resize m :
  payload_typed (PTerminalResize m) ->
  merge step_terminal_resize (mkTerminalResize 0 0) (terminal_resize_fields m) = Some m.
Proof.
  destruct m as [r c]. cbn [payload_typed rows cols]. intros (H1 & H2).
  apply merge_nil_r. unfold terminal_resize_fields, uint_field. rewrite <- !app_assoc. cbn [rows cols].
  next_field (mkTerminalResize r 0). by next_field (mkTerminalResize r c).
Qed.

Lemma merge_udp_datagram m :
  payload_typed (PUdpDatagram m) -> merge step_udp_datagram (mkUdpDatagram [] 0 []) (udp_datagram_fields m) = Some m.
Proof.
  destruct m as [addr port data]. cbn [payload_typed peer_addr peer_port dg_data]. intros (H1 & H2 & H3).
  apply merge_nil_r. unfold udp_datagram_fields, uint_field, string_field, bytes_field. rewrite <- !app_assoc.
  cbn [peer_addr peer_port dg_data].
  next_field (mkUdpDatagram addr 0 []). next_field (mkUdpDatagram addr port []).
  by next_field (mkUdpDatagram addr port data).
Qed.

(** Typed entries, in any order. *)
Lemma entries_typed m es : watermarks_typed m -> es ≡ₚ map_to_list m -> Forall entry_typed es.
Proof.
  intros Hm ->. apply map_Forall_to_list in Hm. eapply Forall_impl; [exact Hm|]. by intros [k v].
Qed.

Lemma merge_heartbeat m es :
  watermarks_typed (hb_last_received_seq m) -> es ≡ₚ map_to_list (hb_last_received_seq m) ->
  merge step_heartbeat_msg (mkHeartbeat ∅) (map_field 1 es) = Some m.
Proof.
  intros Hm He. apply merge_nil_r. rewrite (merge_map step_heartbeat_msg mkHeartbeat) by (done || by eapply entries_typed).
  rewrite (insert_all_map es _ He). by destruct m.
Qed.

Lemma merge_session_accept m es :
  watermarks_typed (sa_last_received_seq m) -> es ≡ₚ map_to_list (sa_last_received_seq m) ->
  merge step_session_accept (mkSessionAccept ∅) (map_field 1 es) = Some m.
Proof.
  intros Hm He. apply merge_nil_r. rewrite (merge_map step_session_accept mkSessionAccept) by (done || by eapply entries_typed).
  rewrite (insert_all_map es _ He). by destruct m.
Qed.

Lemma merge_strings id key seqs revs ss fs :
  Forall is_text ss ->
  merge step_session_open (mkSessionOpen id key seqs revs false false [] []) (strings_field 4 ss ++ fs) =
  merge step_session_open (mkSessionOpen id key seqs (revs ++ ss) false false [] []) fs.
Proof.
  intros Hs. revert revs. induction Hs as [|s ss Hs _ IH]; intros revs; [by rewrite app_nil_r|].
  cbn [strings_field map app merge step_session_open]. rewrite get_string_put by done. cbn [mbind option_bind].
  fold (strings_field 4 ss). by rewrite IH, <- app_assoc.
Qed.

Lemma merge_session_open m es :
  payload_typed (PSessionOpen m) -> es ≡ₚ map_to_list (so_last_received_seq m) ->
  merge step_session_open (mkSessionOpen [] [] ∅ [] false false [] []) (session_open_fields es m) = Some m.
Proof.
  destruct m as [id key seqs revs gw x11 xp xc]. cbn [payload_typed so_session_id so_passkey so_last_received_seq
    so_reverse_forwards so_x11_auth_proto so_x11_auth_cookie]. intros (H1 & H2 & H3 & H4 & H5 & H6) He.
  apply merge_nil_r. unfold session_open_fields, bytes_field, string_field. rewrite <- !app_assoc.
  cbn [so_session_id so_passkey so_reverse_forwards so_gateway_ports so_x11_enabled so_x11_auth_proto so_x11_auth_cookie].
  next_field (mkSessionOpen id [] ∅ [] false false [] []). next_field (mkSessionOpen id key ∅ [] false false [] []).
  rewrite (merge_map _ (fun v => mkSessionOpen id key v [] false false [] [])) by (done || by eapply entries_typed).
  rewrite (insert_all_map es _ He), merge_strings by done. cbn [app].
  assert (forall fs, merge step_session_open (mkSessionOpen id key seqs revs false false [] [])
    (bool_field 5 gw ++ bool_field 6 x11 ++ fs) =
    merge step_session_open (mkSessionOpen id key seqs revs gw x11 [] []) fs) as ->.
  { intros fs. by destruct gw, x11. }
  next_field (mkSessionOpen id key seqs revs gw x11 xp []). by next_field (mkSessionOpen id key seqs revs gw x11 xp xc).
Qed.

(** ** The codec *)

(** The highest field number of a message. *)
Definition last_field (p : Payload) : Z :=
  match p with
  | PStreamOpen _ => 5 | PStreamClose _ => 2 | PTerminalResize _ => 2 | PHeartbeat _ => 1
  | PDisconnect _ => 0 | PSessionOpen _ => 8 | PSessionAccept _ => 1 | PUdpDatagram _ => 3
  end.

Definition known_field (p : Payload) (t : Z) : Prop := 1 <= t <= last_field p.

Definition known_payload (t : Z) : Prop := t ∈ [3; 4; 7; 8; 9; 10; 11; 12].

#[export] Instance known_field_dec p t : Decision (known_field p t).
Proof. unfold known_field. apply _. Defined.

#[export] Instance known_payload_dec t : Decision (known_payload t).
Proof. unfold known_payload. apply _. Defined.

(** The default case of a [match] on the number [t]; [k] shows that the others are
    known. *)
Ltac default_case t k :=
  destruct t as [|p|p]; [done| |done]; do 4 (try (destruct p as [p|p|]; try done)); exfalso; k.

Lemma step_envelope_unknown e t w : ~ known_payload t -> step_envelope e t w = Some e.
Proof. intros Ht. unfold step_envelope. default_case t ltac:(apply Ht; unfold known_payload; set_solver). Qed.

Ltac unknown_fields := intros [] t w Ht; default_case t ltac:(apply Ht; unfold known_field; cbn; lia).

(** What a field of the oneof is read into, and what it says. *)
Lemma step_envelope_known p es fs :
  payload_typed p -> es ≡ₚ map_to_list (payload_map p) ->
  filter (fun f => known_field p f.1) fs = payload_fields es p -> Forall field_ok fs ->
  step_envelope (mkEnvelope None) (payload_tag p) (WBytes (put_fields fs)) = Some (mkEnvelope (Some p)).
Proof.
  intros Hp He Hf Hok.
  assert (forall A (step : A -> Z -> wire_value -> option A) a m,
    (forall a t w, ~ known_field p t -> step a t w = Some a) -> merge step a (payload_fields es p) = Some m ->
    sub step a (WBytes (put_fields fs)) = Some m) as Hsub.
  { intros A step a m Hu Hm. unfold sub. cbn [get_bytes mbind option_bind]. rewrite read_put_fields by done.
    cbn [mbind option_bind]. by rewrite (merge_known step (known_field p)), Hf. }
  destruct p as [m|m|m|m|[]|m|m|m]; cbn [payload_tag step_envelope payload].
  - rewrite (Hsub _ _ _ m); [done|unknown_fields|by apply merge_stream_open].
  - rewrite (Hsub _ _ _ m); [done|unknown_fields|by apply merge_stream_close].
  - rewrite (Hsub _ _ _ m); [done|unknown_fields|by apply merge_terminal_resize].
  - rewrite (Hsub _ _ _ m); [done|unknown_fields|by apply merge_heartbeat].
  - by rewrite (Hsub _ _ _ mkDisconnect).
  - rewrite (Hsub _ _ _ m); [done|unknown_fields|by apply merge_session_open].
  - rewrite (Hsub _ _ _ m); [done|unknown_fields|by apply merge_session_accept].
  - rewrite (Hsub _ _ _ m); [done|unknown_fields|by apply merge_udp_datagram].
Qed.

(** Reading the fields of an envelope. *)
Lemma decode_fields p es fs gs :
  payload_typed p -> es ≡ₚ map_to_list (payload_map p) ->
  filter (fun f => known_field p f.1) fs = payload_fields es p -> Forall field_ok fs ->
  filter (fun f => known_payload f.1) gs = [(payload_tag p, WBytes (put_fields fs))] -> Forall field_ok gs ->
  @decode proto_codec (put_fields gs) = Some (mkEnvelope (Some p)).
Proof.
  intros Hp He Hf Hok Hg Hgok. cbn [decode proto_codec]. rewrite read_put_fields by done.
  cbn [mbind option_bind]. rewrite (merge_known _ known_payload), Hg by apply step_envelope_unknown.
  cbn [merge]. by rewrite (step_envelope_known p es fs).
Qed.

Lemma payload_fields_shape p es : payload_typed p -> Forall field_shape (payload_fields es p).
Proof.
  intros Hp. destruct p; cbn [payload_fields payload_typed] in *;
    unfold stream_open_fields, stream_close_fields, terminal_resize_fields, session_open_fields, udp_datagram_fields;
    repeat (apply Forall_app; split); try constructor; destruct_and?; auto with lia etr.
Qed.

Lemma opt_field_known p skip t w :
  known_field p t -> Forall (fun f : field => known_field p f.1) (opt_field skip (t, w)).
Proof. intros Ht. destruct skip; cbn; [constructor|]. by apply Forall_singleton. Qed.

Lemma payload_fields_known p es : Forall (fun f => known_field p f.1) (payload_fields es p).
Proof.
  destruct p; cbn [payload_fields];
    unfold stream_open_fields, stream_close_fields, terminal_resize_fields, session_open_fields, udp_datagram_fields,
      uint_field, int_field, bool_field, bytes_field, string_field, strings_field, map_field;
    repeat (apply Forall_app; split);
    try (apply opt_field_known); try (apply Forall_fmap, Forall_true; intros ?); try constructor;
    unfold known_field; cbn; lia.
Qed.

Lemma payload_tag_known p : known_payload (payload_tag p).
Proof. unfold known_payload. destruct p; cbn; set_solver. Qed.

Lemma payload_tag_bound p : 1 <= payload_tag p < 536870912.
Proof. destruct p; cbn; lia. Qed.

Lemma proto_codec_lawful : LawfulCodec proto_codec.
Proof.
  split. intros [[p|]] Ht Hl; [|done]. cbn [encode proto_codec envelope_fields payload] in *.
  set (fs := payload_fields _ p) in *.
  assert (Forall field_ok [(payload_tag p, WBytes (put_fields fs))]) as Hgs.
  { apply fields_ok; [|done]. apply Forall_singleton. split; [apply payload_tag_bound|done]. }
  apply (decode_fields p (map_to_list (payload_map p)) fs); try done.
  - apply list_filter_all. by apply Forall_forall, payload_fields_known.
  - apply fields_ok; [by apply payload_fields_shape|]. apply Forall_singleton in Hgs as [_ Hb]. exact Hb.
  - rewrite filter_cons_True; [done|apply payload_tag_known].
Qed.


(** ** What is decoded has the types of the fields *)

Lemma get_u32_typed w v : get_u32 w = Some v -> is_u32 v.
Proof. destruct w; cbn; try done. intros [= <-]. pose proof (wrap_bound 32 n). unfold is_u32, U32_MAX. lia. Qed.

Lemma get_i32_typed w v : get_i32 w = Some v -> is_i32 v.
Proof.
  destruct w; cbn [get_i32]; try done. intros [= <-]. pose proof (wrap_bound 32 n) as Hb.
  change (2 ^ 32) with 4294967296 in Hb. unfold is_i32. destruct (Z.ltb_spec (wrap 32 n) 2147483648); lia.
Qed.

Lemma get_string_typed w v : get_string w = Some v -> is_text v.
Proof.
  unfold get_string. intros (bs & _ & Hs)%bind_Some. by apply from_utf8_Some in Hs as [? _].
Qed.

Lemma get_bytes_typed w v : wire_typed w -> get_bytes w = Some v -> Forall is_byte v.
Proof. destruct w; cbn; try done. by intros ? [= <-]. Qed.

Lemma get_entry_typed w m m' :
  watermarks_typed m -> wire_typed w -> get_entry w m = Some m' -> watermarks_typed m'.
Proof.
  intros Hm Hw He. apply bind_Some in He as (e & He & Hi). simplify_eq.
  apply (sub_typed entry_typed) in He as [Hk Hv]; [| |split; cbn; unfold is_u32, is_u64, U32_MAX, U64_MAX; lia|done].
  - by apply map_Forall_insert_2.
  - clear. intros [k v] t w e' [Hk Hv] Hw He. unfold step_entry in He. cbn [fst snd] in *.
    assert (e' = (k, v) \/ (exists k', is_u32 k' /\ e' = (k', v)) \/ (exists v', is_u64 v' /\ e' = (k, v'))) as Hc.
    { destruct t as [|p|p]; [by simplify_eq; left| |by simplify_eq; left].
      destruct p as [p|[p|p|]|]; try (by simplify_eq; left).
      - apply bind_Some in He as (v' & Hv' & ?). simplify_eq. right. right. exists v'. split; [|done].
        destruct w; cbn in Hv'; by simplify_eq.
      - apply bind_Some in He as (k' & Hk' & ?). simplify_eq. right. left. exists k'.
        split; [by eapply get_u32_typed|done]. }
    by destruct Hc as [->|[(k' & ? & ->)|(v' & ? & ->)]].
Qed.

#[export] Hint Resolve get_u32_typed get_i32_typed get_string_typed get_bytes_typed get_entry_typed : etr.

(** Field by field. *)
Ltac typed_field t Hs :=
  destruct t as [|p|p]; try (by simplify_eq);
  do 4 (try (destruct p as [p|p|]; try (by simplify_eq)));
  apply bind_Some in Hs as (v & Hv & Hs); simplify_eq; cbn in *; destruct_and?; split_and?;
  eauto using Forall_app_2, Forall_singleton with etr.

Definition step_typed {A} (mk : A -> Payload) (step : A -> Z -> wire_value -> option A) : Prop :=
  forall m t w m', payload_typed (mk m) -> wire_typed w -> step m t w = Some m' -> payload_typed (mk m').

Lemma stream_open_typed : step_typed PStreamOpen step_stream_open.
Proof. intros [] t w m' Hm Hw Hs. unfold step_stream_open in Hs. typed_field t Hs. Qed.

Lemma stream_close_typed : step_typed PStreamClose step_stream_close.
Proof. intros [] t w m' Hm Hw Hs. unfold step_stream_close in Hs. typed_field t Hs. Qed.

Lemma terminal_resize_typed : step_typed PTerminalResize step_terminal_resize.
Proof. intros [] t w m' Hm Hw Hs. unfold step_terminal_resize in Hs. typed_field t Hs. Qed.

Lemma heartbeat_typed : step_typed PHeartbeat step_heartbeat_msg.
Proof. intros [] t w m' Hm Hw Hs. unfold step_heartbeat_msg in Hs. typed_field t Hs. Qed.

Lemma session_accept_typed : step_typed PSessionAccept step_session_accept.
Proof. intros [] t w m' Hm Hw Hs. unfold step_session_accept in Hs. typed_field t Hs. Qed.

Lemma session_open_typed : step_typed PSessionOpen step_session_open.
Proof. intros [] t w m' Hm Hw Hs. unfold step_session_open in Hs. typed_field t Hs. Qed.

Lemma udp_datagram_typed : step_typed PUdpDatagram step_udp_datagram.
Proof. intros [] t w m' Hm Hw Hs. unfold step_udp_datagram in Hs. typed_field t Hs. Qed.

Lemma payload_sub_typed {A} (mk : A -> Payload) step a w a' :
  step_typed mk step -> payload_typed (mk a) -> wire_typed w -> sub step a w = Some a' -> payload_typed (mk a').
Proof. intros Hst. apply (sub_typed (fun m => payload_typed (mk m))). exact Hst. Qed.

(** The message that a variant is read into: what is there, or the default one. *)
Ltac variant mk typed e He :=
  eapply (payload_sub_typed mk); [apply typed| |eassumption|eassumption];
  destruct e as [[[]|]]; try exact He; cbn; unfold is_u32, is_i32, is_text, U32_MAX; split_and?;
  solve [lia | constructor | apply map_Forall_empty].

Lemma step_envelope_typed e t w e' :
  envelope_typed e -> wire_typed w -> step_envelope e t w = Some e' -> envelope_typed e'.
Proof.
  intros He Hw Hs. unfold step_envelope in Hs.
  destruct t as [|p|p]; try (by simplify_eq);
    do 4 (try (destruct p as [p|p|]; try (by simplify_eq)));
    apply bind_Some in Hs as (m & Hm & Hs); simplify_eq; unfold envelope_typed; cbn [payload];
    try exact I;
    first [variant PStreamOpen stream_open_typed e He | variant PStreamClose stream_close_typed e He
          |variant PTerminalResize terminal_resize_typed e He | variant PHeartbeat heartbeat_typed e He
          |variant PSessionOpen session_open_typed e He | variant PSessionAccept session_accept_typed e He
          |variant PUdpDatagram udp_datagram_typed e He].
Qed.

Lemma proto_codec_typed : TypedCodec proto_codec.
Proof.
  split. intros bytes m Hb Hd. cbn [decode proto_codec] in Hd. apply bind_Some in Hd as (fs & Hf & Hm).
  eapply (merge_typed envelope_typed); [apply step_envelope_typed| |by eapply read_fields_typed|exact Hm]. done.
Qed.

(** ** Properties *)

(** C16: The messages on the wire: every message whose fields have their types is
    decoded from its encoding; and the decoder does not depend on how the fields
    were laid out: with the entries of a map in any order, and with fields it does
    not know among those of the message or beside it (as a newer peer may send), the
    same message is read. *)
Theorem messages_roundtrip e :
  envelope_typed e -> Z.of_nat (length (@encode proto_codec e)) <= U32_MAX ->
  @decode proto_codec (@encode proto_codec e) = Some e /\
  forall p es fs gs,
    payload e = Some p -> es ≡ₚ map_to_list (payload_map p) ->
    filter (fun f => known_field p f.1) fs = payload_fields es p -> Forall field_ok fs ->
    filter (fun f => known_payload f.1) gs = [(payload_tag p, WBytes (put_fields fs))] -> Forall field_ok gs ->
    @decode proto_codec (put_fields gs) = Some e.
Proof.
  intros Ht Hl. split; [by apply proto_codec_lawful|]. intros p es fs gs He Hes Hfs Hok Hgs Hgok.
  destruct e as [o]. cbn in He. subst o. by eapply decode_fields.
Qed.

(** A [SessionOpen] with two watermarks, their order exchanged, and an unknown field
    in it and one beside it. *)
Definition sample_open : SessionOpen :=
  mkSessionOpen [171; 205] (lit "kéy") {[0 := 7; 3 := 300]} [lit "9090:localhost:90"] true false
    (lit "MIT-MAGIC-COOKIE-1") [1; 2; 3].

Definition sample_open_fields : list field :=
  (99, WVarint 5) :: session_open_fields (rev (map_to_list (so_last_received_seq sample_open))) sample_open.

Lemma messages_roundtrip_witness :
  @decode proto_codec (put_fields [(77, WFixed32 [1; 2; 3; 4]); (10, WBytes (put_fields sample_open_fields))]) =
  Some (mkEnvelope (Some (PSessionOpen sample_open))).
Proof.
  refine (proj2 (messages_roundtrip (mkEnvelope (Some (PSessionOpen sample_open))) _ _)
    (PSessionOpen sample_open) (rev (map_to_list (so_last_received_seq sample_open))) sample_open_fields
    [(77, WFixed32 [1; 2; 3; 4]); (10, WBytes (put_fields sample_open_fields))] _ _ _ _ _ _).
  - apply (bool_decide_unpack _). vm_compute. exact I.
  - vm_compute. discriminate.
  - reflexivity.
  - symmetry. apply Permutation_rev.
  - vm_compute. reflexivity.
  - apply Forall_forall. intros f Hf. vm_compute in Hf.
    repeat (apply elem_of_cons in Hf as [->|Hf]; [split; [split; vm_compute; done|vm_compute; try split; done]|]).
    by apply not_elem_of_nil in Hf.
  - vm_compute. reflexivity.
  - repeat constructor; vm_compute; done.
Defined.
