(* ===== verification/Stream.v ===== *)
(** Per-stream state: sequence numbers and the replay history
    ([src/session/stream.rs]).

    [record_send] appends to the history and evicts from its front while the
    byte total exceeds [MAX_HISTORY_BYTES]; [acknowledge_up_to] trims what the
    peer has seen; [replay_from] is what a reconnect sends again. *)
From S2P Require Import Prelude Text Protocol.

Open Scope Z_scope.

Inductive StreamLifecycle : Type := Opening | Open | Closing | Closed.

Definition MAX_HISTORY_BYTES : usize := 4 * 1024 * 1024.

Abbreviation chunk := (Z * list Z)%type (only parsing).

Record StreamState : Type := mkStream {
  stream_id : u32;
  stream_type : StreamType;
  next_out_seq : u64;
  next_in_seq : u64;
  send_history : list chunk;
  history_bytes : usize;
  lifecycle : StreamLifecycle
}.

(** [StreamState::new]. *)
Definition new_stream (id : u32) (t : StreamType) : StreamState := {|
  stream_id := id;
  stream_type := t;
  next_out_seq := 1;
  next_in_seq := 1;
  send_history := [];
  history_bytes := 0;
  lifecycle := Open
|}.

(** Field updates. *)
Definition set_history (s : StreamState) (h : list chunk) (n : usize) : StreamState :=
  {| stream_id := stream_id s; stream_type := stream_type s;
     next_out_seq := next_out_seq s; next_in_seq := next_in_seq s;
     send_history := h; history_bytes := n; lifecycle := lifecycle s |}.

Definition set_next_out (s : StreamState) (n : u64) : StreamState :=
  {| stream_id := stream_id s; stream_type := stream_type s;
     next_out_seq := n; next_in_seq := next_in_seq s;
     send_history := send_history s; history_bytes := history_bytes s;
     lifecycle := lifecycle s |}.

Definition set_next_in (s : StreamState) (n : u64) : StreamState :=
  {| stream_id := stream_id s; stream_type := stream_type s;
     next_out_seq := next_out_seq s; next_in_seq := n;
     send_history := send_history s; history_bytes := history_bytes s;
     lifecycle := lifecycle s |}.

Definition set_lifecycle (s : StreamState) (l : StreamLifecycle) : StreamState :=
  {| stream_id := stream_id s; stream_type := stream_type s;
     next_out_seq := next_out_seq s; next_in_seq := next_in_seq s;
     send_history := send_history s; history_bytes := history_bytes s;
     lifecycle := l |}.

Definition chunk_len (c : chunk) : Z := Z.of_nat (length c.2).

(** The [while] loop of [record_send]. *)
Fixpoint evict (h : list chunk) (bytes : usize) : list chunk * usize :=
  match h with
  | [] => ([], bytes)
  | c :: h' =>
    if MAX_HISTORY_BYTES <? bytes then evict h' (bytes - chunk_len c) else (h, bytes)
  end.

Definition record_send (seq_num : u64) (payload : list u8) (s : StreamState) : StreamState :=
  let bytes := history_bytes s + Z.of_nat (length payload) in
  let '(h, n) := evict (send_history s ++ [(seq_num, payload)]) bytes in
  set_history s h n.

(** The [while let] loop of [acknowledge_up_to]. *)
Fixpoint drop_acked (ack_seq : u64) (h : list chunk) (bytes : usize) : list chunk * usize :=
  match h with
  | [] => ([], bytes)
  | c :: h' =>
    if c.1 <=? ack_seq then drop_acked ack_seq h' (bytes - chunk_len c) else (h, bytes)
  end.

Definition acknowledge_up_to (ack_seq : u64) (s : StreamState) : StreamState :=
  let '(h, n) := drop_acked ack_seq (send_history s) (history_bytes s) in
  set_history s h n.

Definition replay_from (peer_last_received : u64) (s : StreamState) : list chunk :=
  filter (fun c => peer_last_received < c.1) (send_history s).

(** The byte total of a history. *)
Definition history_size (h : list chunk) : Z := total_len h.*2.

(** The invariant of a stream: the counter is the byte total, within the cap. *)
Record stream_wf (s : StreamState) : Prop := {
  wf_bytes : history_bytes s = history_size (send_history s);
  wf_cap : history_bytes s <= MAX_HISTORY_BYTES
}.

(** The history holds the most recent chunks, numbered without gaps up to the
    last one sent. *)
Definition consecutive (s : StreamState) : Prop :=
  (send_history s).*1 =
    seqZ (next_out_seq s - Z.of_nat (length (send_history s)))
         (Z.of_nat (length (send_history s))).

(** The step both ends take for an outgoing chunk: assign the next number,
    increment the counter (which wraps), record the chunk. *)
Definition send_chunk (payload : list u8) (s : StreamState) : u64 * StreamState :=
  let seq := next_out_seq s in
  let s := set_next_out s (wrap 64 (seq + 1)) in
  (seq, record_send seq payload s).

(** The step both ends take for an incoming chunk. *)
Definition note_received (seq : u64) (s : StreamState) : StreamState :=
  set_next_in s (wrap 64 (seq + 1)).

(** ** Eviction *)

Lemma history_size_cons c h : history_size (c :: h) = chunk_len c + history_size h.
Proof. unfold history_size, chunk_len. by rewrite fmap_cons, total_len_cons. Qed.

Lemma history_size_app h1 h2 :
  history_size (h1 ++ h2) = history_size h1 + history_size h2.
Proof. unfold history_size. by rewrite fmap_app, total_len_app. Qed.

Lemma history_size_nonneg h : 0 <= history_size h.
Proof. apply total_len_nonneg. Qed.

(** What the eviction loop computes, given an exact counter. *)
Lemma evict_spec h h' n :
  evict h (history_size h) = (h', n) ->
  exists dropped, h = dropped ++ h' /\ n = history_size h' /\ n <= MAX_HISTORY_BYTES /\
    forall d c, dropped = d ++ [c] -> MAX_HISTORY_BYTES < history_size (c :: h').
Proof.
  revert h' n. induction h as [|c h IH]; simpl; intros h' n.
  { intros; simplify_eq. exists []. repeat split; try done. by intros []. }
  rewrite history_size_cons. destruct (Z.ltb_spec MAX_HISTORY_BYTES (chunk_len c + history_size h)).
  - replace (chunk_len c + history_size h - chunk_len c) with (history_size h) by lia.
    intros (dr & -> & -> & Hle & Hmax)%IH. exists (c :: dr).
    repeat split; try done. intros d c' Hd.
    destruct dr as [|c1 dr'] using rev_ind.
    + destruct d as [|c2 d]; simplify_eq/=; [by rewrite history_size_cons|by destruct d].
    + clear IHdr'. change (c :: dr' ++ [c1]) with ((c :: dr') ++ [c1]) in Hd.
      apply app_inj_tail in Hd as [_ <-]. by apply (Hmax dr').
  - intros; simplify_eq. exists []. rewrite history_size_cons. repeat split; try lia.
    by intros [].
Qed.

Lemma evict_suffix h b : exists d, h = d ++ (evict h b).1.
Proof.
  revert b. induction h as [|c h IH]; intros b; simpl; [by exists []|].
  case_match; [|by exists []]. destruct (IH (b - chunk_len c)) as [d Hd].
  exists (c :: d). by rewrite Hd at 1.
Qed.

Lemma evict_noop h b : b <= MAX_HISTORY_BYTES -> evict h b = (h, b).
Proof. intros. destruct h; simpl; [done|]. by destruct (Z.ltb_spec MAX_HISTORY_BYTES b); [lia|]. Qed.

Lemma drop_acked_spec ack h h' n :
  drop_acked ack h (history_size h) = (h', n) ->
  exists dropped, h = dropped ++ h' /\ n = history_size h' /\
    Forall (fun c => c.1 <= ack) dropped /\
    (forall c h'', h' = c :: h'' -> ack < c.1).
Proof.
  revert h' n. induction h as [|c h IH]; simpl; intros h' n.
  { intros; simplify_eq. by exists []. }
  destruct (Z.leb_spec c.1 ack).
  - rewrite history_size_cons.
    replace (chunk_len c + history_size h - chunk_len c) with (history_size h) by lia.
    intros (dr & -> & -> & Hf & Hh)%IH. exists (c :: dr). repeat split; auto.
  - intros; simplify_eq. exists []. repeat split; auto. intros; by simplify_eq.
Qed.

(** ** Preservation of the invariant *)

Lemma new_stream_wf id t : stream_wf (new_stream id t).
Proof. by split. Qed.

Lemma record_send_history s seq p :
  stream_wf s ->
  exists dropped,
    send_history s ++ [(seq, p)] = dropped ++ send_history (record_send seq p s) /\
    stream_wf (record_send seq p s) /\
    forall d c, dropped = d ++ [c] ->
      MAX_HISTORY_BYTES < history_size (c :: send_history (record_send seq p s)).
Proof.
  intros [Hb Hc]. unfold record_send.
  replace (history_bytes s + Z.of_nat (length p))
    with (history_size (send_history s ++ [(seq, p)])).
  2: { rewrite history_size_app, Hb. unfold history_size at 2. simpl.
       rewrite total_len_cons. unfold total_len. simpl. lia. }
  destruct (evict _ _) as [h n] eqn:E.
  apply evict_spec in E as (d & Hd & -> & Hle & Hmax). exists d. split; [done|]. by split.
Qed.

Lemma record_send_wf s seq p : stream_wf s -> stream_wf (record_send seq p s).
Proof. intros H. by destruct (record_send_history s seq p H) as (d & _ & ? & _). Qed.

Lemma acknowledge_history s ack :
  stream_wf s ->
  exists dropped,
    send_history s = dropped ++ send_history (acknowledge_up_to ack s) /\
    stream_wf (acknowledge_up_to ack s) /\
    Forall (fun c => c.1 <= ack) dropped /\
    (forall c h, send_history (acknowledge_up_to ack s) = c :: h -> ack < c.1).
Proof.
  intros [Hb Hc]. unfold acknowledge_up_to. rewrite Hb.
  destruct (drop_acked _ _ _) as [h n] eqn:E.
  apply drop_acked_spec in E as (d & Hd & -> & Hf & Hh). exists d.
  split; [done|]. split; [|done]. split; [done|]. simpl.
  rewrite Hb, Hd, history_size_app in Hc. pose proof (history_size_nonneg d). lia.
Qed.

Lemma acknowledge_wf s ack : stream_wf s -> stream_wf (acknowledge_up_to ack s).
Proof. intros H. by destruct (acknowledge_history s ack H) as (d & _ & ? & _). Qed.

Lemma send_chunk_wf s p : stream_wf s -> stream_wf (send_chunk p s).2.
Proof. intros [Hb Hc]. apply record_send_wf. by split. Qed.

#[export] Hint Resolve new_stream_wf record_send_wf acknowledge_wf send_chunk_wf : etr.

(** Below the cap nothing is evicted. *)
Lemma record_send_fits s seq p :
  history_bytes s + Z.of_nat (length p) <= MAX_HISTORY_BYTES ->
  send_history (record_send seq p s) = send_history s ++ [(seq, p)].
Proof. intros. unfold record_send. by rewrite evict_noop. Qed.

(** Neither operation touches the counters. *)
Lemma record_send_next s seq p :
  next_out_seq (record_send seq p s) = next_out_seq s /\
  next_in_seq (record_send seq p s) = next_in_seq s.
Proof. unfold record_send. by destruct (evict _ _). Qed.

Lemma acknowledge_next s ack :
  next_out_seq (acknowledge_up_to ack s) = next_out_seq s /\
  next_in_seq (acknowledge_up_to ack s) = next_in_seq s.
Proof. unfold acknowledge_up_to. by destruct (drop_acked _ _ _). Qed.

(** ** Sequence numbers *)

(** A suffix of consecutively numbered chunks is consecutively numbered. *)
Lemma consecutive_suffix (d h : list chunk) (n : Z) :
  (d ++ h).*1 = seqZ (n - Z.of_nat (length (d ++ h))) (Z.of_nat (length (d ++ h))) ->
  h.*1 = seqZ (n - Z.of_nat (length h)) (Z.of_nat (length h)).
Proof.
  rewrite fmap_app, length_app, Nat2Z.inj_add, seqZ_app by lia. intros H.
  apply app_inj_2 in H as [_ H].
  - rewrite H. f_equal. lia.
  - rewrite length_seqZ, length_fmap. lia.
Qed.

Lemma new_stream_consecutive id t : consecutive (new_stream id t).
Proof. done. Qed.

Lemma acknowledge_consecutive s ack :
  stream_wf s -> consecutive s -> consecutive (acknowledge_up_to ack s).
Proof.
  intros Hwf Hc. destruct (acknowledge_history s ack Hwf) as (d & Hd & _).
  unfold consecutive in *. rewrite (proj1 (acknowledge_next s ack)).
  eapply consecutive_suffix. by rewrite <- Hd.
Qed.

Lemma send_chunk_consecutive s p :
  stream_wf s -> consecutive s -> 0 <= next_out_seq s < U64_MAX ->
  consecutive (send_chunk p s).2.
Proof.
  intros [Hb Hcap] Hc Hn. unfold consecutive in *. simpl.
  set (s' := set_next_out s (wrap 64 (next_out_seq s + 1))).
  destruct (record_send_history s' (next_out_seq s) p) as (d & Hd & _); [by split|].
  rewrite (proj1 (record_send_next s' _ p)). eapply consecutive_suffix.
  rewrite <- Hd. subst s'. simpl. rewrite wrap64_succ by lia.
  rewrite fmap_app, length_app, Nat2Z.inj_add, seqZ_app by (simpl; lia).
  f_equal.
  - rewrite Hc. f_equal. simpl. lia.
  - simpl. rewrite seqZ_cons, seqZ_nil by lia. f_equal. lia.
Qed.

#[export] Hint Resolve new_stream_consecutive acknowledge_consecutive
  send_chunk_consecutive : etr.

(** ** Replay *)

Lemma consecutive_bounds (h : list chunk) n c :
  h.*1 = seqZ (n - Z.of_nat (length h)) (Z.of_nat (length h)) ->
  c ∈ h -> n - Z.of_nat (length h) <= c.1 < n.
Proof.
  intros Hh Hc. assert (c.1 ∈ h.*1) as Hin by by apply list_elem_of_fmap_2.
  rewrite Hh in Hin. apply elem_of_seqZ in Hin. lia.
Qed.

(** In a consecutively numbered history the chunks above a watermark are a
    suffix, so after the acknowledgement nothing remains to be filtered. *)
Lemma consecutive_above (h : list chunk) n ack :
  h.*1 = seqZ (n - Z.of_nat (length h)) (Z.of_nat (length h)) ->
  (forall c h', h = c :: h' -> ack < c.1) ->
  filter (fun c : chunk => ack < c.1) h = h.
Proof.
  intros Hh Hhd. destruct h as [|c h]; [done|].
  specialize (Hhd c h eq_refl).
  apply list_filter_all. intros c' Hc'.
  pose proof (consecutive_bounds _ _ _ Hh Hc') as Hb.
  assert (c.1 = n - Z.of_nat (length (c :: h))) as Hc1; [|lia].
  simpl in Hh. rewrite seqZ_cons in Hh by lia. by simplify_eq.
Qed.

Lemma replay_after_acknowledge s ack :
  stream_wf s -> consecutive s ->
  replay_from ack (acknowledge_up_to ack s) = send_history (acknowledge_up_to ack s).
Proof.
  intros Hwf Hc. destruct (acknowledge_history s ack Hwf) as (d & _ & _ & _ & Hhd).
  eapply consecutive_above; [|done]. by apply acknowledge_consecutive.
Qed.

(** Trimming what the peer has acknowledged loses nothing the peer still lacks. *)
Lemma replay_unaffected_by_acknowledge s ack w :
  stream_wf s -> ack <= w ->
  replay_from w (acknowledge_up_to ack s) = replay_from w s.
Proof.
  intros Hwf Hw. destruct (acknowledge_history s ack Hwf) as (d & Hd & _ & Hf & _).
  unfold replay_from. rewrite Hd, filter_app.
  assert (filter (fun c : chunk => w < c.1) d = []) as ->; [|done].
  rewrite Forall_forall in Hf. apply list_filter_none.
  intros c Hc. specialize (Hf c Hc). lia.
Qed.

(** ** Numbered logs

    The chunks sent so far, in order, with the numbers [send_chunk] gave them. *)

Definition numbered (from : Z) (ps : list (list u8)) : list chunk :=
  zip (seqZ from (Z.of_nat (length ps))) ps.

Lemma length_numbered from ps : length (numbered from ps) = length ps.
Proof. unfold numbered. rewrite length_zip_with, length_seqZ. lia. Qed.

Lemma numbered_fst from ps : (numbered from ps).*1 = seqZ from (Z.of_nat (length ps)).
Proof. unfold numbered. rewrite fst_zip; [done|]. rewrite length_seqZ. lia. Qed.

Lemma numbered_snd from ps : (numbered from ps).*2 = ps.
Proof. unfold numbered. rewrite snd_zip; [done|]. rewrite length_seqZ. lia. Qed.

Lemma numbered_cons from p ps : numbered from (p :: ps) = (from, p) :: numbered (from + 1) ps.
Proof.
  unfold numbered. simpl length. rewrite Nat2Z.inj_succ, seqZ_cons by lia. simpl.
  by rewrite Z.pred_succ.
Qed.

Lemma numbered_app from ps qs :
  numbered from (ps ++ qs) = numbered from ps ++ numbered (from + Z.of_nat (length ps)) qs.
Proof.
  revert from. induction ps as [|p ps IH]; intros from; [simpl; f_equal; lia|].
  simpl app. rewrite !numbered_cons, IH. simpl. do 3 f_equal. lia.
Qed.

Lemma numbered_snoc ps p :
  numbered 1 (ps ++ [p]) = numbered 1 ps ++ [(Z.of_nat (length ps) + 1, p)].
Proof.
  rewrite numbered_app, numbered_cons. unfold numbered at 2. simpl.
  do 3 f_equal. lia.
Qed.

Lemma numbered_lookup from ps i c :
  numbered from ps !! i = Some c -> c.1 = from + Z.of_nat i /\ ps !! i = Some c.2.
Proof.
  revert from i. induction ps as [|p ps IH]; intros from i; [by destruct i|].
  rewrite numbered_cons. destruct i as [|i]; simpl.
  - intros; simplify_eq/=. split; [lia|done].
  - intros [-> ?]%IH. split; [lia|done].
Qed.

Lemma numbered_lookup_2 from ps i p :
  ps !! i = Some p -> numbered from ps !! i = Some (from + Z.of_nat i, p).
Proof.
  revert from i. induction ps as [|q ps IH]; intros from i; [by destruct i|].
  rewrite numbered_cons. destruct i as [|i]; simpl.
  - intros; simplify_eq/=. by rewrite Z.add_0_r.
  - intros ->%(IH (from + 1)). do 2 f_equal. lia.
Qed.

Lemma numbered_take from n ps : take n (numbered from ps) = numbered from (take n ps).
Proof.
  revert from n. induction ps as [|p ps IH]; intros from n; [by destruct n|].
  destruct n; [done|]. rewrite numbered_cons. simpl. by rewrite numbered_cons, IH.
Qed.

Lemma numbered_drop from n ps :
  drop n (numbered from ps) = numbered (from + Z.of_nat (n `min` length ps)) (drop n ps).
Proof.
  revert from n. induction ps as [|p ps IH]; intros from n; [by destruct n|].
  destruct n as [|n]; [by rewrite Z.add_0_r|]. rewrite numbered_cons. simpl drop.
  rewrite IH. f_equal. simpl length. lia.
Qed.

Lemma history_size_numbered from ps : history_size (numbered from ps) = total_len ps.
Proof. unfold history_size. by rewrite numbered_snd. Qed.

(** Filtering a numbered log by a watermark drops a prefix of it. *)
Lemma numbered_filter k w ps :
  (k <= w)%nat ->
  filter (fun c : chunk => Z.of_nat w < c.1) (drop k (numbered 1 ps)) = drop w (numbered 1 ps).
Proof.
  intros Hk. rewrite <- (take_drop (w - k) (drop k (numbered 1 ps))), filter_app.
  rewrite drop_drop. replace (k + (w - k))%nat with w by lia.
  rewrite list_filter_none, list_filter_all; [done|..].
  - intros c [i Hi]%list_elem_of_lookup. rewrite lookup_drop in Hi.
    apply numbered_lookup in Hi as [-> _]. lia.
  - intros c [i Hi]%list_elem_of_lookup.
    apply lookup_take_Some in Hi as [Hi Hlt]. rewrite lookup_drop in Hi.
    apply numbered_lookup in Hi as [-> _]. lia.
Qed.

(** ** Runs of a stream *)

(** What the two programs do to a stream: send a chunk, process an
    acknowledgement, note a received chunk. *)
Inductive stream_op : Type :=
| OpSend (payload : list u8)
| OpAck (ack_seq : u64)
| OpRecv (seq_num : u64).

Definition apply_op (s : StreamState) (op : stream_op) : StreamState :=
  match op with
  | OpSend p => (send_chunk p s).2
  | OpAck a => acknowledge_up_to a s
  | OpRecv q => note_received q s
  end.

Definition run_ops (ops : list stream_op) (s : StreamState) : StreamState :=
  fold_left apply_op ops s.

(** The chunks a run sends, in order, and the acknowledgements it processes. *)
Definition sent_log (ops : list stream_op) : list (list u8) :=
  omap (fun op => match op with OpSend p => Some p | _ => None end) ops.
Definition acks_of (ops : list stream_op) : list Z :=
  omap (fun op => match op with OpAck a => Some a | _ => None end) ops.

(** The first retained chunk is preceded by one that was acknowledged, or that
    no longer fits under the cap together with everything sent after it. *)
Definition cut_justified (log : list (list u8)) (acks : list Z) (k : nat) : Prop :=
  forall j, k = S j ->
    Exists (fun a => Z.of_nat k <= a) acks \/ MAX_HISTORY_BYTES < total_len (drop j log).

Record stream_run (log : list (list u8)) (acks : list Z) (k : nat) (s : StreamState) : Prop := {
  run_next : next_out_seq s = 1 + Z.of_nat (length log);
  run_cut : (k <= length log)%nat;
  run_history : send_history s = drop k (numbered 1 log);
  run_wf : stream_wf s;
  run_justified : cut_justified log acks k
}.

Lemma drop_suffix_eq {A} (l d h : list A) :
  l = d ++ h -> h = drop (length d) l.
Proof. intros ->. by rewrite drop_app_length. Qed.

Lemma cut_justified_weaken log acks k p a :
  cut_justified log acks k -> (k <= length log)%nat ->
  cut_justified (log ++ [p]) (acks ++ a) k.
Proof.
  intros Hj Hk j ->. destruct (Hj j eq_refl) as [Ha|Hb].
  - left. apply Exists_app. by left.
  - right. rewrite drop_app_le, total_len_app by lia.
    pose proof (total_len_nonneg [p]). lia.
Qed.

Lemma stream_run_send log acks k s p :
  stream_run log acks k s -> Z.of_nat (length log) + 1 < U64_MAX ->
  exists k', stream_run (log ++ [p]) acks k' (send_chunk p s).2 /\
    (history_bytes s + Z.of_nat (length p) <= MAX_HISTORY_BYTES -> k' = k).
Proof.
  intros [Hn Hk Hh Hwf Hj] Hlen. simpl.
  set (s' := set_next_out s (wrap 64 (next_out_seq s + 1))).
  assert (stream_wf s') as Hwf' by (by destruct Hwf).
  destruct (record_send_history s' (next_out_seq s) p Hwf') as (d & Hd & Hwf'' & Hmax).
  subst s'. simpl in Hd. rewrite Hh, Hn in Hd.
  replace (drop k (numbered 1 log) ++ _) with (drop k (numbered 1 (log ++ [p]))) in Hd.
  2: { rewrite numbered_snoc, drop_app_le by (by rewrite length_numbered). do 3 f_equal. lia. }
  assert (length d <= length log + 1 - k)%nat as Hdk.
  { apply (f_equal length) in Hd.
    rewrite length_drop, length_numbered, !length_app in Hd. simpl in Hd. lia. }
  exists (k + length d)%nat. split; [split|].
  - rewrite (proj1 (record_send_next _ _ _)). simpl.
    rewrite wrap64_succ by (rewrite Hn; lia). rewrite length_app. simpl. lia.
  - rewrite length_app. simpl. lia.
  - rewrite Hn in *. apply drop_suffix_eq in Hd. by rewrite drop_drop in Hd.
  - done.
  - intros j Hj'. destruct d as [|c d _] using rev_ind.
    + simpl in Hj'. rewrite Nat.add_0_r in Hj' |- *.
      destruct (cut_justified_weaken log acks k p [] Hj Hk j Hj'); [left|by right].
      by rewrite app_nil_r in *.
    + right. rewrite length_app in Hj'. simpl in Hj'.
      rewrite Hn in *. specialize (Hmax d c eq_refl).
      rewrite <- app_assoc in Hd. apply drop_suffix_eq in Hd. simpl in Hd.
      rewrite Hd, drop_drop, numbered_drop, history_size_numbered in Hmax.
      by replace j with (k + length d)%nat by lia.
  - intros Hfit. apply (f_equal length) in Hd.
    rewrite record_send_fits, length_drop, length_numbered, !length_app in Hd by done.
    simpl in Hd. rewrite Hh, length_drop, length_numbered in Hd. lia.
Qed.

Lemma stream_run_ack log acks k s a :
  stream_run log acks k s ->
  exists k', stream_run log (acks ++ [a]) k' (acknowledge_up_to a s) /\
    k' = (k `max` (Z.to_nat a `min` length log))%nat.
Proof.
  intros [Hn Hk Hh Hwf Hj].
  destruct (acknowledge_history s a Hwf) as (d & Hd & Hwf' & Hf & Hhd).
  rewrite Hh in Hd. exists (k + length d)%nat.
  assert (length d <= length log - k)%nat as Hdk.
  { apply (f_equal length) in Hd. rewrite length_drop, length_numbered, length_app in Hd. lia. }
  split; [split; [by rewrite (proj1 (acknowledge_next s a))|lia| |done|]|].
  - apply drop_suffix_eq in Hd. by rewrite drop_drop in Hd.
  - intros j Hj'. destruct d as [|c d _] using rev_ind.
    + simpl in *. rewrite Nat.add_0_r in *. destruct (Hj j Hj'); [left|by right].
      apply Exists_app. by left.
    + left. apply Exists_app. right. constructor.
      rewrite Forall_app, Forall_singleton in Hf. destruct Hf as [_ Hf].
      rewrite <- app_assoc in Hd. rewrite length_app in *. simpl in *.
      assert (numbered 1 log !! (k + length d)%nat = Some c) as Hl.
      { rewrite <- lookup_drop, Hd. by rewrite list_lookup_middle. }
      apply numbered_lookup in Hl as [Hl _]. lia.
  - assert (forall i c, d !! i = Some c -> Z.of_nat (k + i) < a) as Hd1.
    { intros i c Hi. assert (c.1 <= a) by (rewrite Forall_lookup in Hf; eauto).
      assert (numbered 1 log !! (k + i)%nat = Some c) as Hl.
      { rewrite <- lookup_drop, Hd. by rewrite lookup_app_l by (by eapply lookup_lt_Some). }
      apply numbered_lookup in Hl as [Hl _]. lia. }
    assert ((k + length d)%nat = length log \/ a <= Z.of_nat (k + length d)) as Hd2.
    { destruct (send_history (acknowledge_up_to a s)) as [|c h] eqn:Eh.
      - left. apply (f_equal length) in Hd.
        rewrite app_nil_r, length_drop, length_numbered in Hd. lia.
      - right. specialize (Hhd c h eq_refl).
        assert (numbered 1 log !! (k + length d)%nat = Some c) as Hl.
        { rewrite <- lookup_drop, Hd. by rewrite list_lookup_middle. }
        apply numbered_lookup in Hl as [Hl _]. lia. }
    destruct d as [|c d _] using rev_ind; simpl in *; [lia|].
    rewrite length_app in *. simpl in *.
    specialize (Hd1 (length d) c). rewrite list_lookup_middle in Hd1 by done.
    specialize (Hd1 eq_refl). lia.
Qed.

Lemma stream_run_ops ops id t :
  Z.of_nat (length (sent_log ops)) < U64_MAX ->
  exists k, stream_run (sent_log ops) (acks_of ops) k (run_ops ops (new_stream id t)).
Proof.
  induction ops as [|op ops IH] using rev_ind; intros Hlen.
  { exists 0%nat. split; [done|simpl; lia|done|apply new_stream_wf|by intros j ?]. }
  unfold run_ops, sent_log, acks_of in *. rewrite fold_left_app, !omap_app in *.
  rewrite length_app in Hlen. simpl in *. destruct IH as [k Hk]; [lia|].
  destruct op as [p|a|q]; simpl in *; rewrite ?app_nil_r.
  - destruct (stream_run_send _ _ _ _ p Hk) as (k' & ? & _); [lia|by exists k'].
  - destruct (stream_run_ack _ _ _ _ a Hk) as (k' & ? & _). by exists k'.
  - exists k. destruct Hk as [? ? ? [] ?]. by split.
Qed.

(** ** Properties *)

(** C12: after any run of sends, acknowledgements and receptions on a new
    stream, the replay history is exactly the tail of the log of chunks sent,
    under their original consecutive numbers, the byte counter is its byte
    total and is at most [MAX_HISTORY_BYTES], and everything in front of the
    tail was acknowledged or no longer fits in the cap with what follows it. *)
Theorem stream_history_window ops id t :
  Z.of_nat (length (sent_log ops)) < U64_MAX ->
  let s := run_ops ops (new_stream id t) in
  let log := sent_log ops in
  exists k, (k <= length log)%nat /\
    send_history s = drop k (numbered 1 log) /\
    history_bytes s = total_len (drop k log) /\ history_bytes s <= MAX_HISTORY_BYTES /\
    (k = 0%nat \/ Exists (fun a => Z.of_nat k <= a) (acks_of ops) \/
     MAX_HISTORY_BYTES < total_len (drop (k - 1) log)).
Proof.
  intros Hlen s log. subst s log. destruct (stream_run_ops ops id t Hlen) as [k [Hn Hk Hh [Hb Hc] Hj]].
  exists k. split; [done|]. split; [done|].
  split; [by rewrite Hb, Hh, numbered_drop, history_size_numbered|]. split; [done|].
  destruct k as [|k]; [by left|right]. destruct (Hj k eq_refl); [by left|right].
  by replace (S k - 1)%nat with k by lia.
Qed.

Definition sample_ops : list stream_op :=
  [OpSend [1; 2]; OpSend [3]; OpAck 1; OpRecv 7; OpSend [4]].

Lemma stream_history_window_witness :
  Z.of_nat (length (sent_log sample_ops)) < U64_MAX /\
  send_history (run_ops sample_ops (new_stream 0 Terminal)) = [(2, [3]); (3, [4])] /\
  exists k, (k <= 3)%nat /\
    send_history (run_ops sample_ops (new_stream 0 Terminal)) = drop k (numbered 1 [[1; 2]; [3]; [4]]).
Proof.
  split; [reflexivity|]. split; [reflexivity|].
  destruct (stream_history_window sample_ops 0 Terminal) as (k & Hk & Hh & _); [reflexivity|].
  exists k. split; [exact Hk|exact Hh].
Defined.

(** C11: a chunk is replayed as long as it matters: after any run, a chunk that
    no acknowledgement covers and that was followed by at most
    [MAX_HISTORY_BYTES] bytes, itself included, is among the chunks
    [replay_from] returns to a peer that has not received it, under its own
    number. *)
Theorem unacknowledged_chunk_is_replayed ops id t j p w :
  Z.of_nat (length (sent_log ops)) < U64_MAX ->
  sent_log ops !! j = Some p ->
  Forall (fun a => a <= Z.of_nat j) (acks_of ops) ->
  total_len (drop j (sent_log ops)) <= MAX_HISTORY_BYTES ->
  w <= Z.of_nat j ->
  (Z.of_nat j + 1, p) ∈ replay_from w (run_ops ops (new_stream id t)).
Proof.
  intros Hlen Hp Ha Hb Hw. destruct (stream_run_ops ops id t Hlen) as [k [Hn Hk Hh _ Hj]].
  unfold replay_from. apply list_elem_of_filter. split; [simpl; lia|]. rewrite Hh.
  apply list_elem_of_lookup. exists (j - k)%nat. rewrite lookup_drop.
  assert (k <= j)%nat as Hkj.
  { destruct (decide (k <= j)%nat) as [|Hlt]; [done|]. destruct k as [|k]; [lia|].
    destruct (Hj k eq_refl) as [He|Hm].
    - apply Exists_exists in He as (a & Hin & Hle). rewrite Forall_forall in Ha.
      specialize (Ha a Hin). lia.
    - assert (total_len (drop k (sent_log ops)) <= total_len (drop j (sent_log ops))); [|lia].
      replace k with (j + (k - j))%nat by lia. rewrite <- drop_drop.
      rewrite <- (take_drop (k - j) (drop j (sent_log ops))) at 2. rewrite total_len_app.
      pose proof (total_len_nonneg (take (k - j) (drop j (sent_log ops)))). lia. }
  replace (k + (j - k))%nat with j by lia.
  rewrite (numbered_lookup_2 _ _ _ _ Hp). do 2 f_equal. lia.
Qed.

Lemma unacknowledged_chunk_is_replayed_witness :
  (2, [3]) ∈ replay_from 1 (run_ops sample_ops (new_stream 0 Terminal)).
Proof.
  apply (unacknowledged_chunk_is_replayed sample_ops 0 Terminal 1%nat [3] 1);
    [reflexivity|reflexivity| |vm_compute; discriminate|reflexivity].
  constructor; [discriminate|constructor].
Defined.

(** Acknowledging first and replaying afterwards, in the order the
    handshake does it, loses nothing: for every peer watermark at or above the
    acknowledgement the replay is the same as without it, and at the watermark
    itself it is the whole remaining history. *)
Theorem acknowledge_then_replay ops id t ack w :
  Z.of_nat (length (sent_log ops)) < U64_MAX -> ack <= w ->
  let s := run_ops ops (new_stream id t) in
  replay_from w (acknowledge_up_to ack s) = replay_from w s /\
  replay_from ack s = send_history (acknowledge_up_to ack s).
Proof.
  intros Hlen Hw s. destruct (stream_run_ops ops id t Hlen) as [k [Hn Hk Hh Hwf _]].
  fold s in Hn, Hh, Hwf. split; [by apply replay_unaffected_by_acknowledge|].
  rewrite <- (replay_unaffected_by_acknowledge s ack ack Hwf) by lia.
  apply replay_after_acknowledge; [done|].
  unfold consecutive. rewrite Hh, Hn, length_drop, length_numbered, numbered_drop, numbered_fst.
  rewrite length_drop. f_equal; lia.
Qed.

Lemma acknowledge_then_replay_witness :
  let s := run_ops sample_ops (new_stream 0 Terminal) in
  replay_from 2 (acknowledge_up_to 2 s) = [(3, [4])] /\
  replay_from 2 s = send_history (acknowledge_up_to 2 s).
Proof.
  destruct (acknowledge_then_replay sample_ops 0 Terminal 2 2 eq_refl (Z.le_refl 2)) as [H1 H2].
  split; [rewrite H1; reflexivity|exact H2].
Defined.
