(* ===== verification/Session.v ===== *)
(** Session state: the streams of a session and the handshake operations on
    them ([src/session/mod.rs]).

    The stream table is a finite map; [last_received_map] is the watermark
    snapshot of the handshake, [apply_server_acks] trims every acknowledged
    history, [collect_replays] is what must be sent again. *)
From S2P Require Import Prelude Text Protocol Stream.

Open Scope Z_scope.

Record SessionState : Type := mkSession {
  session_id : list u8;
  passkey : str;
  streams : gmap Z StreamState
}.

Definition set_streams (st : SessionState) (m : gmap Z StreamState) : SessionState :=
  {| session_id := session_id st; passkey := passkey st; streams := m |}.

(** [SessionState::new]: stream 0, the terminal, is open from the start. *)
Definition new_session (id : list u8) (key : str) : SessionState :=
  {| session_id := id; passkey := key;
     streams := <[0 := new_stream 0 Terminal]> ∅ |}.

(** [entry(id).or_insert_with(..)], with the stream the reference points to. *)
Definition open_stream (id : u32) (t : StreamType) (st : SessionState)
    : StreamState * SessionState :=
  match streams st !! id with
  | Some s => (s, st)
  | None => (new_stream id t, set_streams st (<[id := new_stream id t]> (streams st)))
  end.

Definition stream (id : u32) (st : SessionState) : option StreamState :=
  streams st !! id.

(** A write through the reference of [stream_mut], when there is one. *)
Definition stream_mut (id : u32) (f : StreamState -> StreamState) (st : SessionState)
    : SessionState :=
  set_streams st (alter f id (streams st)).

Definition close_stream (id : u32) (st : SessionState) : SessionState :=
  stream_mut id (fun s => set_lifecycle s Closed) st.

Definition last_received_map (st : SessionState) : gmap Z Z :=
  omap (fun s => checked_sub (next_in_seq s) 1) (streams st).

(** The loop over the peer's map; the iteration order of a [HashMap] is
    unspecified, and the updates of distinct streams commute. *)
Definition apply_server_acks (server_acks : gmap Z Z) (st : SessionState) : SessionState :=
  set_streams st
    (map_fold (fun id ack m => alter (acknowledge_up_to ack) id m)
              (streams st) server_acks).

Definition collect_replays (peer_last_received : gmap Z Z) (st : SessionState)
    : gmap Z (list chunk) :=
  map_imap (fun id s =>
    let last := default 0 (peer_last_received !! id) in
    let replays := replay_from last s in
    match replays with [] => None | _ => Some replays end) (streams st).

(** ** Lookups *)

Lemma apply_acks_fold_lookup (m : gmap Z StreamState) (acks : gmap Z Z) id :
  map_fold (fun id ack m => alter (acknowledge_up_to ack) id m) m acks !! id =
  match acks !! id with
  | Some a => acknowledge_up_to a <$> m !! id
  | None => m !! id
  end.
Proof.
  apply (map_fold_weak_ind
    (fun r acks => forall id, r !! id = match acks !! id with
       | Some a => acknowledge_up_to a <$> m !! id | None => m !! id end)).
  - intros i. by rewrite lookup_empty.
  - clear. intros k a acks r Hk IH id.
    destruct (decide (id = k)) as [->|Hne].
    + rewrite lookup_alter_eq, lookup_insert_eq, IH. by rewrite Hk.
    + rewrite lookup_alter_ne, lookup_insert_ne, IH by done. done.
Qed.

Lemma stream_apply_acks id acks st :
  stream id (apply_server_acks acks st) =
  match acks !! id with
  | Some a => acknowledge_up_to a <$> stream id st
  | None => stream id st
  end.
Proof. apply apply_acks_fold_lookup. Qed.

Lemma stream_mut_eq id f st : stream id (stream_mut id f st) = f <$> stream id st.
Proof. apply lookup_alter_eq. Qed.

Lemma stream_mut_ne id id' f st : id <> id' -> stream id' (stream_mut id f st) = stream id' st.
Proof. intros. by apply lookup_alter_ne. Qed.

Lemma last_received_lookup id st :
  last_received_map st !! id =
  stream id st ≫= fun s => checked_sub (next_in_seq s) 1.
Proof. apply lookup_omap. Qed.

Lemma collect_replays_lookup id w st :
  collect_replays w st !! id =
  stream id st ≫= fun s =>
    match replay_from (default 0 (w !! id)) s with [] => None | r => Some r end.
Proof.
  unfold collect_replays, stream. rewrite map_lookup_imap.
  destruct (streams st !! id) as [s|]; [|done]. simpl.
  by destruct (replay_from _ s).
Qed.

(** ** The invariant of a session *)

(** Every stream is well formed and filed under its own id, and the terminal
    stream exists. *)
Record session_wf (st : SessionState) : Prop := {
  wf_streams : forall id s, stream id st = Some s -> stream_wf s /\ stream_id s = id;
  wf_terminal : is_Some (stream 0 st)
}.

Lemma stream_mut_wf id f st :
  (forall s, stream_wf s -> stream_id s = id -> stream_wf (f s) /\ stream_id (f s) = id) ->
  session_wf st -> session_wf (stream_mut id f st).
Proof.
  intros Hf [Hs Ht]. split.
  - intros id' s'. destruct (decide (id = id')) as [<-|Hne].
    + rewrite stream_mut_eq, fmap_Some. intros (s & Hst & ->).
      destruct (Hs _ _ Hst). by apply Hf.
    + rewrite stream_mut_ne by done. apply Hs.
  - destruct (decide (id = 0)) as [->|Hne].
    + rewrite stream_mut_eq. by apply fmap_is_Some.
    + by rewrite stream_mut_ne.
Qed.

Lemma acknowledge_stream_id a s : stream_id (acknowledge_up_to a s) = stream_id s.
Proof. unfold acknowledge_up_to. by destruct (drop_acked _ _ _). Qed.

Lemma send_chunk_stream_id p s : stream_id (send_chunk p s).2 = stream_id s.
Proof. unfold send_chunk, record_send. simpl. by destruct (evict _ _). Qed.

Lemma new_session_wf id key : session_wf (new_session id key).
Proof.
  split; [|unfold stream; simpl; rewrite lookup_insert_eq; by eexists].
  intros i s. unfold stream, new_session; simpl. intros H.
  destruct (decide (i = 0)) as [->|].
  - rewrite lookup_insert_eq in H. simplify_eq. by split.
  - by rewrite lookup_insert_ne in H.
Qed.

Lemma open_stream_wf id t st :
  session_wf st -> session_wf (open_stream id t st).2.
Proof.
  intros [Hs Ht]. unfold open_stream. destruct (streams st !! id) eqn:E; [by split|].
  unfold stream in *. split; simpl.
  - intros i s. destruct (decide (i = id)) as [->|].
    + unfold stream; simpl. rewrite lookup_insert_eq. intros; simplify_eq. by split.
    + unfold stream; simpl. rewrite lookup_insert_ne by done. apply Hs.
  - unfold stream; simpl. destruct (decide (id = 0)) as [->|].
    + rewrite lookup_insert_eq. by eexists.
    + by rewrite lookup_insert_ne.
Qed.

Lemma close_stream_wf id st : session_wf st -> session_wf (close_stream id st).
Proof. apply stream_mut_wf. intros s [] ?. by split; [split|]. Qed.

Lemma apply_acks_wf acks st : session_wf st -> session_wf (apply_server_acks acks st).
Proof.
  intros [Hs Ht]. split.
  - intros id s'. rewrite stream_apply_acks. destruct (acks !! id) as [a|]; [|apply Hs].
    rewrite fmap_Some. intros (s & Hst & ->). destruct (Hs _ _ Hst) as [Hwf <-].
    split; [by apply acknowledge_wf|apply acknowledge_stream_id].
  - rewrite stream_apply_acks. destruct (acks !! 0); [by apply fmap_is_Some|done].
Qed.

#[export] Hint Resolve new_session_wf open_stream_wf close_stream_wf apply_acks_wf : etr.

(** ** Runs of a session *)

Inductive session_op : Type :=
| SOpen (id : u32) (t : StreamType)
| SClose (id : u32)
| SStream (id : u32) (op : stream_op)
| SAcks (acks : gmap Z Z).

Definition apply_session_op (st : SessionState) (op : session_op) : SessionState :=
  match op with
  | SOpen id t => (open_stream id t st).2
  | SClose id => close_stream id st
  | SStream id op => stream_mut id (fun s => apply_op s op) st
  | SAcks acks => apply_server_acks acks st
  end.

Definition run_session_ops (ops : list session_op) (st : SessionState) : SessionState :=
  fold_left apply_session_op ops st.

(** Every stream of the session is the outcome of a run of stream operations
    on a new stream, up to its lifecycle. *)
Definition stream_reachable (n : nat) (s : StreamState) : Prop :=
  exists log acks k, stream_run log acks k s /\ (length log <= n)%nat.

Definition session_reachable (n : nat) (st : SessionState) : Prop :=
  session_wf st /\ forall id s, stream id st = Some s -> stream_reachable n s.

Lemma stream_reachable_weaken n m s :
  (n <= m)%nat -> stream_reachable n s -> stream_reachable m s.
Proof. intros Hle (log & acks & k & Hr & Hl). exists log, acks, k. split; [done|lia]. Qed.

Lemma new_stream_reachable n id t : stream_reachable n (new_stream id t).
Proof.
  exists [], [], 0%nat. split; [|simpl; lia].
  split; [done|simpl; lia|done|apply new_stream_wf|by intros j ?].
Qed.

Lemma apply_op_reachable n s op :
  Z.of_nat n + 1 < U64_MAX -> stream_reachable n s -> stream_reachable (S n) (apply_op s op).
Proof.
  intros Hn (log & acks & k & Hr & Hl). destruct op as [p|a|q]; simpl.
  - destruct (stream_run_send log acks k s p Hr) as (k' & Hk' & _); [lia|].
    exists (log ++ [p]), acks, k'. split; [done|]. rewrite length_app. simpl. lia.
  - destruct (stream_run_ack log acks k s a Hr) as (k' & Hk' & _).
    exists log, (acks ++ [a]), k'. split; [done|lia].
  - exists log, acks, k. split; [|lia]. destruct Hr as [? ? ? [] ?]. by split.
Qed.

Lemma ack_reachable n s a : stream_reachable n s -> stream_reachable n (acknowledge_up_to a s).
Proof.
  intros (log & acks & k & Hr & Hl). destruct (stream_run_ack log acks k s a Hr) as (k' & Hk' & _).
  exists log, (acks ++ [a]), k'. by split.
Qed.

Lemma apply_op_stream_id s op : stream_id (apply_op s op) = stream_id s.
Proof. destruct op; simpl; [apply send_chunk_stream_id|apply acknowledge_stream_id|done]. Qed.

Lemma apply_op_wf s op : stream_wf s -> stream_wf (apply_op s op).
Proof.
  intros Hs. destruct op; [by apply send_chunk_wf|by apply acknowledge_wf|by destruct Hs].
Qed.

Lemma apply_session_op_reachable n st op :
  Z.of_nat n + 1 < U64_MAX -> session_reachable n st ->
  session_reachable (S n) (apply_session_op st op).
Proof.
  intros Hn [Hwf Hs]. split.
  - destruct op; simpl; auto with etr. apply stream_mut_wf; [|done].
    intros s ? <-. split; [by apply apply_op_wf|apply apply_op_stream_id].
  - intros id s. destruct op as [i t|i|i op|acks]; simpl.
    + unfold open_stream, stream in *. case_match eqn:E; simpl.
      { intros; eapply stream_reachable_weaken; [|by eapply Hs]; lia. }
      destruct (decide (id = i)) as [->|]; rewrite ?lookup_insert_eq, ?lookup_insert_ne by done.
      * intros; simplify_eq. apply new_stream_reachable.
      * intros; eapply stream_reachable_weaken; [|by eapply Hs]; lia.
    + unfold close_stream. destruct (decide (i = id)) as [->|].
      * rewrite stream_mut_eq, fmap_Some. intros (s' & Hs' & ->).
        destruct (Hs _ _ Hs') as (log & acks & k & [? ? ? [] ?] & ?).
        exists log, acks, k. split; [by split|lia].
      * rewrite stream_mut_ne by done. intros; eapply stream_reachable_weaken; [|by eapply Hs]; lia.
    + destruct (decide (i = id)) as [->|].
      * rewrite stream_mut_eq, fmap_Some. intros (s' & Hs' & ->).
        apply apply_op_reachable; [done|by eapply Hs].
      * rewrite stream_mut_ne by done. intros; eapply stream_reachable_weaken; [|by eapply Hs]; lia.
    + rewrite stream_apply_acks. intros Hst. apply (stream_reachable_weaken n); [lia|].
      destruct (acks !! id); [|by eapply Hs].
      apply fmap_Some in Hst as (s' & Hs' & ->). apply ack_reachable. by eapply Hs.
Qed.

Lemma run_session_ops_reachable ops sid key :
  Z.of_nat (length ops) < U64_MAX ->
  session_reachable (length ops) (run_session_ops ops (new_session sid key)).
Proof.
  induction ops as [|op ops IH] using rev_ind; intros Hlen.
  - split; [apply new_session_wf|]. intros i s. unfold stream, new_session; simpl.
    intros Hl. destruct (decide (i = 0)) as [->|].
    + rewrite lookup_insert_eq in Hl. simplify_eq. apply new_stream_reachable.
    + by rewrite lookup_insert_ne in Hl.
  - rewrite length_app in Hlen |- *. simpl in *. unfold run_session_ops.
    rewrite fold_left_app. simpl. rewrite Nat.add_comm.
    apply apply_session_op_reachable; [lia|]. apply IH. lia.
Qed.

Lemma stream_reachable_consecutive n s :
  stream_reachable n s -> stream_wf s /\ consecutive s.
Proof.
  intros (log & acks & k & [Hn Hk Hh Hwf _] & _). split; [done|].
  unfold consecutive. rewrite Hh, Hn, length_drop, length_numbered, numbered_drop, numbered_fst.
  rewrite length_drop. f_equal; lia.
Qed.

(** ** Properties *)

(** C14: after any run of session operations, every stream is filed under its
    own id, its byte counter is exact and within the cap, its history carries
    consecutive numbers ending just below the next one to be assigned, and the
    terminal stream exists (the binaries [expect] it on every chunk). *)
Theorem session_invariant ops sid key :
  Z.of_nat (length ops) < U64_MAX ->
  let st := run_session_ops ops (new_session sid key) in
  is_Some (stream 0 st) /\
  forall id s, stream id st = Some s ->
    stream_id s = id /\ history_bytes s = history_size (send_history s) /\
    history_bytes s <= MAX_HISTORY_BYTES /\
    (send_history s).*1 =
      seqZ (next_out_seq s - Z.of_nat (length (send_history s)))
           (Z.of_nat (length (send_history s))).
Proof.
  intros Hlen st. destruct (run_session_ops_reachable ops sid key Hlen) as [[Hwf Ht] Hr].
  split; [done|]. intros id s Hs. destruct (Hwf id s Hs) as [[Hb Hc] Hid].
  by destruct (stream_reachable_consecutive _ _ (Hr id s Hs)) as [_ Hcons].
Qed.

Definition sample_session_ops : list session_op :=
  [SStream 0 (OpSend [1; 2]); SOpen 7 PortForward; SStream 7 (OpSend [5]);
   SStream 0 (OpSend [3]); SStream 0 (OpRecv 4); SAcks {[0 := 1; 9 := 3]}; SClose 7].

Lemma session_invariant_witness :
  Z.of_nat (length sample_session_ops) < U64_MAX /\
  send_history <$> stream 0 (run_session_ops sample_session_ops (new_session [] [])) = Some [(2, [3])] /\
  is_Some (stream 0 (run_session_ops sample_session_ops (new_session [] []))).
Proof.
  split; [reflexivity|]. split; [vm_compute; reflexivity|].
  apply (session_invariant sample_session_ops [] []). reflexivity.
Defined.

(** The handshake: after the acknowledgements of the peer's watermark map
    are applied, the replays collected for the same map are, stream by stream,
    everything that the trimmed history still holds, and equal what would have
    been collected without trimming; a stream has an entry exactly when that
    is not empty. *)
Theorem handshake_replays ops sid key w id s :
  Z.of_nat (length ops) < U64_MAX ->
  let st := run_session_ops ops (new_session sid key) in
  let st' := apply_server_acks w st in
  stream id st' = Some s ->
  collect_replays w st' !! id =
    (if decide (id ∈ dom w) then
       match send_history s with [] => None | h => Some h end
     else collect_replays w st !! id) /\
  collect_replays w st' !! id = collect_replays w st !! id.
Proof.
  intros Hlen st st' Hs. destruct (run_session_ops_reachable ops sid key Hlen) as [_ Hr].
  rewrite !collect_replays_lookup. pose proof Hs as Hs'. subst st'.
  rewrite stream_apply_acks in Hs'. fold st in Hr.
  destruct (w !! id) as [a|] eqn:Ea.
  - rewrite decide_True by (apply elem_of_dom; eauto). rewrite Hs. simpl.
    apply fmap_Some in Hs' as (s0 & Hs0 & ->).
    destruct (stream_reachable_consecutive _ _ (Hr id s0 Hs0)) as [Hwf Hc].
    rewrite Hs0. simpl. rewrite <- (replay_unaffected_by_acknowledge s0 a a) by (done || lia).
    split; [|done]. rewrite replay_after_acknowledge by done. done.
  - rewrite decide_False by (rewrite not_elem_of_dom; done).
    by rewrite Hs, Hs'.
Qed.

Lemma handshake_replays_witness :
  let st := run_session_ops (take 4 sample_session_ops) (new_session [] []) in
  let st' := apply_server_acks {[0 := 1]} st in
  collect_replays {[0 := 1]} st' !! 0 = Some [(2, [3])] /\
  collect_replays {[0 := 1]} st' !! 0 = collect_replays {[0 := 1]} st !! 0.
Proof.
  split; [vm_compute; reflexivity|].
  refine (proj2 (handshake_replays (take 4 sample_session_ops) [] [] {[0 := 1]} 0
    (mkStream 0 Terminal 3 1 [(2, [3])] 1 Open) _ _)); vm_compute; reflexivity.
Defined.
