(* ===== verification/Link.v ===== *)
(** The terminal stream between the two programs: [run_session] of the client
    ([src/bin/etr.rs]) and [run_session]/[handle_connection] of the server
    ([src/bin/etrs.rs]), with the connection between them.

    A [World] holds both session states, what each task has in hand, the
    bounded channels, the wires of the current connection and the handshake
    messages.  A [label] is what one task does between two points at which it
    can be interleaved or aborted; [step] executes it, returning [None] where
    the task would block.  Both ends drop the connection independently
    ([ClientDrop], [ServerDrop]), so each may keep draining a wire that the
    other has already left. *)
From S2P Require Import Prelude Text Protocol Stream Session.

Open Scope Z_scope.

(** ** State *)

Inductive client_phase : Type := CDown | CWait | CLive.

(** Where [handle_connection] is: before it, after [collect_replays], after
    [outbound_pty_tx] is set, waiting for the PTY stream, serving it. *)
Inductive server_phase : Type :=
| SDown
| SCollected (replays : list chunk)
| SOutbound (replays : list chunk)
| SQueued
| SLive.

Record Client : Type := mkClient {
  c_session : SessionState;
  c_phase : client_phase;
  c_hand : option (list u8);    (* taken from [stdin_rx], not yet recorded *)
  c_stdout : list (list u8)     (* the [stdout_tx] channel *)
}.

Record Server : Type := mkServer {
  s_session : SessionState;
  s_phase : server_phase;
  s_pending : option chunk;     (* recorded by the PTY reader, not yet sent on *)
  s_ob : list chunk;            (* the [pty_ob_tx] channel *)
  s_hand : option (list u8);    (* read from the client, not yet in [pty_in_tx] *)
  s_pty_in : list (list u8)     (* the [pty_in_tx] channel *)
}.

Record Net : Type := mkNet {
  n_open : option (gmap Z Z);   (* [SessionOpen.last_received_seq] under way *)
  n_accept : option (gmap Z Z); (* [SessionAccept.last_received_seq] under way *)
  n_linked : bool;              (* the client's connection is the one served *)
  n_pty : bool;                 (* the client has opened the PTY stream on it *)
  n_up : list chunk;
  n_down : list chunk;
  n_hb_up : list (gmap Z Z);
  n_hb_down : list (gmap Z Z)
}.

(** What the outside world put in and got out. *)
Record Trace : Type := mkTrace {
  typed : list (list u8);       (* received from [stdin_rx] *)
  delivered : list (list u8);   (* written to the PTY *)
  produced : list (list u8);    (* read from the PTY *)
  printed : list (list u8)      (* written to stdout *)
}.

Record World : Type := mkWorld { cl : Client; sv : Server; net : Net; tr : Trace }.

Definition STDOUT_CAP : nat := 512.
Definition PTY_OB_CAP : nat := 1000.
Definition PTY_IN_CAP : nat := 1000.

(** ** Stream 0 of a session *)

(** [let st = s.stream_mut(0).expect(..)] and the five lines after it. *)
Definition session_send (p : list u8) (st : SessionState) : option (u64 * SessionState) :=
  match stream 0 st with
  | Some s => Some ((send_chunk p s).1, stream_mut 0 (fun s => (send_chunk p s).2) st)
  | None => None
  end.

(** [if let Some(st) = s.stream_mut(0) { st.next_in_seq = seq + 1; }]. *)
Definition session_received (seq : u64) (st : SessionState) : SessionState :=
  stream_mut 0 (note_received seq) st.

Definition replays0 (w : gmap Z Z) (st : SessionState) : list chunk :=
  default [] (collect_replays w st !! 0).

(** ** Steps *)

Inductive label : Type :=
| Connect | ServerOpen | ServerOutbound | ServerQueue | ServerPty | ClientAccept
| ClientTake (p : list u8) | ClientSend | ServerRead | ServerPush | PtyWrite
| ServerRecord (p : list u8) | ServerForward | ServerWrite | ClientRead | Stdout
| HbUp | HbUpRecv | HbDown | HbDownRecv
| ClientDrop | ServerDrop.

(** A non-blocking send on a channel of capacity [cap]. *)
Definition try_send {A} (cap : nat) (x : A) (q : list A) : list A :=
  if (length q <? cap)%nat then q ++ [x] else q.

Definition outbound_set (p : server_phase) : bool :=
  match p with SOutbound _ | SQueued | SLive => true | _ => false end.

(** [run_session] of the client up to the replay of its history, and its end. *)
Definition step_client_handshake (l : label) (w : World) : option World :=
  let '(mkWorld (mkClient cs cp ch co) (mkServer ss sp spd sob sh spi)
          (mkNet no na nl np nu nd hu hd) t) := w in
  match l, cp with
  | Connect, CDown =>
    Some (mkWorld (mkClient cs CWait ch co) (mkServer ss sp spd sob sh spi)
            (mkNet (Some (last_received_map cs)) None false np nu nd hu hd) t)
  | ClientAccept, CWait =>
    match na with
    | None => None
    | Some acks =>
      let cs := apply_server_acks acks cs in
      Some (mkWorld (mkClient cs CLive ch co) (mkServer ss sp spd sob sh spi)
              (mkNet no None nl nl (if nl then nu ++ replays0 acks cs else nu) nd hu hd) t)
    end
  | ClientDrop, (CWait | CLive) =>
    Some (mkWorld (mkClient cs CDown None []) (mkServer ss sp spd sob sh spi)
            (mkNet no None false np nu nd hu hd) t)
  | _, _ => None
  end.

(** [handle_connection] up to the PTY stream, and its end. *)
Definition step_server_handshake (l : label) (w : World) : option World :=
  let '(mkWorld (mkClient cs cp ch co) (mkServer ss sp spd sob sh spi)
          (mkNet no na nl np nu nd hu hd) t) := w in
  match l, sp with
  | ServerOpen, SDown =>
    match no with
    | None => None
    | Some lr =>
      let ss := apply_server_acks lr ss in
      let waiting := match cp with CWait => true | _ => false end in
      Some (mkWorld (mkClient cs cp ch co)
              (mkServer ss (SCollected (replays0 lr ss)) spd [] None spi)
              (mkNet None (if waiting then Some (last_received_map ss) else None)
                 waiting false [] [] [] []) t)
    end
  | ServerOutbound, SCollected rs =>
    Some (mkWorld (mkClient cs cp ch co) (mkServer ss (SOutbound rs) spd sob sh spi)
            (mkNet no na nl np nu nd hu hd) t)
  | ServerQueue, SOutbound rs =>
    Some (mkWorld (mkClient cs cp ch co)
            (mkServer ss SQueued spd (fold_left (fun q c => try_send PTY_OB_CAP c q) rs sob) sh spi)
            (mkNet no na nl np nu nd hu hd) t)
  | ServerPty, SQueued =>
    if np then
      Some (mkWorld (mkClient cs cp ch co) (mkServer ss SLive spd sob sh spi)
              (mkNet no na nl np nu nd hu hd) t)
    else None
  | ServerDrop, (SCollected _ | SOutbound _ | SQueued | SLive) =>
    Some (mkWorld (mkClient cs cp ch co) (mkServer ss SDown spd [] None spi)
            (mkNet no na false np nu nd hu hd) t)
  | _, _ => None
  end.

Definition step_handshake (l : label) (w : World) : option World :=
  match l with
  | Connect | ClientAccept | ClientDrop => step_client_handshake l w
  | _ => step_server_handshake l w
  end.

(** The client's stdin task. *)
Definition step_stdin (l : label) (w : World) : option World :=
  let '(mkWorld (mkClient cs cp ch co) (mkServer ss sp spd sob sh spi)
          (mkNet no na nl np nu nd hu hd) (mkTrace ty de pr pt)) := w in
  match l with
  | ClientTake p =>
    match cp, ch with
    | CLive, None =>
      Some (mkWorld (mkClient cs cp (Some p) co) (mkServer ss sp spd sob sh spi)
              (mkNet no na nl np nu nd hu hd) (mkTrace (ty ++ [p]) de pr pt))
    | _, _ => None
    end
  | ClientSend =>
    match cp, ch with
    | CLive, Some p =>
      match session_send p cs with
      | None => None
      | Some (seq, cs) =>
        Some (mkWorld (mkClient cs cp None co) (mkServer ss sp spd sob sh spi)
                (mkNet no na nl np (if nl then nu ++ [(seq, p)] else nu) nd hu hd)
                (mkTrace ty de pr pt))
      end
    | _, _ => None
    end
  | _ => None
  end.

(** The server's PTY input reader and the task that writes to the PTY. *)
Definition step_pty_input (l : label) (w : World) : option World :=
  let '(mkWorld (mkClient cs cp ch co) (mkServer ss sp spd sob sh spi)
          (mkNet no na nl np nu nd hu hd) (mkTrace ty de pr pt)) := w in
  match l with
  | ServerRead =>
    match sp, sh, nu with
    | SLive, None, (seq, p) :: nu =>
      Some (mkWorld (mkClient cs cp ch co)
              (mkServer (session_received seq ss) sp spd sob (Some p) spi)
              (mkNet no na nl np nu nd hu hd) (mkTrace ty de pr pt))
    | _, _, _ => None
    end
  | ServerPush =>
    match sp, sh with
    | SLive, Some p =>
      if (length spi <? PTY_IN_CAP)%nat then
        Some (mkWorld (mkClient cs cp ch co) (mkServer ss sp spd sob None (spi ++ [p]))
                (mkNet no na nl np nu nd hu hd) (mkTrace ty de pr pt))
      else None
    | _, _ => None
    end
  | PtyWrite =>
    match spi with
    | p :: spi =>
      Some (mkWorld (mkClient cs cp ch co) (mkServer ss sp spd sob sh spi)
              (mkNet no na nl np nu nd hu hd) (mkTrace ty (de ++ [p]) pr pt))
    | [] => None
    end
  | _ => None
  end.

Definition step_input (l : label) (w : World) : option World :=
  match l with
  | ClientTake _ | ClientSend => step_stdin l w
  | _ => step_pty_input l w
  end.

(** The server's PTY reader and the writer of the PTY stream. *)
Definition step_pty_output (l : label) (w : World) : option World :=
  let '(mkWorld (mkClient cs cp ch co) (mkServer ss sp spd sob sh spi)
          (mkNet no na nl np nu nd hu hd) (mkTrace ty de pr pt)) := w in
  match l with
  | ServerRecord p =>
    match spd, session_send p ss with
    | None, Some (seq, ss) =>
      Some (mkWorld (mkClient cs cp ch co) (mkServer ss sp (Some (seq, p)) sob sh spi)
              (mkNet no na nl np nu nd hu hd) (mkTrace ty de (pr ++ [p]) pt))
    | _, _ => None
    end
  | ServerForward =>
    match spd with
    | None => None
    | Some c =>
      if outbound_set sp then
        if (length sob <? PTY_OB_CAP)%nat then
          Some (mkWorld (mkClient cs cp ch co) (mkServer ss sp None (sob ++ [c]) sh spi)
                  (mkNet no na nl np nu nd hu hd) (mkTrace ty de pr pt))
        else None
      else
        Some (mkWorld (mkClient cs cp ch co) (mkServer ss sp None sob sh spi)
                (mkNet no na nl np nu nd hu hd) (mkTrace ty de pr pt))
    end
  | ServerWrite =>
    match sp, sob with
    | SLive, c :: sob =>
      Some (mkWorld (mkClient cs cp ch co) (mkServer ss sp spd sob sh spi)
              (mkNet no na nl np nu (if nl then nd ++ [c] else nd) hu hd)
              (mkTrace ty de pr pt))
    | _, _ => None
    end
  | _ => None
  end.

(** The client's PTY receiver and its stdout task. *)
Definition step_stdout (l : label) (w : World) : option World :=
  let '(mkWorld (mkClient cs cp ch co) (mkServer ss sp spd sob sh spi)
          (mkNet no na nl np nu nd hu hd) (mkTrace ty de pr pt)) := w in
  match l with
  | ClientRead =>
    match cp, nd with
    | CLive, (seq, p) :: nd =>
      Some (mkWorld (mkClient (session_received seq cs) cp ch (try_send STDOUT_CAP p co))
              (mkServer ss sp spd sob sh spi)
              (mkNet no na nl np nu nd hu hd) (mkTrace ty de pr pt))
    | _, _ => None
    end
  | Stdout =>
    match co with
    | p :: co =>
      Some (mkWorld (mkClient cs cp ch co) (mkServer ss sp spd sob sh spi)
              (mkNet no na nl np nu nd hu hd) (mkTrace ty de pr (pt ++ [p])))
    | [] => None
    end
  | _ => None
  end.

Definition step_output (l : label) (w : World) : option World :=
  match l with
  | ServerRecord _ | ServerForward | ServerWrite => step_pty_output l w
  | _ => step_stdout l w
  end.

(** Heartbeats: each end reports its watermarks, the other trims its history. *)
Definition step_client_heartbeat (l : label) (w : World) : option World :=
  let '(mkWorld (mkClient cs cp ch co) (mkServer ss sp spd sob sh spi)
          (mkNet no na nl np nu nd hu hd) t) := w in
  match l with
  | HbUp =>
    match cp with
    | CLive =>
      Some (mkWorld (mkClient cs cp ch co) (mkServer ss sp spd sob sh spi)
              (mkNet no na nl np nu nd (if nl then hu ++ [last_received_map cs] else hu) hd) t)
    | _ => None
    end
  | HbDownRecv =>
    match cp, hd with
    | CLive, m :: hd =>
      Some (mkWorld (mkClient (apply_server_acks m cs) cp ch co) (mkServer ss sp spd sob sh spi)
              (mkNet no na nl np nu nd hu hd) t)
    | _, _ => None
    end
  | _ => None
  end.

Definition step_server_heartbeat (l : label) (w : World) : option World :=
  let '(mkWorld (mkClient cs cp ch co) (mkServer ss sp spd sob sh spi)
          (mkNet no na nl np nu nd hu hd) t) := w in
  match l with
  | HbUpRecv =>
    match sp, hu with
    | SLive, m :: hu =>
      Some (mkWorld (mkClient cs cp ch co) (mkServer (apply_server_acks m ss) sp spd sob sh spi)
              (mkNet no na nl np nu nd hu hd) t)
    | _, _ => None
    end
  | HbDown =>
    match sp with
    | SLive =>
      Some (mkWorld (mkClient cs cp ch co) (mkServer ss sp spd sob sh spi)
              (mkNet no na nl np nu nd hu (if nl then hd ++ [last_received_map ss] else hd)) t)
    | _ => None
    end
  | _ => None
  end.

Definition step_heartbeat (l : label) (w : World) : option World :=
  match l with
  | HbUp | HbDownRecv => step_client_heartbeat l w
  | _ => step_server_heartbeat l w
  end.

Definition step (l : label) (w : World) : option World :=
  match l with
  | Connect | ServerOpen | ServerOutbound | ServerQueue | ServerPty | ClientAccept
  | ClientDrop | ServerDrop => step_handshake l w
  | ClientTake _ | ClientSend | ServerRead | ServerPush | PtyWrite => step_input l w
  | ServerRecord _ | ServerForward | ServerWrite | ClientRead | Stdout => step_output l w
  | HbUp | HbUpRecv | HbDown | HbDownRecv => step_heartbeat l w
  end.

Definition init (sid : list u8) (key : str) : World :=
  mkWorld (mkClient (new_session sid key) CDown None [])
    (mkServer (new_session sid key) SDown None [] None [])
    (mkNet None None false false [] [] [] []) (mkTrace [] [] [] []).

(** Executions in which every step satisfies a guard. *)
Fixpoint run (ok : label -> World -> bool) (ls : list label) (w : World) : option World :=
  match ls with
  | [] => Some w
  | l :: ls => if ok l w then step l w ≫= run ok ls else None
  end.

(** ** Guards *)

(** A sequence number is 64 bits wide. *)
Definition counters_ok (l : label) (w : World) : bool :=
  match l with
  | ClientTake _ => Z.of_nat (length (typed (tr w))) + 1 <? U64_MAX
  | ServerRecord _ => Z.of_nat (length (produced (tr w))) + 1 <? U64_MAX
  | _ => true
  end.

(** The chunk fits into the history of stream 0 without evicting another. *)
Definition fits (p : list u8) (st : SessionState) : bool :=
  match stream 0 st with
  | Some s => history_bytes s + Z.of_nat (length p) <=? MAX_HISTORY_BYTES
  | None => false
  end.

Definition is_none {A} (o : option A) : bool :=
  match o with None => true | Some _ => false end.

Lemma is_none_true {A} (o : option A) : is_none o = true -> o = None.
Proof. by destruct o. Qed.

(** Keystrokes: no eviction, and no task is aborted between two of its steps. *)
Definition input_ok (l : label) (w : World) : bool :=
  counters_ok l w &&
  match l with
  | ClientSend => match c_hand (cl w) with Some p => fits p (c_session (cl w)) | None => true end
  | ClientDrop => is_none (c_hand (cl w))
  | ServerDrop => is_none (s_hand (sv w))
  | _ => true
  end.

(** Output: additionally the handshake is quiet (the PTY produces nothing
    between [collect_replays] and the queueing of the replays), the replays fit
    in the channel, and stdout keeps up. *)
Definition output_ok (l : label) (w : World) : bool :=
  counters_ok l w &&
  match l with
  | ServerRecord p =>
    fits p (s_session (sv w)) &&
    match s_phase (sv w) with SCollected _ | SOutbound _ => false | _ => true end
  | ServerOpen =>
    is_none (s_pending (sv w)) &&
    match n_open (net w) with
    | Some lr => (length (replays0 lr (apply_server_acks lr (s_session (sv w)))) <=? PTY_OB_CAP)%nat
    | None => true
    end
  | ClientRead => (length (c_stdout (cl w)) <? STDOUT_CAP)%nat
  | ClientDrop => match c_stdout (cl w) with [] => true | _ => false end
  | _ => true
  end.

(** ** Stream 0 as a sender and as a receiver *)

#[export] Instance label_eq_dec : EqDecision label.
Proof. solve_decision. Defined.

(** The session has sent [log] on stream 0 and still holds all but its first
    [k] chunks. *)
Definition sends (st : SessionState) (log : list (list u8)) (k : nat) : Prop :=
  exists s acks, stream 0 st = Some s /\ stream_run log acks k s.

(** The session has received the chunks up to number [r] on stream 0. *)
Definition receives (st : SessionState) (r : nat) : Prop :=
  exists s, stream 0 st = Some s /\ next_in_seq s = 1 + Z.of_nat r.

Lemma sends_new sid key : sends (new_session sid key) [] 0.
Proof.
  eexists _, []. split; [done|].
  split; [done|simpl; lia|done|apply new_stream_wf|by intros j ?].
Qed.

Lemma receives_new sid key : receives (new_session sid key) 0.
Proof. by eexists. Qed.

Lemma sends_le st log k : sends st log k -> (k <= length log)%nat.
Proof. by intros (s & acks & _ & []). Qed.

Lemma session_send_some st log k p :
  sends st log k -> Z.of_nat (length log) + 1 < U64_MAX ->
  exists st' k', session_send p st = Some (Z.of_nat (length log) + 1, st') /\
    sends st' (log ++ [p]) k' /\ (fits p st = true -> k' = k) /\
    forall r, receives st r -> receives st' r.
Proof.
  intros (s & acks & Hs & Hr) Hlen.
  destruct (stream_run_send log acks k s p Hr Hlen) as (k' & Hr' & Hfit).
  exists (stream_mut 0 (fun s => (send_chunk p s).2) st), k'. repeat split.
  - unfold session_send. rewrite Hs. simpl. rewrite (run_next _ _ _ _ Hr). do 2 f_equal. lia.
  - exists (send_chunk p s).2, acks. by rewrite stream_mut_eq, Hs.
  - unfold fits. rewrite Hs, Z.leb_le. done.
  - intros r (s' & Hs' & Hin). rewrite Hs in Hs'. simplify_eq.
    exists (send_chunk p s').2. rewrite stream_mut_eq, Hs. split; [done|].
    simpl. by rewrite (proj2 (record_send_next _ _ _)).
Qed.

Lemma session_send_receives st p q st' r :
  session_send p st = Some (q, st') -> receives st r -> receives st' r.
Proof.
  intros Hsend (s & Hs & Hin). unfold session_send in Hsend. rewrite Hs in Hsend.
  simplify_eq. exists (send_chunk p s).2. rewrite stream_mut_eq, Hs. split; [done|].
  simpl. by rewrite (proj2 (record_send_next _ _ _)).
Qed.

(** The watermark a peer reported for stream 0. *)
Definition watermark (m : gmap Z Z) : nat := Z.to_nat (default 0 (m !! 0)).

Lemma sends_acks st log k acks :
  sends st log k ->
  exists k', sends (apply_server_acks acks st) log k' /\
    k' = (k `max` (watermark acks `min` length log))%nat.
Proof.
  intros (s & a & Hs & Hr). pose proof (run_cut _ _ _ _ Hr) as Hk.
  unfold watermark. destruct (acks !! 0) as [v|] eqn:Ev; simpl.
  - destruct (stream_run_ack log a k s v Hr) as (k' & Hr' & Hk').
    exists k'. split; [|done]. exists (acknowledge_up_to v s), (a ++ [v]).
    by rewrite stream_apply_acks, Ev, Hs.
  - exists k. split; [|lia]. exists s, a. by rewrite stream_apply_acks, Ev.
Qed.

Lemma receives_acks st r acks : receives st r -> receives (apply_server_acks acks st) r.
Proof.
  intros (s & Hs & Hin). unfold receives. rewrite stream_apply_acks, Hs.
  destruct (acks !! 0) as [v|]; [|by exists s].
  exists (acknowledge_up_to v s). split; [done|]. by rewrite (proj2 (acknowledge_next s v)).
Qed.

Lemma sends_replays st log k w :
  sends st log k ->
  replays0 w st = drop (k `max` watermark w) (numbered 1 log).
Proof.
  intros (s & a & Hs & [Hn Hk Hh Hwf _]). unfold replays0, watermark.
  rewrite collect_replays_lookup, Hs. simpl.
  trans (replay_from (default 0 (w !! 0)) s); [by destruct (replay_from _ _)|].
  unfold replay_from. rewrite Hh. generalize (default 0 (w !! 0)). intros v.
  destruct (decide (Z.of_nat k <= v)).
  - rewrite Nat.max_r by lia. remember (Z.to_nat v) as n eqn:En.
    assert (v = Z.of_nat n) as -> by lia. apply numbered_filter. lia.
  - rewrite Nat.max_l by lia. apply list_filter_all.
    intros c [i Hi]%list_elem_of_lookup. rewrite lookup_drop in Hi.
    apply numbered_lookup in Hi as [-> _]. lia.
Qed.

Lemma receives_map st r : receives st r -> watermark (last_received_map st) = r.
Proof.
  intros (s & Hs & Hin). unfold watermark. rewrite last_received_lookup, Hs. simpl.
  rewrite Hin. unfold checked_sub. rewrite (proj2 (Z.leb_le _ _)) by lia. simpl. lia.
Qed.

Lemma session_received_receives st r q :
  receives st r -> Z.of_nat q < U64_MAX -> receives (session_received (Z.of_nat q) st) q.
Proof.
  intros (s & Hs & Hin) Hq. exists (note_received (Z.of_nat q) s).
  unfold session_received. rewrite stream_mut_eq, Hs. split; [done|]. simpl.
  rewrite wrap64_succ; lia.
Qed.

Lemma session_received_sends st log k q :
  sends st log k -> sends (session_received q st) log k.
Proof.
  intros (s & a & Hs & [? ? ? [] ?]). exists (note_received q s), a.
  unfold session_received. rewrite stream_mut_eq, Hs. split; [done|]. by split.
Qed.

(** ** The wire as a part of the numbered log *)

Lemma sublist_drop_cons (W : list chunk) q p r log :
  ((q, p) :: W) `sublist_of` drop r (numbered 1 log) ->
  exists i, q = Z.of_nat i /\ (r < i)%nat /\ log !! (i - 1)%nat = Some p /\
    W `sublist_of` drop i (numbered 1 log).
Proof.
  rewrite sublist_cons_l. intros (l1 & l2 & Hl & HW).
  assert (numbered 1 log !! (r + length l1)%nat = Some (q, p)) as Hlk.
  { rewrite <- lookup_drop, Hl. by rewrite list_lookup_middle. }
  apply numbered_lookup in Hlk as [Hq Hp]. simpl in *.
  exists (r + length l1 + 1)%nat. split; [lia|]. split; [lia|].
  split; [by replace (r + length l1 + 1 - 1)%nat with (r + length l1)%nat by lia|].
  replace (drop _ _) with l2; [done|].
  rewrite <- Nat.add_assoc, <- drop_drop, Hl, <- drop_drop, drop_app_length. done.
Qed.

Lemma take_sublist_extend {A} (l : list A) (d : list A) r i x :
  (r < i)%nat -> l !! (i - 1)%nat = Some x -> d `sublist_of` take r l ->
  (d ++ [x]) `sublist_of` take i l.
Proof.
  intros Hri Hx Hd. replace i with (S (i - 1)) by lia.
  rewrite (take_S_r _ _ _ Hx). apply sublist_app; [|done].
  etrans; [exact Hd|]. replace (take r l) with (take r (take (i - 1) l)); [apply sublist_take|].
  rewrite take_take. f_equal. lia.
Qed.

(** ** Keystrokes are never duplicated or reordered *)

Record input_inv (log : list (list u8)) (k r : nat) (w : World) : Prop := {
  ii_sends : sends (c_session (cl w)) log k;
  ii_receives : receives (s_session (sv w)) r;
  ii_le : (r <= length log)%nat;
  ii_len : Z.of_nat (length (typed (tr w))) < U64_MAX;
  ii_typed : (log ++ option_list (c_hand (cl w))) `sublist_of` typed (tr w);
  ii_delivered :
    (delivered (tr w) ++ s_pty_in (sv w) ++ option_list (s_hand (sv w))) `sublist_of` take r log;
  ii_up : s_phase (sv w) <> SDown -> n_up (net w) `sublist_of` drop r (numbered 1 log);
  ii_wait : n_linked (net w) = true -> c_phase (cl w) = CWait ->
    n_up (net w) = [] /\ exists m, n_accept (net w) = Some m /\ watermark m = r;
  ii_linked : n_linked (net w) = true ->
    s_phase (sv w) <> SDown /\ c_phase (cl w) <> CDown
}.

Lemma input_inv_init sid key : input_inv [] 0 0 (init sid key).
Proof. split; simpl; try done; [apply sends_new|apply receives_new]. Qed.

Lemma sublist_forget {A} (a : list A) h l :
  (a ++ option_list h) `sublist_of` l -> (a ++ []) `sublist_of` l.
Proof. intros Hl. etrans; [|exact Hl]. by apply sublist_app; [|apply sublist_nil_l]. Qed.

Lemma sublist_forget2 {A} (a b : list A) h l :
  (a ++ b ++ option_list h) `sublist_of` l -> (a ++ b ++ []) `sublist_of` l.
Proof. rewrite !app_assoc. apply sublist_forget. Qed.

(** Take a world apart, execute the step and split on what it looked at. *)
Ltac world_step w Hstep :=
  destruct w as [[cs cp ch co] [ss sp spd sob sh spi] [no na nl np nu nd hu hd] [ty de pr pt]];
  simpl in *; repeat case_match; simplify_eq; simpl in *.

(** The clauses that only mention phases and the linked flag. *)
Ltac phases :=
  solve [ assumption
        | intros; congruence
        | intros; subst; split; [done|]; eexists; split; [reflexivity|];
            eauto using receives_map, receives_acks
        | match goal with H : ?b = true -> _ /\ _ |- ?b = true -> _ /\ _ =>
            let E := fresh in intros E; destruct (H E); split; congruence end
        | intros; match goal with H : _ <> SDown -> _ |- _ => apply H; congruence end ].

Lemma input_inv_handshake log k r l w w' :
  input_inv log k r w -> step_handshake l w = Some w' ->
  exists k', input_inv log k' r w'.
Proof.
  intros [Hs Hr Hle Hlen Hty Hde Hup Hwa Hli] Hstep.
  destruct (decide (l = ClientAccept)) as [->|Hl].
  - world_step w Hstep.
    all: destruct (sends_acks cs log k g Hs) as (k' & Hs' & Hk').
    all: exists k'; split; simpl; try phases.
    destruct (Hwa eq_refl eq_refl) as (-> & m & [= <-] & Hm). intros _. simpl.
    rewrite (sends_replays _ _ _ _ Hs'), Hm. rewrite Hm in Hk'.
    replace (k' `max` r)%nat with (r + (k' - r))%nat by lia.
    rewrite <- drop_drop. apply sublist_drop.
  - destruct l; try done; world_step w Hstep; exists k; split; simpl; try phases;
      eauto using sublist_forget, sublist_forget2, receives_acks, sublist_nil_l, receives_map.
Qed.

Lemma input_inv_input log k r l w w' :
  input_inv log k r w -> counters_ok l w = true -> step_input l w = Some w' ->
  exists log' k' r', input_inv log' k' r' w'.
Proof.
  intros [Hs Hr Hle Hlen Hty Hde Hup Hwa Hli] Hok Hstep.
  destruct l; try (by destruct w as [[] [] [] []]).
  - (* ClientTake *)
    unfold counters_ok in Hok. apply Z.ltb_lt in Hok.
    world_step w Hstep. exists log, k, r. split; simpl; try phases.
    + rewrite length_app. simpl. lia.
    + rewrite app_nil_r in Hty. by apply sublist_app.
  - (* ClientSend *)
    destruct w as [[cs [] [p|] co] [] [] []]; try done; simpl in *.
    pose proof (sublist_length _ _ Hty) as Hll. rewrite length_app in Hll. simpl in Hll.
    destruct (session_send_some cs log k p Hs) as (st' & k' & Heq & Hs' & _ & _); [lia|].
    rewrite Heq in Hstep. simplify_eq/=. exists (log ++ [p]), k', r.
    split; simpl; try phases; rewrite ?app_nil_r, ?length_app; try done.
    + simpl. lia.
    + by rewrite take_app_le.
    + intros Hsp. specialize (Hup Hsp).
      rewrite numbered_snoc, drop_app_le by (rewrite length_numbered; lia).
      destruct n_linked0.
      * replace (Z.of_nat (length log) + 1) with (1 + Z.of_nat (length log)) by lia.
        by apply sublist_app.
      * by apply sublist_inserts_r.
  - (* ServerRead *)
    world_step w Hstep. destruct (sublist_drop_cons _ _ _ _ _ (Hup ltac:(done)))
      as (i & -> & Hri & Hi & Hsub).
    pose proof (lookup_lt_Some _ _ _ Hi). apply sublist_length in Hty as Hll.
    rewrite length_app in Hll.
    exists log, k, i. split; simpl; try phases; try done; [|lia|..].
    + apply (session_received_receives _ r); [done|lia].
    + rewrite app_nil_r in Hde. rewrite app_assoc. by eapply take_sublist_extend.
    + intros Hl Hc. by destruct (Hwa Hl Hc).
  - (* ServerPush *)
    world_step w Hstep. exists log, k, r. split; simpl; try phases; try done.
    by rewrite app_nil_r.
  - (* PtyWrite *)
    world_step w Hstep. exists log, k, r. split; simpl; try phases; try done.
    by rewrite <- app_assoc.
Qed.

Lemma input_inv_output log k r l w w' :
  input_inv log k r w -> step_output l w = Some w' -> input_inv log k r w'.
Proof.
  intros [Hs Hr Hle Hlen Hty Hde Hup Hwa Hli] Hstep.
  destruct l; try (by destruct w as [[] [] [] []]);
    world_step w Hstep; split; simpl; try phases; eauto using session_received_sends, session_send_receives.
Qed.

Lemma input_inv_heartbeat log k r l w w' :
  input_inv log k r w -> step_heartbeat l w = Some w' -> exists k', input_inv log k' r w'.
Proof.
  intros [Hs Hr Hle Hlen Hty Hde Hup Hwa Hli] Hstep.
  destruct l; try (by destruct w as [[] [] [] []]); world_step w Hstep.
  6: match goal with m : gmap Z Z |- _ => destruct (sends_acks cs log k m Hs) as (k' & Hs' & _) end;
     exists k'; split; simpl; by phases.
  all: exists k; split; simpl; try phases; eauto using receives_acks.
Qed.

Lemma input_inv_step log k r l w w' :
  input_inv log k r w -> counters_ok l w = true -> step l w = Some w' ->
  exists log' k' r', input_inv log' k' r' w'.
Proof.
  intros Hinv Hok Hstep.
  destruct l; cbn [step] in Hstep;
    solve [ by eapply input_inv_input
          | destruct (input_inv_handshake _ _ _ _ _ _ Hinv Hstep); eauto
          | destruct (input_inv_heartbeat _ _ _ _ _ _ Hinv Hstep); eauto
          | exists log, k, r; by eapply input_inv_output ].
Qed.

(** An invariant that every guarded step preserves holds after a guarded run. *)
Lemma run_invariant (ok : label -> World -> bool) (P : World -> Prop) ls w w' :
  (forall l w w', P w -> ok l w = true -> step l w = Some w' -> P w') ->
  P w -> run ok ls w = Some w' -> P w'.
Proof.
  intros Hstep. revert w. induction ls as [|l ls IH]; intros w HP; simpl.
  - by intros [= <-].
  - destruct (ok l w) eqn:Hok; [|done]. rewrite bind_Some.
    intros (w1 & Hw1 & Hrun). eauto.
Qed.

(** ** Keystrokes arrive exactly once when no task is aborted mid-step *)

Record input_exact (log : list (list u8)) (k r : nat) (w : World) : Prop := {
  ie_sends : sends (c_session (cl w)) log k;
  ie_receives : receives (s_session (sv w)) r;
  ie_kr : (k <= r)%nat;
  ie_le : (r <= length log)%nat;
  ie_len : Z.of_nat (length (typed (tr w))) < U64_MAX;
  ie_typed : typed (tr w) = log ++ option_list (c_hand (cl w));
  ie_delivered :
    delivered (tr w) ++ s_pty_in (sv w) ++ option_list (s_hand (sv w)) = take r log;
  ie_up : s_phase (sv w) <> SDown -> n_up (net w) `prefix_of` drop r (numbered 1 log);
  ie_live : n_linked (net w) = true -> c_phase (cl w) = CLive ->
    n_up (net w) = drop r (numbered 1 log);
  ie_wait : n_linked (net w) = true -> c_phase (cl w) = CWait ->
    n_up (net w) = [] /\ exists m, n_accept (net w) = Some m /\ watermark m = r;
  ie_accept : forall m, n_accept (net w) = Some m -> (watermark m <= r)%nat;
  ie_hb : Forall (fun m => watermark m <= r)%nat (n_hb_down (net w));
  ie_hand : s_phase (sv w) <> SLive -> s_hand (sv w) = None;
  ie_linked : n_linked (net w) = true ->
    s_phase (sv w) <> SDown /\ c_phase (cl w) <> CDown
}.

Lemma input_exact_init sid key : input_exact [] 0 0 (init sid key).
Proof. split; simpl; try done; [apply sends_new|apply receives_new]. Qed.

Lemma prefix_head {A} (x : A) W l :
  (x :: W) `prefix_of` l -> exists l', l = x :: l' /\ W `prefix_of` l'.
Proof. intros [l' ->]. exists (W ++ l'). split; [done|by exists l']. Qed.

Lemma drop_numbered_cons q p r log l :
  drop r (numbered 1 log) = (q, p) :: l ->
  q = Z.of_nat (r + 1) /\ log !! r = Some p /\ l = drop (r + 1) (numbered 1 log).
Proof.
  intros Hd. assert (numbered 1 log !! r = Some (q, p)) as Hl.
  { replace r with (r + 0)%nat by lia. by rewrite <- lookup_drop, Hd. }
  apply numbered_lookup in Hl as [Hq Hp]. simpl in *. split; [lia|]. split; [done|].
  by rewrite <- drop_drop, Hd.
Qed.

Lemma input_exact_handshake log k r l w w' :
  input_exact log k r w -> input_ok l w = true -> step_handshake l w = Some w' ->
  exists k', input_exact log k' r w'.
Proof.
  intros [Hs Hr Hkr Hle Hlen Hty Hde Hup Hlv Hwa Hac Hhb Hha Hli] Hok Hstep.
  destruct (decide (l = ClientAccept)) as [->|Hl].
  - world_step w Hstep.
    all: destruct (sends_acks cs log k g Hs) as (k' & Hs' & Hk').
    all: specialize (Hac g eq_refl).
    all: exists k'; split; simpl; try phases; try lia.
    all: destruct (Hwa eq_refl eq_refl) as (-> & m & [= <-] & Hm); intros _; simpl.
    all: rewrite (sends_replays _ _ _ _ Hs'), Hm; rewrite Hm in Hk'.
    all: by replace (k' `max` r)%nat with r by lia.
  - unfold input_ok in Hok. apply andb_true_iff in Hok as [_ Hok].
    destruct l; try done; world_step w Hstep.
    all: try (rewrite (Hha ltac:(congruence)) in * ).
    all: try (apply is_none_true in Hok; subst; simpl in *).
    all: exists k; split; simpl; try phases; eauto using receives_acks, prefix_nil, receives_map.
    intros m [= <-]. by rewrite (receives_map _ r) by eauto using receives_acks.
Qed.

Lemma input_exact_input log k r l w w' :
  input_exact log k r w -> input_ok l w = true -> step_input l w = Some w' ->
  exists log' k' r', input_exact log' k' r' w'.
Proof.
  intros [Hs Hr Hkr Hle Hlen Hty Hde Hup Hlv Hwa Hac Hhb Hha Hli] Hok Hstep.
  unfold input_ok in Hok. apply andb_true_iff in Hok as [Hok Hok'].
  destruct l; try (by destruct w as [[] [] [] []]).
  - (* ClientTake *)
    unfold counters_ok in Hok. apply Z.ltb_lt in Hok.
    world_step w Hstep. exists log, k, r. split; simpl; try phases.
    + rewrite length_app. simpl. lia.
    + by rewrite app_nil_r.
  - (* ClientSend *)
    destruct w as [[cs [] [p|] co] [] [] []]; try done; simpl in *. subst.
    rewrite length_app in Hlen. simpl in Hlen.
    destruct (session_send_some cs log k p Hs) as (st' & k' & Heq & Hs' & Hk' & _); [lia|].
    rewrite Heq in Hstep. rewrite (Hk' Hok') in *. simplify_eq/=.
    exists (log ++ [p]), k, r.
    assert (drop r (numbered 1 (log ++ [p])) =
            drop r (numbered 1 log) ++ [(Z.of_nat (length log) + 1, p)]) as Hdr.
    { rewrite numbered_snoc, drop_app_le by (rewrite length_numbered; lia). done. }
    split; simpl; try phases; rewrite ?app_nil_r, ?length_app; try done.
    + simpl. lia.
    + by rewrite take_app_le.
    + intros Hsp. rewrite Hdr. destruct n_linked0.
      * by rewrite Hlv.
      * by apply prefix_app_r, Hup.
    + intros -> _. by rewrite Hdr, Hlv.
  - (* ServerRead *)
    world_step w Hstep.
    destruct (prefix_head _ _ _ (Hup ltac:(done))) as (l' & Hl' & Hpre).
    destruct (drop_numbered_cons _ _ _ _ _ Hl') as (-> & Hp & ->).
    pose proof (lookup_lt_Some _ _ _ Hp).
    pose proof Hlen as Hlen'. rewrite length_app in Hlen'.
    exists log, k, (r + 1)%nat. split; simpl; try phases; try done; try lia.
    + apply (session_received_receives _ r); [done|lia].
    + rewrite app_nil_r in Hde. replace (r + 1)%nat with (S r) by lia.
      by rewrite (take_S_r _ _ _ Hp), <- Hde, <- app_assoc.
    + intros Hl Hc. specialize (Hlv Hl Hc). rewrite Hl' in Hlv. by simplify_eq.
    + intros Hl Hc. by destruct (Hwa Hl Hc).
    + intros m Hm. specialize (Hac m Hm). lia.
    + eapply Forall_impl; [done|]. intros m Hm. simpl in Hm. lia.
  - (* ServerPush *)
    world_step w Hstep. exists log, k, r. split; simpl; try phases; try done.
    by rewrite app_nil_r.
  - (* PtyWrite *)
    world_step w Hstep. exists log, k, r. split; simpl; try phases; try done.
    by rewrite <- app_assoc.
Qed.

Lemma input_exact_output log k r l w w' :
  input_exact log k r w -> step_output l w = Some w' -> input_exact log k r w'.
Proof.
  intros [Hs Hr Hkr Hle Hlen Hty Hde Hup Hlv Hwa Hac Hhb Hha Hli] Hstep.
  destruct l; try (by destruct w as [[] [] [] []]);
    world_step w Hstep; split; simpl; try phases;
    eauto using session_received_sends, session_send_receives.
Qed.

Lemma input_exact_heartbeat log k r l w w' :
  input_exact log k r w -> step_heartbeat l w = Some w' -> exists k', input_exact log k' r w'.
Proof.
  intros [Hs Hr Hkr Hle Hlen Hty Hde Hup Hlv Hwa Hac Hhb Hha Hli] Hstep.
  destruct l; try (by destruct w as [[] [] [] []]); world_step w Hstep.
  6: { apply Forall_cons in Hhb as [Hm Hhb].
       match goal with m : gmap Z Z |- _ => destruct (sends_acks cs log k m Hs) as (k' & Hs' & Hk') end.
       exists k'. split; simpl; try phases. lia. }
  all: exists k; split; simpl; try phases; eauto using receives_acks.
  apply Forall_app. split; [done|]. constructor; [|done]. by rewrite (receives_map _ r).
Qed.

Lemma input_exact_step log k r l w w' :
  input_exact log k r w -> input_ok l w = true -> step l w = Some w' ->
  exists log' k' r', input_exact log' k' r' w'.
Proof.
  intros Hinv Hok Hstep.
  destruct l; cbn [step] in Hstep;
    solve [ by eapply input_exact_input
          | destruct (input_exact_handshake _ _ _ _ _ _ Hinv Hok Hstep); eauto
          | destruct (input_exact_heartbeat _ _ _ _ _ _ Hinv Hstep); eauto
          | exists log, k, r; by eapply input_exact_output ].
Qed.

(** ** Output is printed exactly once when handshakes are quiet *)

(** What is between the server's PTY reader and the client, for the connection
    that is served. *)
Definition output_in_flight (w : World) (rest : list chunk) : Prop :=
  match s_phase (sv w) with
  | SDown => False
  | SCollected rs | SOutbound rs =>
    s_pending (sv w) = None /\ s_ob (sv w) = [] /\ n_down (net w) = [] /\ rs = rest /\
    (length rs <= PTY_OB_CAP)%nat
  | SQueued | SLive =>
    n_down (net w) ++ s_ob (sv w) ++ option_list (s_pending (sv w)) = rest
  end.

Record output_exact (k r : nat) (w : World) : Prop := {
  oe_sends : sends (s_session (sv w)) (produced (tr w)) k;
  oe_receives : receives (c_session (cl w)) r;
  oe_kr : (k <= r)%nat;
  oe_le : (r <= length (produced (tr w)))%nat;
  oe_len : Z.of_nat (length (produced (tr w))) < U64_MAX;
  oe_printed : printed (tr w) ++ c_stdout (cl w) = take r (produced (tr w));
  oe_open : forall m, n_open (net w) = Some m -> watermark m = r;
  oe_live : c_phase (cl w) = CLive \/ is_Some (n_accept (net w)) -> n_open (net w) = None;
  oe_down : c_phase (cl w) = CLive \/ is_Some (n_accept (net w)) ->
    n_down (net w) `prefix_of` drop r (numbered 1 (produced (tr w)));
  oe_hb : Forall (fun m => watermark m <= r)%nat (n_hb_up (net w));
  oe_linked : n_linked (net w) = true ->
    c_phase (cl w) <> CDown /\
    output_in_flight w (drop r (numbered 1 (produced (tr w))))
}.

Lemma output_exact_init sid key : output_exact 0 0 (init sid key).
Proof.
  split; simpl; try done; [apply sends_new|apply receives_new].
Qed.

Lemma fold_try_send {A} cap (rs q : list A) :
  (length q + length rs <= cap)%nat ->
  fold_left (fun q c => try_send cap c q) rs q = q ++ rs.
Proof.
  revert q. induction rs as [|c rs IH]; intros q Hle; simpl; [by rewrite app_nil_r|].
  simpl in Hle. unfold try_send at 2. rewrite (proj2 (Nat.ltb_lt _ _)) by lia.
  rewrite IH by (rewrite length_app; simpl; lia). by rewrite <- app_assoc.
Qed.

Lemma output_exact_handshake k r l w w' :
  output_exact k r w -> output_ok l w = true -> step_handshake l w = Some w' ->
  exists k', output_exact k' r w'.
Proof.
  intros [Hs Hr Hkr Hle Hlen Hpr Hop Hlv Hdn Hhb Hli] Hok Hstep.
  unfold output_ok in Hok. apply andb_true_iff in Hok as [_ Hok].
  destruct (decide (l = ServerOpen)) as [->|Hl].
  - apply andb_true_iff in Hok as [Hpd%is_none_true Hlen'].
    world_step w Hstep.
    all: destruct (sends_acks ss pr k g Hs) as (k' & Hs' & Hk').
    all: rewrite (Hop g eq_refl) in Hk'.
    all: rewrite (sends_replays _ _ _ _ Hs'), (Hop g eq_refl) in *.
    all: replace (k' `max` r)%nat with r in * by lia.
    all: apply Nat.leb_le in Hlen'.
    all: exists k'; split; unfold output_in_flight; simpl; try done; try lia;
           eauto using receives_acks, prefix_nil.
  - destruct l; try done; world_step w Hstep; exists k;
      split; unfold output_in_flight in *; simpl in *; try done;
      eauto using receives_acks; try (by intros [?|[? ?]]).
    + intros m [= <-]. by apply receives_map.
    + intros ->. destruct (Hli eq_refl) as (Hc & -> & -> & -> & -> & Hcap).
      split; [done|]. rewrite fold_try_send by (simpl; lia).
      unfold output_in_flight. simpl. by rewrite app_nil_r.
    + intros _. by destruct (Hli eq_refl).
Qed.

Lemma output_exact_output k r l w w' :
  output_exact k r w -> output_ok l w = true -> step_output l w = Some w' ->
  exists k' r', output_exact k' r' w'.
Proof.
  intros [Hs Hr Hkr Hle Hlen Hpr Hop Hlv Hdn Hhb Hli] Hok Hstep.
  unfold output_ok in Hok. apply andb_true_iff in Hok as [Hcnt Hok].
  destruct l; try (by destruct w as [[] [] [] []]).
  - (* ServerRecord *)
    unfold counters_ok in Hcnt. apply Z.ltb_lt in Hcnt.
    apply andb_true_iff in Hok as [Hfit Hph].
    destruct w as [[] [ss sp [spd|] sob sh spi] [] [ty de pr pt]]; simpl in *; [done|].
    destruct (session_send_some ss pr k p Hs) as (st' & k' & Heq & Hs' & Hk' & _); [lia|].
    rewrite Heq in Hstep. rewrite (Hk' Hfit) in *. simplify_eq/=.
    assert (drop r (numbered 1 (pr ++ [p])) =
            drop r (numbered 1 pr) ++ [(Z.of_nat (length pr) + 1, p)]) as Hdr.
    { rewrite numbered_snoc, drop_app_le by (rewrite length_numbered; lia). done. }
    exists k, r. split; unfold output_in_flight in *; simpl in *; try done.
    + rewrite length_app. simpl. lia.
    + rewrite length_app. simpl. lia.
    + by rewrite take_app_le.
    + intros Hd. rewrite Hdr. by apply prefix_app_r, Hdn.
    + intros Hl. destruct (Hli Hl) as [Hc Hf]. split; [done|]. rewrite Hdr.
      rewrite app_nil_r in Hf. destruct sp; try done; by rewrite <- Hf, <- app_assoc.
  - (* ServerForward *)
    world_step w Hstep; exists k, r; split; unfold output_in_flight in *; simpl in *; try done.
    all: intros Hl; destruct (Hli Hl) as [Hc Hf]; split; [done|].
    all: destruct sp; try done; try (by destruct Hf as (? & _)).
    all: by rewrite app_nil_r.
  - (* ServerWrite *)
    world_step w Hstep; exists k, r; split; unfold output_in_flight in *; simpl in *; try done.
    + intros Hd. destruct (Hli eq_refl) as [Hc <-].
      eexists. by rewrite <- app_assoc.
    + intros _. destruct (Hli eq_refl) as [Hc <-]. split; [done|]. by rewrite <- app_assoc.
  - (* ClientRead *)
    apply Nat.ltb_lt in Hok. world_step w Hstep.
    destruct (prefix_head _ _ _ (Hdn (or_introl eq_refl))) as (l' & Hl' & Hpre).
    destruct (drop_numbered_cons _ _ _ _ _ Hl') as (-> & Hp & ->).
    pose proof (lookup_lt_Some _ _ _ Hp).
    exists k, (r + 1)%nat. split; unfold output_in_flight in *; simpl in *; try done; try lia.
    + apply (session_received_receives _ r); [done|lia].
    + unfold try_send. rewrite (proj2 (Nat.ltb_lt _ _)) by done.
      replace (r + 1)%nat with (S r) by lia. by rewrite (take_S_r _ _ _ Hp), <- Hpr, <- app_assoc.
    + intros m Hm. rewrite Hlv in Hm; [done|by left].
    + eapply Forall_impl; [done|]. intros m Hm. simpl in Hm. lia.
    + intros Hl. destruct (Hli Hl) as [Hc Hf]. split; [done|].
      rewrite Hl' in Hf. destruct sp; try done; try (by destruct Hf as (_ & _ & ? & _)).
      all: by simplify_eq/=.
  - (* Stdout *)
    world_step w Hstep. exists k, r. split; unfold output_in_flight in *; simpl in *; try done.
    by rewrite <- app_assoc.
Qed.

Lemma output_exact_input k r l w w' :
  output_exact k r w -> step_input l w = Some w' -> output_exact k r w'.
Proof.
  intros [Hs Hr Hkr Hle Hlen Hpr Hop Hlv Hdn Hhb Hli] Hstep.
  destruct l; try (by destruct w as [[] [] [] []]);
    world_step w Hstep; split; unfold output_in_flight in *; simpl in *; try done;
    eauto using session_received_sends, session_send_receives.
Qed.

Lemma output_exact_heartbeat k r l w w' :
  output_exact k r w -> step_heartbeat l w = Some w' -> exists k', output_exact k' r w'.
Proof.
  intros [Hs Hr Hkr Hle Hlen Hpr Hop Hlv Hdn Hhb Hli] Hstep.
  destruct l; try (by destruct w as [[] [] [] []]); world_step w Hstep.
  3: { apply Forall_cons in Hhb as [Hm Hhb].
       match goal with m : gmap Z Z |- _ => destruct (sends_acks ss pr k m Hs) as (k' & Hs' & Hk') end.
       exists k'. split; unfold output_in_flight in *; simpl in *; try done. lia. }
  all: exists k; split; unfold output_in_flight in *; simpl in *; try done;
       eauto using receives_acks.
  apply Forall_app. split; [done|]. constructor; [|done]. by rewrite (receives_map _ r).
Qed.

Lemma output_exact_step k r l w w' :
  output_exact k r w -> output_ok l w = true -> step l w = Some w' ->
  exists k' r', output_exact k' r' w'.
Proof.
  intros Hinv Hok Hstep.
  destruct l; cbn [step] in Hstep;
    solve [ by eapply output_exact_output
          | destruct (output_exact_handshake _ _ _ _ _ Hinv Hok Hstep); eauto
          | destruct (output_exact_heartbeat _ _ _ _ _ Hinv Hstep); eauto
          | exists k, r; by eapply output_exact_input ].
Qed.

(** ** Recovery: a reconnect brings every keystroke through *)

Definition leads (w w' : World) : Prop := exists ls, run input_ok ls w = Some w'.

Lemma run_app ok ls1 ls2 w :
  run ok (ls1 ++ ls2) w = run ok ls1 w ≫= run ok ls2.
Proof.
  revert w. induction ls1 as [|l ls1 IH]; intros w; simpl; [done|].
  destruct (ok l w); [|done]. destruct (step l w); [|done]. simpl. apply IH.
Qed.

#[export] Instance leads_preorder : PreOrder leads.
Proof.
  split.
  - intros w. by exists [].
  - intros w1 w2 w3 [l1 H1] [l2 H2]. exists (l1 ++ l2). by rewrite run_app, H1.
Qed.

Lemma leads_step l w w' : input_ok l w = true -> step l w = Some w' -> leads w w'.
Proof. intros Hok Hs. exists [l]. simpl. by rewrite Hok, Hs. Qed.

Definition exact (w : World) : Prop := exists log k r, input_exact log k r w.

Lemma exact_leads w w' : exact w -> leads w w' -> exact w'.
Proof.
  intros Hex [ls Hrun]. refine (run_invariant input_ok exact ls w w' _ Hex Hrun).
  intros l w1 w2 (log & k & r & Hinv) Hok Hst. by eapply input_exact_step.
Qed.

(** Nothing in hand and nothing queued at the PTY. *)
Definition drained (w : World) : Prop :=
  c_hand (cl w) = None /\ s_hand (sv w) = None /\ s_pty_in (sv w) = [].

Lemma leads_pty_write w :
  exists w', leads w w' /\ s_pty_in (sv w') = [] /\ s_hand (sv w') = s_hand (sv w) /\
    c_hand (cl w') = c_hand (cl w) /\ typed (tr w') = typed (tr w) /\
    s_phase (sv w') = s_phase (sv w).
Proof.
  destruct w as [c [ss sp spd sob sh spi] n [ty de pr pt]]. simpl.
  revert de. induction spi as [|p spi IH]; intros de.
  { eexists. split; [reflexivity|]. done. }
  destruct (IH (de ++ [p])) as (w' & Hl & Hw'). exists w'. split; [|exact Hw'].
  etrans; [|exact Hl]. apply (leads_step PtyWrite); [done|]. by destruct c, n.
Qed.

Lemma leads_drained w :
  exact w -> c_hand (cl w) = None ->
  exists w', leads w w' /\ drained w' /\ typed (tr w') = typed (tr w).
Proof.
  intros Hex Hc. destruct (leads_pty_write w) as (w1 & Hl1 & Hp & Hh & Hc1 & Ht & Hph).
  destruct (s_hand (sv w1)) as [p|] eqn:Eh.
  2: { exists w1. split; [done|]. by rewrite Hc in Hc1. }
  assert (s_phase (sv w1) = SLive) as Hlive.
  { destruct (exact_leads _ _ Hex Hl1) as (log & k & r & Hinv).
    destruct (s_phase (sv w1)) eqn:E; try done;
      by rewrite (ie_hand _ _ _ _ Hinv) in Eh by congruence. }
  destruct w1 as [[cs cp ch co] [ss sp spd sob sh spi] [no na nl np nu nd hu hd] [ty de pr pt]].
  simpl in *. subst. rewrite Hlive in Hl1.
  eexists. split; [etrans; [exact Hl1|]; exists [ServerPush; PtyWrite]; simpl; reflexivity|].
  done.
Qed.

Lemma leads_down w :
  drained w ->
  exists w', leads w w' /\ drained w' /\ typed (tr w') = typed (tr w) /\
    c_phase (cl w') = CDown /\ s_phase (sv w') = SDown.
Proof.
  intros (Hc & Hs & Hp).
  destruct w as [[cs cp ch co] [ss sp spd sob sh spi] [no na nl np nu nd hu hd] t]. simpl in *. subst.
  assert (exists w', leads (mkWorld (mkClient cs cp None co) (mkServer ss sp spd sob None [])
      (mkNet no na nl np nu nd hu hd) t) w' /\ drained w' /\ typed (tr w') = typed t /\
      c_phase (cl w') = CDown /\ s_phase (sv w') = sp) as (w1 & Hl1 & (Hc1 & Hs1 & Hp1) & Ht1 & Hd1 & Hsp1).
  { destruct cp; [by eexists; split; [reflexivity|]|..].
    all: eexists; split; [exists [ClientDrop]; simpl; reflexivity|done]. }
  destruct w1 as [[cs1 cp1 ch1 co1] [ss1 sp1 spd1 sob1 sh1 spi1] [no1 na1 nl1 np1 nu1 nd1 hu1 hd1] t1].
  simpl in *. subst.
  destruct sp; [by eexists; split; [exact Hl1|]|..].
  all: eexists; split; [etrans; [exact Hl1|exists [ServerDrop]; simpl; reflexivity]|done].
Qed.

Lemma leads_reconnected w :
  drained w -> c_phase (cl w) = CDown -> s_phase (sv w) = SDown ->
  exists w', leads w w' /\ drained w' /\ typed (tr w') = typed (tr w) /\
    c_phase (cl w') = CLive /\ s_phase (sv w') = SLive /\ n_linked (net w') = true.
Proof.
  intros (Hc & Hs & Hp) Hcp Hsp.
  destruct w as [[cs cp ch co] [ss sp spd sob sh spi] [no na nl np nu nd hu hd] t]. simpl in *. subst.
  eexists. split.
  - exists [Connect; ServerOpen; ServerOutbound; ServerQueue; ClientAccept; ServerPty].
    simpl. reflexivity.
  - done.
Qed.

(** One chunk from the wire to the PTY. *)
Lemma leads_chunk w :
  exact w -> drained w -> c_phase (cl w) = CLive -> s_phase (sv w) = SLive ->
  n_linked (net w) = true ->
  exists w', leads w w' /\ drained w' /\ typed (tr w') = typed (tr w) /\
    delivered (tr w') = typed (tr w').
Proof.
  intros Hex. remember (length (n_up (net w))) as n eqn:En. revert w Hex En.
  induction n as [|n IH]; intros w Hex En Hdr Hcp Hsp Hl.
  - exists w. split; [done|]. split; [done|]. split; [done|].
    destruct Hex as (log & k & r & Hinv). destruct Hdr as (Hc & Hs & Hp).
    pose proof (ie_delivered _ _ _ _ Hinv) as Hde. rewrite Hs, Hp in Hde.
    rewrite (ie_typed _ _ _ _ Hinv), Hc. simpl in *. rewrite !app_nil_r in *.
    pose proof (ie_live _ _ _ _ Hinv Hl Hcp) as Hup.
    rewrite Hup, length_drop, length_numbered in En.
    pose proof (ie_le _ _ _ _ Hinv). rewrite Hde. apply take_ge. lia.
  - destruct w as [[cs cp ch co] [ss sp spd sob sh spi] [no na nl np nu nd hu hd] [ty de pr pt]].
    destruct Hdr as (Hc & Hs & Hp). simpl in *. subst. destruct nu as [|[q p] nu]; [done|].
    match goal with |- exists w', leads ?w0 w' /\ _ =>
      assert (exists w1, leads w0 w1 /\ drained w1 /\ typed (tr w1) = typed (tr w0) /\
        c_phase (cl w1) = CLive /\ s_phase (sv w1) = SLive /\ n_linked (net w1) = true /\
        n_up (net w1) = nu) as (w1 & Hl1 & Hd1 & Ht1 & Hc1 & Hs1 & Hn1 & Hu1) end.
    { eexists. split; [exists [ServerRead; ServerPush; PtyWrite]; simpl; reflexivity|done]. }
    destruct (IH w1) as (w2 & Hl2 & Hd2 & Ht2 & Hde2); try done.
    + by eapply exact_leads.
    + rewrite Hu1. simpl in En. by injection En.
    + exists w2. split; [by etrans|]. split; [done|]. split; [|done]. by rewrite Ht2, Ht1.
Qed.

Lemma leads_delivered w :
  exact w -> c_hand (cl w) = None ->
  exists w', leads w w' /\ typed (tr w') = typed (tr w) /\ delivered (tr w') = typed (tr w).
Proof.
  intros Hex Hc. destruct (leads_drained w Hex Hc) as (w1 & Hl1 & Hd1 & Ht1).
  destruct (leads_down w1 Hd1) as (w2 & Hl2 & Hd2 & Ht2 & Hc2 & Hs2).
  destruct (leads_reconnected w2 Hd2 Hc2 Hs2) as (w3 & Hl3 & Hd3 & Ht3 & Hc3 & Hs3 & Hn3).
  assert (leads w w3) as Hl by (etrans; [exact Hl1|]; by etrans).
  destruct (leads_chunk w3) as (w4 & Hl4 & Hd4 & Ht4 & Hde4); try done.
  { by eapply exact_leads. }
  exists w4. split; [by etrans|]. rewrite Hde4. split; congruence.
Qed.

(** ** Properties *)

Definition reaches (ok : label -> World -> bool) (w : World) : Prop :=
  exists sid key ls, run ok ls (init sid key) = Some w.

Lemma reaches_input w : reaches counters_ok w -> exists log k r, input_inv log k r w.
Proof.
  intros (sid & key & ls & Hrun).
  refine (run_invariant counters_ok (fun w => exists log k r, input_inv log k r w) ls _ w _ _ Hrun).
  - intros l w1 w2 (log & k & r & Hinv) Hok Hst. by eapply input_inv_step.
  - exists [], 0%nat, 0%nat. apply input_inv_init.
Qed.

Lemma reaches_exact w : reaches input_ok w -> exact w.
Proof.
  intros (sid & key & ls & Hrun). apply (exact_leads (init sid key)); [|by exists ls].
  exists [], 0%nat, 0%nat. apply input_exact_init.
Qed.

Lemma reaches_output w : reaches output_ok w -> exists k r, output_exact k r w.
Proof.
  intros (sid & key & ls & Hrun).
  refine (run_invariant output_ok (fun w => exists k r, output_exact k r w) ls _ w _ _ Hrun).
  - intros l w1 w2 (k & r & Hinv) Hok Hst. by eapply output_exact_step.
  - exists 0%nat, 0%nat. apply output_exact_init.
Qed.

(** However connections are made, dropped and taken over, and wherever
    tasks are aborted, what reaches the shell is a subsequence of what the
    user typed: no keystroke is delivered twice or out of order. *)
Theorem input_at_most_once w :
  reaches counters_ok w -> delivered (tr w) `sublist_of` typed (tr w).
Proof.
  intros Hw. destruct (reaches_input w Hw) as (log & k & r & Hinv).
  etrans; [apply sublist_inserts_r; reflexivity|].
  etrans; [apply (ii_delivered _ _ _ _ Hinv)|].
  etrans; [apply sublist_take|].
  etrans; [apply sublist_inserts_r; reflexivity|apply (ii_typed _ _ _ _ Hinv)].
Qed.

(** Two keystrokes; the connection breaks between them on both sides. *)
Definition sample_session : list label :=
  [Connect; ServerOpen; ServerOutbound; ServerQueue; ClientAccept; ServerPty;
   ClientTake [97]; ClientSend; ServerRead; ServerPush; ServerDrop;
   ClientTake [98]; ClientSend; ClientDrop; PtyWrite;
   Connect; ServerOpen; ServerOutbound; ServerQueue; ClientAccept; ServerPty;
   ServerRead; ServerPush; PtyWrite].

Lemma input_at_most_once_witness :
  exists w, run counters_ok sample_session (init [] []) = Some w /\
    delivered (tr w) = [[97]; [98]] /\ delivered (tr w) `sublist_of` typed (tr w).
Proof.
  eexists. split; [vm_compute; reflexivity|]. split; [reflexivity|].
  apply input_at_most_once. exists [], [], sample_session. vm_compute. reflexivity.
Defined.

(** C2: as long as no task is aborted between two of its steps and the history
    never overflows, keystrokes arrive exactly once: the input is what was
    delivered, what the server still holds, what the next handshake would
    replay, and the chunk the client has in hand, in this order. *)
Theorem input_exactly_once w :
  reaches input_ok w ->
  typed (tr w) =
    (delivered (tr w) ++ s_pty_in (sv w) ++ option_list (s_hand (sv w))) ++
    (replays0 (last_received_map (s_session (sv w))) (c_session (cl w))).*2 ++
    option_list (c_hand (cl w)).
Proof.
  intros Hw. destruct (reaches_exact w Hw) as (log & k & r & Hinv).
  rewrite (sends_replays _ _ _ _ (ie_sends _ _ _ _ Hinv)).
  rewrite (receives_map _ _ (ie_receives _ _ _ _ Hinv)).
  rewrite Nat.max_r by apply (ie_kr _ _ _ _ Hinv).
  rewrite (ie_delivered _ _ _ _ Hinv), (ie_typed _ _ _ _ Hinv).
  by rewrite fmap_drop, numbered_snd, app_assoc, take_drop.
Qed.

Lemma input_exactly_once_witness :
  exists w, run input_ok (take 15 sample_session) (init [] []) = Some w /\
    (replays0 (last_received_map (s_session (sv w))) (c_session (cl w))).*2 = [[98]] /\
    typed (tr w) =
      (delivered (tr w) ++ s_pty_in (sv w) ++ option_list (s_hand (sv w))) ++
      (replays0 (last_received_map (s_session (sv w))) (c_session (cl w))).*2 ++
      option_list (c_hand (cl w)).
Proof.
  eexists. split; [vm_compute; reflexivity|]. split; [vm_compute; reflexivity|].
  apply input_exactly_once. exists [], [], (take 15 sample_session). vm_compute. reflexivity.
Defined.

(** C4: recovery: from every such state in which the client has recorded what
    it took from stdin, there is an execution (drain, drop, reconnect, replay)
    after which everything typed so far has been delivered, in order. *)
Theorem input_recovery w :
  reaches input_ok w -> c_hand (cl w) = None ->
  exists ls w', run input_ok ls w = Some w' /\ typed (tr w') = typed (tr w) /\
    delivered (tr w') = typed (tr w).
Proof.
  intros Hw Hc. destruct (leads_delivered w (reaches_exact w Hw) Hc) as (w' & [ls Hls] & H).
  by exists ls, w'.
Qed.

Definition sample_world : World :=
  default (init [] []) (run input_ok (take 15 sample_session) (init [] [])).

Lemma input_recovery_witness :
  run input_ok (take 15 sample_session) (init [] []) = Some sample_world /\
  delivered (tr sample_world) = [[97]] /\ typed (tr sample_world) = [[97]; [98]] /\
  exists ls w', run input_ok ls sample_world = Some w' /\ delivered (tr w') = [[97]; [98]].
Proof.
  split; [vm_compute; reflexivity|]. split; [reflexivity|]. split; [reflexivity|].
  destruct (input_recovery sample_world) as (ls & w' & Hrun & Ht & Hd).
  - exists [], [], (take 15 sample_session). vm_compute. reflexivity.
  - reflexivity.
  - exists ls, w'. split; [exact Hrun|rewrite Hd; reflexivity].
Defined.

(** C3: output is printed exactly once, in every state reached by steps that keep
    [output_ok]: no chunk evicts another from the server's 4 MiB history and the
    sequence numbers do not run out; at every handshake no recorded chunk waits to be
    queued when it begins, the PTY produces nothing between [collect_replays] and the
    queueing of the replays, and the replays are at most the 1000 chunks that the
    outgoing channel holds; standard output keeps up with its channel, and the client
    drops a connection only when nothing waits there. Then what the shell produced is
    what was printed, what waits for standard output, and what the next handshake would
    replay, in this order. *)
Theorem output_exactly_once w :
  reaches output_ok w ->
  produced (tr w) =
    (printed (tr w) ++ c_stdout (cl w)) ++
    (replays0 (last_received_map (c_session (cl w))) (s_session (sv w))).*2.
Proof.
  intros Hw. destruct (reaches_output w Hw) as (k & r & Hinv).
  rewrite (sends_replays _ _ _ _ (oe_sends _ _ _ Hinv)).
  rewrite (receives_map _ _ (oe_receives _ _ _ Hinv)).
  rewrite Nat.max_r by apply (oe_kr _ _ _ Hinv).
  by rewrite (oe_printed _ _ _ Hinv), fmap_drop, numbered_snd, take_drop.
Qed.

Definition sample_output : list label :=
  [ServerRecord [1]; ServerForward; Connect; ServerOpen; ServerOutbound; ServerQueue;
   ClientAccept; ServerPty; ServerWrite; ServerRecord [2]; ClientRead; ServerForward;
   Stdout; ServerWrite; ClientDrop; ServerDrop; ServerRecord [3]; ServerForward;
   Connect; ServerOpen; ServerOutbound; ServerQueue; ClientAccept; ServerPty;
   ServerWrite; ClientRead; Stdout].

Lemma output_exactly_once_witness :
  exists w, run output_ok sample_output (init [] []) = Some w /\
    printed (tr w) = [[1]; [2]] /\
    produced (tr w) =
      (printed (tr w) ++ c_stdout (cl w)) ++
      (replays0 (last_received_map (c_session (cl w))) (s_session (sv w))).*2.
Proof.
  eexists. split; [vm_compute; reflexivity|]. split; [reflexivity|].
  apply output_exactly_once. exists [], [], sample_output. vm_compute. reflexivity.
Defined.

(** The quiet-handshake condition is needed: output produced while
    [handle_connection] is between [collect_replays] and the queueing of the
    replays can be lost for good (the server trims it once the client
    acknowledges the next chunk), printed twice, or printed out of order. *)
Theorem output_handshake_race :
  (exists ls w, run counters_ok ls (init [] []) = Some w /\
     produced (tr w) = [[1]; [2]] /\ printed (tr w) = [[2]] /\ c_stdout (cl w) = [] /\
     forall m, replays0 m (s_session (sv w)) = []) /\
  (exists ls w, run counters_ok ls (init [] []) = Some w /\
     produced (tr w) = [[1]] /\ printed (tr w) = [[1]; [1]]) /\
  (exists ls w, run counters_ok ls (init [] []) = Some w /\
     produced (tr w) = [[1]; [2]] /\ printed (tr w) = [[2]; [1]]).
Proof.
  split; [|split].
  - exists [Connect; ServerOpen; ServerRecord [1]; ServerForward; ServerOutbound; ServerQueue;
            ClientAccept; ServerPty; ServerRecord [2]; ServerForward; ServerWrite; ClientRead;
            Stdout; HbUp; HbUpRecv].
    eexists. split; [vm_compute; reflexivity|]. repeat (split; [reflexivity|]).
    intros m. unfold replays0. rewrite collect_replays_lookup. reflexivity.
  - exists [Connect; ServerRecord [1]; ServerOpen; ServerOutbound; ServerForward; ServerQueue;
            ClientAccept; ServerPty; ServerWrite; ServerWrite; ClientRead; ClientRead;
            Stdout; Stdout].
    eexists. split; [vm_compute; reflexivity|]. by split.
  - exists [ServerRecord [1]; ServerForward; Connect; ServerOpen; ServerOutbound;
            ServerRecord [2]; ServerForward; ServerQueue; ClientAccept; ServerPty;
            ServerWrite; ServerWrite; ClientRead; ClientRead; Stdout; Stdout].
    eexists. split; [vm_compute; reflexivity|]. by split.
Qed.

(** A keystroke the server has acknowledged but not yet queued for the PTY is
    lost when the connection's tasks are aborted there. *)
Theorem input_lost_on_abort :
  exists ls w, run counters_ok ls (init [] []) = Some w /\
    typed (tr w) = [[97]] /\ delivered (tr w) = [] /\ s_pty_in (sv w) = [] /\
    c_hand (cl w) = None /\ s_hand (sv w) = None /\ n_up (net w) = [] /\
    forall m, replays0 m (c_session (cl w)) = [].
Proof.
  exists [Connect; ServerOpen; ServerOutbound; ServerQueue; ClientAccept; ServerPty;
          ClientTake [97]; ClientSend; ServerRead; ServerDrop; ClientDrop;
          Connect; ServerOpen; ClientAccept].
  eexists. split; [vm_compute; reflexivity|]. repeat (split; [reflexivity|]).
  intros m. unfold replays0. rewrite collect_replays_lookup. reflexivity.
Qed.

(** A chunk that finds the stdout channel full is dropped although the client
    has already counted it as received. *)
Theorem output_lost_on_slow_stdout :
  exists ls w, run counters_ok ls (init [] []) = Some w /\
    length (produced (tr w)) = 513%nat /\
    (length (printed (tr w)) + length (c_stdout (cl w)) = 512)%nat /\
    replays0 (last_received_map (c_session (cl w))) (s_session (sv w)) = [].
Proof.
  exists ([Connect; ServerOpen; ServerOutbound; ServerQueue; ClientAccept; ServerPty] ++
          concat (repeat [ServerRecord [1]; ServerForward; ServerWrite; ClientRead] 513)).
  eexists. split; [vm_compute; reflexivity|]. vm_compute. done.
Qed.
