(* ===== verification/Quic.v ===== *)
(** Message framing on QUIC streams and the comparison of secrets
    ([src/quic.rs]).

    A receive stream is the bytes that will arrive on it and how it ends; a
    send stream is the bytes written to it and whether its connection is still
    there.  The encoding of an [Envelope] is the class [EnvelopeCodec] of
    [Proto]. *)
From S2P Require Import Prelude Text Utf8 Protocol Wire Proto Stream.

Open Scope Z_scope.

(** ** Streams *)

Inductive stream_end : Type := Finished | Lost.

Record RecvStream : Type := mkRecv { incoming : list u8; ending : stream_end }.
Record SendStream : Type := mkSend { written : list u8; connected : bool }.

Inductive ReadExactError : Type := FinishedEarly | ReadError.

(** [recv.read_exact(&mut buf)] for a buffer of [n] bytes. *)
Definition read_exact (n : nat) (r : RecvStream) : result (list u8 * RecvStream) ReadExactError :=
  if (n <=? length (incoming r))%nat then
    Ok (take n (incoming r), mkRecv (drop n (incoming r)) (ending r))
  else
    match ending r with Finished => Err FinishedEarly | Lost => Err ReadError end.

(** [send.write_all(data)], with the error mapped as every caller maps it. *)
Definition write_all (data : list u8) (s : SendStream) : result SendStream ErrorKind :=
  if connected s then Ok (mkSend (written s ++ data) true) else Err BrokenPipe.

(** [.map_err(|e| io::Error::new(BrokenPipe, ..))]. *)
Definition broken_pipe {A} (r : result A ReadExactError) : result A ErrorKind :=
  match r with Ok a => Ok a | Err _ => Err BrokenPipe end.

(** ** Operations *)

Definition TAG_CONTROL : u8 := 1.
Definition TAG_PTY : u8 := 2.
Definition TAG_FORWARD : u8 := 3.

Definition MAX_MSG : Z := 4 * 1024 * 1024.
Definition MAX_CHUNK : Z := 1024 * 1024.

Definition read_tag (r : RecvStream) : result (u8 * RecvStream) ErrorKind :=
  let? (buf, r) := broken_pipe (read_exact 1 r) in
  Ok (nth 0 buf 0, r).

Definition write_framed (framed : list u8) (s : SendStream) : result SendStream ErrorKind :=
  write_all framed s.

(** The 4-byte prefix is [body_len as u32]. *)
Definition frame (body : list u8) : list u8 :=
  to_be 4 (wrap 32 (Z.of_nat (length body))) ++ body.

Definition write_msg `{EnvelopeCodec} (env : Envelope) (s : SendStream)
    : result SendStream ErrorKind :=
  write_framed (frame (encode env)) s.

Definition read_msg `{EnvelopeCodec} (r : RecvStream)
    : result (option Envelope * RecvStream) ErrorKind :=
  match read_exact 4 r with
  | Err FinishedEarly => Ok (None, r)
  | Err ReadError => Err BrokenPipe
  | Ok (len_buf, r) =>
    let len := from_be len_buf in
    if MAX_MSG <? len then Err InvalidData
    else
      let? (buf, r) := broken_pipe (read_exact (Z.to_nat len) r) in
      match decode buf with
      | Some env => Ok (Some env, r)
      | None => Err InvalidData
      end
  end.

Definition write_pty_chunk (seq : u64) (data : list u8) (s : SendStream)
    : result SendStream ErrorKind :=
  let hdr := to_be 8 seq ++ to_be 4 (wrap 32 (Z.of_nat (length data))) in
  let? s := write_all hdr s in
  write_all data s.

Definition read_pty_chunk (r : RecvStream) : result (option chunk * RecvStream) ErrorKind :=
  match read_exact 12 r with
  | Err FinishedEarly => Ok (None, r)
  | Err ReadError => Err BrokenPipe
  | Ok (hdr, r) =>
    let seq := from_be (take 8 hdr) in
    let len := from_be (drop 8 hdr) in
    if MAX_CHUNK <? len then Err InvalidData
    else
      let? (data, r) := broken_pipe (read_exact (Z.to_nat len) r) in
      Ok (Some (seq, data), r)
  end.

(** The loop of [constant_time_eq]: the differences of all bytes, ored. *)
Definition diff_bytes (a b : list u8) : u8 :=
  fold_left (fun diff xy => Z.lor diff (Z.lxor xy.1 xy.2)) (zip a b) 0.

Definition constant_time_eq (a b : list u8) : bool :=
  if negb (length a =? length b)%nat then false else diff_bytes a b =? 0.

(** The tasks that relay a PTY stream read chunks until the stream ends; each
    chunk takes at least its header, so the fuel [length + 1] is enough. *)
Fixpoint read_pty_stream (fuel : nat) (r : RecvStream) : list chunk * result unit ErrorKind :=
  match fuel with
  | O => ([], Ok tt)
  | S fuel =>
    match read_pty_chunk r with
    | Ok (None, _) => ([], Ok tt)
    | Err e => ([], Err e)
    | Ok (Some c, r) =>
      let '(cs, e) := read_pty_stream fuel r in (c :: cs, e)
    end
  end.

Fixpoint read_msgs `{EnvelopeCodec} (fuel : nat) (r : RecvStream)
    : list Envelope * result unit ErrorKind :=
  match fuel with
  | O => ([], Ok tt)
  | S fuel =>
    match read_msg r with
    | Ok (None, _) => ([], Ok tt)
    | Err e => ([], Err e)
    | Ok (Some m, r) => let '(ms, e) := read_msgs fuel r in (m :: ms, e)
    end
  end.

Definition write_msgs `{EnvelopeCodec} (ms : list Envelope) (s : SendStream)
    : result SendStream ErrorKind :=
  fold_left (fun s m => let? s := s in write_msg m s) ms (Ok s).

Definition write_pty_chunks (cs : list chunk) (s : SendStream) : result SendStream ErrorKind :=
  fold_left (fun s c => let? s := s in write_pty_chunk c.1 c.2 s) cs (Ok s).

(** ** Lemmas *)

Lemma read_exact_app a b e :
  read_exact (length a) (mkRecv (a ++ b) e) = Ok (a, mkRecv b e).
Proof.
  unfold read_exact. simpl. rewrite (proj2 (Nat.leb_le _ _)) by (rewrite length_app; lia).
  by rewrite take_app_length, drop_app_length.
Qed.

Lemma read_exact_short n l e :
  (length l < n)%nat ->
  read_exact n (mkRecv l e) = Err (match e with Finished => FinishedEarly | Lost => ReadError end).
Proof.
  intros. unfold read_exact. simpl. rewrite (proj2 (Nat.leb_gt _ _)) by lia. by destruct e.
Qed.

(** The bytes of a chunk, and the chunks that both ends accept. *)
Definition chunk_bytes (c : chunk) : list u8 :=
  to_be 8 c.1 ++ to_be 4 (wrap 32 (Z.of_nat (length c.2))) ++ c.2.

Definition chunk_ok (c : chunk) : Prop :=
  0 <= c.1 <= U64_MAX /\ Z.of_nat (length c.2) <= MAX_CHUNK.

Lemma length_chunk_bytes c : length (chunk_bytes c) = (12 + length c.2)%nat.
Proof. unfold chunk_bytes. by rewrite !length_app, !length_to_be. Qed.

Lemma wrap32_len n : Z.of_nat n <= MAX_MSG -> wrap 32 (Z.of_nat n) = Z.of_nat n.
Proof. intros. apply wrap_small. unfold MAX_MSG in *. lia. Qed.

Lemma from_be_len n :
  Z.of_nat n <= MAX_MSG -> from_be (to_be 4 (wrap 32 (Z.of_nat n))) = Z.of_nat n.
Proof.
  intros Hn. rewrite wrap32_len by done. apply from_be_to_be_small. unfold MAX_MSG in Hn. lia.
Qed.

Lemma write_pty_chunk_spec c s :
  write_pty_chunk c.1 c.2 s =
  if connected s then Ok (mkSend (written s ++ chunk_bytes c) true) else Err BrokenPipe.
Proof.
  unfold write_pty_chunk, write_all, chunk_bytes. destruct (connected s); [|done]. simpl.
  by rewrite <- !app_assoc.
Qed.

Lemma write_pty_chunks_spec cs s :
  connected s = true ->
  write_pty_chunks cs s = Ok (mkSend (written s ++ concat (chunk_bytes <$> cs)) true).
Proof.
  unfold write_pty_chunks. revert s. induction cs as [|c cs IH]; intros [w []] Hc; simpl; try done.
  - by rewrite app_nil_r.
  - rewrite write_pty_chunk_spec. simpl. rewrite IH by done. simpl. by rewrite app_assoc.
Qed.

Lemma read_pty_chunk_app c l e :
  chunk_ok c -> read_pty_chunk (mkRecv (chunk_bytes c ++ l) e) = Ok (Some c, mkRecv l e).
Proof.
  intros [Hseq Hlen]. destruct c as [q p]. simpl in *. unfold read_pty_chunk, chunk_bytes. simpl.
  assert (Z.of_nat (length p) <= MAX_MSG) by (unfold MAX_MSG, MAX_CHUNK in *; lia).
  rewrite app_assoc, <- app_assoc.
  replace 12%nat with (length (to_be 8 q ++ to_be 4 (wrap 32 (Z.of_nat (length p)))))
    by (by rewrite length_app, !length_to_be).
  rewrite read_exact_app. rewrite take_app_length', drop_app_length' by (by rewrite length_to_be).
  rewrite from_be_len, from_be_to_be_small by (done || (unfold U64_MAX in *; lia)).
  rewrite (proj2 (Z.ltb_ge _ _)) by done. rewrite Nat2Z.id, read_exact_app. done.
Qed.

Lemma read_pty_chunk_short l e :
  (length l < 12)%nat ->
  read_pty_chunk (mkRecv l e) =
  match e with Finished => Ok (None, mkRecv l e) | Lost => Err BrokenPipe end.
Proof. intros. unfold read_pty_chunk. rewrite read_exact_short by done. by destruct e. Qed.

Lemma read_pty_chunk_cut c n e :
  chunk_ok c -> (12 <= n)%nat -> (n < length (chunk_bytes c))%nat ->
  read_pty_chunk (mkRecv (take n (chunk_bytes c)) e) = Err BrokenPipe.
Proof.
  intros [Hseq Hlen] Hn Hlt. rewrite length_chunk_bytes in Hlt. destruct c as [q p]. simpl in *.
  assert (Z.of_nat (length p) <= MAX_MSG) by (unfold MAX_MSG, MAX_CHUNK in *; lia).
  unfold chunk_bytes, read_pty_chunk. simpl. rewrite app_assoc, take_app.
  assert (length (to_be 8 q ++ to_be 4 (wrap 32 (Z.of_nat (length p)))) = 12%nat) as H12.
  { by rewrite length_app, !length_to_be. }
  rewrite H12, take_ge by lia. rewrite <- H12 at 1. rewrite read_exact_app.
  rewrite drop_app_length' by (by rewrite length_to_be).
  rewrite from_be_len by done. rewrite (proj2 (Z.ltb_ge _ _)) by done.
  rewrite Nat2Z.id, read_exact_short by (rewrite length_take; lia). by destruct e.
Qed.

(** What reading a prefix of a written stream gives. *)
Record prefix_read (cs : list chunk) (n : nat) (e : stream_end)
    (r : list chunk * result unit ErrorKind) : Prop := {
  pr_prefix : exists k, r.1 = take k cs /\
    (k = length cs \/ (n < length (concat (chunk_bytes <$> take (S k) cs)))%nat);
  pr_all : (length (concat (chunk_bytes <$> cs)) <= n)%nat ->
    r.1 = cs /\ (e = Finished -> r.2 = Ok tt);
  pr_lost : e = Lost -> r.2 = Err BrokenPipe
}.

Lemma read_pty_stream_prefix cs n e fuel :
  Forall chunk_ok cs -> (length (concat (chunk_bytes <$> cs)) < fuel)%nat ->
  prefix_read cs n e (read_pty_stream fuel (mkRecv (take n (concat (chunk_bytes <$> cs))) e)).
Proof.
  intros Hok. revert n fuel. induction Hok as [|c cs Hc Hok IH]; intros n fuel Hf.
  - destruct fuel as [|fuel]; [lia|]. simpl. rewrite take_nil, read_pty_chunk_short by (simpl; lia).
    destruct e; split; try done; by exists 0%nat; split; [|left].
  - destruct fuel as [|fuel]; [lia|]. cbn [read_pty_stream].
    change (chunk_bytes <$> c :: cs) with (chunk_bytes c :: (chunk_bytes <$> cs)) in *.
    cbn [concat] in *. rewrite length_app in Hf. pose proof (length_chunk_bytes c) as Hlc.
    rewrite take_app. destruct (decide (length (chunk_bytes c) <= n)%nat) as [Hn|Hn].
    + rewrite (take_ge (chunk_bytes c)) by lia. rewrite read_pty_chunk_app by done.
      destruct (IH (n - length (chunk_bytes c))%nat fuel) as [(k & Hk & Hmax) Hall Hlost]; [lia|].
      destruct (read_pty_stream _ _) as [cs' res]. cbn [fst snd] in *. split; cbn [fst snd].
      * exists (S k). split; [by rewrite Hk|]. destruct Hmax as [->|Hmax]; [by left|right].
        rewrite (firstn_cons (S k)), fmap_cons. cbn [concat]. rewrite length_app. lia.
      * rewrite fmap_cons. cbn [concat]. rewrite length_app. intros Hle. destruct Hall as [-> ?]; [lia|done].
      * done.
    + replace (n - length (chunk_bytes c))%nat with 0%nat by lia. rewrite take_0, app_nil_r.
      assert (forall res, (e = Lost -> res = Err BrokenPipe) -> prefix_read (c :: cs) n e ([], res)) as Hgo.
      { intros res Hres. split; [|intros Hle; exfalso|done].
        - exists 0%nat. split; [done|]. right.
          rewrite (firstn_cons 0), fmap_cons, take_0. cbn [concat]. rewrite length_app. lia.
        - rewrite fmap_cons in Hle. cbn [concat] in Hle. rewrite length_app in Hle. lia. }
      destruct (decide (n < 12)%nat).
      * rewrite read_pty_chunk_short by (rewrite length_take; lia).
        destruct e; by apply Hgo.
      * rewrite read_pty_chunk_cut by (done || lia). by apply Hgo.
Qed.

Lemma diff_bytes_zero a b :
  length a = length b -> diff_bytes a b = 0 <-> a = b.
Proof.
  intros Hlen. unfold diff_bytes.
  enough (forall acc, fold_left (fun diff xy => Z.lor diff (Z.lxor xy.1 xy.2)) (zip a b) acc = 0
            <-> acc = 0 /\ a = b) as Hg by (rewrite Hg; naive_solver).
  revert b Hlen. induction a as [|x a IH]; intros [|y b] Hlen acc; simplify_eq/=; [naive_solver|].
  rewrite IH by done. rewrite Z.lor_eq_0_iff, Z.lxor_eq_0_iff. naive_solver.
Qed.

Lemma ct_eq_spec a b : constant_time_eq a b = true <-> a = b.
Proof.
  unfold constant_time_eq. destruct (Nat.eqb_spec (length a) (length b)) as [Hl|Hl]; cbn [negb].
  - by rewrite Z.eqb_eq, diff_bytes_zero.
  - split; [done|]. by intros ->.
Qed.

(** ** Messages *)

(** A message that the reader's limit admits, with fields of their types. *)
Definition msg_ok `{EnvelopeCodec} (env : Envelope) : Prop :=
  envelope_typed env /\ Z.of_nat (length (encode env)) <= MAX_MSG.

#[export] Instance msg_ok_dec `{EnvelopeCodec} env : Decision (msg_ok env).
Proof. unfold msg_ok. apply _. Defined.

(** [msg_ok] of a concrete message. *)
Ltac small_msg := apply (bool_decide_unpack _); vm_compute; exact I.

Lemma write_msgs_spec `{EnvelopeCodec} ms s :
  connected s = true ->
  write_msgs ms s = Ok (mkSend (written s ++ concat ((fun m => frame (encode m)) <$> ms)) true).
Proof.
  unfold write_msgs. revert s. induction ms as [|m ms IH]; intros [w []] Hc; simpl; try done.
  - by rewrite app_nil_r.
  - unfold write_msg at 2, write_framed, write_all. simpl. rewrite IH by done. simpl.
    by rewrite app_assoc.
Qed.

Lemma read_msg_frame {C : EnvelopeCodec} {L : LawfulCodec C} env l e :
  msg_ok env -> read_msg (mkRecv (frame (encode env) ++ l) e) = Ok (Some env, mkRecv l e).
Proof.
  intros [Ht Hok]. unfold read_msg, frame. rewrite <- app_assoc.
  set (pre := to_be 4 (wrap 32 (Z.of_nat (length (encode env))))).
  replace 4%nat with (length pre) by apply length_to_be.
  rewrite read_exact_app. subst pre. rewrite from_be_len by done.
  rewrite (proj2 (Z.ltb_ge _ _)) by done. rewrite Nat2Z.id, read_exact_app. simpl.
  rewrite decode_encode; [done|done|]. unfold MAX_MSG, U32_MAX in *. lia.
Qed.

Lemma read_msg_too_large `{EnvelopeCodec} env l e :
  MAX_MSG < Z.of_nat (length (encode env)) <= U32_MAX ->
  read_msg (mkRecv (frame (encode env) ++ l) e) = Err InvalidData.
Proof.
  intros [Hlo Hhi]. unfold read_msg, frame. rewrite <- app_assoc.
  set (pre := to_be 4 (wrap 32 (Z.of_nat (length (encode env))))).
  replace 4%nat with (length pre) by apply length_to_be.
  rewrite read_exact_app. subst pre. unfold U32_MAX in Hhi.
  rewrite wrap_small, from_be_to_be_small by lia.
  by rewrite (proj2 (Z.ltb_lt _ _)).
Qed.

Lemma read_msgs_frames {C : EnvelopeCodec} {L : LawfulCodec C} ms fuel :
  Forall msg_ok ms -> (length ms < fuel)%nat ->
  read_msgs fuel (mkRecv (concat ((fun m => frame (encode m)) <$> ms)) Finished) = (ms, Ok tt).
Proof.
  intros Hok. revert fuel. induction Hok as [|m ms Hm Hok IH]; intros fuel Hf;
    destruct fuel as [|fuel]; simpl in Hf; try lia.
  - done.
  - cbn [read_msgs]. rewrite fmap_cons. cbn [concat]. rewrite read_msg_frame by done.
    by rewrite IH by lia.
Qed.

(** ** Properties *)

(** Control streams: envelopes written one after the other on a connected
    stream are read back as exactly those envelopes, then the end of the
    stream, as long as each encoding is within the 4 MiB limit of the reader;
    a larger one (below 4 GiB) is refused with [InvalidData]. *)
Theorem msg_stream_roundtrip {C : EnvelopeCodec} {L : LawfulCodec C} ms :
  Forall msg_ok ms ->
  (exists s, write_msgs ms (mkSend [] true) = Ok s /\
     read_msgs (S (length ms)) (mkRecv (written s) Finished) = (ms, Ok tt)) /\
  (forall env l e, MAX_MSG < Z.of_nat (length (encode env)) <= U32_MAX ->
     read_msg (mkRecv (frame (encode env) ++ l) e) = Err InvalidData).
Proof.
  intros Hok. split.
  - eexists. split; [by apply write_msgs_spec|]. apply read_msgs_frames; [done|lia].
  - intros env l e Hlen. by apply read_msg_too_large.
Qed.

Definition sample_msgs : list Envelope :=
  [mkEnvelope (Some (PHeartbeat (mkHeartbeat {[0 := 3]})));
   mkEnvelope (Some (PTerminalResize (mkTerminalResize 24 80))); mkEnvelope None].

Lemma msg_stream_roundtrip_witness :
  exists s, write_msgs (H := proto_codec) sample_msgs (mkSend [] true) = Ok s /\
    read_msgs (H := proto_codec) 4 (mkRecv (written s) Finished) = (sample_msgs, Ok tt).
Proof.
  refine (proj1 (msg_stream_roundtrip (C := proto_codec) (L := proto_codec_lawful) sample_msgs _)).
  small_msg.
Defined.

(** C17: PTY streams: chunks written on a connected stream are, whatever prefix
    of the bytes arrives, read back as a prefix of those chunks, never as a
    different one, and as all of them when all bytes arrive; the prefix is the
    longest the bytes determine.  When the connection is lost the reader ends
    with [BrokenPipe]; when the stream finishes it ends cleanly. *)
Theorem pty_stream_roundtrip cs n e :
  Forall chunk_ok cs ->
  exists s, write_pty_chunks cs (mkSend [] true) = Ok s /\
    let got := read_pty_stream (S (length (written s))) (mkRecv (take n (written s)) e) in
    (exists k, got.1 = take k cs /\
       (k = length cs \/ (n < length (concat (chunk_bytes <$> take (S k) cs)))%nat)) /\
    ((length (written s) <= n)%nat -> got.1 = cs /\ (e = Finished -> got.2 = Ok tt)) /\
    (e = Lost -> got.2 = Err BrokenPipe).
Proof.
  intros Hok. eexists. split; [by apply write_pty_chunks_spec|]. simpl.
  destruct (read_pty_stream_prefix cs n e (S (length (concat (chunk_bytes <$> cs)))) Hok)
    as [Hp Ha Hl]; [lia|]. split; [exact Hp|]. by split.
Qed.

Lemma pty_stream_roundtrip_witness :
  exists s, write_pty_chunks [(1, [104; 105]); (2, [])] (mkSend [] true) = Ok s /\
    read_pty_stream (S (length (written s))) (mkRecv (written s) Finished)
      = ([(1, [104; 105]); (2, [])], Ok tt) /\
    read_pty_stream (S (length (written s))) (mkRecv (take 20 (written s)) Lost)
      = ([(1, [104; 105])], Err BrokenPipe).
Proof.
  destruct (pty_stream_roundtrip [(1, [104; 105]); (2, [])] 20 Lost) as (s & Hs & _).
  - repeat constructor; vm_compute; discriminate.
  - exists s. split; [exact Hs|]. vm_compute in Hs. injection Hs as <-.
    split; vm_compute; reflexivity.
Defined.

(** ** Arbitrary input *)

Lemma read_exact_inv n r got r' :
  read_exact n r = Ok (got, r') -> incoming r = got ++ incoming r' /\ length got = n /\ ending r' = ending r.
Proof.
  unfold read_exact. destruct (Nat.leb_spec n (length (incoming r))); [|by destruct (ending r)].
  intros [= <- <-]. cbn. by rewrite take_drop, length_take, Nat.min_l.
Qed.

Lemma read_exact_err n r err :
  read_exact n r = Err err ->
  (length (incoming r) < n)%nat /\ err = match ending r with Finished => FinishedEarly | Lost => ReadError end.
Proof.
  unfold read_exact. destruct (Nat.leb_spec n (length (incoming r))); [done|]. by destruct (ending r); intros [= <-].
Qed.

(** The length that the header of a chunk or a message declares. *)
Definition declared (skip : nat) (l : list u8) : Z := from_be (take 4 (drop skip l)).

(** A length prefix that is within a limit is the one its writer would write. *)
Lemma prefix_again hdr n :
  Forall is_byte hdr -> length hdr = 4%nat -> Z.to_nat (from_be hdr) = n -> from_be hdr <= MAX_MSG ->
  to_be 4 (wrap 32 (Z.of_nat n)) = hdr.
Proof.
  intros Hb Hl <- Hle. pose proof (from_be_bound hdr Hb) as Hbound. rewrite Z2Nat.id by lia.
  unfold MAX_MSG in Hle. rewrite wrap_small by lia. rewrite <- Hl. by apply to_be_from_be.
Qed.

Lemma read_pty_chunk_inv l e c r :
  Forall is_byte l -> read_pty_chunk (mkRecv l e) = Ok (Some c, r) ->
  l = chunk_bytes c ++ incoming r /\ chunk_ok c /\ ending r = e.
Proof.
  intros Hb. unfold read_pty_chunk. destruct (read_exact 12 (mkRecv l e)) as [[hdr r1]|[]] eqn:E1; [|done..].
  apply read_exact_inv in E1 as (Hl & Hlen & He). cbn in Hl, He. subst l.
  destruct (Z.ltb_spec MAX_CHUNK (from_be (drop 8 hdr))) as [|Hle]; [done|].
  destruct (read_exact (Z.to_nat (from_be (drop 8 hdr))) r1) as [[data r2]|[]] eqn:E2; [|done..].
  cbn. intros [= <- <-]. apply read_exact_inv in E2 as (Hl2 & Hlen2 & He2).
  apply Forall_app in Hb as [Hb _]. rewrite <- (take_drop 8 hdr) in Hb. apply Forall_app in Hb as [Hb1 Hb2].
  assert (length (take 8 hdr) = 8%nat) as L8 by (rewrite length_take; lia).
  assert (length (drop 8 hdr) = 4%nat) as L4 by (rewrite length_drop; lia).
  pose proof (from_be_bound _ Hb1) as B1. pose proof (from_be_bound _ Hb2) as B2. rewrite L8 in B1. rewrite L4 in B2.
  split; [|split; [split; cbn|congruence]].
  - unfold chunk_bytes. cbn [fst snd]. rewrite (prefix_again (drop 8 hdr) (length data)) by
      (done || (unfold MAX_MSG, MAX_CHUNK in *; lia)).
    assert (to_be 8 (from_be (take 8 hdr)) = take 8 hdr) as -> by (rewrite <- L8 at 1; by apply to_be_from_be).
    by rewrite Hl2, <- !app_assoc, (app_assoc (take 8 hdr)), take_drop.
  - unfold U64_MAX. lia.
  - rewrite Hlen2. lia.
Qed.

Lemma read_pty_chunk_fails l e :
  match read_pty_chunk (mkRecv l e) with
  | Ok (Some _, _) => True
  | Ok (None, r) => (length l < 12)%nat /\ e = Finished /\ r = mkRecv l e
  | Err InvalidData => (12 <= length l)%nat /\ MAX_CHUNK < declared 8 l
  | Err BrokenPipe =>
    ((length l < 12)%nat /\ e = Lost) \/
    ((12 <= length l < 12 + Z.to_nat (declared 8 l))%nat /\ declared 8 l <= MAX_CHUNK)
  | Err _ => False
  end.
Proof.
  unfold read_pty_chunk. destruct (read_exact 12 (mkRecv l e)) as [[hdr r1]|err] eqn:E1.
  - apply read_exact_inv in E1 as (Hl & Hlen & He). cbn in Hl, He.
    assert (declared 8 l = from_be (drop 8 hdr)) as ->.
    { unfold declared. rewrite Hl, drop_app_le, take_app_length' by (rewrite ?length_drop; lia). done. }
    assert (length l = (12 + length (incoming r1))%nat) as Hll by (rewrite Hl, length_app; lia).
    destruct (Z.ltb_spec MAX_CHUNK (from_be (drop 8 hdr))); [lia|].
    destruct (read_exact (Z.to_nat (from_be (drop 8 hdr))) r1) as [[data r2]|err] eqn:E2; [done|].
    apply read_exact_err in E2 as [Hs _]. cbn. right. lia.
  - apply read_exact_err in E1 as [Hs ->]. cbn in *. destruct e; [done|by left].
Qed.

Lemma read_msg_outcome {C : EnvelopeCodec} l e :
  Forall is_byte l ->
  match read_msg (mkRecv l e) with
  | Ok (Some m, r) =>
    exists body, l = frame body ++ incoming r /\ decode body = Some m /\ Z.of_nat (length body) <= MAX_MSG /\
      ending r = e
  | Ok (None, r) => (length l < 4)%nat /\ e = Finished /\ r = mkRecv l e
  | Err InvalidData =>
    (4 <= length l)%nat /\ (MAX_MSG < declared 0 l \/
      decode (take (Z.to_nat (declared 0 l)) (drop 4 l)) = None)
  | Err BrokenPipe =>
    ((length l < 4)%nat /\ e = Lost) \/
    ((4 <= length l < 4 + Z.to_nat (declared 0 l))%nat /\ declared 0 l <= MAX_MSG)
  | Err _ => False
  end.
Proof.
  intros Hb. unfold read_msg. destruct (read_exact 4 (mkRecv l e)) as [[hdr r1]|err] eqn:E1.
  - apply read_exact_inv in E1 as (Hl & Hlen & He). cbn in Hl, He.
    assert (declared 0 l = from_be hdr) as ->.
    { unfold declared. by rewrite Hl, drop_0, take_app_length' by lia. }
    assert (length l = (4 + length (incoming r1))%nat) as Hll by (rewrite Hl, length_app; lia).
    assert (drop 4 l = incoming r1) as -> by (rewrite Hl; by apply drop_app_length').
    destruct (Z.ltb_spec MAX_MSG (from_be hdr)) as [|Hle]; [split; [lia|by left]|].
    destruct (read_exact (Z.to_nat (from_be hdr)) r1) as [[body r2]|err] eqn:E2; cbn.
    + apply read_exact_inv in E2 as (Hl2 & Hlen2 & He2). rewrite Hl2, take_app_length' by lia.
      destruct (decode body) as [m|] eqn:Ed; [|split; [lia|by right]]. exists body.
      rewrite Hl in Hb. apply Forall_app in Hb as [Hb _]. unfold frame.
      rewrite (prefix_again hdr (length body)) by done. rewrite Hl, Hl2, <- app_assoc.
      pose proof (from_be_bound hdr Hb). repeat apply conj; try done; [lia|congruence].
    + apply read_exact_err in E2 as [Hs _]. right. lia.
  - apply read_exact_err in E1 as [Hs ->]. cbn in *. destruct e; [done|by left].
Qed.

(** C15: The readers on arbitrary bytes, for instance of a hostile peer: a chunk is
    accepted only if what was consumed is exactly what the writer writes for it, and a
    message only if what was consumed is one frame, a length of at most [MAX_MSG] and a
    body of that length which decodes to the message (not necessarily the body that the
    encoder gives it); nothing beyond it is consumed; a stream that finishes inside a header
    reads as a clean end; too large a declared length, or a body that does not
    decode, is [InvalidData]; everything that ends too early is [BrokenPipe]; there
    is no other error. *)
Theorem reader_outcomes {C : EnvelopeCodec} l e :
  Forall is_byte l ->
  match read_pty_chunk (mkRecv l e) with
  | Ok (Some c, r) => l = chunk_bytes c ++ incoming r /\ chunk_ok c /\ ending r = e
  | Ok (None, r) => (length l < 12)%nat /\ e = Finished /\ r = mkRecv l e
  | Err InvalidData => (12 <= length l)%nat /\ MAX_CHUNK < declared 8 l
  | Err BrokenPipe =>
    ((length l < 12)%nat /\ e = Lost) \/
    ((12 <= length l < 12 + Z.to_nat (declared 8 l))%nat /\ declared 8 l <= MAX_CHUNK)
  | Err _ => False
  end /\
  match read_msg (mkRecv l e) with
  | Ok (Some m, r) =>
    exists body, l = frame body ++ incoming r /\ decode body = Some m /\ Z.of_nat (length body) <= MAX_MSG /\
      ending r = e
  | Ok (None, r) => (length l < 4)%nat /\ e = Finished /\ r = mkRecv l e
  | Err InvalidData =>
    (4 <= length l)%nat /\ (MAX_MSG < declared 0 l \/
      decode (take (Z.to_nat (declared 0 l)) (drop 4 l)) = None)
  | Err BrokenPipe =>
    ((length l < 4)%nat /\ e = Lost) \/
    ((4 <= length l < 4 + Z.to_nat (declared 0 l))%nat /\ declared 0 l <= MAX_MSG)
  | Err _ => False
  end.
Proof.
  intros Hb. split; [|by apply read_msg_outcome].
  pose proof (read_pty_chunk_fails l e) as Hf. destruct (read_pty_chunk (mkRecv l e)) as [[[c|] r]|] eqn:E; [|exact Hf..].
  by apply read_pty_chunk_inv.
Qed.

Lemma reader_outcomes_witness :
  exists c r, read_pty_chunk (mkRecv ([0; 0; 0; 0; 0; 0; 1; 0; 0; 0; 0; 2; 104; 105; 9]) Lost) = Ok (Some c, r) /\
    [0; 0; 0; 0; 0; 0; 1; 0; 0; 0; 0; 2; 104; 105; 9] = chunk_bytes c ++ incoming r /\ c = (256, [104; 105]).
Proof.
  pose proof (proj1 (reader_outcomes (C := proto_codec) [0; 0; 0; 0; 0; 0; 1; 0; 0; 0; 0; 2; 104; 105; 9] Lost
    ltac:(repeat constructor; discriminate))) as H.
  exists (256, [104; 105]), (mkRecv [9] Lost). split; [reflexivity|]. split; [exact (proj1 H)|reflexivity].
Defined.

(** The comparison of secrets is exact: it accepts two byte strings if and
    only if they are equal, whatever their lengths. *)
Theorem constant_time_eq_spec a b : constant_time_eq a b = true <-> a = b.
Proof. apply ct_eq_spec. Qed.
