(* ===== verification/Ip.v ===== *)
(** IP and socket addresses of [std::net], as far as the program prints, parses
    and compares them.

    The printing is that of [impl Display for IpAddr] (the longest run of zero
    segments of an IPv6 address is compressed, an IPv4-mapped address is
    printed in mixed notation), the parsing that of [impl FromStr for IpAddr].
    The theorem [ip_parse_print] shows that they agree. *)
From S2P Require Import Prelude Text.

Open Scope Z_scope.
Open Scope list_scope.

(** Four octets, or eight 16-bit segments. *)
Inductive IpAddr : Type :=
| IpV4 (octets : list u8)
| IpV6 (segments : list u16).

Inductive SocketAddr : Type :=
| SockV4 (octets : list u8) (port : u16)
| SockV6 (segments : list u16) (port : u16) (flowinfo scope : u32).

#[export] Instance IpAddr_eq_dec : EqDecision IpAddr.
Proof. solve_decision. Defined.
#[export] Instance SocketAddr_eq_dec : EqDecision SocketAddr.
Proof. solve_decision. Defined.

Definition is_ipv4 (a : SocketAddr) : bool := match a with SockV4 _ _ => true | _ => false end.
Definition is_ipv6 (a : SocketAddr) : bool := negb (is_ipv4 a).
Definition sock_ip (a : SocketAddr) : IpAddr :=
  match a with SockV4 o _ => IpV4 o | SockV6 s _ _ _ => IpV6 s end.
Definition sock_port (a : SocketAddr) : u16 :=
  match a with SockV4 _ p => p | SockV6 _ p _ _ => p end.

(** [SocketAddr::new]. *)
Definition sock_new (ip : IpAddr) (port : u16) : SocketAddr :=
  match ip with IpV4 o => SockV4 o port | IpV6 s => SockV6 s port 0 0 end.

Definition is_seg (n : Z) : Prop := 0 <= n <= U16_MAX.

Definition ip_ok (ip : IpAddr) : Prop :=
  match ip with
  | IpV4 o => length o = 4%nat /\ Forall is_byte o
  | IpV6 s => length s = 8%nat /\ Forall is_seg s
  end.

(** ** Printing *)


(** [{:x}] of a 16-bit number. *)
Definition hex16 (n : u16) : str :=
  if n <? 16 then [hex_digit n]
  else if n <? 256 then [hex_digit (n / 16); hex_digit (n mod 16)]
  else if n <? 4096 then [hex_digit (n / 256); hex_digit (n / 16 mod 16); hex_digit (n mod 16)]
  else [hex_digit (n / 4096); hex_digit (n / 256 mod 16); hex_digit (n / 16 mod 16);
        hex_digit (n mod 16)].

Definition fmt_v4 (o : list u8) : str := join [DOT] (map dec o).

(** [fmt_subslice]. *)
Definition fmt_segments (s : list u16) : str := join [COLON] (map hex16 s).

(** The search for the first longest run of zero segments: position, current
    run and best run so far as (start, length). *)
Fixpoint zero_runs (i : nat) (cur best : nat * nat) (s : list u16) : nat * nat :=
  match s with
  | [] => best
  | x :: s =>
    if x =? 0 then
      let cur := (if (cur.2 =? 0)%nat then i else cur.1, S cur.2) in
      zero_runs (S i) cur (if (best.2 <? cur.2)%nat then cur else best) s
    else zero_runs (S i) (0%nat, 0%nat) best s
  end.

(** [Ipv6Addr::to_ipv4_mapped]. *)
Definition to_ipv4_mapped (s : list u16) : option (list u8) :=
  match s with
  | [s0; s1; s2; s3; s4; s5; ab; cd] =>
    if (s0 =? 0) && (s1 =? 0) && (s2 =? 0) && (s3 =? 0) && (s4 =? 0) && (s5 =? 65535)
    then Some [ab / 256; ab mod 256; cd / 256; cd mod 256] else None
  | _ => None
  end.

Definition fmt_v6 (s : list u16) : str :=
  match to_ipv4_mapped s with
  | Some o => lit "::ffff:" ++ fmt_v4 o
  | None =>
    let '(start, len) := zero_runs 0 (0%nat, 0%nat) (0%nat, 0%nat) s in
    if (1 <? len)%nat then
      fmt_segments (take start s) ++ lit "::" ++ fmt_segments (drop (start + len) s)
    else fmt_segments s
  end.

Definition ip_to_string (ip : IpAddr) : str :=
  match ip with IpV4 o => fmt_v4 o | IpV6 s => fmt_v6 s end.

(** ** Parsing

    Each reader returns what it read and the rest of the input, or fails and
    leaves the input alone. *)

Definition digit_of (radix : Z) (c : char) : option Z :=
  match hex_val c with
  | Some d => if d <? radix then Some d else None
  | None => None
  end.

(** The digits at the front of the input. *)
Fixpoint read_digits (radix : Z) (s : str) : list Z * str :=
  match s with
  | [] => ([], [])
  | c :: r =>
    match digit_of radix c with
    | Some d => let '(ds, r) := read_digits radix r in (d :: ds, r)
    | None => ([], s)
    end
  end.

Definition digits_val (radix : Z) (ds : list Z) : Z := fold_left (fun n d => n * radix + d) ds 0.

Definition read_number (radix : Z) (max_digits : nat) (allow_zero_prefix : bool) (max : Z) (s : str)
    : option (Z * str) :=
  let '(ds, r) := read_digits radix s in
  if (max_digits <? length ds)%nat then None
  else match ds with
  | [] => None
  | d :: ds' =>
    if negb allow_zero_prefix && (d =? 0) && negb (bool_decide (ds' = [])) then None
    else
      let v := digits_val radix ds in
      if v <=? max then Some (v, r) else None
  end.

Definition read_given_char (c : char) (s : str) : option str :=
  match s with x :: r => if x =? c then Some r else None | [] => None end.

(** [read_separator]: the separator is required before every item but the first. *)
Definition read_separator {A} (sep : char) (index : nat) (inner : str -> option (A * str)) (s : str)
    : option (A * str) :=
  match index with
  | O => inner s
  | S _ => match read_given_char sep s with Some s => inner s | None => None end
  end.

Definition read_octet (s : str) : option (Z * str) := read_number 10 3 false U8_MAX s.

Definition read_ipv4_addr (s : str) : option (list u8 * str) :=
  match read_separator DOT 0 read_octet s with
  | None => None
  | Some (a, s) =>
    match read_separator DOT 1 read_octet s with
    | None => None
    | Some (b, s) =>
      match read_separator DOT 2 read_octet s with
      | None => None
      | Some (c, s) =>
        match read_separator DOT 3 read_octet s with
        | None => None
        | Some (d, s) => Some ([a; b; c; d], s)
        end
      end
    end
  end.

Definition read_group (s : str) : option (Z * str) := read_number 16 4 true U16_MAX s.

(** [read_groups] for the slots [i .. i + n - 1] of a buffer of [i + n]: the
    groups read, whether the last two came from an IPv4 address, the rest. *)
Fixpoint read_groups (n i : nat) (s : str) : list u16 * bool * str :=
  match n with
  | O => ([], false, s)
  | S n' =>
    let v4 := if (1 <? n)%nat then read_separator COLON i read_ipv4_addr s else None in
    match v4 with
    | Some ([a; b; c; d], r) => ([a * 256 + b; c * 256 + d], true, r)
    | _ =>
      match read_separator COLON i read_group s with
      | Some (g, r) =>
        let '(gs, v4, r) := read_groups n' (S i) r in (g :: gs, v4, r)
      | None => ([], false, s)
      end
    end
  end.

Definition read_ipv6_addr (s : str) : option (list u16 * str) :=
  let '(head, head_ipv4, s) := read_groups 8 0 s in
  if (length head =? 8)%nat then Some (head, s)
  else if head_ipv4 then None
  else
    match read_given_char COLON s with
    | None => None
    | Some s =>
      match read_given_char COLON s with
      | None => None
      | Some s =>
        let '(tail, _, s) := read_groups (8 - (length head + 1)) 0 s in
        Some (head ++ repeat 0 (8 - length head - length tail) ++ tail, s)
      end
    end.

(** [s.parse::<IpAddr>()]: the whole input must be consumed. *)
Definition ip_parse (s : str) : option IpAddr :=
  let r := match read_ipv4_addr s with
           | Some (o, r) => Some (IpV4 o, r)
           | None => match read_ipv6_addr s with
                     | Some (g, r) => Some (IpV6 g, r)
                     | None => None
                     end
           end in
  match r with Some (ip, []) => Some ip | _ => None end.

Example print_parse_samples :
  ip_to_string (IpV6 [0; 0; 0; 0; 0; 0; 0; 1]) = lit "::1" /\
  ip_to_string (IpV6 [8193; 3512; 0; 0; 1; 0; 0; 1]) = lit "2001:db8::1:0:0:1" /\
  ip_to_string (IpV6 [0; 0; 0; 0; 0; 65535; 49320; 258]) = lit "::ffff:192.168.1.2" /\
  ip_parse (lit "2001:db8::1:0:0:1") = Some (IpV6 [8193; 3512; 0; 0; 1; 0; 0; 1]) /\
  ip_parse (lit "::ffff:192.168.1.2") = Some (IpV6 [0; 0; 0; 0; 0; 65535; 49320; 258]) /\
  ip_parse (lit "1.2.3.04") = None /\ ip_parse (lit "1.2.3.4") = Some (IpV4 [1; 2; 3; 4]) /\
  ip_parse (lit "1::2::3") = None /\ ip_parse (lit "::") = Some (IpV6 [0; 0; 0; 0; 0; 0; 0; 0]).
Proof. vm_compute. done. Qed.

(** ** Reading numbers *)

(** The input does not go on with a digit of the radix. *)
Definition no_digit (radix : Z) (r : str) : Prop :=
  match r with [] => True | c :: _ => digit_of radix c = None end.

Lemma digit_of_hex_digit radix d :
  0 <= d < radix -> radix <= 16 -> digit_of radix (hex_digit d) = Some d.
Proof.
  intros. unfold digit_of. rewrite hex_val_digit by lia.
  by rewrite (proj2 (Z.ltb_lt _ _)) by lia.
Qed.

Lemma read_digits_app radix ds r :
  radix <= 16 -> Forall (fun d => 0 <= d < radix) ds -> no_digit radix r ->
  read_digits radix (map hex_digit ds ++ r) = (ds, r).
Proof.
  intros Hr Hds Hn. induction Hds as [|d ds Hd Hds IH]; simpl.
  - destruct r as [|c r]; simpl in *; [done|]. by rewrite Hn.
  - rewrite digit_of_hex_digit by done. by rewrite IH.
Qed.

(** What is consumed are digits. *)
Lemma read_digits_split radix s ds r :
  read_digits radix s = (ds, r) ->
  exists p, s = p ++ r /\ Forall (fun c => is_Some (digit_of radix c)) p /\ length p = length ds.
Proof.
  revert ds r. induction s as [|c s IH]; intros ds r; simpl.
  - intros [= <- <-]. by exists [].
  - destruct (digit_of radix c) as [d|] eqn:Ed.
    + destruct (read_digits radix s) as [ds' r'] eqn:E. intros [= <- <-].
      destruct (IH _ _ eq_refl) as (p & -> & Hp & Hl). exists (c :: p).
      repeat split; [constructor; eauto|simpl; lia].
    + intros [= <- <-]. by exists [].
Qed.

Lemma read_number_split radix md zp max s v r :
  read_number radix md zp max s = Some (v, r) ->
  exists p, s = p ++ r /\ Forall (fun c => is_Some (digit_of radix c)) p /\ p <> [].
Proof.
  unfold read_number. destruct (read_digits radix s) as [ds r'] eqn:E.
  destruct (read_digits_split _ _ _ _ E) as (p & -> & Hp & Hl).
  destruct (_ <? _)%nat; [done|]. destruct ds as [|d ds]; [done|].
  destruct (_ && _); [done|]. destruct (_ <=? _); [|done]. intros [= _ <-].
  exists p. repeat split; [done|]. by destruct p.
Qed.

(** The digits of an octet and of a segment. *)
Definition octet_digits (n : Z) : list Z :=
  if n <? 10 then [n] else if n <? 100 then [n / 10; n mod 10]
  else [n / 100; n / 10 mod 10; n mod 10].

Definition seg_digits (n : Z) : list Z :=
  if n <? 16 then [n] else if n <? 256 then [n / 16; n mod 16]
  else if n <? 4096 then [n / 256; n / 16 mod 16; n mod 16]
  else [n / 4096; n / 256 mod 16; n / 16 mod 16; n mod 16].

Lemma dec_octet_digits n : is_byte n -> dec n = map hex_digit (octet_digits n).
Proof.
  intros Hn.
  assert (forallb (fun n => bool_decide (dec n = map hex_digit (octet_digits n))) (seqZ 0 256) = true)
    as Hall by (vm_compute; reflexivity).
  rewrite forallb_forall in Hall. specialize (Hall n).
  rewrite <- list_elem_of_In, elem_of_seqZ, bool_decide_eq_true in Hall.
  apply Hall. unfold is_byte in Hn. lia.
Qed.

Lemma hex16_seg_digits n : hex16 n = map hex_digit (seg_digits n).
Proof. unfold hex16, seg_digits. repeat case_match; reflexivity. Qed.

Lemma read_octet_dec n r :
  is_byte n -> no_digit 10 r -> read_octet (dec n ++ r) = Some (n, r).
Proof.
  intros Hn Hr. rewrite dec_octet_digits by done. unfold read_octet, read_number, is_byte in *.
  rewrite read_digits_app; [|lia| |done].
  - assert (digits_val 10 (octet_digits n) = n) as Hv.
    { pose proof (Z.div_mod n 10 ltac:(lia)) as E1. pose proof (Z.div_mod (n / 10) 10 ltac:(lia)) as E2.
      rewrite Z.div_div in E2 by lia. change (10 * 10) with 100 in E2.
      unfold digits_val, octet_digits. repeat case_match; simpl; lia. }
    rewrite Hv. unfold U8_MAX. rewrite (proj2 (Z.leb_le _ _)) by lia.
    unfold octet_digits. destruct (Z.ltb_spec n 10); [|destruct (Z.ltb_spec n 100)]; simpl.
    + by rewrite andb_false_r.
    + assert (0 < n / 10) by (apply Z.div_str_pos; lia).
      by rewrite (proj2 (Z.eqb_neq (n / 10) 0)) by lia.
    + assert (0 < n / 100) by (apply Z.div_str_pos; lia).
      by rewrite (proj2 (Z.eqb_neq (n / 100) 0)) by lia.
  - unfold octet_digits. repeat case_match; rewrite ?Z.ltb_lt, ?Z.ltb_ge in *;
      repeat constructor; try lia; try apply Z.mod_pos_bound; try lia;
      try (apply Z.div_pos; lia); try (apply Z.div_lt_upper_bound; lia).
Qed.

Lemma read_group_hex16 n r :
  is_seg n -> no_digit 16 r -> read_group (hex16 n ++ r) = Some (n, r).
Proof.
  intros Hn Hr. rewrite hex16_seg_digits. unfold read_group, read_number, is_seg, U16_MAX in *.
  rewrite read_digits_app; [|lia| |done].
  - assert (digits_val 16 (seg_digits n) = n) as Hv.
    { pose proof (Z.div_mod n 16 ltac:(lia)) as E1. pose proof (Z.div_mod (n / 16) 16 ltac:(lia)) as E2.
      pose proof (Z.div_mod (n / 256) 16 ltac:(lia)) as E3.
      rewrite Z.div_div in E2, E3 by lia.
      change (16 * 16) with 256 in E2. change (256 * 16) with 4096 in E3.
      unfold digits_val, seg_digits. repeat case_match; simpl; lia. }
    rewrite Hv. rewrite (proj2 (Z.leb_le _ _)) by lia.
    unfold seg_digits. repeat case_match; simplify_eq/=; done.
  - unfold seg_digits. repeat case_match; rewrite ?Z.ltb_lt, ?Z.ltb_ge in *;
      repeat constructor; try lia; try apply Z.mod_pos_bound; try lia;
      try (apply Z.div_pos; lia); try (apply Z.div_lt_upper_bound; lia).
Qed.

(** ** Reading an IPv4 address *)

Lemma no_digit_dot radix r : no_digit radix (DOT :: r).
Proof. done. Qed.
Lemma no_digit_colon radix r : no_digit radix (COLON :: r).
Proof. done. Qed.
#[local] Hint Resolve no_digit_dot no_digit_colon : etr.

Lemma read_ipv4_fmt o r :
  length o = 4%nat -> Forall is_byte o -> no_digit 10 r ->
  read_ipv4_addr (fmt_v4 o ++ r) = Some (o, r).
Proof.
  intros Hl Ho Hr. destruct o as [|a [|b [|c [|d []]]]]; try done.
  rewrite !Forall_cons in Ho. destruct Ho as (Ha & Hb & Hc & Hd & _).
  unfold fmt_v4. cbn [map join]. rewrite <- !app_assoc. cbn [app].
  unfold read_ipv4_addr. cbn [read_separator read_given_char].
  do 3 (rewrite read_octet_dec by auto with etr; cbn [read_separator read_given_char];
        rewrite Z.eqb_refl; rewrite <- ?app_assoc; cbn [app]).
  by rewrite read_octet_dec.
Qed.

(** Where no dot follows the leading digits there is no IPv4 address. *)
Lemma read_ipv4_fail s :
  (forall p r, s = p ++ DOT :: r -> Exists (fun c => digit_of 10 c = None) p) ->
  read_ipv4_addr s = None.
Proof.
  intros Hs. unfold read_ipv4_addr. cbn [read_separator].
  destruct (read_octet s) as [[a s1]|] eqn:E; [|done].
  destruct (read_number_split _ _ _ _ _ _ _ E) as (p & -> & Hp & _).
  destruct (read_given_char DOT s1) as [s2|] eqn:E2; [|done].
  unfold read_given_char in E2. destruct s1 as [|x s1]; [done|].
  destruct (Z.eqb_spec x DOT) as [->|]; [|done].
  specialize (Hs p s1 eq_refl). apply Exists_exists in Hs as (c & Hc & Hn).
  rewrite Forall_forall in Hp. specialize (Hp c Hc). rewrite Hn in Hp. by destruct Hp.
Qed.

(** ** Reading groups *)

(** Where a list of groups ends: nothing, or a double colon. *)
Definition stop (r : str) : Prop := r = [] \/ exists x, r = COLON :: COLON :: x.

Lemma stop_no_digit radix r : stop r -> no_digit radix r.
Proof. by intros [->|[x ->]]. Qed.

(** The text of groups, the first without separator at index 0. *)
Definition seps (i : nat) (segs : list u16) : str :=
  match i with
  | O => fmt_segments segs
  | S _ => concat (map (fun g => COLON :: hex16 g) segs)
  end.

Lemma join_map_colon g segs :
  fmt_segments (g :: segs) = hex16 g ++ seps 1 segs.
Proof.
  unfold fmt_segments. simpl. revert g. induction segs as [|h segs IH]; intros g; simpl.
  - by rewrite app_nil_r.
  - specialize (IH h). simpl in IH. by rewrite IH.
Qed.

(** After the separator: a group and what follows. *)
Lemma seps_cons i g segs r :
  seps i (g :: segs) ++ r =
  match i with O => [] | S _ => [COLON] end ++ hex16 g ++ (seps (S i) segs ++ r).
Proof.
  destruct i; [unfold seps at 1; rewrite join_map_colon; by rewrite <- app_assoc|].
  simpl. by rewrite <- !app_assoc.
Qed.

Lemma read_separator_seps {A} (inner : str -> option (A * str)) i g segs r :
  read_separator COLON i inner (seps i (g :: segs) ++ r) = inner (hex16 g ++ (seps (S i) segs ++ r)).
Proof. rewrite seps_cons. by destruct i. Qed.

Lemma seps_stop i segs r : stop r -> seps (S i) segs ++ r = [] \/ exists x, seps (S i) segs ++ r = COLON :: x.
Proof.
  intros Hr. destruct segs as [|g segs]; simpl.
  - destruct Hr as [->|[x ->]]; eauto.
  - right. eauto.
Qed.

Lemma hex16_no_dot n : is_seg n -> DOT ∉ hex16 n.
Proof.
  intros Hn. rewrite hex16_seg_digits. intros (d & Hd & Hin)%list_elem_of_fmap.
  assert (0 <= d < 16) as Hb.
  { unfold is_seg, U16_MAX in Hn. unfold seg_digits in Hin.
    repeat case_match; rewrite ?Z.ltb_lt, ?Z.ltb_ge in *;
      rewrite !elem_of_cons in Hin; decompose [or] Hin; subst; try set_solver;
      try (apply Z.mod_pos_bound; lia); try lia;
      (split; [apply Z.div_pos; lia|apply Z.div_lt_upper_bound; lia]). }
  unfold hex_digit, DOT in Hd. case_match; lia.
Qed.

Lemma hex16_not_ipv4 g s :
  is_seg g -> (s = [] \/ exists x, s = COLON :: x) -> read_ipv4_addr (hex16 g ++ s) = None.
Proof.
  intros Hg Hs. apply read_ipv4_fail. intros p r Hp.
  pose proof (hex16_no_dot g Hg) as Hnd.
  destruct Hs as [->|[x ->]].
  - rewrite app_nil_r in Hp. rewrite Hp in Hnd. set_solver.
  - assert (exists q, p = hex16 g ++ COLON :: q) as [q ->].
    { apply app_eq_inv in Hp as [(k & H1 & H2)|(k & H1 & H2)].
      - destruct k as [|y k]; simplify_eq/=. rewrite H1 in Hnd. set_solver.
      - destruct k as [|y k]; simplify_eq/=. eauto. }
    apply Exists_app. right. by constructor.
Qed.

Lemma stop_no_ipv4 i r : stop r -> read_separator COLON i read_ipv4_addr r = None.
Proof. intros [->|[x ->]]; by destruct i. Qed.

Lemma stop_no_group i r : stop r -> read_separator COLON i read_group r = None.
Proof. intros [->|[x ->]]; by destruct i. Qed.

Lemma read_groups_stop n i r : stop r -> read_groups n i r = ([], false, r).
Proof.
  intros Hr. destruct n; [done|]. cbn [read_groups].
  rewrite stop_no_ipv4, stop_no_group by done. by destruct (_ <? _)%nat.
Qed.

Lemma read_groups_seps n i segs r :
  (length segs <= n)%nat -> Forall is_seg segs -> stop r ->
  read_groups n i (seps i segs ++ r) = (segs, false, r).
Proof.
  intros Hl Hs Hr. revert n i Hl. induction Hs as [|g segs Hg Hs IH]; intros n i Hl.
  - replace (seps i [] ++ r) with r by (by destruct i). by apply read_groups_stop.
  - destruct n as [|n]; simpl in Hl; [lia|]. cbn [read_groups].
    rewrite !read_separator_seps.
    pose proof (seps_stop i segs r Hr) as Hnext.
    rewrite hex16_not_ipv4, read_group_hex16 by (done || (by destruct Hnext as [->|[x ->]])).
    rewrite IH by lia. by destruct (_ <? _)%nat.
Qed.

(** ** The compressed run *)

(** [run] of the segments [pre] that is zero. *)
Definition zero_run (pre : list u16) (run : nat * nat) : Prop :=
  (run.1 + run.2 <= length pre)%nat /\ take run.2 (drop run.1 pre) = repeat 0 run.2.

Lemma zero_run_snoc pre x run : zero_run pre run -> zero_run (pre ++ [x]) run.
Proof.
  intros [Hl Hz]. split; [rewrite length_app; simpl; lia|].
  rewrite drop_app_le, take_app_le by (rewrite ?length_drop; lia). done.
Qed.

Lemma zero_runs_spec pre s cur best :
  zero_run pre best -> zero_run pre cur -> (cur.2 <> 0 -> cur.1 + cur.2 = length pre)%nat ->
  zero_run (pre ++ s) (zero_runs (length pre) cur best s).
Proof.
  revert pre cur best. induction s as [|x s IH]; intros pre cur best Hb Hc He; simpl.
  { by rewrite app_nil_r. }
  replace (pre ++ x :: s) with ((pre ++ [x]) ++ s) by (by rewrite <- app_assoc).
  replace (S (length pre)) with (length (pre ++ [x])) by (rewrite length_app; simpl; lia).
  destruct (Z.eqb_spec x 0) as [->|Hx].
  - set (cur' := (if (cur.2 =? 0)%nat then length pre else cur.1, S cur.2)).
    assert (zero_run (pre ++ [0]) cur' /\ (cur'.1 + cur'.2)%nat = length (pre ++ [0])) as [Hc' He'].
    { subst cur'. simpl. unfold zero_run. simpl. rewrite length_app. simpl.
      destruct (Nat.eqb_spec cur.2 0) as [E|E].
      - rewrite E, drop_app_length. split; [split; [lia|done]|lia].
      - specialize (He E). destruct Hc as [Hl Hz].
        rewrite drop_app_le by lia. split; [split; [lia|]|lia].
        change (0 :: repeat 0 cur.2) with (repeat 0 (S cur.2)).
        replace (S cur.2) with (length (drop cur.1 pre) + 1)%nat by (rewrite length_drop; lia).
        rewrite take_app_add, repeat_app. f_equal.
        rewrite take_ge in Hz by (rewrite length_drop; lia). rewrite Hz.
        by rewrite repeat_length. }
    apply IH; [|done|done]. destruct (_ <? _)%nat; [done|by apply zero_run_snoc].
  - apply IH; [by apply zero_run_snoc| |done].
    split; [simpl; lia|done].
Qed.

Lemma fmt_v6_parts s :
  length s = 8%nat -> to_ipv4_mapped s = None ->
  exists start len, fmt_v6 s =
    (if (1 <? len)%nat then fmt_segments (take start s) ++ lit "::" ++ fmt_segments (drop (start + len) s)
     else fmt_segments s) /\
    (start + len <= 8)%nat /\
    take start s ++ repeat 0 len ++ drop (start + len) s = s.
Proof.
  intros Hl Hm. unfold fmt_v6. rewrite Hm.
  assert (zero_run s (zero_runs 0 (0%nat, 0%nat) (0%nat, 0%nat) s)) as [Hle Hz].
  { apply (zero_runs_spec []); by split. }
  destruct (zero_runs _ _ _ _) as [start len]. simpl in *. exists start, len.
  split; [done|]. split; [lia|]. rewrite <- Hz, <- drop_drop, take_drop.
  apply take_drop.
Qed.

(** ** Round trip *)

Lemma read_ipv4_colon s : read_ipv4_addr (COLON :: s) = None.
Proof. done. Qed.

Lemma seps_zero segs r : fmt_segments segs ++ r = seps 0 segs ++ r.
Proof. done. Qed.

Lemma read_given_same c s : read_given_char c (c :: s) = Some s.
Proof. simpl. by rewrite Z.eqb_refl. Qed.

Lemma read_ipv6_plain s : length s = 8%nat -> Forall is_seg s ->
  read_ipv6_addr (fmt_segments s) = Some (s, []).
Proof.
  intros Hl Hs. unfold read_ipv6_addr. rewrite <- (app_nil_r (fmt_segments s)), seps_zero.
  rewrite read_groups_seps by (rewrite ?Hl; auto; by left). by rewrite Hl.
Qed.

Lemma read_ipv6_compressed hd tl :
  (length hd + length tl < 8)%nat -> Forall is_seg hd -> Forall is_seg tl ->
  read_ipv6_addr (fmt_segments hd ++ COLON :: COLON :: fmt_segments tl) =
  Some (hd ++ repeat 0 (8 - length hd - length tl) ++ tl, []).
Proof.
  intros Hl Hh Ht. unfold read_ipv6_addr. rewrite seps_zero.
  rewrite read_groups_seps by (done || lia || (right; eauto)).
  rewrite (proj2 (Nat.eqb_neq _ _)) by lia. rewrite !read_given_same.
  rewrite <- (app_nil_r (fmt_segments tl)), seps_zero.
  by rewrite read_groups_seps by (done || lia || (by left)).
Qed.

Lemma read_groups_one n i s g r :
  read_separator COLON i read_ipv4_addr s = None ->
  read_separator COLON i read_group s = Some (g, r) ->
  read_groups (S n) i s = let '(gs, v4, r) := read_groups n (S i) r in (g :: gs, v4, r).
Proof. intros H1 H2. cbn [read_groups]. rewrite H1, H2. by destruct (_ <? _)%nat. Qed.

Lemma read_groups_v4 n i s o r :
  length o = 4%nat -> read_separator COLON i read_ipv4_addr s = Some (o, r) ->
  read_groups (S (S n)) i s =
    ([nth 0 o 0 * 256 + nth 1 o 0; nth 2 o 0 * 256 + nth 3 o 0], true, r).
Proof.
  intros Hl H1. cbn [read_groups]. rewrite H1. by destruct o as [|a [|b [|c [|d []]]]].
Qed.

Lemma read_ipv6_mapped o :
  length o = 4%nat -> Forall is_byte o ->
  read_ipv6_addr (lit "::ffff:" ++ fmt_v4 o) =
  Some ([0; 0; 0; 0; 0; 65535; nth 0 o 0 * 256 + nth 1 o 0; nth 2 o 0 * 256 + nth 3 o 0], []).
Proof.
  intros Hl Ho. unfold read_ipv6_addr.
  change (lit "::ffff:" ++ fmt_v4 o) with (COLON :: COLON :: hex16 65535 ++ COLON :: fmt_v4 o).
  rewrite read_groups_stop by (right; eauto). cbn [length Nat.eqb Nat.sub Nat.add].
  rewrite !read_given_same.
  assert (is_seg 65535) by (split; [lia|unfold U16_MAX; lia]).
  rewrite (read_groups_one _ _ _ 65535 (COLON :: fmt_v4 o));
    [|apply hex16_not_ipv4; eauto|by apply read_group_hex16].
  rewrite (read_groups_v4 _ _ _ o []); [done|done|].
  cbn [read_separator]. rewrite read_given_same, <- (app_nil_r (fmt_v4 o)). by apply read_ipv4_fmt.
Qed.

Lemma fmt_v6_not_ipv4 segs r :
  Forall is_seg segs -> (r = [] \/ exists x, r = COLON :: x) ->
  read_ipv4_addr (fmt_segments segs ++ r) = None.
Proof.
  intros Hs Hr. destruct Hs as [|g segs Hg Hs].
  - destruct Hr as [->|[x ->]]; done.
  - rewrite join_map_colon, <- app_assoc. apply hex16_not_ipv4; [done|].
    destruct segs; simpl; [done|]. right. eauto.
Qed.

Lemma to_ipv4_mapped_Some s o :
  to_ipv4_mapped s = Some o ->
  exists ab cd, s = [0; 0; 0; 0; 0; 65535; ab; cd] /\ o = [ab / 256; ab mod 256; cd / 256; cd mod 256].
Proof.
  destruct s as [|s0 [|s1 [|s2 [|s3 [|s4 [|s5 [|ab [|cd []]]]]]]]]; try done. cbn [to_ipv4_mapped].
  destruct (_ && _) eqn:E; [|done]. destruct_andb. rewrite !Z.eqb_eq in *. subst.
  intros [= <-]. eauto.
Qed.

Lemma seg_octets n : is_seg n -> is_byte (n / 256) /\ is_byte (n mod 256).
Proof.
  unfold is_seg, U16_MAX, is_byte. intros. split.
  - split; [apply Z.div_pos; lia|apply Z.div_lt_upper_bound; lia].
  - apply Z.mod_pos_bound. lia.
Qed.

Lemma ip_parse_print ip : ip_ok ip -> ip_parse (ip_to_string ip) = Some ip.
Proof.
  intros Hok. unfold ip_parse. destruct ip as [o|s]; destruct Hok as [Hl Hf]; simpl ip_to_string.
  - by rewrite <- (app_nil_r (fmt_v4 o)), read_ipv4_fmt by done.
  - destruct (to_ipv4_mapped s) as [o|] eqn:Em.
    + unfold fmt_v6. rewrite Em. apply to_ipv4_mapped_Some in Em as (ab & cd & -> & ->).
      rewrite !Forall_cons in Hf. destruct Hf as (_ & _ & _ & _ & _ & _ & Hab & Hcd & _).
      destruct (seg_octets ab Hab), (seg_octets cd Hcd).
      set (o := [ab / 256; ab mod 256; cd / 256; cd mod 256]).
      change (read_ipv4_addr (lit "::ffff:" ++ fmt_v4 o)) with (@None (list u8 * str)).
      assert (Forall is_byte o) by (subst o; auto 6 using Forall_cons_2, Forall_nil_2).
      rewrite read_ipv6_mapped by done.
      simpl. pose proof (Z.div_mod ab 256 ltac:(lia)). pose proof (Z.div_mod cd 256 ltac:(lia)).
      by replace (ab / 256 * 256 + ab mod 256) with ab by lia;
        replace (cd / 256 * 256 + cd mod 256) with cd by lia.
    + destruct (fmt_v6_parts s Hl Em) as (start & len & -> & Hle & Hs).
      destruct (Nat.ltb_spec 1 len) as [Hlen|Hlen].
      * assert (Forall is_seg (take start s)) by by apply Forall_take.
        assert (Forall is_seg (drop (start + len) s)) by by apply Forall_drop.
        set (tl := drop (start + len) s) in *.
        change (lit "::" ++ fmt_segments tl) with (COLON :: COLON :: fmt_segments tl).
        rewrite fmt_v6_not_ipv4 by eauto.
        assert (length tl = length s - (start + len))%nat as Htl by apply length_drop.
        rewrite read_ipv6_compressed by (try done; rewrite length_take, Htl; lia).
        rewrite length_take, Htl.
        replace (8 - start `min` length s - (length s - (start + len)))%nat with len by lia.
        by rewrite Hs.
      * rewrite <- (app_nil_r (fmt_segments s)) at 1. rewrite fmt_v6_not_ipv4 by auto.
        by rewrite read_ipv6_plain.
Qed.
