(* ===== verification/UdpFrame.v ===== *)
(** The reusable datagram encoder of the UDP forwarding path
    ([UdpFrameEncoder] and [datagram_peer_addr] of [src/forward.rs]).

    The encoder formats the peer's address only when it changes and encodes the
    datagram field by hand.  Its specification is the straightforward path: the
    [Envelope] of the datagram, framed as [write_msg] frames it. *)
From S2P Require Import Prelude Text Protocol Stream Utf8 Wire Proto Quic Ip.

Open Scope Z_scope.
Open Scope list_scope.

(** [prost::encoding::message::encode] and [encoded_len] for a field that holds
    a [UdpDatagram].  The laws are prost's: the length is that of the encoding,
    and an [Envelope] encodes as its oneof field, which has tag 12 here. *)
Class DatagramField (C : EnvelopeCodec) : Type := {
  message_encode : Z -> UdpDatagram -> list u8;
  message_encoded_len : Z -> UdpDatagram -> Z
}.

Class LawfulField (C : EnvelopeCodec) (F : DatagramField C) : Prop := {
  encoded_len_length tag d : message_encoded_len tag d = Z.of_nat (length (message_encode tag d));
  encode_envelope d : encode (mkEnvelope (Some (PUdpDatagram d))) = message_encode 12 d
}.

Record UdpFrameEncoder : Type := mkEncoder {
  dgram : UdpDatagram;
  cached_ip : option IpAddr;
  out : list u8
}.

(** [UdpFrameEncoder::new]. *)
Definition new_encoder : UdpFrameEncoder := mkEncoder (mkUdpDatagram [] 0 []) None [].

Section Frame.
Context {C : EnvelopeCodec} {F : DatagramField C}.

(** [UdpFrameEncoder::frame]: the returned slice is the new [out]. *)
Definition frame_datagram (peer : SocketAddr) (payload : list u8) (e : UdpFrameEncoder)
    : list u8 * UdpFrameEncoder :=
  let ip := sock_ip peer in
  let hit := bool_decide (cached_ip e = Some ip) in
  let peer_text := if hit then peer_addr (dgram e) else ip_to_string ip in
  let cached := if hit then cached_ip e else Some ip in
  let d := mkUdpDatagram peer_text (sock_port peer) payload in
  let body_len := message_encoded_len 12 d in
  let out := to_be 4 (wrap 32 body_len) ++ message_encode 12 d in
  (out, mkEncoder d cached out).

(** The frames of a sequence of datagrams. *)
Fixpoint frame_all (ds : list (SocketAddr * list u8)) (e : UdpFrameEncoder) : list (list u8) :=
  match ds with
  | [] => []
  | (peer, payload) :: ds =>
    let '(framed, e) := frame_datagram peer payload e in framed :: frame_all ds e
  end.

(** The specification: the envelope of the datagram. *)
Definition datagram_env (peer : SocketAddr) (payload : list u8) : Envelope :=
  mkEnvelope (Some (PUdpDatagram
    (mkUdpDatagram (ip_to_string (sock_ip peer)) (sock_port peer) payload))).

(** The cached text is that of the cached address. *)
Definition cache_ok (e : UdpFrameEncoder) : Prop :=
  forall ip, cached_ip e = Some ip -> peer_addr (dgram e) = ip_to_string ip.

Lemma frame_datagram_spec `{!LawfulField C F} peer payload e :
  cache_ok e ->
  (frame_datagram peer payload e).1 = frame (encode (datagram_env peer payload)) /\
  cache_ok (frame_datagram peer payload e).2.
Proof.
  intros Hc. unfold frame_datagram.
  assert ((if bool_decide (cached_ip e = Some (sock_ip peer)) then peer_addr (dgram e)
           else ip_to_string (sock_ip peer)) = ip_to_string (sock_ip peer)) as ->.
  { case_bool_decide; [by apply Hc|done]. }
  split; simpl.
  - unfold frame, datagram_env. by rewrite encode_envelope, encoded_len_length.
  - intros ip. simpl. case_bool_decide as Eh; [rewrite Eh|]; by intros [= <-].
Qed.

Lemma frame_all_spec `{!LawfulField C F} ds e :
  cache_ok e ->
  frame_all ds e = (fun d => frame (encode (datagram_env d.1 d.2))) <$> ds.
Proof.
  revert e. induction ds as [|[peer payload] ds IH]; intros e Hc; [done|].
  cbn [frame_all]. destruct (frame_datagram_spec peer payload e Hc) as [Hf Hc'].
  destruct (frame_datagram peer payload e) as [framed e']. simpl in *. by rewrite Hf, IH.
Qed.
End Frame.

(** [datagram_peer_addr]. *)
Definition datagram_peer_addr (peer_addr : str) (peer_port : u32) : option SocketAddr :=
  match u16_try_from peer_port with
  | None => None
  | Some port =>
    if port =? 0 then None
    else match ip_parse peer_addr with
         | Some ip => Some (sock_new ip port)
         | None => None
         end
  end.

(** A socket address that the operating system hands out. *)
Definition sock_ok (a : SocketAddr) : Prop := ip_ok (sock_ip a) /\ 0 < sock_port a <= U16_MAX.

(** The address without the flow label and scope, which the wire does not carry. *)
Definition sock_plain (a : SocketAddr) : SocketAddr := sock_new (sock_ip a) (sock_port a).

Lemma datagram_peer_addr_print a :
  sock_ok a -> datagram_peer_addr (ip_to_string (sock_ip a)) (sock_port a) = Some (sock_plain a).
Proof.
  intros [Hip Hport]. unfold datagram_peer_addr, u16_try_from.
  replace ((0 <=? sock_port a) && (sock_port a <=? U16_MAX)) with true by lia.
  rewrite (proj2 (Z.eqb_neq _ _)) by lia. by rewrite ip_parse_print.
Qed.

(** What the receiving side makes of a message: the peer and the payload. *)
Definition received_datagram (env : Envelope) : option (SocketAddr * list u8) :=
  match payload env with
  | Some (PUdpDatagram d) =>
    match datagram_peer_addr (peer_addr d) (peer_port d) with
    | Some a => Some (a, dg_data d)
    | None => None
    end
  | _ => None
  end.

(** ** Properties *)

(** Whatever datagrams went through it before, the reusable encoder
    produces for every datagram byte for byte what framing the datagram's
    [Envelope] produces, so its cached address and buffers never leak from one
    datagram into the next. *)
Theorem udp_encoder_equiv {C : EnvelopeCodec} {F : DatagramField C} {L : LawfulField C F} ds :
  frame_all ds new_encoder = (fun d => frame (encode (datagram_env d.1 d.2))) <$> ds.
Proof. by apply frame_all_spec. Qed.

(** The field as the wire format has it. *)
Definition proto_field : DatagramField proto_codec := {|
  message_encode tag d := put_field (tag, WBytes (put_fields (udp_datagram_fields d)));
  message_encoded_len tag d := Z.of_nat (length (put_field (tag, WBytes (put_fields (udp_datagram_fields d)))))
|}.

Lemma proto_field_lawful : LawfulField proto_codec proto_field.
Proof. split; [done|]. intros d. cbn [encode proto_codec message_encode proto_field]. apply app_nil_r. Qed.

Definition sample_datagrams : list (SocketAddr * list u8) :=
  [(SockV4 [127; 0; 0; 1] 53, [1]); (SockV4 [127; 0; 0; 1] 54, []);
   (SockV6 [0; 0; 0; 0; 0; 0; 0; 1] 7 0 2, [2; 3])].

Lemma udp_encoder_equiv_witness :
  @frame_all proto_codec proto_field sample_datagrams new_encoder =
  (fun d => frame (@encode proto_codec (datagram_env d.1 d.2))) <$> sample_datagrams.
Proof. apply (udp_encoder_equiv (F := proto_field) (L := proto_field_lawful)). Defined.

(** Datagrams survive the tunnel: what one side's encoder writes for a
    sequence of datagrams, the other side reads back as the same payloads in
    the same order, each addressed to the peer it came from (flow label and
    scope id of an IPv6 peer excepted), for every IPv4 and IPv6 address. *)
Theorem udp_datagram_roundtrip {C : EnvelopeCodec} {F : DatagramField C}
    {LC : LawfulCodec C} {L : LawfulField C F} ds :
  Forall (fun d => sock_ok d.1 /\ msg_ok (datagram_env d.1 d.2)) ds ->
  exists envs,
    read_msgs (S (length ds)) (mkRecv (concat (frame_all ds new_encoder)) Finished) = (envs, Ok tt) /\
    received_datagram <$> envs = (fun d => Some (sock_plain d.1, d.2)) <$> ds.
Proof.
  intros Hok. exists ((fun d => datagram_env d.1 d.2) <$> ds). split.
  - rewrite frame_all_spec by done.
    replace ((fun d => frame (encode (datagram_env d.1 d.2))) <$> ds)
      with ((fun m => frame (encode m)) <$> ((fun d => datagram_env d.1 d.2) <$> ds))
      by (by rewrite <- list_fmap_compose).
    apply read_msgs_frames; [|rewrite length_fmap; lia].
    rewrite Forall_fmap. eapply Forall_impl; [done|]. by intros d [_ ?].
  - rewrite <- list_fmap_compose. apply list_fmap_ext. intros i [a p] Hi.
    rewrite Forall_lookup in Hok. destruct (Hok i _ Hi) as [Ha _]. simpl.
    unfold received_datagram. simpl. by rewrite datagram_peer_addr_print.
Qed.

Lemma udp_datagram_roundtrip_witness :
  exists envs,
    @read_msgs proto_codec 4 (mkRecv (concat (@frame_all proto_codec proto_field sample_datagrams new_encoder)) Finished)
      = (envs, Ok tt) /\
    received_datagram <$> envs =
      [Some (SockV4 [127; 0; 0; 1] 53, [1]); Some (SockV4 [127; 0; 0; 1] 54, []);
       Some (SockV6 [0; 0; 0; 0; 0; 0; 0; 1] 7 0 0, [2; 3])].
Proof.
  apply (udp_datagram_roundtrip (F := proto_field) (LC := proto_codec_lawful) (L := proto_field_lawful)
           sample_datagrams).
  repeat constructor; try (vm_compute; discriminate); try (vm_compute; reflexivity).
Defined.
