(* ===== verification/Addrfam.v ===== *)
(** Address-family preference ([src/addrfam.rs]) and the two resolution helpers
    of [src/forward.rs] that use it.

    Name resolution, the routing probe and connecting are the operating
    system's: they are the parameters of the section [Resolution]. *)
From S2P Require Import Prelude Text Protocol Ip.

Open Scope Z_scope.
Open Scope list_scope.

(** ** The preference *)

Inductive AddrPref : Type := Auto | Ipv4 | Ipv6.

#[export] Instance AddrPref_eq_dec : EqDecision AddrPref.
Proof. solve_decision. Defined.

Definition from_flags (prefer_ipv4 prefer_ipv6 : bool) : AddrPref :=
  match prefer_ipv4, prefer_ipv6 with
  | _, true => Ipv6
  | true, false => Ipv4
  | false, false => Auto
  end.

Definition one_of (v : str) (ls : list string) : bool := existsb (fun s => str_eqb v (lit s)) ls.

Definition from_config (value : option str) : AddrPref :=
  match (fun v => to_ascii_lowercase (trim v)) <$> value with
  | Some v =>
    if one_of v ["ipv4"; "v4"; "4"; "inet"]%string then Ipv4
    else if one_of v ["ipv6"; "v6"; "6"; "inet6"]%string then Ipv6
    else Auto
  | None => Auto
  end.

(** [AddrPref::or]. *)
Definition pref_or (self fallback : AddrPref) : AddrPref :=
  match self with Auto => fallback | other => other end.

Definition ssh_flag (p : AddrPref) : option str :=
  match p with Auto => None | Ipv4 => Some (lit "-4") | Ipv6 => Some (lit "-6") end.

Definition wire (p : AddrPref) : option str :=
  match p with Auto => None | Ipv4 => Some (lit "4") | Ipv6 => Some (lit "6") end.

Definition from_wire (value : str) : AddrPref :=
  let v := trim value in
  if str_eqb v (lit "4") then Ipv4 else if str_eqb v (lit "6") then Ipv6 else Auto.

Definition as_str (p : AddrPref) : str :=
  match p with Auto => lit "auto" | Ipv4 => lit "ipv4" | Ipv6 => lit "ipv6" end.

Definition matches (p : AddrPref) (addr : SocketAddr) : bool :=
  match p with Auto => false | Ipv4 => is_ipv4 addr | Ipv6 => is_ipv6 addr end.

Definition order_by_family (addrs : list SocketAddr) (pref : AddrPref) : list SocketAddr :=
  match pref with
  | Auto => addrs
  | _ => List.filter (matches pref) addrs ++ List.filter (fun a => negb (matches pref a)) addrs
  end.

(** ** Resolution *)
Section Resolution.
(** [tokio::net::lookup_host], [Err] when the name does not resolve. *)
Context (lookup_host : str -> result (list SocketAddr) ErrorKind).
(** Binding an ephemeral UDP socket of the address's family and connecting it. *)
Context (routable : SocketAddr -> bool).
(** [tokio::net::TcpStream::connect]. *)
Context {TcpStream : Type} (connect : SocketAddr -> result TcpStream ErrorKind).

Fixpoint first_routable (addrs : list SocketAddr) : option SocketAddr :=
  match addrs with
  | [] => None
  | addr :: addrs => if routable addr then Some addr else first_routable addrs
  end.

Definition resolve_preferred (host_port : str) (pref : AddrPref) : option SocketAddr :=
  match lookup_host host_port with
  | Err _ => None
  | Ok addrs =>
    let ordered := order_by_family addrs pref in
    match first_routable ordered with
    | Some a => Some a
    | None => head ordered
    end
  end.

Definition family_available (host_port : str) (pref : AddrPref) : bool :=
  if bool_decide (pref = Auto) then false
  else match lookup_host host_port with
       | Ok addrs => existsb (matches pref) addrs
       | Err _ => false
       end.

(** [forward::resolve_udp_target]. *)
Definition resolve_udp_target (addr_str : str) (pref : AddrPref) : option SocketAddr :=
  match lookup_host addr_str with
  | Err _ => None
  | Ok addrs => first_routable (order_by_family addrs (pref_or pref Ipv6))
  end.

Fixpoint try_connect (last_err : ErrorKind) (addrs : list SocketAddr) : result TcpStream ErrorKind :=
  match addrs with
  | [] => Err last_err
  | addr :: addrs =>
    match connect addr with
    | Ok s => Ok s
    | Err e => try_connect e addrs
    end
  end.

(** [forward::connect_tcp_preferred]. *)
Definition connect_tcp_preferred (addr_str : str) (pref : AddrPref) : result TcpStream ErrorKind :=
  let? addrs := lookup_host addr_str in
  try_connect InvalidInput (order_by_family addrs pref).

(** *** Lemmas *)

Lemma filter_partition (f : SocketAddr -> bool) l :
  List.filter f l ++ List.filter (fun a => negb (f a)) l ≡ₚ l.
Proof.
  induction l as [|a l IH]; simpl; [done|]. destruct (f a); simpl.
  - by rewrite IH.
  - by rewrite <- Permutation_middle, IH.
Qed.

Lemma filter_sub (f g : SocketAddr -> bool) l :
  (forall x, g x = true -> f x = true) ->
  List.filter g (List.filter f l) = List.filter g l.
Proof.
  intros Hgf. induction l as [|a l IH]; simpl; [done|].
  destruct (f a) eqn:Ef; simpl; [by rewrite IH|].
  destruct (g a) eqn:Eg; [by rewrite Hgf in Ef|done].
Qed.

Lemma filter_disjoint (f g : SocketAddr -> bool) l :
  (forall x, g x = true -> f x = false) -> List.filter g (List.filter f l) = [].
Proof.
  intros Hgf. induction l as [|a l IH]; simpl; [done|].
  destruct (f a) eqn:Ef; simpl; [|done].
  destruct (g a) eqn:Eg; [by rewrite Hgf in Ef|done].
Qed.

Lemma order_permutation addrs pref : order_by_family addrs pref ≡ₚ addrs.
Proof. destruct pref; simpl; [done|apply filter_partition..]. Qed.

Lemma order_elem addrs pref a : a ∈ order_by_family addrs pref <-> a ∈ addrs.
Proof. by rewrite (order_permutation addrs pref). Qed.

Lemma filter_elem (f : SocketAddr -> bool) l a :
  a ∈ List.filter f l <-> a ∈ l /\ f a = true.
Proof. rewrite !list_elem_of_In. apply filter_In. Qed.

(** The chosen address is routable and everything before it is not. *)
Lemma first_routable_Some l a :
  first_routable l = Some a <->
  exists l1 l2, l = l1 ++ a :: l2 /\ routable a = true /\
    Forall (fun b => routable b = false) l1.
Proof.
  split.
  - induction l as [|b l IH]; simpl; [done|]. destruct (routable b) eqn:Hb.
    + intros [= <-]. by exists [], l.
    + intros (l1 & l2 & -> & Ha & Hl1)%IH. exists (b :: l1), l2. auto.
  - intros (l1 & l2 & -> & Ha & Hl1). induction Hl1 as [|b l1 Hb Hl1 IH]; simpl.
    + by rewrite Ha.
    + by rewrite Hb.
Qed.

Lemma first_routable_None l :
  first_routable l = None <-> forall a, a ∈ l -> routable a = false.
Proof.
  induction l as [|b l IH]; simpl; [set_solver|]. destruct (routable b) eqn:Hb.
  - split; [done|]. intros Ha. rewrite (Ha b) in Hb; [done|by left].
  - rewrite IH. set_solver.
Qed.

Lemma try_connect_ok e l s :
  try_connect e l = Ok s <->
  exists l1 a l2, l = l1 ++ a :: l2 /\ connect a = Ok s /\
    Forall (fun b => is_ok (connect b) = false) l1.
Proof.
  split.
  - revert e. induction l as [|b l IH]; intros e; simpl; [done|].
    destruct (connect b) as [s'|e'] eqn:Hb.
    + intros [= <-]. by exists [], b, l.
    + intros (l1 & a & l2 & -> & Ha & Hl1)%IH. exists (b :: l1), a, l2.
      repeat split; try done. constructor; [by rewrite Hb|done].
  - intros (l1 & a & l2 & -> & Ha & Hl1). revert e.
    induction Hl1 as [|b l1 Hb Hl1 IH]; intros e; simpl; [by rewrite Ha|].
    destruct (connect b); [done|]. apply IH.
Qed.

Lemma try_connect_is_ok e l :
  is_ok (try_connect e l) = true <-> exists a, a ∈ l /\ is_ok (connect a) = true.
Proof.
  revert e. induction l as [|b l IH]; intros e; simpl; [set_solver|].
  destruct (connect b) as [s|e'] eqn:Hb; simpl.
  - split; [|done]. intros _. exists b. split; [by left|by rewrite Hb].
  - rewrite IH. split.
    + intros (a & Ha & Hc). exists a. split; [by right|done].
    + intros (a & [->|Ha]%elem_of_cons & Hc); [by rewrite Hb in Hc|eauto].
Qed.

(** An element of the preferred family is in the first part of the order. *)
Lemma order_split addrs pref :
  pref <> Auto ->
  exists l1 l2, order_by_family addrs pref = l1 ++ l2 /\
    Forall (fun a => matches pref a = true) l1 /\ Forall (fun a => matches pref a = false) l2.
Proof.
  intros Hp. eexists _, _. split; [by destruct pref|]. split.
  - apply Forall_forall. by intros a [_ ?]%filter_elem.
  - apply Forall_forall. intros a [_ Ha]%filter_elem. by destruct (matches pref a).
Qed.

Lemma first_routable_preferred addrs pref :
  (exists a, a ∈ addrs /\ matches pref a = true /\ routable a = true) ->
  exists a, first_routable (order_by_family addrs pref) = Some a /\ matches pref a = true.
Proof.
  intros (a & Ha & Hm & Hr).
  assert (pref <> Auto) as Hp by (by intros ->).
  destruct (order_split addrs pref Hp) as (l1 & l2 & Ho & H1 & H2).
  assert (a ∈ l1) as Ha1.
  { apply (order_elem addrs pref) in Ha. rewrite Ho, elem_of_app in Ha.
    destruct Ha as [|Ha]; [done|]. rewrite Forall_forall in H2. by rewrite H2 in Hm. }
  rewrite Ho. clear Ho. induction H1 as [|b l1 Hb H1 IH]; simpl; [set_solver|].
  destruct (routable b) eqn:Eb; [by exists b|]. apply IH.
  apply elem_of_cons in Ha1 as [->|]; [by rewrite Hr in Eb|done].
Qed.

(** The first address that accepts is of the preferred family if any of it accepts. *)
Lemma first_accepting_preferred addrs pref l1 a l2 b :
  order_by_family addrs pref = l1 ++ a :: l2 -> Forall (fun x => is_ok (connect x) = false) l1 ->
  b ∈ addrs -> matches pref b = true -> is_ok (connect b) = true -> matches pref a = true.
Proof.
  intros Ho Hl1 Hb Hm Hc. assert (pref <> Auto) as Hp by (by intros ->).
  destruct (order_split addrs pref Hp) as (p & q & Hpq & H1 & H2).
  apply (order_elem addrs pref) in Hb. rewrite Forall_forall in H1, H2, Hl1.
  assert (b ∈ p) as Hbp.
  { rewrite Hpq in Hb. apply elem_of_app in Hb as [|Hb]; [done|]. by rewrite H2 in Hm. }
  rewrite Ho in Hpq. apply app_eq_inv in Hpq as [(k & -> & Hk)|(k & -> & Hk)].
  - rewrite (Hl1 b) in Hc by set_solver. done.
  - destruct k as [|x k]; cbn in Hk; simplify_eq.
    + rewrite app_nil_r in *. rewrite Hl1 in Hc by done. done.
    + apply H1. set_solver.
Qed.

(** *** Properties *)

(** Ordering by family loses and invents no candidate, keeps the
    resolver's order within each family, changes nothing without a
    preference, and puts every preferred candidate before every other. *)
Theorem order_by_family_spec addrs pref :
  order_by_family addrs pref ≡ₚ addrs /\
  (forall fam : bool,
     List.filter (fun a => Bool.eqb (is_ipv4 a) fam) (order_by_family addrs pref) =
     List.filter (fun a => Bool.eqb (is_ipv4 a) fam) addrs) /\
  order_by_family addrs Auto = addrs /\
  (forall i j a b, order_by_family addrs pref !! i = Some a ->
     order_by_family addrs pref !! j = Some b ->
     matches pref b = true -> matches pref a = false -> (j < i)%nat).
Proof.
  split; [apply order_permutation|]. split; [|split; [done|]].
  - intros fam. destruct pref; [done|..]; simpl order_by_family; rewrite List.filter_app; destruct fam.
    1, 4: rewrite filter_sub, filter_disjoint, app_nil_r; [done|..].
    5, 6: rewrite filter_disjoint, filter_sub; [done|..].
    all: intros x; unfold matches, is_ipv6; by destruct (is_ipv4 x).
  - intros i j a b Hi Hj Hb Ha. assert (pref <> Auto) as Hp by (by intros ->).
    destruct (order_split addrs pref Hp) as (l1 & l2 & Ho & H1 & H2).
    rewrite Ho in *. rewrite Forall_lookup in H1, H2.
    assert (length l1 <= i)%nat.
    { apply Nat.nlt_ge. intros Hlt. rewrite lookup_app_l in Hi by done.
      apply H1 in Hi. congruence. }
    assert (j < length l1)%nat; [|lia].
    apply Nat.nle_gt. intros Hge. rewrite lookup_app_r in Hj by done.
    apply H2 in Hj. congruence.
Qed.

(** C39: An address-family flag is a preference, not a restriction, for a name that
    resolves and given answers of the routing probe and of each address to a
    connection.  The address that the client picks exists whenever the name resolves to
    any; it is one of the resolved ones; it is routable if any of them is; and it is of
    the preferred family whenever a routable one of that family exists.  A forwarded TCP
    connection succeeds under one preference exactly when it succeeds under any other,
    namely when some resolved address accepts; it is to an address that accepts, and to
    one of the preferred family if any of that family accepts. *)
Theorem preference_not_restriction host addrs pref pref' :
  lookup_host host = Ok addrs ->
  (is_Some (resolve_preferred host pref) <-> addrs <> []) /\
  (forall a, resolve_preferred host pref = Some a ->
     a ∈ addrs /\
     ((exists b, b ∈ addrs /\ routable b = true) -> routable a = true) /\
     ((exists b, b ∈ addrs /\ matches pref b = true /\ routable b = true) ->
      matches pref a = true)) /\
  (is_ok (connect_tcp_preferred host pref) = true <-> exists a, a ∈ addrs /\ is_ok (connect a) = true) /\
  is_ok (connect_tcp_preferred host pref) = is_ok (connect_tcp_preferred host pref') /\
  (forall s, connect_tcp_preferred host pref = Ok s ->
     exists a, a ∈ addrs /\ connect a = Ok s /\
       ((exists b, b ∈ addrs /\ matches pref b = true /\ is_ok (connect b) = true) -> matches pref a = true)).
Proof.
  intros Hl. unfold resolve_preferred, connect_tcp_preferred. rewrite Hl. simpl.
  pose proof (order_permutation addrs pref) as Hperm.
  split; [|split; [|split; [|split]]].
  - destruct (first_routable _) eqn:Ef.
    + split; [|by eexists]. intros _ ->. apply first_routable_Some in Ef as (l1 & l2 & Ho & _).
      rewrite Ho in Hperm. apply Permutation_nil_r in Hperm. by destruct l1.
    + destruct (order_by_family addrs pref) as [|a l] eqn:Eo; simpl.
      * split; [by intros []|]. intros Hne. apply Permutation_nil_l in Hperm. congruence.
      * split; [|by eexists]. intros _. intros ->. by apply Permutation_nil_r in Hperm.
  - intros a. destruct (first_routable _) as [a'|] eqn:Ef.
    + intros [= ->]. split; [|split].
      * apply first_routable_Some in Ef as (l1 & l2 & Ho & _).
        apply (order_elem addrs pref). rewrite Ho. set_solver.
      * intros _. by apply first_routable_Some in Ef as (l1 & l2 & _ & ? & _).
      * intros Hex. destruct (first_routable_preferred addrs pref Hex) as (b & Hb & Hm). congruence.
    + intros Ha. rewrite first_routable_None in Ef. split; [|split].
      * apply (order_elem addrs pref). destruct (order_by_family addrs pref); simplify_eq/=. by left.
      * intros (b & Hb & Hr). apply (order_elem addrs pref) in Hb. by rewrite Ef in Hr.
      * intros (b & Hb & _ & Hr). apply (order_elem addrs pref) in Hb. by rewrite Ef in Hr.
  - rewrite try_connect_is_ok. by setoid_rewrite order_elem.
  - apply eq_bool_prop_intro. rewrite !Is_true_true, !try_connect_is_ok.
    by setoid_rewrite order_elem.
  - intros s (l1 & a & l2 & Ho & Ha & Hl1)%try_connect_ok. exists a.
    split; [apply (order_elem addrs pref); rewrite Ho; set_solver|]. split; [done|].
    intros (b & Hb & Hm & Hc). by apply (first_accepting_preferred addrs pref l1 a l2 b).
Qed.
End Resolution.

Definition sample_addrs : list SocketAddr :=
  [SockV6 [8193; 3512; 0; 0; 0; 0; 0; 1] 22 0 0; SockV4 [127; 0; 0; 1] 22;
   SockV6 [0; 0; 0; 0; 0; 0; 0; 1] 22 0 0].

Lemma preference_not_restriction_witness :
  let lookup := fun _ => Ok sample_addrs in
  let connect := fun a => if is_ipv4 a then Ok a else Err OtherKind in
  resolve_preferred lookup is_ipv4 [] Ipv6 = Some (SockV4 [127; 0; 0; 1] 22) /\
  is_Some (resolve_preferred lookup is_ipv4 [] Ipv6) /\
  is_ok (connect_tcp_preferred lookup connect [] Ipv6) = true.
Proof.
  intros lookup connect. pose proof (preference_not_restriction lookup is_ipv4 connect [] sample_addrs Ipv6 Auto eq_refl) as H.
  split; [reflexivity|]. split; [apply (proj1 H); discriminate|].
  apply (proj1 (proj2 (proj2 H))). exists (SockV4 [127; 0; 0; 1] 22). split; [right; left|reflexivity].
Defined.

(** The wire value of a preference reads back, and nothing else selects a family. *)
Lemma from_wire_wire p v : wire p = Some v -> from_wire v = p.
Proof. by destruct p; intros [= <-]. Qed.
