(* ===== verification/Forward.v ===== *)
(** Port-forwarding specifications ([src/forward.rs]) and the check of
    server-initiated streams against them ([is_authorized_reverse_stream] of
    [src/bin/etr.rs]). *)
From S2P Require Import Prelude Text Protocol.

Open Scope Z_scope.
Open Scope list_scope.

Record ForwardSpec : Type := mkForwardSpec {
  bind_address : option str;
  local_port : u16;
  remote_host : str;
  remote_port : u16;
  proto : ForwardProto
}.


(** The loop of [split_ignoring_brackets]; [current] is reversed. *)
Fixpoint split_loop (current : str) (in_brackets : bool) (s : str) : list str :=
  match s with
  | [] => [reverse current]
  | c :: s =>
    if c =? LBRACKET then split_loop (c :: current) true s
    else if c =? RBRACKET then split_loop (c :: current) false s
    else if (c =? COLON) && negb in_brackets then reverse current :: split_loop [] in_brackets s
    else split_loop (c :: current) in_brackets s
  end.

Definition split_ignoring_brackets (s : str) : list str := split_loop [] false s.

(** The error texts are [format!]ed messages; they are named by their cause. *)
Inductive SpecError : Type :=
| InvalidSpec | InvalidLocalPort (text : str) | InvalidRemotePort (text : str) | EmptyRemoteHost.

Definition strip_proto (s : str) : str * ForwardProto :=
  match strip_suffix (lit "/udp") s with
  | Some base => (base, Udp)
  | None => (default s (strip_suffix (lit "/tcp") s), Tcp)
  end.

Definition parse (s : str) : result ForwardSpec SpecError :=
  let '(rest, proto) := strip_proto s in
  let? (bind_address, local_port_str, remote_host, remote_port_str) :=
    match split_ignoring_brackets rest with
    | [p0; p1; p2] => Ok (None, p0, p1, p2)
    | [p0; p1; p2; p3] => Ok (Some p0, p1, p2, p3)
    | _ => Err InvalidSpec
    end in
  let? local_port := ok_or (parse_uint U16_MAX local_port_str) (InvalidLocalPort local_port_str) in
  let? remote_port := ok_or (parse_uint U16_MAX remote_port_str) (InvalidRemotePort remote_port_str) in
  if bool_decide (remote_host = []) then Err EmptyRemoteHost
  else Ok (mkForwardSpec bind_address local_port remote_host remote_port proto).

Definition get_bind_addresses (gateway : bool) (spec : ForwardSpec) : list str :=
  match bind_address spec with
  | Some addr =>
    if str_eqb addr (lit "*") || str_eqb addr (lit "0.0.0.0") || str_eqb addr (lit "::")
       || bool_decide (addr = [])
    then [lit "[::]"] else [addr]
  | None => if gateway then [lit "[::]"] else [lit "127.0.0.1"; lit "[::1]"]
  end.

Definition proto_str (p : ForwardProto) : str :=
  match p with Tcp => lit "tcp" | Udp => lit "udp" end.

(** [impl Display for ForwardSpec]. *)
Definition to_string (spec : ForwardSpec) : str :=
  let tail := dec (local_port spec) ++ [COLON] ++ remote_host spec ++ [COLON]
                ++ dec (remote_port spec) ++ lit "/" ++ proto_str (proto spec) in
  match bind_address spec with
  | Some bind => bind ++ [COLON] ++ tail
  | None => tail
  end.

(** [is_authorized_reverse_stream]. *)
Definition is_authorized_reverse_stream (so : StreamOpen) (x11_enabled : bool)
    (reverse_specs : list ForwardSpec) : bool :=
  if open_stream_type so =? StreamType_as_i32 X11 then x11_enabled
  else if negb (open_stream_type so =? StreamType_as_i32 PortForward) then false
  else match ForwardProto_try_from (open_forward_proto so) with
  | None => false
  | Some p =>
    match u16_try_from (open_remote_port so) with
    | None => false
    | Some port =>
      existsb (fun spec => bool_decide (proto spec = p) && (remote_port spec =? port)
                           && str_eqb (remote_host spec) (open_remote_host so)) reverse_specs
    end
  end.

(** ** Splitting at top-level colons *)

(** A piece without colon outside brackets that leaves the bracket state as it
    found it closed. *)
Fixpoint piece_ok (in_brackets : bool) (s : str) : bool :=
  match s with
  | [] => negb in_brackets
  | c :: s =>
    if c =? LBRACKET then piece_ok true s
    else if c =? RBRACKET then piece_ok false s
    else if (c =? COLON) && negb in_brackets then false
    else piece_ok in_brackets s
  end.

Lemma split_loop_piece cur b p s :
  piece_ok b p = true ->
  split_loop cur b (p ++ COLON :: s) = (reverse cur ++ p) :: split_loop [] false s.
Proof.
  revert cur b. induction p as [|c p IH]; intros cur b; simpl.
  - destruct b; [done|]. intros _. by rewrite app_nil_r.
  - destruct (c =? LBRACKET); [|destruct (c =? RBRACKET); [|destruct (_ && _); [done|]]];
      intros Hp; rewrite IH by done; by rewrite reverse_cons, <- app_assoc.
Qed.

Lemma split_loop_last cur b p :
  piece_ok b p = true -> split_loop cur b p = [reverse cur ++ p].
Proof.
  revert cur b. induction p as [|c p IH]; intros cur b; simpl.
  - intros _. by rewrite app_nil_r.
  - destruct (c =? LBRACKET); [|destruct (c =? RBRACKET); [|destruct (_ && _); [done|]]];
      intros Hp; rewrite IH by done; by rewrite reverse_cons, <- app_assoc.
Qed.

(** Every piece but the last is closed. *)
Lemma split_loop_pieces cur b s ps q :
  split_loop cur b s = ps ++ [q] ->
  forall p ps', ps = p :: ps' ->
    (exists p', p = reverse cur ++ p' /\ piece_ok b p' = true) /\
    Forall (fun p => piece_ok false p = true) ps'.
Proof.
  revert cur b ps. induction s as [|c s IH]; intros cur b ps; simpl.
  - intros Hs p ps' ->. destruct ps'; discriminate.
  - assert (forall b', split_loop (c :: cur) b' s = ps ++ [q] ->
       (forall p', piece_ok b' p' = true -> piece_ok b (c :: p') = true) ->
       forall p ps', ps = p :: ps' ->
       (exists p', p = reverse cur ++ p' /\ piece_ok b p' = true) /\
       Forall (fun p => piece_ok false p = true) ps') as Hstep.
    { intros b' Hs Hb p ps' Hps. destruct (IH _ _ _ Hs p ps' Hps) as [(p' & -> & Hp') Hall].
      split; [|done]. exists (c :: p'). split; [by rewrite reverse_cons, <- app_assoc|]. by apply Hb. }
    destruct (c =? LBRACKET) eqn:E1; [intros Hs; apply (Hstep true Hs); intros p'; simpl; by rewrite E1|].
    destruct (c =? RBRACKET) eqn:E2; [intros Hs; apply (Hstep false Hs); intros p'; simpl; by rewrite E1, E2|].
    destruct ((c =? COLON) && negb b) eqn:E3; [|intros Hs; apply (Hstep b Hs); intros p'; simpl; by rewrite E1, E2, E3].
    intros Hs p ps' ->. injection Hs as <- Hs. apply andb_true_iff in E3 as [_ Hb%negb_true_iff]. subst b.
    split; [exists []; by rewrite app_nil_r|].
    destruct ps' as [|p2 ps2]; [done|].
    destruct (IH _ _ _ Hs p2 ps2 eq_refl) as [(p' & -> & Hp') Hall]. by constructor.
Qed.

Lemma piece_no_brackets s :
  (forall c, c ∈ s -> c <> LBRACKET /\ c <> RBRACKET /\ c <> COLON) -> piece_ok false s = true.
Proof.
  induction s as [|c s IH]; simpl; [done|]. intros Hc.
  destruct (Hc c) as (H1 & H2 & H3); [by left|].
  rewrite !(proj2 (Z.eqb_neq _ _)) by done. simpl. apply IH. intros c' ?. apply Hc. by right.
Qed.

Lemma dec_piece_ok n : 0 <= n -> piece_ok false (dec n) = true.
Proof.
  intros Hn. apply piece_no_brackets. intros c Hc%dec_elem; [|done].
  unfold is_digit, LBRACKET, RBRACKET, COLON in *. lia.
Qed.

Lemma split_spec3 a b c :
  piece_ok false a = true -> piece_ok false b = true -> piece_ok false c = true ->
  split_ignoring_brackets (a ++ COLON :: b ++ COLON :: c) = [a; b; c].
Proof.
  intros Ha Hb Hc. unfold split_ignoring_brackets.
  by rewrite !split_loop_piece, split_loop_last by done.
Qed.

Lemma split_spec4 d a b c :
  piece_ok false d = true ->
  piece_ok false a = true -> piece_ok false b = true -> piece_ok false c = true ->
  split_ignoring_brackets (d ++ COLON :: a ++ COLON :: b ++ COLON :: c) = [d; a; b; c].
Proof.
  intros Hd Ha Hb Hc. unfold split_ignoring_brackets.
  by rewrite !split_loop_piece, split_loop_last by done.
Qed.

(** The specifications that [parse] produces. *)
Record spec_ok (spec : ForwardSpec) : Prop := {
  ok_local : 0 <= local_port spec <= U16_MAX;
  ok_remote : 0 <= remote_port spec <= U16_MAX;
  ok_host : remote_host spec <> [] /\ piece_ok false (remote_host spec) = true;
  ok_bind : forall b, bind_address spec = Some b -> piece_ok false b = true
}.

Lemma parse_spec_ok s spec : parse s = Ok spec -> spec_ok spec.
Proof.
  unfold parse. destruct (strip_proto s) as [rest pr].
  pose proof (fun ps q Hs p ps' => split_loop_pieces [] false rest ps q Hs p ps') as Hpieces.
  fold (split_ignoring_brackets rest) in Hpieces.
  destruct (split_ignoring_brackets rest) as [|p0 [|p1 [|p2 [|p3 [|]]]]]; simpl; try done.
  - specialize (Hpieces [p0; p1] p2 eq_refl p0 [p1] eq_refl) as [_ [H1 _]%Forall_cons].
    destruct (parse_uint U16_MAX p0) as [lp|] eqn:El; simpl; [|done].
    destruct (parse_uint U16_MAX p2) as [rp|] eqn:Er; simpl; [|done].
    case_bool_decide; [done|]. intros [= <-].
    apply parse_uint_bound in El, Er; [|done..]. by split.
  - specialize (Hpieces [p0; p1; p2] p3 eq_refl p0 [p1; p2] eq_refl)
      as [(p' & -> & Hp') [_ [H2 _]%Forall_cons]%Forall_cons].
    destruct (parse_uint U16_MAX p1) as [lp|] eqn:El; simpl; [|done].
    destruct (parse_uint U16_MAX p3) as [rp|] eqn:Er; simpl; [|done].
    case_bool_decide; [done|]. intros [= <-].
    apply parse_uint_bound in El, Er; [|done..]. split; simpl; try done. by intros b [= <-].
Qed.

Lemma strip_proto_spec base p :
  strip_proto (base ++ lit "/" ++ proto_str p) = (base, p).
Proof.
  unfold strip_proto. destruct p; simpl proto_str.
  - rewrite (proj2 (strip_suffix_None _ _)).
    + change (lit "/" ++ lit "tcp") with (lit "/tcp"). by rewrite strip_suffix_app.
    + intros [t Ht]. change (lit "/" ++ lit "tcp") with ([47; 116; 99] ++ [112]) in Ht.
      change (lit "/udp") with ([47; 117; 100] ++ [112]) in Ht. rewrite !app_assoc in Ht.
      apply app_inj_tail in Ht as [Ht _].
      change [47; 116; 99] with ([47; 116] ++ [99]) in Ht.
      change [47; 117; 100] with ([47; 117] ++ [100]) in Ht. rewrite !app_assoc in Ht.
      by apply app_inj_tail in Ht as [_ ?].
  - change (lit "/" ++ lit "udp") with (lit "/udp"). by rewrite strip_suffix_app.
Qed.

Lemma parse_to_string spec : spec_ok spec -> parse (to_string spec) = Ok spec.
Proof.
  intros [Hl Hr [Hne Hh] Hb]. destruct spec as [bind lp rh rp pr].
  cbn [bind_address local_port remote_host remote_port proto] in *. unfold parse.
  destruct bind as [b|].
  - assert (to_string (mkForwardSpec (Some b) lp rh rp pr) =
      (b ++ COLON :: dec lp ++ COLON :: rh ++ COLON :: dec rp) ++ lit "/" ++ proto_str pr) as ->.
    { unfold to_string. cbn [bind_address local_port remote_host remote_port proto].
      rewrite <- !app_assoc. do 2 (cbn [app]; rewrite <- !app_assoc). done. }
    rewrite strip_proto_spec, split_spec4 by (try apply dec_piece_ok; try done; try lia; by apply Hb).
    cbn [result_bind]. rewrite !parse_uint_dec by done. simpl. by rewrite bool_decide_false.
  - assert (to_string (mkForwardSpec None lp rh rp pr) =
      (dec lp ++ COLON :: rh ++ COLON :: dec rp) ++ lit "/" ++ proto_str pr) as ->.
    { unfold to_string. cbn [bind_address local_port remote_host remote_port proto].
      rewrite <- !app_assoc. cbn [app]. rewrite <- !app_assoc. done. }
    rewrite strip_proto_spec, split_spec3 by (try apply dec_piece_ok; try done; lia).
    cbn [result_bind]. rewrite !parse_uint_dec by done. simpl. by rewrite bool_decide_false.
Qed.

(** The first of several pieces is what precedes a colon of the text. *)
Lemma split_loop_first cur b s p q ps :
  split_loop cur b s = p :: q :: ps -> exists s', reverse cur ++ s = p ++ COLON :: s'.
Proof.
  revert cur b. induction s as [|c s IH]; intros cur b; simpl; [done|].
  destruct (c =? LBRACKET); [|destruct (c =? RBRACKET); [|destruct (_ && _) eqn:E]];
    try (intros [s' Hs]%IH; exists s'; by rewrite <- Hs, reverse_cons, <- app_assoc).
  intros [= <- _]. apply andb_true_iff in E as [->%Z.eqb_eq _]. by exists s.
Qed.

Lemma parse_bind_text s spec user :
  parse s = Ok spec -> bind_address spec = Some user -> exists rest, s = user ++ COLON :: rest.
Proof.
  unfold parse. destruct (strip_proto s) as [rest pr] eqn:Es.
  assert (exists suffix, s = rest ++ suffix) as [suffix ->].
  { unfold strip_proto in Es. destruct (strip_suffix (lit "/udp") s) as [t|] eqn:E1; simplify_eq.
    - exists (lit "/udp"). by apply strip_suffix_Some.
    - destruct (strip_suffix (lit "/tcp") s) as [t|] eqn:E2; simpl.
      + exists (lit "/tcp"). by apply strip_suffix_Some.
      + exists []. by rewrite app_nil_r. }
  pose proof (split_loop_first [] false rest) as Hfirst.
  fold (split_ignoring_brackets rest) in Hfirst.
  destruct (split_ignoring_brackets rest) as [|p0 [|p1 [|p2 [|p3 [|]]]]]; simpl; try done.
  - destruct (parse_uint U16_MAX p0); simpl; [|done].
    destruct (parse_uint U16_MAX p2); simpl; [|done]. case_bool_decide; [done|]. by intros [= <-].
  - destruct (Hfirst _ _ _ eq_refl) as [s' Hs']. simpl in Hs'.
    destruct (parse_uint U16_MAX p1); simpl; [|done].
    destruct (parse_uint U16_MAX p3); simpl; [|done]. case_bool_decide; [done|].
    intros [= <-] [= <-]. exists (s' ++ suffix). by rewrite Hs', <- app_assoc.
Qed.

Lemma authorized_iff so x11 specs :
  is_authorized_reverse_stream so x11 specs = true <->
  (open_stream_type so = StreamType_as_i32 X11 /\ x11 = true) \/
  (open_stream_type so = StreamType_as_i32 PortForward /\
   exists spec, spec ∈ specs /\ remote_host spec = open_remote_host so /\
     remote_port spec = open_remote_port so /\ 0 <= open_remote_port so <= U16_MAX /\
     open_forward_proto so = ForwardProto_as_i32 (proto spec)).
Proof.
  unfold is_authorized_reverse_stream. destruct (Z.eqb_spec (open_stream_type so) (StreamType_as_i32 X11)) as [Ex|Ex].
  { rewrite Ex. split; [by left|]. intros [[_ ?]|[? _]]; done. }
  destruct (Z.eqb_spec (open_stream_type so) (StreamType_as_i32 PortForward)) as [Ep|Ep]; simpl.
  2: { split; [done|]. by intros [[? _]|[? _]]. }
  destruct (ForwardProto_try_from _) as [p|] eqn:Et.
  2: { split; [done|]. intros [[? _]|(_ & spec & _ & _ & _ & _ & Hp)]; [done|].
       by rewrite Hp, ForwardProto_try_from_as in Et. }
  apply ForwardProto_try_from_Some in Et. unfold u16_try_from.
  destruct ((0 <=? open_remote_port so) && (open_remote_port so <=? U16_MAX)) eqn:Er.
  - rewrite existsb_exists. split.
    + intros (spec & Hin & Hm). destruct_andb. right. split; [done|]. exists spec.
      rewrite list_elem_of_In. rewrite bool_decide_eq_true, Z.eqb_eq, str_eqb_spec in *. subst.
      repeat split; try done; lia.
    + intros [[? _]|(_ & spec & Hin & Hhost & Hport & _ & Hproto)]; [done|].
      exists spec. rewrite <- list_elem_of_In. split; [done|].
      rewrite !andb_true_iff, bool_decide_eq_true, Z.eqb_eq, str_eqb_spec.
      rewrite Et in Hproto. by destruct p, (proto spec).
  - split; [done|]. intros [[? _]|(_ & spec & _ & _ & _ & Hb & _)]; [done|]. lia.
Qed.

(** ** Properties *)

(** A specification that parses prints to text that parses to the same
    specification (the form in which the client hands [-R] specifications to
    the server); its ports are 16-bit numbers and its target host is not
    empty. *)
Theorem parse_display_roundtrip s spec :
  parse s = Ok spec ->
  parse (to_string spec) = Ok spec /\
  0 <= local_port spec <= U16_MAX /\ 0 <= remote_port spec <= U16_MAX /\ remote_host spec <> [].
Proof.
  intros Hp%parse_spec_ok. split; [by apply parse_to_string|]. by destruct Hp as [? ? [? ?] ?].
Qed.

Definition sample_spec : ForwardSpec :=
  mkForwardSpec (Some (lit "127.0.0.1")) 5432 (lit "[::1]") 80 Udp.

Lemma parse_display_roundtrip_witness :
  parse (lit "127.0.0.1:+5432:[::1]:80/udp") = Ok sample_spec /\
  to_string sample_spec = lit "127.0.0.1:5432:[::1]:80/udp" /\
  parse (to_string sample_spec) = Ok sample_spec.
Proof.
  split; [vm_compute; reflexivity|]. split; [vm_compute; reflexivity|].
  apply (parse_display_roundtrip (lit "127.0.0.1:+5432:[::1]:80/udp")). vm_compute. reflexivity.
Defined.

(** Without [-g] a specification listens on the loopback addresses only,
    unless the user wrote a bind address in front of it: then it listens on
    exactly that address, with the four wildcard spellings meaning the
    dual-stack wildcard. *)
Theorem bind_addresses_exposure s spec gateway addr :
  parse s = Ok spec -> addr ∈ get_bind_addresses gateway spec ->
  (exists user rest, s = user ++ COLON :: rest /\ bind_address spec = Some user /\
     (addr = user \/
      addr = lit "[::]" /\ (user = lit "*" \/ user = lit "0.0.0.0" \/ user = lit "::" \/ user = []))) \/
  (bind_address spec = None /\
   if gateway then addr = lit "[::]" else addr = lit "127.0.0.1" \/ addr = lit "[::1]").
Proof.
  intros Hp. unfold get_bind_addresses. destruct (bind_address spec) as [user|] eqn:Eb.
  - intros Ha. left. destruct (parse_bind_text s spec user Hp Eb) as [rest Hs].
    exists user, rest. split; [done|]. split; [done|].
    destruct (_ || _) eqn:Ew in Ha; apply list_elem_of_singleton in Ha; [right|by left].
    split; [done|]. rewrite !orb_true_iff, !str_eqb_spec, bool_decide_eq_true in Ew. tauto.
  - intros Ha. right. split; [done|]. destruct gateway; set_solver.
Qed.

Lemma bind_addresses_exposure_witness :
  let spec := mkForwardSpec None 8080 (lit "localhost") 80 Tcp in
  parse (lit "8080:localhost:80") = Ok spec /\
  get_bind_addresses false spec = [lit "127.0.0.1"; lit "[::1]"] /\
  (exists addr, addr ∈ get_bind_addresses false spec /\
     (addr = lit "127.0.0.1" \/ addr = lit "[::1]")).
Proof.
  split; [vm_compute; reflexivity|]. split; [reflexivity|].
  exists (lit "[::1]"). split; [by right; left|].
  destruct (bind_addresses_exposure (lit "8080:localhost:80")
    (mkForwardSpec None 8080 (lit "localhost") 80 Tcp) false (lit "[::1]"))
    as [(u & r & _ & Hb & _)|[_ Hx]].
  - vm_compute. reflexivity.
  - by right; left.
  - discriminate Hb.
  - exact Hx.
Defined.

(** C22: a stream the server opens is accepted only on the user's own request:
    an X11 stream exactly when X11 forwarding is enabled, a port forward exactly
    when some configured reverse specification has the same protocol, port and
    host, with protocol and port read without truncation; nothing else. *)
Theorem reverse_stream_authorized_spec so x11 specs :
  is_authorized_reverse_stream so x11 specs = true <->
  (open_stream_type so = StreamType_as_i32 X11 /\ x11 = true) \/
  (open_stream_type so = StreamType_as_i32 PortForward /\
   exists spec, spec ∈ specs /\ remote_host spec = open_remote_host so /\
     remote_port spec = open_remote_port so /\ 0 <= open_remote_port so <= U16_MAX /\
     open_forward_proto so = ForwardProto_as_i32 (proto spec)).
Proof. apply authorized_iff. Qed.
