(* ===== verification/Hex.v ===== *)
(** Hexadecimal encoding of keys and cookies: the helpers [hex_encode] and
    [hex_decode] that [src/forward.rs], [src/bin/etr.rs] and [src/bin/etrs.rs]
    each carry, in the same text.

    [hex_decode] slices the string at every second byte, which panics inside a
    multi-byte character; the model has the panic as an outcome. *)
From S2P Require Import Prelude Text.

Open Scope Z_scope.
Open Scope list_scope.

Definition hex_encode (bytes : list u8) : str := bytes ≫= hex2.

(** The slices [&s[i..i + 2]] from some even [i] on, and [collect], which stops
    at the first slice that does not parse. *)
Fixpoint hex_decode_loop (s : str) : outcome (option (list u8)) :=
  match s with
  | [] => Ret (Some [])
  | c1 :: r =>
    if len_utf8 c1 =? 1 then
      match r with
      | [] => Panic
      | c2 :: r =>
        if len_utf8 c2 =? 1 then
          match u8_from_hex [c1; c2] with
          | None => Ret None
          | Some b =>
            match hex_decode_loop r with
            | Ret (Some bs) => Ret (Some (b :: bs))
            | o => o
            end
          end
        else Panic
      end
    else if len_utf8 c1 =? 2 then Ret None
    else Panic
  end.

Definition hex_decode (s : str) : outcome (option (list u8)) :=
  if negb (str_len s mod 2 =? 0) then Ret None else hex_decode_loop s.

(** ** Lemmas *)

Definition is_ascii (s : str) : Prop := Forall (fun c => 0 <= c < 128) s.

Lemma ascii_len c : 0 <= c < 128 -> len_utf8 c = 1.
Proof. intros. unfold len_utf8. by rewrite (proj2 (Z.ltb_lt _ _)) by lia. Qed.

Lemma str_len_ascii s : is_ascii s -> str_len s = Z.of_nat (length s).
Proof.
  induction 1 as [|c s Hc Hs IH]; [done|]. cbn [str_len foldr length].
  fold (str_len s). rewrite ascii_len, IH by done. lia.
Qed.

Lemma is_ascii_app a b : is_ascii (a ++ b) <-> is_ascii a /\ is_ascii b.
Proof. apply Forall_app. Qed.

Lemma hex_digit_bound n : 0 <= n < 16 -> 48 <= hex_digit n <= 102.
Proof. unfold hex_digit. case_match; lia. Qed.

Lemma nibbles b : is_byte b -> 0 <= b / 16 < 16 /\ 0 <= b mod 16 < 16.
Proof.
  unfold is_byte. intros. split.
  - split; [apply Z.div_pos; lia|apply Z.div_lt_upper_bound; lia].
  - apply Z.mod_pos_bound. lia.
Qed.

Lemma hex_encode_cons b bs : hex_encode (b :: bs) = hex2 b ++ hex_encode bs.
Proof. done. Qed.

Lemma hex_encode_elem c bs : Forall is_byte bs -> c ∈ hex_encode bs -> 48 <= c <= 102.
Proof.
  intros Hb. unfold hex_encode. rewrite list_elem_of_bind. intros (b & Hc & Hin).
  rewrite Forall_forall in Hb. destruct (nibbles b (Hb b Hin)) as [H1 H2].
  unfold hex2 in Hc. rewrite !elem_of_cons in Hc. destruct Hc as [->|[->|Hc]].
  - by apply hex_digit_bound.
  - by apply hex_digit_bound.
  - set_solver.
Qed.

Lemma hex_encode_ascii bs : Forall is_byte bs -> is_ascii (hex_encode bs).
Proof.
  intros Hb. apply Forall_forall. intros c Hc. pose proof (hex_encode_elem c bs Hb Hc). lia.
Qed.

Lemma hex_loop_encode bs : Forall is_byte bs -> hex_decode_loop (hex_encode bs) = Ret (Some bs).
Proof.
  induction 1 as [|b bs Hb Hbs IH]; [done|]. destruct (nibbles b Hb) as [H1 H2].
  unfold hex_encode in *. cbn [mbind list_bind]. unfold hex2 at 1. cbn [app hex_decode_loop].
  pose proof (hex_digit_bound _ H1). pose proof (hex_digit_bound _ H2).
  rewrite !ascii_len by lia. cbn [Z.eqb Pos.eqb]. fold (hex2 b).
  change [hex_digit (b / 16); hex_digit (b mod 16)] with (hex2 b).
  by rewrite u8_from_hex2, IH.
Qed.

Lemma length_hex_encode bs : length (hex_encode bs) = (2 * length bs)%nat.
Proof.
  induction bs as [|b bs IH]; [done|]. rewrite hex_encode_cons, length_app, IH. simpl. lia.
Qed.

Lemma hex_decode_encode bs : Forall is_byte bs -> hex_decode (hex_encode bs) = Ret (Some bs).
Proof.
  intros Hb. unfold hex_decode. rewrite str_len_ascii by by apply hex_encode_ascii.
  rewrite length_hex_encode, Nat2Z.inj_mul, Z.mul_comm. change (Z.of_nat 2) with 2.
  rewrite Z.mod_mul by lia. by apply hex_loop_encode.
Qed.

(** ASCII input never panics. *)
Lemma hex_loop_ascii s :
  is_ascii s -> Nat.Even (length s) -> exists o, hex_decode_loop s = Ret o.
Proof.
  intros Hs. remember (length s) as n eqn:En. revert s En Hs.
  induction n as [n IH] using lt_wf_ind. intros s -> Hs Hev.
  destruct s as [|c1 [|c2 s]].
  - by eexists.
  - exfalso. destruct Hev as [k Hk]. simpl in Hk. lia.
  - apply Forall_cons in Hs as [H1 Hs]. apply Forall_cons in Hs as [H2 Hs].
    cbn [hex_decode_loop]. rewrite !ascii_len by done. cbn [Z.eqb Pos.eqb].
    destruct (u8_from_hex [c1; c2]) as [b|]; [|by eexists].
    destruct (IH (length s)) with (s := s) as [o Ho]; try done.
    + simpl. lia.
    + destruct Hev as [k Hk]. simpl in Hk. exists (k - 1)%nat. lia.
    + rewrite Ho. destruct o; by eexists.
Qed.

Lemma hex_decode_ascii s : is_ascii s -> exists o, hex_decode s = Ret o.
Proof.
  intros Hs. unfold hex_decode. rewrite str_len_ascii by done.
  destruct (Z.eqb_spec (Z.of_nat (length s) mod 2) 0) as [E|E]; simpl; [|by eexists].
  apply hex_loop_ascii; [done|]. apply Z.mod_divide in E as [k Hk]; [|lia].
  exists (Z.to_nat k). lia.
Qed.

(** ** Properties *)

(** Keys survive the trip through text: every byte string is recovered
    from its hexadecimal form, decoding never panics on ASCII text, and it does
    panic on text with a wide character across a byte pair (as reported). *)
Theorem hex_roundtrip :
  (forall bs, Forall is_byte bs -> hex_decode (hex_encode bs) = Ret (Some bs)) /\
  (forall s, is_ascii s -> hex_decode s <> Panic) /\
  hex_decode (lit "a€") = Panic /\ hex_decode (lit "+f") = Ret (Some [15]).
Proof.
  split; [apply hex_decode_encode|]. split; [|by vm_compute].
  intros s Hs. by destruct (hex_decode_ascii s Hs) as [o ->].
Qed.
