(* ===== verification/X11.v ===== *)
(** X11 displays and cookies on the client ([X11Display], [xauth] handling of
    [src/forward.rs]). *)
From S2P Require Import Prelude Text Protocol Forward Hex.

Open Scope Z_scope.
Open Scope list_scope.

Inductive X11Display : Type :=
| XUnix (n : u16)
| XPath (path : str)
| XTcp (host : str) (port : u16).

#[export] Instance X11Display_eq_dec : EqDecision X11Display.
Proof. solve_decision. Defined.

Inductive XError : Type :=
| InvalidDisplay | InvalidDisplayNumber (text : str) | XauthNotExecuted | XauthFailed
| NoCookie.


(** [s.split(c).next()]. *)
Definition first_piece (c : char) (s : str) : str := default s (head (split_on c s)).

(** [X11Display::parse]; the addition is on [u16], which wraps. *)
Definition parse_display (s : str) : result X11Display XError :=
  if starts_with [SLASH] s then Ok (XPath s)
  else match split_ignoring_brackets s with
  | host :: rest :: _ =>
    let display_num_str := first_piece DOT rest in
    let? display_num := ok_or (parse_uint U16_MAX display_num_str)
                              (InvalidDisplayNumber display_num_str) in
    if bool_decide (host = []) || str_eqb host (lit "unix") then Ok (XUnix display_num)
    else Ok (XTcp host (wrap 16 (6000 + display_num)))
  | _ => Err InvalidDisplay
  end.

Definition display_num (d : X11Display) : u16 :=
  match d with
  | XUnix n => n
  | XPath p =>
    match after_last COLON p with
    | Some rest => default 0 (parse_uint U16_MAX (first_piece DOT rest))
    | None => 0
    end
  | XTcp _ port => if 6000 <=? port then port - 6000 else 0
  end.

(** The display number of an [xauth list] entry, if it has one. *)
Definition entry_display (entry : str) : option u16 :=
  match after_last COLON entry with
  | None => None
  | Some rest => parse_uint U16_MAX (first_piece DOT (first_piece SLASH rest))
  end.

(** One line: [None] when it is passed over. *)
Definition xauth_line (target_num : u16) (line : str) : outcome (option (str * list u8)) :=
  match split_whitespace line with
  | entry :: proto :: cookie_hex :: _ =>
    match entry_display entry with
    | None => Ret None
    | Some num =>
      if num =? target_num then
        match hex_decode cookie_hex with
        | Panic => Panic
        | Ret (Some cookie) => Ret (Some (proto, cookie))
        | Ret None => Ret None
        end
      else Ret None
    end
  | _ => Ret None
  end.

Fixpoint xauth_lines (target_num : u16) (ls : list str) : outcome (option (str * list u8)) :=
  match ls with
  | [] => Ret None
  | line :: ls =>
    match xauth_line target_num line with
    | Ret None => xauth_lines target_num ls
    | o => o
    end
  end.

Definition parse_xauth_list_for_display (stdout : str) (target_num : u16)
    : outcome (option (str * list u8)) :=
  xauth_lines target_num (lines stdout).

(** ** Running [xauth]

    The outcome of running it on given arguments: not executed, or its exit
    status and its output. *)
Section Xauth.
Context (xauth : list str -> option (bool * str)).
(** Creating the private temporary directory, and its file. *)
Context (create_tmp_dir : bool) (tmp_file : str).

Definition get_xauth_cookie (display_str : str) : outcome (result (str * list u8) XError) :=
  match parse_display display_str with
  | Err e => Ret (Err e)
  | Ok display =>
    match xauth [lit "list"] with
    | None => Ret (Err XauthNotExecuted)
    | Some (false, _) => Ret (Err XauthFailed)
    | Some (true, stdout) =>
      match parse_xauth_list_for_display stdout (display_num display) with
      | Panic => Panic
      | Ret c => Ret (ok_or c NoCookie)
      end
    end
  end.

(** The untrusted cookie: generated into the temporary file, then listed. *)
Definition generate_untrusted (display_str : str) (target_num : u16)
    : outcome (option (str * list u8)) :=
  match xauth [lit "-f"; tmp_file; lit "generate"; display_str; lit "MIT-MAGIC-COOKIE-1";
               lit "untrusted"; lit "timeout"; lit "1800"] with
  | Some (true, _) =>
    match xauth [lit "-f"; tmp_file; lit "list"] with
    | Some (true, s) => parse_xauth_list_for_display s target_num
    | _ => Ret None
    end
  | _ => Ret None
  end.

Definition get_xauth_cookie_for_mode (display_str : str) (trusted : bool)
    : outcome (result (str * list u8) XError) :=
  if trusted then get_xauth_cookie display_str
  else match parse_display display_str with
  | Err e => Ret (Err e)
  | Ok display =>
    if create_tmp_dir then
      match generate_untrusted display_str (display_num display) with
      | Panic => Panic
      | Ret (Some cookie) => Ret (Ok cookie)
      | Ret None => get_xauth_cookie display_str
      end
    else get_xauth_cookie display_str
  end.
End Xauth.

(** ** Lemmas *)

(** A line of [xauth list] that carries this cookie for this display. *)
Definition cookie_line (target_num : u16) (line proto : str) (cookie : list u8) : Prop :=
  exists entry cookie_hex rest,
    split_whitespace line = entry :: proto :: cookie_hex :: rest /\
    entry_display entry = Some target_num /\ hex_decode cookie_hex = Ret (Some cookie).

Lemma xauth_line_Some n line proto cookie :
  xauth_line n line = Ret (Some (proto, cookie)) <-> cookie_line n line proto cookie.
Proof.
  unfold xauth_line, cookie_line. split.
  - destruct (split_whitespace line) as [|entry [|p [|h rest]]]; try done.
    destruct (entry_display entry) as [m|] eqn:Ee; [|done].
    destruct (Z.eqb_spec m n) as [->|]; [|done].
    destruct (hex_decode h) as [[c|]|] eqn:Eh; try done. intros [= -> ->].
    by exists entry, h, rest.
  - intros (entry & h & rest & -> & -> & ->). by rewrite Z.eqb_refl.
Qed.

Lemma xauth_lines_Some n ls proto cookie :
  xauth_lines n ls = Ret (Some (proto, cookie)) <->
  exists l1 line l2, ls = l1 ++ line :: l2 /\ cookie_line n line proto cookie /\
    Forall (fun l => xauth_line n l = Ret None) l1.
Proof.
  split.
  - induction ls as [|line ls IH]; simpl; [done|].
    destruct (xauth_line n line) as [[[p c]|]|] eqn:El; [| |done].
    + intros [= -> ->]. exists [], line, ls. repeat split; [by apply xauth_line_Some|done].
    + intros (l1 & line' & l2 & -> & Hc & Hall)%IH. exists (line :: l1), line', l2.
      repeat split; try done. by constructor.
  - intros (l1 & line & l2 & -> & Hc & Hall). induction Hall as [|l l1 Hl Hall IH]; simpl.
    + apply xauth_line_Some in Hc. by rewrite Hc.
    + by rewrite Hl.
Qed.

Lemma first_piece_dec n rest :
  0 <= n -> (rest = [] \/ exists r, rest = DOT :: r) -> first_piece DOT (dec n ++ rest) = dec n.
Proof.
  intros Hn Hr. assert (DOT ∉ dec n) as Hd.
  { intros Hc%dec_elem; [|done]. by vm_compute in Hc. }
  unfold first_piece. destruct Hr as [->|[r ->]].
  - by rewrite app_nil_r, split_on_no.
  - by rewrite split_on_sep.
Qed.

(** [HOST:N] or [HOST:N.SCREEN]. *)
Definition display_text (host : str) (n : u16) (rest : str) : str := host ++ COLON :: dec n ++ rest.

Lemma split_display host n rest :
  piece_ok false host = true -> 0 <= n -> piece_ok false rest = true ->
  split_ignoring_brackets (display_text host n rest) = [host; dec n ++ rest].
Proof.
  intros Hh Hn Hr. unfold split_ignoring_brackets, display_text.
  rewrite split_loop_piece by done. f_equal. apply split_loop_last.
  pose proof (dec_piece_ok n Hn) as Hd. pose proof (dec_digits n Hn) as Hdig. clear Hn.
  induction Hdig as [|c s Hc Hs IH]; simpl in *; [done|].
  unfold is_digit in Hc. rewrite (proj2 (Z.eqb_neq c LBRACKET)), (proj2 (Z.eqb_neq c RBRACKET)),
    (proj2 (Z.eqb_neq c COLON)) in * by (unfold LBRACKET, RBRACKET, COLON; lia). auto.
Qed.

(** ** Properties *)

(** A [DISPLAY] of the form [HOST:N] or [HOST:N.SCREEN] names display [N]:
    an empty host or [unix] gives the local display with that number, another
    host the TCP port [6000 + N], from which [display_num] recovers [N], as long
    as the port fits in 16 bits.  Above that the port wraps around and the
    display number becomes 0 (as reported). *)
Theorem x11_display_spec host n rest :
  piece_ok false host = true -> starts_with [SLASH] host = false ->
  0 <= n <= U16_MAX -> (rest = [] \/ exists r, rest = DOT :: r) -> piece_ok false rest = true ->
  (host = [] \/ host = lit "unix" ->
     parse_display (display_text host n rest) = Ok (XUnix n) /\ display_num (XUnix n) = n) /\
  (host <> [] -> host <> lit "unix" ->
     exists port, parse_display (display_text host n rest) = Ok (XTcp host port) /\
       (n <= 59535 -> port = 6000 + n /\ display_num (XTcp host port) = n) /\
       (59535 < n -> port = n - 59536 /\ display_num (XTcp host port) = 0)).
Proof.
  intros Hh Hs Hn Hr Hp.
  assert (parse_display (display_text host n rest) =
    if bool_decide (host = []) || str_eqb host (lit "unix") then Ok (XUnix n)
    else Ok (XTcp host (wrap 16 (6000 + n)))) as Hpd.
  { unfold parse_display.
    assert (starts_with [SLASH] (display_text host n rest) = false) as ->.
    { apply not_true_iff_false. rewrite starts_with_spec. intros [t Ht].
      destruct host as [|c host]; [done|]. unfold display_text in Ht. by simplify_eq/=. }
    rewrite split_display by (done || lia). rewrite first_piece_dec by (done || lia).
    by rewrite parse_uint_dec by done. }
  rewrite Hpd. split.
  - intros Hx. assert (bool_decide (host = []) || str_eqb host (lit "unix") = true) as ->; [|done].
    destruct Hx as [Hx|Hx]; subst; reflexivity.
  - intros H1 H2. rewrite bool_decide_false by done.
    replace (str_eqb host (lit "unix")) with false.
    2: { symmetry. apply not_true_iff_false. by rewrite str_eqb_spec. }
    exists (wrap 16 (6000 + n)). split; [done|]. unfold wrap, U16_MAX, display_num in *. split; intros Hle.
    + rewrite Z.mod_small by lia. split; [done|]. rewrite (proj2 (Z.leb_le _ _)) by lia. lia.
    + assert ((6000 + n) mod 2 ^ 16 = n - 59536) as ->.
      { symmetry. apply (Z.mod_unique_pos _ _ 1); lia. }
      split; [done|]. by rewrite (proj2 (Z.leb_gt _ _)) by lia.
Qed.

Lemma x11_display_spec_witness :
  parse_display (lit "localhost:10.0") = Ok (XTcp (lit "localhost") 6010) /\
  parse_display (lit "h:60000") = Ok (XTcp (lit "h") 464) /\
  (exists port, parse_display (display_text (lit "localhost") 10 (lit ".0")) = Ok (XTcp (lit "localhost") port) /\
     (10 <= 59535 -> port = 6000 + 10 /\ display_num (XTcp (lit "localhost") port) = 10) /\
     (59535 < 10 -> port = 10 - 59536 /\ display_num (XTcp (lit "localhost") port) = 0)).
Proof.
  split; [vm_compute; reflexivity|]. split; [vm_compute; reflexivity|].
  apply (x11_display_spec (lit "localhost") 10 (lit ".0")).
  - reflexivity.
  - reflexivity.
  - split; discriminate.
  - right. exists [48]. reflexivity.
  - reflexivity.
  - discriminate.
  - discriminate.
Defined.

(** The cookie handed to the remote side belongs to the requested display:
    whichever mode and whatever [xauth] prints, a returned cookie stands on a
    line for exactly that display number, the first such line that decodes, in
    the list [xauth] printed; in trusted mode this is the user's own list. *)
Theorem xauth_cookie_right_display xauth mk tmp display_str trusted proto cookie :
  get_xauth_cookie_for_mode xauth mk tmp display_str trusted = Ret (Ok (proto, cookie)) ->
  exists d args stdout l1 line l2,
    parse_display display_str = Ok d /\ xauth args = Some (true, stdout) /\
    lines stdout = l1 ++ line :: l2 /\ cookie_line (display_num d) line proto cookie /\
    Forall (fun l => forall p c, ~ cookie_line (display_num d) l p c) l1 /\
    (args = [lit "list"] \/ trusted = false /\ args = [lit "-f"; tmp; lit "list"]).
Proof.
  assert (forall stdout d args, xauth args = Some (true, stdout) ->
    parse_display display_str = Ok d ->
    parse_xauth_list_for_display stdout (display_num d) = Ret (Some (proto, cookie)) ->
    (args = [lit "list"] \/ trusted = false /\ args = [lit "-f"; tmp; lit "list"]) ->
    exists d args stdout l1 line l2,
    parse_display display_str = Ok d /\ xauth args = Some (true, stdout) /\
    lines stdout = l1 ++ line :: l2 /\ cookie_line (display_num d) line proto cookie /\
    Forall (fun l => forall p c, ~ cookie_line (display_num d) l p c) l1 /\
    (args = [lit "list"] \/ trusted = false /\ args = [lit "-f"; tmp; lit "list"])) as Hgo.
  { intros stdout d args Hx Hd (l1 & line & l2 & Hl & Hc & Hall)%xauth_lines_Some Ha.
    exists d, args, stdout, l1, line, l2. repeat split; try done.
    eapply Forall_impl; [exact Hall|]. intros l Hn p c Hcl%xauth_line_Some.
    simpl in Hn. congruence. }
  assert (get_xauth_cookie xauth display_str = Ret (Ok (proto, cookie)) ->
    exists d stdout, parse_display display_str = Ok d /\ xauth [lit "list"] = Some (true, stdout) /\
      parse_xauth_list_for_display stdout (display_num d) = Ret (Some (proto, cookie))) as Hown.
  { unfold get_xauth_cookie. destruct (parse_display display_str) as [d|]; [|done].
    destruct (xauth [lit "list"]) as [[[] stdout]|]; try done.
    destruct (parse_xauth_list_for_display _ _) as [[[p c]|]|] eqn:E; simpl; try done.
    intros [= -> ->]. by exists d, stdout. }
  unfold get_xauth_cookie_for_mode. destruct trusted.
  { intros (d & stdout & Hd & Hx & Hp)%Hown. eapply Hgo; eauto. }
  destruct (parse_display display_str) as [d|] eqn:Hd; [|done].
  destruct mk; [|intros (d' & stdout & Hd' & Hx & Hp)%Hown; eapply Hgo; eauto].
  destruct (generate_untrusted _ _ _ _) as [[[p c]|]|] eqn:E; [| |done].
  - intros [= -> ->]. unfold generate_untrusted in E.
    destruct (xauth (lit "-f" :: tmp :: lit "generate" :: _)) as [[[] ?]|]; try done.
    destruct (xauth [lit "-f"; tmp; lit "list"]) as [[[] s]|] eqn:Ex; try done.
    eapply Hgo; eauto.
  - intros (d' & stdout & Hd' & Hx & Hp)%Hown. eapply Hgo; eauto.
Qed.

Definition sample_xauth (args : list str) : option (bool * str) :=
  if bool_decide (args = [lit "list"]) then
    Some (true, lit "host/unix:1  MIT-MAGIC-COOKIE-1  aa" ++ [LF] ++
                lit "host/unix:0  MIT-MAGIC-COOKIE-1  0bff" ++ [LF])
  else Some (false, []).

Lemma xauth_cookie_right_display_witness :
  get_xauth_cookie_for_mode sample_xauth true (lit "/tmp/x") (lit ":0.0") false
    = Ret (Ok (lit "MIT-MAGIC-COOKIE-1", [11; 255])) /\
  exists d args stdout l1 line l2,
    parse_display (lit ":0.0") = Ok d /\ sample_xauth args = Some (true, stdout) /\
    lines stdout = l1 ++ line :: l2 /\
    cookie_line (display_num d) line (lit "MIT-MAGIC-COOKIE-1") [11; 255].
Proof.
  split; [vm_compute; reflexivity|].
  destruct (xauth_cookie_right_display sample_xauth true (lit "/tmp/x") (lit ":0.0") false
    (lit "MIT-MAGIC-COOKIE-1") [11; 255]) as (d & args & out & l1 & l & l2 & H1 & H2 & H3 & H4 & _).
  - vm_compute. reflexivity.
  - exists d, args, out, l1, l, l2. repeat split; assumption.
Defined.
