(* ===== verification/ShellQuote.v ===== *)
(** Quoting of the remote command line ([posix_shell_quote] and the [ssh]
    arguments of [bootstrap_ssh], [src/bin/etr.rs]).

    [ssh] joins the remote arguments with spaces and hands the result to the
    remote user's shell.  [sh_words] is the part of the POSIX shell grammar that
    matters: words separated by blanks, single quotes, backslash, and tilde
    expansion at the start of a word; any other active character makes it give
    up, so a line it accepts has no other meaning to the shell. *)
From S2P Require Import Prelude Text.

Open Scope Z_scope.
Open Scope list_scope.


(** [b.is_ascii_alphanumeric() || matches!(b, b'_' | b'-' | b'.' | b'/' | b':')]. *)
Definition safe_byte (b : u8) : bool :=
  is_ascii_alphanumeric b || existsb (Z.eqb b) (lit "_-./:").

(** [s.replace('\'', "'\\''")]. *)
Definition escape_quotes (s : str) : str :=
  s ≫= fun c => if c =? SQUOTE then [SQUOTE; BACKSLASH; SQUOTE; SQUOTE] else [c].

(** What follows the two tilde cases. *)
Definition quote_plain (s : str) : str :=
  if negb (bool_decide (s = [])) && forallb safe_byte (as_bytes s) then s
  else [SQUOTE] ++ escape_quotes s ++ [SQUOTE].

Fixpoint posix_shell_quote (s : str) : str :=
  match s with
  | c1 :: r1 =>
    match r1 with
    | [] => if c1 =? TILDE then lit "~" else quote_plain s
    | c2 :: rest =>
      if (c1 =? TILDE) && (c2 =? SLASH) then
        if bool_decide (rest = []) then lit "~/" else lit "~/" ++ posix_shell_quote rest
      else quote_plain s
    end
  | [] => quote_plain s
  end.

(** The arguments after the target, joined as [ssh] joins them. *)
Definition v_flag (verbose : nat) : str :=
  match verbose with O => [] | S _ => [45] ++ repeat 118 verbose end.

Definition remote_args (server_path : str) (server_log_path : option str) (verbose : nat) : list str :=
  [posix_shell_quote server_path] ++
  match server_log_path with Some p => [lit "--log-path"; posix_shell_quote p] | None => [] end ++
  match v_flag verbose with [] => [] | f => [f] end.

Definition remote_line (server_path : str) (server_log_path : option str) (verbose : nat) : str :=
  join [SPACE] (remote_args server_path server_log_path verbose).

(** ** The remote shell *)

Definition is_blank (c : char) : bool := (c =? SPACE) || (c =? TAB).

(** Characters with no special meaning inside an unquoted word. *)
Definition plain_char (c : char) : bool := safe_byte c || (c =? TILDE).

(** [quoted]: inside single quotes; [cur]: the word being read, if any. *)
Fixpoint sh_lex (home : str) (quoted : bool) (cur : option str) (s : str) : option (list str) :=
  match s with
  | [] => if quoted then None else Some (match cur with Some w => [w] | None => [] end)
  | c :: r =>
    if quoted then
      if c =? SQUOTE then sh_lex home false cur r
      else sh_lex home true (Some (default [] cur ++ [c])) r
    else if is_blank c then
      match cur with
      | Some w => cons w <$> sh_lex home false None r
      | None => sh_lex home false None r
      end
    else if c =? SQUOTE then sh_lex home true (Some (default [] cur)) r
    else if c =? BACKSLASH then
      match r with
      | [] => None
      | d :: r => if d =? LF then None else sh_lex home false (Some (default [] cur ++ [d])) r
      end
    else if (c =? TILDE) && bool_decide (cur = None) then
      match r with
      | [] => sh_lex home false (Some home) r
      | d :: _ => if is_blank d || (d =? SLASH) then sh_lex home false (Some home) r else None
      end
    else if plain_char c then sh_lex home false (Some (default [] cur ++ [c])) r
    else None
  end.

Definition sh_words (home s : str) : option (list str) := sh_lex home false None s.

(** The path meant by the user: a leading tilde is the remote home directory. *)
Definition expand_tilde (home s : str) : str :=
  match s with
  | c :: r =>
    if (c =? TILDE) && (bool_decide (r = []) || starts_with [SLASH] r) then home ++ r else s
  | [] => s
  end.

(** ** Lemmas *)

Definition valid_str (s : str) : Prop := Forall (fun c => 0 <= c < 1114112) s.

Lemma valid_strb s : forallb (fun c => (0 <=? c) && (c <? 1114112)) s = true -> valid_str s.
Proof.
  rewrite forallb_forall. intros Hs. apply Forall_forall. intros c Hc.
  apply list_elem_of_In, Hs in Hc. lia.
Qed.

Lemma as_bytes_safe s :
  valid_str s -> forallb safe_byte (as_bytes s) = true -> forallb safe_byte s = true.
Proof.
  induction 1 as [|c s Hc Hs IH]; [done|]. unfold as_bytes in *. cbn [mbind list_bind].
  rewrite forallb_app. intros [H1 H2]%andb_true_iff. simpl. rewrite IH by done.
  rewrite andb_true_r. unfold encode_utf8 in H1.
  destruct (Z.ltb_spec c 128); [simpl in H1; by rewrite andb_true_r in H1|].
  exfalso. assert (forall b, 128 <= b -> safe_byte b = false) as Hno.
  { intros b Hb. unfold safe_byte, is_ascii_alphanumeric, is_digit, is_upper, is_lower.
    apply orb_false_iff. split; [lia|]. apply not_true_iff_false. rewrite existsb_exists.
    intros (x & Hx & ->%Z.eqb_eq). vm_compute in Hx. repeat destruct Hx as [Hx|Hx]; subst; try lia; done. }
  assert (0 <= c / 64) by (apply Z.div_pos; lia).
  assert (0 <= c / 4096) by (apply Z.div_pos; lia).
  assert (0 <= c / 262144) by (apply Z.div_pos; lia).
  destruct (Z.ltb_spec c 2048); [|destruct (Z.ltb_spec c 65536)]; simpl in H1;
    rewrite Hno in H1 by lia; done.
Qed.

Lemma safe_byte_plain c :
  safe_byte c = true ->
  is_blank c = false /\ (c =? SQUOTE) = false /\ (c =? BACKSLASH) = false /\ (c =? TILDE) = false /\
  plain_char c = true.
Proof.
  intros Hs. unfold plain_char. rewrite Hs. unfold safe_byte in Hs.
  apply orb_true_iff in Hs as [Ha|Hx].
  - unfold is_ascii_alphanumeric, is_digit, is_upper, is_lower in Ha.
    unfold is_blank, SPACE, TAB, SQUOTE, BACKSLASH, TILDE. repeat split; lia.
  - apply existsb_exists in Hx as (x & Hx & ->%Z.eqb_eq). vm_compute in Hx.
    repeat destruct Hx as [Hx|Hx]; subst; done.
Qed.

(** What may follow a complete word. *)
Definition word_end (r : str) : Prop := r = [] \/ exists c r', r = c :: r' /\ is_blank c = true.

Lemma lex_safe home w s r :
  forallb safe_byte s = true ->
  sh_lex home false (Some w) (s ++ r) = sh_lex home false (Some (w ++ s)) r.
Proof.
  revert w. induction s as [|c s IH]; intros w; simpl; [by rewrite app_nil_r|].
  intros [Hc Hs]%andb_true_iff. destruct (safe_byte_plain c Hc) as (-> & -> & -> & -> & ->).
  simpl. rewrite IH by done. by rewrite <- app_assoc.
Qed.

Lemma escape_cons c s :
  escape_quotes (c :: s) =
  (if c =? SQUOTE then [SQUOTE; BACKSLASH; SQUOTE; SQUOTE] else [c]) ++ escape_quotes s.
Proof. done. Qed.

Lemma lex_quoted home w s r :
  sh_lex home true (Some w) (escape_quotes s ++ SQUOTE :: r) = sh_lex home false (Some (w ++ s)) r.
Proof.
  revert w. induction s as [|c s IH]; intros w; [simpl; by rewrite app_nil_r|].
  rewrite escape_cons. destruct (Z.eqb_spec c SQUOTE) as [->|Hc].
  - simpl. rewrite IH. by rewrite <- app_assoc.
  - cbn [app sh_lex default]. rewrite (proj2 (Z.eqb_neq _ _)) by done.
    simpl. rewrite IH. by rewrite <- app_assoc.
Qed.

(** A plainly quoted string adds exactly itself to the current word. *)
Lemma lex_plain home cur s r :
  valid_str s ->
  sh_lex home false cur (quote_plain s ++ r) = sh_lex home false (Some (default [] cur ++ s)) r.
Proof.
  intros Hv. unfold quote_plain. destruct (negb _ && _) eqn:E.
  - apply andb_true_iff in E as [Hne Hs%as_bytes_safe]; [|done].
    destruct s as [|c s]; [done|]. simpl in Hs. apply andb_true_iff in Hs as [Hc Hs].
    cbn [app sh_lex]. destruct (safe_byte_plain c Hc) as (-> & -> & -> & -> & ->). simpl.
    rewrite lex_safe by done. by rewrite <- app_assoc.
  - cbn [app sh_lex]. simpl. rewrite <- app_assoc. apply lex_quoted.
Qed.

Lemma quote_cases s :
  (s = [TILDE] /\ posix_shell_quote s = [TILDE]) \/
  (s = [TILDE; SLASH] /\ posix_shell_quote s = [TILDE; SLASH]) \/
  (exists rest, s = TILDE :: SLASH :: rest /\ rest <> [] /\
     posix_shell_quote s = TILDE :: SLASH :: posix_shell_quote rest) \/
  (posix_shell_quote s = quote_plain s /\ expand_tilde [] s = s /\
   forall home, expand_tilde home s = s).
Proof.
  destruct s as [|c1 [|c2 rest]]; [by right; right; right|..]; simpl.
  - destruct (Z.eqb_spec c1 TILDE) as [->|]; [by left|by right; right; right].
  - destruct (Z.eqb_spec c1 TILDE) as [->|]; simpl; [|by right; right; right].
    unfold starts_with, strip_prefix.
    destruct (Z.eqb_spec c2 SLASH) as [->|].
    + right. case_bool_decide; [left; by subst|]. right. left. by exists rest.
    + right; right; right. rewrite (proj2 (Z.eqb_neq SLASH c2)) by done. done.
Qed.

(** In the middle of a word a tilde stands for itself. *)
Lemma lex_mid home w s r :
  valid_str s ->
  sh_lex home false (Some w) (posix_shell_quote s ++ r) = sh_lex home false (Some (w ++ s)) r.
Proof.
  remember (length s) as n eqn:En. revert s w En.
  induction n as [n IH] using lt_wf_ind. intros s w -> Hv.
  destruct (quote_cases s) as [[-> ->]|[[-> ->]|[(rest & -> & Hne & ->)|(-> & _)]]].
  - done.
  - simpl. by rewrite <- app_assoc.
  - simpl. apply Forall_cons in Hv as [_ [_ Hv]%Forall_cons].
    rewrite (IH (length rest)) by (simpl; try lia; done).
    by rewrite <- !app_assoc.
  - by apply lex_plain.
Qed.

(** At the start of a word the quoted string is the path the user meant. *)
Lemma lex_quote home s r :
  valid_str s -> word_end r ->
  sh_lex home false None (posix_shell_quote s ++ r) =
  sh_lex home false (Some (expand_tilde home s)) r.
Proof.
  intros Hv Hr. destruct (quote_cases s) as [[-> ->]|[[-> ->]|[(rest & -> & Hne & ->)|(-> & _ & ->)]]].
  - simpl. rewrite app_nil_r. destruct Hr as [->|(c & r' & -> & Hc)]; [done|].
    cbn [app]. by rewrite Hc.
  - simpl. done.
  - apply Forall_cons in Hv as [_ [_ Hv]%Forall_cons]. simpl. rewrite lex_mid by done.
    by rewrite <- app_assoc.
  - by rewrite lex_plain.
Qed.

Lemma lex_word home w r :
  word_end r ->
  sh_lex home false (Some w) r =
  match r with [] => Some [w] | _ :: r => cons w <$> sh_lex home false None r end.
Proof. intros [->|(c & r' & -> & Hc)]; [done|]. simpl. by rewrite Hc. Qed.

(** A literal word of safe characters. *)
Lemma lex_literal home s r :
  s <> [] -> forallb safe_byte s = true -> word_end r ->
  sh_lex home false None (s ++ r) = sh_lex home false (Some s) r.
Proof.
  intros Hne Hs Hr. destruct s as [|c s]; [done|]. simpl in Hs.
  apply andb_true_iff in Hs as [Hc Hs]. cbn [app sh_lex].
  destruct (safe_byte_plain c Hc) as (-> & -> & -> & -> & ->). simpl. by rewrite lex_safe.
Qed.

Lemma v_flag_safe n : n <> 0%nat -> v_flag n <> [] /\ forallb safe_byte (v_flag n) = true.
Proof.
  intros Hn. destruct n as [|n]; [done|]. split; [done|]. simpl.
  assert (forallb safe_byte (repeat 118 n) = true) as ->; [|done].
  induction n as [|n IH]; simpl; [done|by rewrite IH].
Qed.

Lemma word_end_space r : word_end (SPACE :: r).
Proof. right. by eexists _, _. Qed.
Lemma word_end_nil : word_end [].
Proof. by left. Qed.
#[export] Hint Resolve word_end_space word_end_nil : etr.

(** ** Properties *)

(** C21: whatever [--server-path] and [--server-log-path] contain (spaces,
    quotes, [;], [$(..)], backquotes, ...), the line that reaches the remote
    shell evaluates to exactly one command word and its arguments: the server
    path and the log path themselves, a leading [~] or [~/] standing for the
    remote home directory, and the literal options; nothing in them is split or
    evaluated. *)
Theorem remote_line_is_literal home server_path server_log_path verbose :
  valid_str server_path -> (forall p, server_log_path = Some p -> valid_str p) ->
  sh_words home (remote_line server_path server_log_path verbose) =
  Some ([expand_tilde home server_path] ++
        match server_log_path with Some p => [lit "--log-path"; expand_tilde home p] | None => [] end ++
        match v_flag verbose with [] => [] | f => [f] end).
Proof.
  intros Hs Hl. unfold sh_words, remote_line, remote_args.
  assert (v_flag verbose = [] \/ v_flag verbose <> [] /\ forallb safe_byte (v_flag verbose) = true) as Hv.
  { destruct verbose; [by left|right]. by apply v_flag_safe. }
  destruct server_log_path as [p|].
  - specialize (Hl p eq_refl). destruct Hv as [->|[Hne Hsafe]].
    + cbn [app join]. rewrite lex_quote by auto with etr. rewrite lex_word by auto with etr. cbn [app].
      rewrite (lex_literal _ (lit "--log-path")) by (done || auto with etr).
      rewrite lex_word by auto with etr. cbn [app].
      rewrite <- (app_nil_r (posix_shell_quote p)), lex_quote by auto with etr.
      done.
    + destruct (v_flag verbose) as [|c f] eqn:Ef; [done|]. cbn [app join].
      rewrite lex_quote by auto with etr. rewrite lex_word by auto with etr. cbn [app].
      rewrite (lex_literal _ (lit "--log-path")) by (done || auto with etr).
      rewrite lex_word by auto with etr. cbn [app].
      rewrite lex_quote by auto with etr. rewrite lex_word by auto with etr. cbn [app].
      rewrite <- (app_nil_r (c :: f)) at 1. rewrite lex_literal by auto with etr. done.
  - destruct Hv as [->|[Hne Hsafe]].
    + cbn [app join]. rewrite <- (app_nil_r (posix_shell_quote server_path)), lex_quote by auto with etr.
      done.
    + destruct (v_flag verbose) as [|c f] eqn:Ef; [done|]. cbn [app join].
      rewrite lex_quote by auto with etr. rewrite lex_word by auto with etr. cbn [app].
      rewrite <- (app_nil_r (c :: f)) at 1. rewrite lex_literal by auto with etr. done.
Qed.

Lemma remote_line_is_literal_witness :
  remote_line (lit "~/my etrs") (Some (lit "a'; rm -rf $(x)")) 2 =
    lit "~/'my etrs' --log-path 'a'\''; rm -rf $(x)' -vv" /\
  sh_words (lit "/root") (remote_line (lit "~/my etrs") (Some (lit "a'; rm -rf $(x)")) 2) =
    Some [lit "/root/my etrs"; lit "--log-path"; lit "a'; rm -rf $(x)"; lit "-vv"].
Proof.
  split; [vm_compute; reflexivity|].
  apply (remote_line_is_literal (lit "/root") (lit "~/my etrs") (Some (lit "a'; rm -rf $(x)")) 2).
  - apply valid_strb. vm_compute. reflexivity.
  - intros p [= <-]. apply valid_strb. vm_compute. reflexivity.
Defined.
