(* ===== verification/Bootstrap.v ===== *)
(** The SSH bootstrap: what the client writes to the server's standard input
    and what the server makes of it, and the [PORT .. CERT ..] answer
    ([validate_bootstrap_inputs], [bootstrap_ssh] of [src/bin/etr.rs];
    [parse_bootstrap_line], [run_server] and the option helpers of
    [src/bin/etrs.rs]). *)
From S2P Require Import Prelude Text Hex Ip Addrfam.

Open Scope Z_scope.
Open Scope list_scope.


(** ** Client *)

Definition control_chars : list char := [LF; CR; NUL].

Definition validate_bootstrap_inputs (target term : str) (env_vars : list str)
    (remote_command : option str) : result unit ErrorKind :=
  if bool_decide (target = []) || starts_with (lit "-") target then Err InvalidInput
  else if contains_any control_chars term then Err InvalidInput
  else if existsb (contains_any control_chars) env_vars then Err InvalidInput
  else match remote_command with
  | Some cmd => if contains_any control_chars cmd then Err InvalidInput else Ok tt
  | None => Ok tt
  end.

(** The lines after the header. *)
Definition bootstrap_lines (env_vars : list str) (x11_enabled : bool) (addr_pref : AddrPref)
    (remote_command : option str) : list str :=
  env_vars ++
  (if x11_enabled then [lit "ETRX11:true"] else []) ++
  match wire addr_pref with Some v => [lit "ETRPREFER:" ++ v] | None => [] end ++
  match remote_command with Some cmd => [lit "ETRCMD:" ++ cmd] | None => [] end.

(** Everything [bootstrap_ssh] writes to the pipe, once validated. *)
Definition bootstrap_stdin (target : str) (session_id : list u8) (passkey term : str)
    (env_vars : list str) (remote_command : option str) (x11_enabled : bool) (addr_pref : AddrPref)
    : result str ErrorKind :=
  let? _ := validate_bootstrap_inputs target term env_vars remote_command in
  Ok ((hex_encode session_id ++ [SLASH] ++ passkey ++ [SLASH] ++ term ++ [LF]) ++
      unlines (bootstrap_lines env_vars x11_enabled addr_pref remote_command)).

(** One line of the server's answer; [None] when it is passed over. *)
Definition parse_port_line (line : str) : outcome (option (u16 * list u8)) :=
  match strip_prefix (lit "PORT ") (trim line) with
  | None => Ret None
  | Some rest =>
    match split_whitespace rest with
    | p0 :: p1 :: p2 :: _ =>
      if str_eqb p1 (lit "CERT") then
        match parse_uint U16_MAX p0 with
        | None => Ret None
        | Some port =>
          match hex_decode p2 with
          | Panic => Panic
          | Ret None => Ret None
          | Ret (Some cert) => Ret (Some (port, cert))
          end
        end
      else Ret None
    | _ => Ret None
    end
  end.

Fixpoint find_port_line (ls : list str) : outcome (result (u16 * list u8) ErrorKind) :=
  match ls with
  | [] => Ret (Err OtherKind)
  | l :: ls =>
    match parse_port_line l with
    | Panic => Panic
    | Ret (Some r) => Ret (Ok r)
    | Ret None => find_port_line ls
    end
  end.

(** ** Server *)

Inductive BootstrapLine : Type :=
| LEnv (kv : str)
| LCommand (cmd : str)
| LX11
| LPrefer (p : AddrPref).

Definition parse_bootstrap_line (line : str) : BootstrapLine :=
  match strip_prefix (lit "ETRCMD:") line with
  | Some cmd => LCommand cmd
  | None =>
    if starts_with (lit "ETRX11:") line then LX11
    else match strip_prefix (lit "ETRPREFER:") line with
         | Some v => LPrefer (from_wire v)
         | None => LEnv line
         end
  end.

Record BootstrapRequest : Type := mkRequest {
  b_session_id : list u8;
  b_passkey : str;
  b_term : str;
  b_extra_env : list str;
  b_remote_command : option str;
  b_x11_enabled : bool;
  b_client_pref : AddrPref
}.

(** The loop over the lines after the header. *)
Fixpoint read_bootstrap_lines (ls : list str) (r : BootstrapRequest) : BootstrapRequest :=
  match ls with
  | [] => r
  | l :: ls =>
    if bool_decide (l = []) then r
    else
      let '(mkRequest id pk tm env cmd x11 pref) := r in
      read_bootstrap_lines ls
        match parse_bootstrap_line l with
        | LCommand c => mkRequest id pk tm env (Some c) x11 pref
        | LX11 => mkRequest id pk tm env cmd true pref
        | LPrefer p => mkRequest id pk tm env cmd x11 p
        | LEnv kv => mkRequest id pk tm (env ++ [kv]) cmd x11 pref
        end
  end.

(** [stdin.read_line]: the line with its terminator, and what remains. *)
Definition read_line (s : str) : str * str :=
  match split_once LF s with
  | Some (a, b) => (a ++ [LF], b)
  | None => (s, [])
  end.

(** [run_server] up to the address-family preference. *)
Definition parse_bootstrap (stdin : str) : outcome (result BootstrapRequest ErrorKind) :=
  let '(line, rest) := read_line stdin in
  match split_on SLASH (trim line) with
  | p0 :: p1 :: p2 :: _ =>
    match hex_decode p0 with
    | Panic => Panic
    | Ret None => Ret (Err OtherKind)
    | Ret (Some id) =>
      if (length id =? 16)%nat then
        Ret (Ok (read_bootstrap_lines (lines rest) (mkRequest id p1 p2 [] None false Auto)))
      else Ret (Err OtherKind)
    end
  | _ => Ret (Err InvalidInput)
  end.

(** [println!("PORT {actual_port} CERT {cert_hex}")] of the port bytes that the
    child sent over the pipe. *)
Definition port_line (port_bytes : list u8) (cert : list u8) : str :=
  lit "PORT " ++ dec (from_be port_bytes) ++ lit " CERT " ++ hex_encode cert ++ [LF].

Definition effective_bind_ip (explicit : option str) (pref : AddrPref) : str :=
  match explicit with
  | Some b => b
  | None => if bool_decide (pref = Ipv4) then lit "0.0.0.0" else lit "[::]"
  end.

(** The preference for forward targets, and this server's own. *)
Definition own_pref (prefer_ipv4 prefer_ipv6 : bool) (address_family : option str) : AddrPref :=
  pref_or (from_flags prefer_ipv4 prefer_ipv6) (from_config address_family).

Definition forward_pref (client_pref own : AddrPref) : AddrPref := pref_or client_pref own.

(** Seconds. *)
Definition resolve_reconnect_timeout (cli_val : option u64) (env_val : option str)
    (cfg_val : option u64) : u64 :=
  match cli_val with
  | Some v => v
  | None =>
    match env_val ≫= parse_uint U64_MAX with
    | Some v => v
    | None => default 1800 cfg_val
    end
  end.

Definition BLOCKED_ENV_KEYS : list str :=
  [lit "LD_PRELOAD"; lit "LD_LIBRARY_PATH"; lit "LD_AUDIT"; lit "LD_DYNAMIC_WEAK";
   lit "DYLD_INSERT_LIBRARIES"; lit "DYLD_LIBRARY_PATH"; lit "DYLD_FRAMEWORK_PATH";
   lit "BASH_ENV"; lit "ENV"].


Definition is_safe_client_env_var (kv : str) : bool :=
  if contains_any control_chars kv then false
  else match split_once EQUALS kv with
  | None => false
  | Some (key, _) =>
    if bool_decide (key = []) then false
    else negb (existsb (eq_ignore_ascii_case key) BLOCKED_ENV_KEYS)
  end.

Lemma no_control l c :
  contains_any control_chars l = false -> c ∈ control_chars -> c ∉ l.
Proof. rewrite contains_any_false. intros Hl Hc Hin. by apply (Hl c). Qed.

(** The last character, if any, is not white. *)
Definition last_visible (s : str) : Prop :=
  match last s with Some d => is_whitespace d = false | None => True end.

Lemma hex_visible c bs : Forall is_byte bs -> c ∈ hex_encode bs -> is_whitespace c = false /\ c <> SLASH.
Proof.
  intros Hb Hc. pose proof (hex_encode_elem c bs Hb Hc). unfold is_whitespace, SLASH.
  split; [|lia]. repeat (apply orb_false_iff; split); lia.
Qed.

Lemma split_header id pk term :
  Forall is_byte id -> SLASH ∉ pk -> SLASH ∉ term ->
  split_on SLASH (hex_encode id ++ [SLASH] ++ pk ++ [SLASH] ++ term) = [hex_encode id; pk; term].
Proof.
  intros Hid Hpk Ht. cbn [app]. rewrite split_on_sep.
  2: { intros Hc. by destruct (hex_visible _ _ Hid Hc). }
  by rewrite split_on_sep, split_on_no.
Qed.

Lemma header_trim id pk term :
  Forall is_byte id -> id <> [] -> last_visible term ->
  trim (hex_encode id ++ [SLASH] ++ pk ++ [SLASH] ++ term ++ [LF]) =
  hex_encode id ++ [SLASH] ++ pk ++ [SLASH] ++ term.
Proof.
  intros Hid Hne Hl. destruct id as [|b id]; [done|].
  rewrite hex_encode_cons. unfold hex2. cbn [app].
  assert (is_whitespace (hex_digit (b / 16)) = false) as Hws.
  { apply (hex_visible _ (b :: id) Hid). rewrite hex_encode_cons. by left. }
  destruct term as [|d term _] using rev_ind.
  - pose proof (trim_line (hex_digit (b / 16)) (hex_digit (b mod 16) :: hex_encode id ++ SLASH :: pk) SLASH Hws eq_refl) as Ht.
    repeat progress (cbn [app] in Ht; rewrite <- ?app_assoc in Ht). done.
  - unfold last_visible in Hl. rewrite last_snoc in Hl.
    pose proof (trim_line (hex_digit (b / 16)) (hex_digit (b mod 16) :: hex_encode id ++ SLASH :: pk ++ SLASH :: term) d Hws Hl) as Ht.
    repeat progress (cbn [app] in *; rewrite <- ?app_assoc in * ). done.
Qed.

(** ** Reading the lines back *)

Lemma read_lines_app ls1 ls2 r :
  Forall (fun l => l <> []) ls1 ->
  read_bootstrap_lines (ls1 ++ ls2) r = read_bootstrap_lines ls2 (read_bootstrap_lines ls1 r).
Proof.
  intros Hne. revert r. induction Hne as [|l ls1 Hl Hne IH]; intros r; [done|].
  cbn [app read_bootstrap_lines]. rewrite bool_decide_false by done. destruct r. apply IH.
Qed.

Lemma read_lines_env env id pk tm env0 cmd x11 pref :
  Forall (fun kv => kv <> [] /\ parse_bootstrap_line kv = LEnv kv) env ->
  read_bootstrap_lines env (mkRequest id pk tm env0 cmd x11 pref) =
  mkRequest id pk tm (env0 ++ env) cmd x11 pref.
Proof.
  intros He. revert env0. induction He as [|kv env [Hne Hkv] He IH]; intros env0; simpl.
  - by rewrite app_nil_r.
  - rewrite bool_decide_false by done. rewrite Hkv, IH. by rewrite <- app_assoc.
Qed.

Lemma wire_cases p : wire p = None /\ p = Auto \/ exists v, wire p = Some v /\ from_wire v = p /\ v <> [].
Proof. destruct p; [by left|right..]; by eexists. Qed.

Lemma parse_prefer v : parse_bootstrap_line (lit "ETRPREFER:" ++ v) = LPrefer (from_wire v).
Proof. reflexivity. Qed.
Lemma parse_cmd c : parse_bootstrap_line (lit "ETRCMD:" ++ c) = LCommand c.
Proof. reflexivity. Qed.

Lemma read_lines_all env x11 pref cmd id pk tm :
  Forall (fun kv => kv <> [] /\ parse_bootstrap_line kv = LEnv kv) env ->
  read_bootstrap_lines (bootstrap_lines env x11 pref cmd) (mkRequest id pk tm [] None false Auto) =
  mkRequest id pk tm env cmd x11 pref.
Proof.
  intros He. unfold bootstrap_lines.
  rewrite read_lines_app by (eapply Forall_impl; [exact He|by intros ? []]).
  rewrite read_lines_env by done. cbn [app].
  rewrite read_lines_app by (destruct x11; repeat constructor; done).
  assert (read_bootstrap_lines (if x11 then [lit "ETRX11:true"] else []) (mkRequest id pk tm env None false Auto)
    = mkRequest id pk tm env None x11 Auto) as -> by (by destruct x11).
  destruct (wire_cases pref) as [[-> ->]|(v & -> & Hv & Hne)]; cbn [app].
  - destruct cmd; [|done]. done.
  - cbn [read_bootstrap_lines]. rewrite bool_decide_false by done. rewrite parse_prefer, Hv.
    destruct cmd; done.
Qed.

Lemma bootstrap_lines_no_control target term env x11 pref cmd :
  validate_bootstrap_inputs target term env cmd = Ok tt ->
  Forall (fun l => (LF ∉ l) /\ (CR ∉ l)) (bootstrap_lines env x11 pref cmd) /\ (LF ∉ term).
Proof.
  unfold validate_bootstrap_inputs. destruct (_ || _); [done|].
  destruct (contains_any _ term) eqn:Et; [done|].
  destruct (existsb _ env) eqn:Ee; [done|]. intros Hcmd.
  assert (forall l, contains_any control_chars l = false -> (LF ∉ l) /\ (CR ∉ l)) as Hno.
  { intros l Hl. split; eapply no_control; try done; set_solver. }
  split; [|by apply Hno]. unfold bootstrap_lines. rewrite !Forall_app. split; [|split; [|split]].
  - apply Forall_forall. intros kv Hkv. apply Hno. apply not_true_iff_false. intros Hc.
    apply not_true_iff_false in Ee. apply Ee, existsb_exists. exists kv. by rewrite <- list_elem_of_In.
  - destruct x11; repeat constructor; apply Hno; reflexivity.
  - destruct pref; simpl; repeat constructor; apply Hno; reflexivity.
  - destruct cmd as [c|]; [|done]. rewrite Forall_singleton.
    destruct (contains_any control_chars c) eqn:Ec; [done|]. destruct (Hno c Ec) as [H1 H2].
    split; rewrite elem_of_app; intros [Hx|Hx]; try done; vm_compute in Hx; set_solver.
Qed.

Lemma unsafe_slash_ok (pk : str) : Forall (fun c => is_ascii_alphanumeric c = true) pk -> (SLASH ∉ pk) /\ (LF ∉ pk).
Proof.
  rewrite Forall_forall. intros Hp. split; intros Hc%Hp; by vm_compute in Hc.
Qed.

(** *** The server's answer *)

Lemma split_ws_word cur w r :
  Forall (fun c => is_whitespace c = false) w ->
  split_whitespace_aux cur (w ++ r) = split_whitespace_aux (reverse w ++ cur) r.
Proof.
  intros Hw. revert cur. induction Hw as [|c w Hc Hw IH]; intros cur; [done|].
  cbn [app split_whitespace_aux]. rewrite Hc, IH. by rewrite reverse_cons, <- app_assoc.
Qed.

Lemma split_ws_cons w r :
  w <> [] -> Forall (fun c => is_whitespace c = false) w ->
  split_whitespace (w ++ SPACE :: r) = w :: split_whitespace r.
Proof.
  intros Hne Hw. unfold split_whitespace. rewrite split_ws_word, app_nil_r by done. simpl.
  destruct (reverse w) as [|c l] eqn:E.
  - apply (f_equal reverse) in E. rewrite reverse_involutive in E. done.
  - by rewrite <- E, reverse_involutive.
Qed.

Lemma split_ws_last w :
  w <> [] -> Forall (fun c => is_whitespace c = false) w -> split_whitespace w = [w].
Proof.
  intros Hne Hw. unfold split_whitespace. rewrite <- (app_nil_r w) at 1.
  rewrite split_ws_word, app_nil_r by done. simpl.
  destruct (reverse w) as [|c l] eqn:E.
  - apply (f_equal reverse) in E. rewrite reverse_involutive in E. done.
  - by rewrite <- E, reverse_involutive.
Qed.

Lemma digits_visible n : 0 <= n -> Forall (fun c => is_whitespace c = false) (dec n).
Proof.
  intros Hn. eapply Forall_impl; [by apply dec_digits|]. intros c Hc.
  unfold is_digit in Hc. unfold is_whitespace. repeat (apply orb_false_iff; split); lia.
Qed.

Lemma hex_all_visible bs :
  Forall is_byte bs -> Forall (fun c => is_whitespace c = false) (hex_encode bs).
Proof. intros Hb. apply Forall_forall. intros c Hc. by destruct (hex_visible c bs Hb Hc). Qed.

Lemma parse_answer port cert :
  0 <= port <= U16_MAX -> Forall is_byte cert -> cert <> [] ->
  parse_port_line (lit "PORT " ++ dec port ++ lit " CERT " ++ hex_encode cert) =
  Ret (Some (port, cert)).
Proof.
  intros Hp Hc Hne.
  assert (hex_encode cert <> []) as Hhne by (destruct cert; [done|by rewrite hex_encode_cons]).
  unfold parse_port_line.
  assert (trim (lit "PORT " ++ dec port ++ lit " CERT " ++ hex_encode cert) =
          lit "PORT " ++ dec port ++ lit " CERT " ++ hex_encode cert) as ->.
  { unfold trim. change (trim_start (lit "PORT " ++ dec port ++ lit " CERT " ++ hex_encode cert))
      with (lit "PORT " ++ dec port ++ lit " CERT " ++ hex_encode cert).
    destruct (hex_encode cert) as [|d h _] eqn:E using rev_ind; [done|].
    rewrite !app_assoc. apply trim_end_id.
    apply (hex_visible d cert Hc). rewrite E. set_solver. }
  rewrite strip_prefix_app. change (lit " CERT " ++ ?x) with (SPACE :: lit "CERT" ++ SPACE :: x).
  rewrite split_ws_cons by (apply dec_nonempty || (apply digits_visible; lia)).
  rewrite split_ws_cons by (done || (repeat constructor)).
  rewrite split_ws_last by (done || by apply hex_all_visible).
  rewrite (proj2 (str_eqb_spec _ _)) by done.
  by rewrite parse_uint_dec, hex_decode_encode.
Qed.

Lemma answer_no c port cert :
  0 <= port -> Forall is_byte cert -> c = LF \/ c = CR ->
  c ∉ lit "PORT " ++ dec port ++ lit " CERT " ++ hex_encode cert.
Proof.
  intros Hp Hc Hcc. rewrite !elem_of_app. intros [Hx|[Hx|[Hx|Hx]]].
  - vm_compute in Hx. set_solver.
  - apply dec_elem in Hx; [|done]. destruct Hcc as [-> | ->]; done.
  - vm_compute in Hx. set_solver.
  - apply hex_encode_elem in Hx; [|done]. unfold LF, CR in Hcc. lia.
Qed.

Lemma bootstrap_trip target id passkey term env cmd x11 pref :
  length id = 16%nat -> Forall is_byte id ->
  Forall (fun c => is_ascii_alphanumeric c = true) passkey ->
  SLASH ∉ term -> last_visible term ->
  Forall (fun kv => kv <> [] /\ parse_bootstrap_line kv = LEnv kv) env ->
  validate_bootstrap_inputs target term env cmd = Ok tt ->
  exists text, bootstrap_stdin target id passkey term env cmd x11 pref = Ok text /\
    parse_bootstrap text = Ret (Ok (mkRequest id passkey term env cmd x11 pref)).
Proof.
  intros Hlen Hid Hpk Hslash Hlast Henv Hval. eexists. split.
  { unfold bootstrap_stdin. by rewrite Hval. }
  destruct (bootstrap_lines_no_control _ _ _ x11 pref _ Hval) as [Hls Hlf].
  destruct (unsafe_slash_ok passkey Hpk) as [Hps Hpl].
  set (body := unlines _).
  assert (read_line ((hex_encode id ++ [SLASH] ++ passkey ++ [SLASH] ++ term ++ [LF]) ++ body) =
    (hex_encode id ++ [SLASH] ++ passkey ++ [SLASH] ++ term ++ [LF], body)) as Hread.
  { unfold read_line.
    rewrite (proj2 (split_once_Some LF _ (hex_encode id ++ [SLASH] ++ passkey ++ [SLASH] ++ term) body)).
    - by rewrite <- !app_assoc.
    - split; [by rewrite <- !app_assoc|]. rewrite !elem_of_app. intros [Hc|[Hc|[Hc|[Hc|Hc]]]].
      + by destruct (hex_visible _ _ Hid Hc).
      + set_solver.
      + done.
      + set_solver.
      + done. }
  unfold parse_bootstrap. rewrite Hread.
  rewrite header_trim by (done || (by destruct id)). rewrite split_header by done.
  rewrite hex_decode_encode by done. rewrite Hlen. simpl.
  subst body. rewrite lines_unlines by done. by rewrite read_lines_all.
Qed.

(** ** Properties *)

(** The bootstrap text means the same on both sides: for inputs that pass
    validation, the server recovers exactly the session id, pass key, TERM,
    environment entries, remote command, X11 request and address-family
    preference that the client sent, so no value can smuggle in another line.
    The generated pass key is alphanumeric; TERM must not contain the field
    separator nor end in white space (the server trims the header line), and an
    environment entry must not be empty nor begin like one of the control
    lines. *)
Theorem bootstrap_roundtrip target id passkey term env cmd x11 pref :
  length id = 16%nat -> Forall is_byte id ->
  Forall (fun c => is_ascii_alphanumeric c = true) passkey ->
  SLASH ∉ term -> last_visible term ->
  Forall (fun kv => kv <> [] /\ parse_bootstrap_line kv = LEnv kv) env ->
  validate_bootstrap_inputs target term env cmd = Ok tt ->
  exists text, bootstrap_stdin target id passkey term env cmd x11 pref = Ok text /\
    parse_bootstrap text = Ret (Ok (mkRequest id passkey term env cmd x11 pref)).
Proof. apply bootstrap_trip. Qed.

Lemma bootstrap_roundtrip_witness :
  exists text,
    bootstrap_stdin (lit "me@host") (repeat 171 16) (lit "Zx9") (lit "xterm") [lit "LANG=C"]
      (Some (lit "ls -l /tmp")) true Ipv6 = Ok text /\
    parse_bootstrap text =
      Ret (Ok (mkRequest (repeat 171 16) (lit "Zx9") (lit "xterm") [lit "LANG=C"]
                 (Some (lit "ls -l /tmp")) true Ipv6)).
Proof.
  apply (bootstrap_roundtrip (lit "me@host")).
  - reflexivity.
  - repeat constructor; discriminate.
  - repeat constructor.
  - apply (bool_decide_unpack (SLASH ∉ lit "xterm")). vm_compute. exact I.
  - reflexivity.
  - repeat constructor; [discriminate].
  - vm_compute. reflexivity.
Defined.

(** The client learns exactly the port and certificate the server reports,
    whatever other lines surround the answer: a port passed through the pipe as
    two bytes and printed with the certificate is read back unchanged. *)
Theorem port_line_roundtrip port cert before :
  0 <= port <= U16_MAX -> Forall is_byte cert -> cert <> [] ->
  Forall (fun l => parse_port_line l = Ret None) before ->
  find_port_line (before ++ lines (port_line (to_be 2 port) cert)) = Ret (Ok (port, cert)).
Proof.
  intros Hp Hc Hne Hb. induction Hb as [|l before Hl Hb IH]; cbn [app find_port_line].
  - unfold port_line. rewrite from_be_to_be_small by (unfold U16_MAX in Hp; simpl; lia).
    pose proof (lines_unlines [lit "PORT " ++ dec port ++ lit " CERT " ++ hex_encode cert]) as Hlu.
    unfold unlines in Hlu. cbn [mbind list_bind] in Hlu. rewrite app_nil_r, <- !app_assoc in Hlu.
    rewrite Hlu; [|rewrite Forall_singleton; split; apply answer_no; solve [done | lia | auto]].
    cbn [find_port_line]. by rewrite parse_answer.
  - by rewrite Hl.
Qed.

Lemma port_line_roundtrip_witness :
  port_line [212; 49] [48; 130] = lit "PORT 54321 CERT 3082" ++ [LF] /\
  find_port_line ([lit "motd"; []] ++ lines (port_line (to_be 2 54321) [48; 130]))
    = Ret (Ok (54321, [48; 130])).
Proof.
  split; [vm_compute; reflexivity|].
  apply (port_line_roundtrip 54321 [48; 130] [lit "motd"; []]).
  - split; discriminate.
  - repeat constructor; discriminate.
  - discriminate.
  - repeat constructor.
Defined.

(** The environment filter lets through exactly the entries [KEY=VALUE]
    with a non-empty key and no control character whose key is, in any spelling
    of case, none of the loader and shell start-up variables. *)
Theorem env_filter_spec kv :
  is_safe_client_env_var kv = true <->
  (LF ∉ kv) /\ (CR ∉ kv) /\ (NUL ∉ kv) /\
  exists key value, kv = key ++ EQUALS :: value /\ (EQUALS ∉ key) /\ key <> [] /\
    forall b, b ∈ BLOCKED_ENV_KEYS -> to_ascii_lowercase key <> to_ascii_lowercase b.
Proof.
  unfold is_safe_client_env_var. destruct (contains_any control_chars kv) eqn:Ec.
  { split; [done|]. intros (H1 & H2 & H3 & _). apply contains_any_spec in Ec as (c & Hc & Hin).
    unfold control_chars in Hin. set_solver. }
  assert ((LF ∉ kv) /\ (CR ∉ kv) /\ (NUL ∉ kv)) as (H1 & H2 & H3).
  { repeat split; eapply no_control; try done; set_solver. }
  destruct (split_once EQUALS kv) as [[key value]|] eqn:Es.
  - apply split_once_Some in Es as [-> Hk]. case_bool_decide as Hne.
    + split; [done|]. intros (_ & _ & _ & key' & value' & He & Hk' & Hne' & _). subst key.
      destruct key' as [|c key']; [done|]. simplify_eq/=. set_solver.
    + rewrite negb_true_iff, <- not_true_iff_false, existsb_exists. split.
      * intros Hb. repeat split; try done. exists key, value. repeat split; try done.
        intros b Hin Heq. apply Hb. exists b. rewrite <- list_elem_of_In. split; [done|].
        unfold eq_ignore_ascii_case. by apply str_eqb_spec.
      * intros (_ & _ & _ & key' & value' & He & Hk' & Hne' & Hb) (b & Hin & Heq).
        assert (key' = key) as ->.
        { pose proof (proj2 (split_once_Some EQUALS (key ++ EQUALS :: value) key value) (conj eq_refl Hk)) as E1.
          pose proof (proj2 (split_once_Some EQUALS _ _ _) (conj He Hk')) as E2. congruence. }
        apply (Hb b); [by rewrite list_elem_of_In|].
        unfold eq_ignore_ascii_case in Heq. by apply str_eqb_spec in Heq.
  - split; [done|]. intros (_ & _ & _ & key & value & -> & _).
    apply split_once_None in Es. set_solver.
Qed.
