(* ===== verification/Connection.v ===== *)
(** One connection of the server: the control handshake, the check of the
    credentials, the effects of opening the session, the dispatch of the streams
    the client opens and the control reader ([handle_connection] of
    [src/bin/etrs.rs]).

    A connection is given by what arrives on it: the bytes of the control
    stream, those of every later stream, and which task ended first; and by the output
    that the PTY task sends while the replays are queued.  The tasks
    of a served connection touch separate parts of the state (the control reader
    trims histories, the PTY reader advances the watermark), so they are run one
    after the other here; how they interleave with the PTY is [Link]. *)
From S2P Require Import Prelude Text Protocol Stream Session Link Utf8 Proto Quic Forward.

Open Scope Z_scope.
Open Scope list_scope.

(** ** State *)

Definition conn : Type := nat.

(** What [run_session] shares between successive connections. *)
Record Host : Type := mkHost {
  h_session : SessionState;
  h_active_conn : option conn;
  h_listeners : gset str;                (* [active_reverse_listeners] *)
  h_spawned : list (ForwardSpec * bool); (* the listener tasks started *)
  h_x11_cookie : option (list u8);       (* [x11_real_cookie] *)
  h_logins : list conn;                  (* calls of [record_login] *)
  h_pty_tx : option (list chunk);        (* [outbound_pty_tx] and its channel *)
  h_ctrl_tx : option (list Envelope);    (* [outbound_ctrl_tx] and its channel *)
  h_pty_in : list (list u8);             (* sent to [pty_in_tx] *)
  h_sizes : list (u16 * u16)             (* rows and columns given to the PTY *)
}.

Definition set_session (h : Host) (s : SessionState) : Host :=
  {| h_session := s; h_active_conn := h_active_conn h; h_listeners := h_listeners h;
     h_spawned := h_spawned h; h_x11_cookie := h_x11_cookie h; h_logins := h_logins h;
     h_pty_tx := h_pty_tx h; h_ctrl_tx := h_ctrl_tx h; h_pty_in := h_pty_in h; h_sizes := h_sizes h |}.

(** What arrives on a connection. *)
Record Incoming : Type := mkIncoming {
  i_conn : conn;
  i_control : option RecvStream;   (* the first stream, if one is opened *)
  i_timely : bool;                 (* all of it within the 10 seconds *)
  i_accept_sent : bool;            (* [write_msg] of the answer succeeds *)
  i_streams : list RecvStream;     (* the streams opened later, in order *)
  i_control_read : nat;            (* messages the control reader gets to *)
  i_chunks_read : nat;             (* chunks the PTY reader gets to *)
  i_control_first : bool;          (* the control reader ends first *)
  i_live : list (list chunk)       (* see [interleave] *)
}.

(** ** The handshake *)

Inductive HandshakeError : Type :=
| AcceptBiError | ReadTagError | WrongTag (tag : u8) | ExpectedSessionOpen | NoSessionOpen.

Inductive rejection : Type :=
| InvalidHandshake (e : HandshakeError) | HandshakeTimeout
| SessionIdMismatch | PasskeyMismatch | AcceptNotSent.

Section Connection.
Context {C : EnvelopeCodec}.

Definition control_handshake (bi : option RecvStream) : result (SessionOpen * RecvStream) HandshakeError :=
  match bi with
  | None => Err AcceptBiError
  | Some ctrl_recv =>
    match read_tag ctrl_recv with
    | Err _ => Err ReadTagError
    | Ok (tag, ctrl_recv) =>
      if negb (tag =? TAG_CONTROL) then Err (WrongTag tag)
      else match read_msg ctrl_recv with
      | Ok (Some env, ctrl_recv) =>
        match payload env with
        | Some (PSessionOpen so) => Ok (so, ctrl_recv)
        | _ => Err ExpectedSessionOpen
        end
      | _ => Err NoSessionOpen
      end
    end
  end.

Definition authenticate (id : list u8) (key : str) (so : SessionOpen) : option rejection :=
  if negb (constant_time_eq (so_session_id so) id) then Some SessionIdMismatch
  else if negb (constant_time_eq (as_bytes (so_passkey so)) (as_bytes key)) then Some PasskeyMismatch
  else None.

(** The loop over [session_open.reverse_forwards]. *)
Fixpoint start_listeners (gateway : bool) (specs : list str) (started : gset str)
    : gset str * list (ForwardSpec * bool) :=
  match specs with
  | [] => (started, [])
  | spec_str :: specs =>
    if bool_decide (spec_str ∈ started) then start_listeners gateway specs started
    else match parse spec_str with
    | Ok spec =>
      let '(started, spawned) := start_listeners gateway specs ({[spec_str]} ∪ started) in
      (started, (spec, gateway) :: spawned)
    | Err _ => start_listeners gateway specs started
    end
  end.

Definition session_accept (server_last : gmap Z Z) : Envelope :=
  mkEnvelope (Some (PSessionAccept (mkSessionAccept server_last))).

Definition disconnect : Envelope := mkEnvelope (Some (PDisconnect mkDisconnect)).

(** From the recorded login to the answer. *)
Definition record_open (c : conn) (has_fd : bool) (so : SessionOpen) (h : Host) : Host :=
  {| h_session := apply_server_acks (so_last_received_seq so) (h_session h);
     h_active_conn := h_active_conn h; h_listeners := h_listeners h; h_spawned := h_spawned h;
     h_x11_cookie := if so_x11_enabled so then Some (so_x11_auth_cookie so) else h_x11_cookie h;
     h_logins := if has_fd then h_logins h ++ [c] else h_logins h;
     h_pty_tx := h_pty_tx h; h_ctrl_tx := h_ctrl_tx h; h_pty_in := h_pty_in h; h_sizes := h_sizes h |}.

(** The channel of the connection is installed before the replays are queued one by
    one, so the PTY task may send output ahead of each of them: the lists of [live]
    are sent before the first, the second, ... replay.  (The task has recorded that
    output in the session itself; see [Link].) *)
Fixpoint interleave {A} (live : list (list A)) (replays : list A) : list A :=
  match live with
  | [] => replays
  | l :: live => l ++ match replays with [] => [] | r :: replays => r :: interleave live replays end
  end.

(** From the answer to the replays in the queue.  Nobody takes from the channel yet:
    what does not fit is dropped if it is a replay, and waits with the PTY task if it is
    live. *)
Definition attach (c : conn) (live : list (list chunk)) (shell_exited : bool) (replays : gmap Z (list chunk)) (so : SessionOpen)
    (h : Host) : Host :=
  let '(started, spawned) := start_listeners (so_gateway_ports so) (so_reverse_forwards so) (h_listeners h) in
  {| h_session := h_session h;
     h_active_conn := Some c;
     h_listeners := started; h_spawned := h_spawned h ++ spawned;
     h_x11_cookie := h_x11_cookie h; h_logins := h_logins h;
     h_pty_tx := Some (fold_left (fun q c => try_send PTY_OB_CAP c q) (interleave live (default [] (replays !! 0))) []);
     h_ctrl_tx := Some (if shell_exited then [disconnect] else []);
     h_pty_in := h_pty_in h; h_sizes := h_sizes h |}.

(** The dispatch task: the PTY stream, and the streams it serves. *)
Fixpoint dispatch (pty : option RecvStream) (bis : list RecvStream)
    : option RecvStream * list (ForwardProto * StreamOpen * RecvStream) :=
  match bis with
  | [] => (pty, [])
  | fwd_recv :: bis =>
    match read_tag fwd_recv with
    | Err _ => (pty, [])
    | Ok (tag, fwd_recv) =>
      if tag =? TAG_PTY then dispatch (match pty with Some p => Some p | None => Some fwd_recv end) bis
      else if tag =? TAG_FORWARD then
        match read_msg fwd_recv with
        | Ok (Some env, fwd_recv) =>
          match payload env with
          | Some (PStreamOpen so) =>
            let proto := default Tcp (ForwardProto_try_from (open_forward_proto so)) in
            let '(pty, served) := dispatch pty bis in (pty, (proto, so, fwd_recv) :: served)
          | _ => dispatch pty bis
          end
        | _ => (pty, [])
        end
      else dispatch pty bis
    end
  end.

(** [m.resize(PtySize { rows: tr.rows as u16, cols: tr.cols as u16, .. })]. *)
Definition pty_resize (tr : TerminalResize) (h : Host) : Host :=
  {| h_session := h_session h; h_active_conn := h_active_conn h; h_listeners := h_listeners h;
     h_spawned := h_spawned h; h_x11_cookie := h_x11_cookie h; h_logins := h_logins h;
     h_pty_tx := h_pty_tx h; h_ctrl_tx := h_ctrl_tx h; h_pty_in := h_pty_in h;
     h_sizes := h_sizes h ++ [(wrap 16 (rows tr), wrap 16 (cols tr))] |}.

(** The watermark, then [pty_in_tx2.send(data)]. *)
Definition pty_push (seq : u64) (data : list u8) (h : Host) : Host :=
  {| h_session := session_received seq (h_session h); h_active_conn := h_active_conn h;
     h_listeners := h_listeners h; h_spawned := h_spawned h; h_x11_cookie := h_x11_cookie h;
     h_logins := h_logins h; h_pty_tx := h_pty_tx h; h_ctrl_tx := h_ctrl_tx h;
     h_pty_in := h_pty_in h ++ [data]; h_sizes := h_sizes h |}.

(** The control reader, for at most [n] messages: its result when it ends. *)
Fixpoint ctrl_reader (n : nat) (r : RecvStream) (h : Host) : option bool * Host :=
  match n with
  | O => (None, h)
  | S n =>
    match read_msg r with
    | Ok (Some env, r) =>
      match payload env with
      | Some (PTerminalResize tr) =>
        ctrl_reader n r (pty_resize tr h)
      | Some (PDisconnect _) => (Some true, h)
      | Some (PHeartbeat hb) =>
        ctrl_reader n r (set_session h (apply_server_acks (hb_last_received_seq hb) (h_session h)))
      | _ => ctrl_reader n r h
      end
    | _ => (Some false, h)
    end
  end.

(** The PTY reader, for at most [n] chunks. *)
Fixpoint pty_reader (n : nat) (r : RecvStream) (h : Host) : Host :=
  match n with
  | O => h
  | S n =>
    match read_pty_chunk r with
    | Ok (Some (seq, data), r) =>
      pty_reader n r (pty_push seq data h)
    | _ => h
    end
  end.

(** The streams of the client once it is let in. *)
Definition serve (i : Incoming) (ctrl_recv : RecvStream) (h : Host) : bool * Host :=
  match fst (dispatch None (i_streams i)) with
  | None => (false, h)
  | Some pty_recv =>
    let h := pty_reader (i_chunks_read i) pty_recv h in
    let '(r, h) := ctrl_reader (i_control_read i) ctrl_recv h in
    (if i_control_first i then default false r else false, h)
  end.

Definition handle_connection (id : list u8) (key : str) (has_fd shell_exited : bool)
    (i : Incoming) (h : Host) : result bool rejection * Host :=
  if negb (i_timely i) then (Err HandshakeTimeout, h)
  else match control_handshake (i_control i) with
  | Err e => (Err (InvalidHandshake e), h)
  | Ok (so, ctrl_recv) =>
    match authenticate id key so with
    | Some e => (Err e, h)
    | None =>
      let h := record_open (i_conn i) has_fd so h in
      let replays := collect_replays (so_last_received_seq so) (h_session h) in
      if negb (i_accept_sent i) then (Err AcceptNotSent, h)
      else
        let h := attach (i_conn i) (i_live i) shell_exited replays so h in
        let '(clean, h) := serve i ctrl_recv h in
        (Ok clean, h)
    end
  end.
End Connection.

(** ** Listeners *)

(** The listener tasks are those of distinct specification strings. *)
Definition listeners_of (started : gset str) (spawned : list (ForwardSpec * bool)) : Prop :=
  exists ss : list str, NoDup ss /\ (forall s, s ∈ started <-> s ∈ ss) /\
    Forall2 (fun s p => parse s = Ok p.1) ss spawned.

Definition listeners_ok (h : Host) : Prop := listeners_of (h_listeners h) (h_spawned h).

Lemma listeners_of_insert started spawned s spec gateway :
  listeners_of started spawned -> s ∉ started -> parse s = Ok spec ->
  listeners_of ({[s]} ∪ started) (spawned ++ [(spec, gateway)]).
Proof.
  intros (ss & Hnd & Hs & Hf) Hin Hp. exists (ss ++ [s]). split_and!.
  - apply NoDup_app. split_and!; [done| |apply NoDup_singleton].
    intros x Hx Hx'. apply list_elem_of_singleton in Hx' as ->. by apply Hin, Hs.
  - intros x. rewrite elem_of_union, elem_of_app, elem_of_singleton, list_elem_of_singleton, Hs. tauto.
  - apply Forall2_app; [done|]. by repeat constructor.
Qed.

Lemma start_listeners_of gateway specs started spawned :
  listeners_of started spawned ->
  let r := start_listeners gateway specs started in listeners_of r.1 (spawned ++ r.2).
Proof.
  revert started spawned. induction specs as [|s specs IH]; intros started spawned Hl.
  { cbn. by rewrite app_nil_r. }
  cbn [start_listeners]. case_bool_decide as Hin; [by apply IH|].
  destruct (parse s) as [spec|e] eqn:Ep; [|by apply IH].
  pose proof (IH _ _ (listeners_of_insert _ _ _ _ gateway Hl Hin Ep)) as H.
  destruct (start_listeners gateway specs _) as [st sp]. cbn in *. by rewrite <- app_assoc in H.
Qed.

Lemma start_listeners_elem gateway specs started s :
  s ∈ (start_listeners gateway specs started).1 <->
  s ∈ started \/ (s ∈ specs /\ is_ok (parse s) = true).
Proof.
  revert started. induction specs as [|s' specs IH]; intros started; cbn [start_listeners].
  { cbn. rewrite elem_of_nil. tauto. }
  rewrite elem_of_cons. case_bool_decide as Hin.
  { rewrite IH. split; [tauto|]. intros [H|[[-> |H] Hok]]; tauto. }
  destruct (parse s') as [spec|e] eqn:Ep.
  - specialize (IH ({[s']} ∪ started)). destruct (start_listeners gateway specs _) as [st sp].
    cbn in *. rewrite IH, elem_of_union, elem_of_singleton. split.
    + intros [[-> |H]|[H Hok]]; [right; rewrite Ep; auto|tauto|tauto].
    + intros [H|[[-> |H] Hok]]; tauto.
  - rewrite IH. split; [tauto|]. intros [H|[[-> |H] Hok]]; [tauto| |tauto].
    by rewrite Ep in Hok.
Qed.

(** ** What a served connection leaves alone *)

Section Lemmas.
Context {C : EnvelopeCodec}.

Lemma authenticate_None id key so :
  authenticate id key so = None <->
  so_session_id so = id /\ as_bytes (so_passkey so) = as_bytes key.
Proof.
  pose proof ct_eq_spec as Hct.
  unfold authenticate.
  destruct (constant_time_eq (so_session_id so) id) eqn:E1; cbn [negb].
  - destruct (constant_time_eq (as_bytes (so_passkey so)) _) eqn:E2; cbn [negb].
    + apply Hct in E1, E2. naive_solver.
    + split; [done|]. intros [_ H]. apply Hct in H. congruence.
  - split; [done|]. intros [H _]. apply Hct in H. congruence.
Qed.

Lemma pty_reader_frame n r h :
  let h' := pty_reader n r h in
  h_active_conn h' = h_active_conn h /\ h_listeners h' = h_listeners h /\
  h_spawned h' = h_spawned h /\ h_x11_cookie h' = h_x11_cookie h /\ h_logins h' = h_logins h /\ h_sizes h' = h_sizes h.
Proof.
  revert r h. induction n as [|n IH]; intros r h; [done|]. cbn [pty_reader].
  destruct (read_pty_chunk r) as [[[[q p]|] r']|]; try done. apply (IH r' (pty_push q p h)).
Qed.

Lemma ctrl_reader_frame n r h :
  let h' := (ctrl_reader n r h).2 in
  h_active_conn h' = h_active_conn h /\ h_listeners h' = h_listeners h /\
  h_spawned h' = h_spawned h /\ h_x11_cookie h' = h_x11_cookie h /\ h_logins h' = h_logins h /\ h_pty_in h' = h_pty_in h.
Proof.
  revert r h. induction n as [|n IH]; intros r h; [done|]. cbn [ctrl_reader].
  destruct (read_msg r) as [[[env|] r']|]; try done.
  destruct (payload env) as [[]|]; try done; try apply (IH r' h).
  - apply (IH r' (pty_resize _ h)).
  - apply (IH r' (set_session h _)).
Qed.

Lemma serve_frame i r h :
  let h' := (serve i r h).2 in
  h_active_conn h' = h_active_conn h /\ h_listeners h' = h_listeners h /\
  h_spawned h' = h_spawned h /\ h_x11_cookie h' = h_x11_cookie h /\ h_logins h' = h_logins h.
Proof.
  unfold serve. destruct (fst (dispatch None (i_streams i))) as [p|]; [|done].
  destruct (pty_reader_frame (i_chunks_read i) p h) as (H1&H2&H3&H4&H5&_).
  destruct (ctrl_reader_frame (i_control_read i) r (pty_reader (i_chunks_read i) p h)) as (K1&K2&K3&K4&K5&_).
  destruct (ctrl_reader _ _ _) as [o h']. cbn in *. by rewrite K1, K2, K3, K4, K5, H1, H2, H3, H4, H5.
Qed.
End Lemmas.

(** ** Served connections *)

Section Served.
Context {C : EnvelopeCodec} {L : LawfulCodec C}.

(** A stream as the client opens it, followed by further bytes. *)
Inductive opened : Type :=
| OpenPty (body : list u8)
| OpenForward (so : StreamOpen) (body : list u8)
| OpenOther (tag : u8) (body : list u8).

Definition stream_open (so : StreamOpen) : Envelope := mkEnvelope (Some (PStreamOpen so)).

Definition opened_stream (o : opened) : RecvStream :=
  match o with
  | OpenPty body => mkRecv (TAG_PTY :: body) Finished
  | OpenForward so body => mkRecv (TAG_FORWARD :: frame (encode (stream_open so)) ++ body) Finished
  | OpenOther tag body => mkRecv (tag :: body) Finished
  end.

Definition opened_ok (o : opened) : Prop :=
  match o with
  | OpenPty _ => True
  | OpenForward so _ => msg_ok (stream_open so)
  | OpenOther tag _ => tag <> TAG_PTY /\ tag <> TAG_FORWARD
  end.

Definition pty_bodies (os : list opened) : list RecvStream :=
  omap (fun o => match o with OpenPty body => Some (mkRecv body Finished) | _ => None end) os.

Definition forwards (os : list opened) : list (ForwardProto * StreamOpen * RecvStream) :=
  omap (fun o => match o with
    | OpenForward so body =>
      Some (default Tcp (ForwardProto_try_from (open_forward_proto so)), so, mkRecv body Finished)
    | _ => None end) os.

Lemma read_tag_cons t l e : read_tag (mkRecv (t :: l) e) = Ok (t, mkRecv l e).
Proof.
  unfold read_tag. change (t :: l) with ([t] ++ l). change 1%nat with (length [t]).
  by rewrite read_exact_app.
Qed.

Lemma dispatch_opened pty os :
  Forall opened_ok os ->
  dispatch pty (opened_stream <$> os) = (match pty with Some p => Some p | None => head (pty_bodies os) end,
                                         forwards os).
Proof.
  intros Hos. revert pty. induction Hos as [|o os Ho Hos IH]; intros pty; [by destruct pty|].
  rewrite fmap_cons. cbn [dispatch]. destruct o as [body|so body|tag body]; cbn [opened_stream].
  - rewrite read_tag_cons. cbn. rewrite IH. by destruct pty.
  - rewrite read_tag_cons. cbn. rewrite read_msg_frame by done. cbn. by rewrite IH.
  - rewrite read_tag_cons. destruct Ho as [H1 H2].
    rewrite (proj2 (Z.eqb_neq tag TAG_PTY)), (proj2 (Z.eqb_neq tag TAG_FORWARD)) by done.
    by rewrite IH.
Qed.

(** What one control message does. *)
Definition ctrl_effect (h : Host) (env : Envelope) : Host :=
  match payload env with
  | Some (PTerminalResize tr) => pty_resize tr h
  | Some (PHeartbeat hb) => set_session h (apply_server_acks (hb_last_received_seq hb) (h_session h))
  | _ => h
  end.

Definition is_disconnect (env : Envelope) : bool :=
  match payload env with Some (PDisconnect _) => true | _ => false end.

Definition ctrl_bytes (ms : list Envelope) : list u8 := concat ((fun m => frame (encode m)) <$> ms).

Lemma ctrl_reader_app n ms l e h :
  Forall (fun m => msg_ok m /\ is_disconnect m = false) ms ->
  ctrl_reader (length ms + n) (mkRecv (ctrl_bytes ms ++ l) e) h =
  ctrl_reader n (mkRecv l e) (fold_left ctrl_effect ms h).
Proof.
  intros Hms. revert h. induction Hms as [|m ms [Hm Hd] Hms IH]; intros h; [done|].
  unfold ctrl_bytes in *. rewrite fmap_cons. cbn [concat length Nat.add ctrl_reader fold_left].
  rewrite <- app_assoc, read_msg_frame by done. change (ctrl_effect h m) with (match payload m with
    | Some (PTerminalResize tr) => pty_resize tr h
    | Some (PHeartbeat hb) => set_session h (apply_server_acks (hb_last_received_seq hb) (h_session h))
    | _ => h end).
  unfold is_disconnect in Hd. by destruct (payload m) as [[]|].
Qed.

Lemma ctrl_reader_disconnect n ms l e h :
  Forall (fun m => msg_ok m /\ is_disconnect m = false) ms -> msg_ok disconnect ->
  ctrl_reader (length ms + S n) (mkRecv (ctrl_bytes ms ++ frame (encode disconnect) ++ l) e) h =
  (Some true, fold_left ctrl_effect ms h).
Proof. intros. rewrite ctrl_reader_app by done. cbn [ctrl_reader]. by rewrite read_msg_frame. Qed.

Lemma queue_replays {A} (cap : nat) (xs q : list A) :
  (length q <= cap)%nat ->
  fold_left (fun q c => try_send cap c q) xs q = take cap (q ++ xs).
Proof.
  revert q. induction xs as [|x xs IH]; intros q Hq; cbn [fold_left].
  { by rewrite app_nil_r, take_ge. }
  change (try_send cap x q) with (if (length q <? cap)%nat then q ++ [x] else q). destruct (Nat.ltb_spec (length q) cap) as [Hl|Hl].
  - rewrite IH by (rewrite length_app; cbn; lia). by rewrite <- app_assoc.
  - rewrite IH by done. rewrite !take_app_le by lia. done.
Qed.
End Served.

(** The replays keep their order, and nothing is added but the live output. *)
Lemma interleave_spec {A} (live : list (list A)) replays :
  replays `sublist_of` interleave live replays /\
  interleave live replays ⊆+ concat live ++ replays /\
  (concat live = [] -> interleave live replays = replays).
Proof.
  revert replays. induction live as [|l live IH]; intros replays; [done|].
  destruct replays as [|x replays]; cbn [interleave concat].
  - split; [apply sublist_nil_l|]. rewrite !app_nil_r. split; [by apply submseteq_inserts_r|].
    by intros [-> _]%app_eq_nil.
  - destruct (IH replays) as (H1 & H2 & H3). split; [by apply sublist_inserts_l, sublist_skip|].
    split; [|intros [-> He]%app_eq_nil; cbn; by rewrite H3].
    rewrite <- app_assoc. apply submseteq_app; [done|]. rewrite <- Permutation_middle. by apply submseteq_skip.
Qed.

(** ** Properties *)

(** The connection opens a control stream in time whose first message is a
    [SessionOpen] with the session's identifier and passkey. *)
Definition presents {C : EnvelopeCodec} (id : list u8) (key : str) (i : Incoming)
    (so : SessionOpen) (ctrl_recv : RecvStream) : Prop :=
  i_timely i = true /\ control_handshake (i_control i) = Ok (so, ctrl_recv) /\
  so_session_id so = id /\ as_bytes (so_passkey so) = as_bytes key.

Lemma handle_presents {C : EnvelopeCodec} id key fd ex i h so r :
  presents id key i so r ->
  handle_connection id key fd ex i h =
  let h := record_open (i_conn i) fd so h in
  let replays := collect_replays (so_last_received_seq so) (h_session h) in
  if negb (i_accept_sent i) then (Err AcceptNotSent, h)
  else let '(clean, h) := serve i r (attach (i_conn i) (i_live i) ex replays so h) in (Ok clean, h).
Proof.
  intros (Ht & Hc & Ha). unfold handle_connection. rewrite Ht, Hc. cbn [negb].
  by rewrite (proj2 (authenticate_None _ _ _) Ha).
Qed.

Lemma handle_refused {C : EnvelopeCodec} id key fd ex i h :
  (~ exists so r, presents id key i so r) ->
  exists e, e <> AcceptNotSent /\ handle_connection id key fd ex i h = (Err e, h).
Proof.
  intros Hno. unfold handle_connection.
  destruct (i_timely i) eqn:Et; cbn [negb]; [|by eexists; split; [|done]].
  destruct (control_handshake (i_control i)) as [[so r]|e] eqn:Ec; [|by eexists; split; [|done]].
  destruct (authenticate id key so) as [e|] eqn:Ea.
  - exists e. split; [|done]. unfold authenticate in Ea. repeat case_match; by simplify_eq.
  - exfalso. apply Hno. exists so, r. apply authenticate_None in Ea. by unfold presents.
Qed.

(** C6: a connection that does not present the session's identifier and
    passkey, whatever bytes it sends and however it ends, is refused and leaves
    every part of the server's state as it was; a connection that presents them
    is never refused for them. *)
Theorem connection_requires_credentials {C : EnvelopeCodec} id key fd ex i h :
  (~ exists so r, presents id key i so r) <->
  exists e, e <> AcceptNotSent /\ handle_connection id key fd ex i h = (Err e, h).
Proof.
  split; [by apply handle_refused|].
  intros (e & Hne & Hh) (so & r & Hp). rewrite (handle_presents _ _ _ _ _ _ _ _ Hp) in Hh.
  cbn zeta in Hh. destruct (i_accept_sent i); cbn [negb] in Hh.
  - by destruct (serve _ _ _).
  - by simplify_eq.
Qed.

(** What letting a client in does, up to the tasks that serve it. *)
Lemma admitted_effects {C : EnvelopeCodec} id key fd ex i h so r :
  presents id key i so r -> i_accept_sent i = true ->
  let h1 := attach (i_conn i) (i_live i) ex (collect_replays (so_last_received_seq so)
              (apply_server_acks (so_last_received_seq so) (h_session h))) so
              (record_open (i_conn i) fd so h) in
  exists clean h', handle_connection id key fd ex i h = (Ok clean, h') /\
    (clean, h') = serve i r h1 /\
    h_active_conn h' = Some (i_conn i) /\
    (forall s, s ∈ h_listeners h' <->
       s ∈ h_listeners h \/ (s ∈ so_reverse_forwards so /\ is_ok (parse s) = true)) /\
    h_x11_cookie h' = (if so_x11_enabled so then Some (so_x11_auth_cookie so) else h_x11_cookie h).
Proof.
  intros Hp Ha. rewrite (handle_presents _ _ _ _ _ _ _ _ Hp), Ha. cbn zeta. cbn [negb].
  change (h_session (record_open (i_conn i) fd so h))
    with (apply_server_acks (so_last_received_seq so) (h_session h)).
  set (h1 := attach _ _ _ _ _ _). pose proof (serve_frame i r h1) as (H1 & H2 & H3 & H4 & _).
  destruct (serve i r h1) as [clean h'] eqn:Es. cbn in H1, H2, H3, H4. exists clean, h'.
  pose proof (start_listeners_elem (so_gateway_ports so) (so_reverse_forwards so) (h_listeners h)) as Hel.
  rewrite H1, H2, H4. subst h1. unfold attach in *. cbn [record_open h_listeners] in *.
  destruct (start_listeners _ _ _) as [st sp]. by split_and!.
Qed.

(** C13: An admitted connection becomes the active one; its X11 cookie replaces the old
    one; it is told at once when the shell has exited; and it ends cleanly only if it
    opened the PTY stream. Its output queue has the replays of the terminal's history in
    their order, with the output between them that the PTY task sends in the meantime,
    up to the 1000 chunks that it holds; when no output is sent until the
    replays are queued, it has the first 1000 replays and nothing else. *)
Theorem admitted_connection {C : EnvelopeCodec} id key fd ex i h so r :
  presents id key i so r -> i_accept_sent i = true ->
  exists clean h', handle_connection id key fd ex i h = (Ok clean, h') /\
    h_active_conn h' = Some (i_conn i) /\
    (forall s, s ∈ h_listeners h' <->
       s ∈ h_listeners h \/ (s ∈ so_reverse_forwards so /\ is_ok (parse s) = true)) /\
    h_x11_cookie h' = (if so_x11_enabled so then Some (so_x11_auth_cookie so) else h_x11_cookie h) /\
    let h1 := attach (i_conn i) (i_live i) ex (collect_replays (so_last_received_seq so)
                (apply_server_acks (so_last_received_seq so) (h_session h))) so
                (record_open (i_conn i) fd so h) in
    let replays := replays0 (so_last_received_seq so) (apply_server_acks (so_last_received_seq so) (h_session h)) in
    (exists queue, h_pty_tx h1 = Some (take PTY_OB_CAP queue) /\ replays `sublist_of` queue /\
       queue ⊆+ concat (i_live i) ++ replays /\ (concat (i_live i) = [] -> queue = replays)) /\
    h_ctrl_tx h1 = Some (if ex then [disconnect] else []) /\
    (clean, h') = serve i r h1 /\
    (clean = true -> exists p, (dispatch None (i_streams i)).1 = Some p).
Proof.
  intros Hp Ha. destruct (admitted_effects id key fd ex i h so r Hp Ha) as (clean & h' & Hh & Hs & Hc & Hl & Hx).
  exists clean, h'. do 4 (split; [done|]). intros h1 replays. split; [|split; [|split; [done|]]].
  - exists (interleave (i_live i) replays). destruct (interleave_spec (i_live i) replays) as (H1 & H2 & H3).
    split_and!; [|done..]. subst h1. unfold attach. destruct (start_listeners _ _ _). cbn [h_pty_tx].
    by rewrite queue_replays by (cbn; lia).
  - subst h1. unfold attach. by destruct (start_listeners _ _ _).
  - unfold serve in Hs. destruct (fst _) as [p|]; [by exists p|by simplify_eq].
Qed.

Definition sample_key : str := lit "Zx9".
Definition sample_so (fwd : list str) : SessionOpen :=
  mkSessionOpen [171] sample_key {[0 := 1]} fwd false true (lit "MIT-MAGIC-COOKIE-1") [1; 2].
Definition sample_msgs : list Envelope :=
  [mkEnvelope (Some (PTerminalResize (mkTerminalResize 24 65616)));
   mkEnvelope (Some (PHeartbeat (mkHeartbeat ∅)))].
Definition sample_control (key : str) : list u8 :=
  TAG_CONTROL :: frame (@encode proto_codec (mkEnvelope (Some (PSessionOpen
    (mkSessionOpen [171] key {[0 := 1]} [lit "8080:db:5432"; lit "nonsense"] false true
      (lit "MIT-MAGIC-COOKIE-1") [1; 2]))))) ++
  @ctrl_bytes proto_codec sample_msgs ++ frame (@encode proto_codec disconnect).
Definition sample_incoming (key : str) : Incoming :=
  mkIncoming 7%nat (Some (mkRecv (sample_control key) Lost)) true true
    [mkRecv (TAG_PTY :: chunk_bytes (0, [108; 115])) Lost] 9 9 true [].
Definition new_host (id : list u8) (key : str) : Host :=
  mkHost (new_session id key) None ∅ [] None [] None None [] [].

Lemma admitted_connection_witness :
  presents (C := proto_codec) [171] sample_key (sample_incoming sample_key)
    (sample_so [lit "8080:db:5432"; lit "nonsense"])
    (mkRecv (@ctrl_bytes proto_codec sample_msgs ++ frame (@encode proto_codec disconnect)) Lost) /\
  exists clean h', handle_connection (C := proto_codec) [171] sample_key true false
                     (sample_incoming sample_key) (new_host [171] sample_key) = (Ok clean, h') /\
    h_active_conn h' = Some 7%nat.
Proof.
  assert (presents (C := proto_codec) [171] sample_key (sample_incoming sample_key)
    (sample_so [lit "8080:db:5432"; lit "nonsense"])
    (mkRecv (@ctrl_bytes proto_codec sample_msgs ++ frame (@encode proto_codec disconnect)) Lost)) as Hp.
  { unfold presents. split_and!; vm_compute; reflexivity. }
  split; [exact Hp|].
  destruct (admitted_connection (C := proto_codec) [171] sample_key true false (sample_incoming sample_key)
    (new_host [171] sample_key) _ _ Hp) as (clean & h' & Hh & Ha & _); [reflexivity|].
  exists clean, h'. split; [exact Hh|exact Ha].
Defined.

(** What a client sees of [admitted_connection] on these bytes. *)
Example sample_run :
  let '(r, h) := handle_connection (C := proto_codec) [171] sample_key true false
                   (sample_incoming sample_key) (new_host [171] sample_key) in
  (r, h_sizes h, h_pty_in h, last_received_map (h_session h), h_x11_cookie h, length (h_spawned h)) =
  (Ok true, [(24, 80)], [[108; 115]], {[0 := 0]}, Some [1; 2], 1%nat).
Proof. vm_compute. reflexivity. Qed.

(** The streams that a client opens are told apart by their tag and their
    [StreamOpen], whatever follows: the first PTY stream is the terminal and any
    later one is ignored, every forward stream is served once, in order, under
    the protocol it names (TCP when the number is unknown), and unknown tags are
    skipped. *)
Theorem dispatch_spec {C : EnvelopeCodec} {L : LawfulCodec C} os :
  Forall opened_ok os ->
  dispatch None (opened_stream <$> os) = (head (pty_bodies os), forwards os).
Proof. apply dispatch_opened. Qed.

Lemma dispatch_spec_witness :
  let so := mkStreamOpen 4 1 (lit "db") 53 1 in
  Forall (opened_ok (C := proto_codec)) [OpenOther 9 []; OpenPty [1]; OpenForward so [2]; OpenPty [3]] /\
  dispatch (C := proto_codec) None (opened_stream (C := proto_codec) <$>
    [OpenOther 9 []; OpenPty [1]; OpenForward so [2]; OpenPty [3]]) =
  (Some (mkRecv [1] Finished), [(Udp, so, mkRecv [2] Finished)]).
Proof.
  assert (Forall (opened_ok (C := proto_codec)) [OpenOther 9 []; OpenPty [1];
    OpenForward (mkStreamOpen 4 1 (lit "db") 53 1) [2]; OpenPty [3]]) as Hok.
  { repeat (constructor; [first [exact I|small_msg|vm_compute; discriminate]|]). constructor. }
  split; [exact Hok|].
  rewrite (dispatch_spec (C := proto_codec) (L := proto_codec_lawful) _ Hok). reflexivity.
Defined.

(** The control reader applies every resize (with its dimensions cut to 16
    bits) and every acknowledgement in the order they were sent, and a
    [Disconnect] after them ends the connection as clean, whatever the client
    sends behind it. *)
Theorem control_messages {C : EnvelopeCodec} {L : LawfulCodec C} n ms l e h :
  Forall (fun m => msg_ok m /\ is_disconnect m = false) ms -> msg_ok disconnect ->
  ctrl_reader (length ms + S n) (mkRecv (ctrl_bytes ms ++ frame (encode disconnect) ++ l) e) h =
  (Some true, fold_left ctrl_effect ms h).
Proof. apply ctrl_reader_disconnect. Qed.

Lemma control_messages_witness :
  Forall (fun m => msg_ok (H := proto_codec) m /\ is_disconnect m = false) sample_msgs /\
  ctrl_reader (C := proto_codec) 3 (mkRecv (@ctrl_bytes proto_codec sample_msgs ++
    frame (@encode proto_codec disconnect) ++ [7; 7]) Lost) (new_host [171] sample_key) =
  (Some true, fold_left ctrl_effect sample_msgs (new_host [171] sample_key)).
Proof.
  assert (Forall (fun m => msg_ok (H := proto_codec) m /\ is_disconnect m = false) sample_msgs) as Hms by small_msg.
  split; [exact Hms|].
  apply (control_messages (C := proto_codec) (L := proto_codec_lawful) 0 sample_msgs [7; 7] Lost); [exact Hms|].
  small_msg.
Defined.

(** Successive connections; the shell may have exited before any of them. *)
Definition connections {C : EnvelopeCodec} (id : list u8) (key : str) (fd : bool)
    (ins : list (bool * Incoming)) (h : Host) : Host :=
  fold_left (fun h i => (handle_connection id key fd i.1 i.2 h).2) ins h.

Lemma handle_listeners_ok {C : EnvelopeCodec} id key fd ex i h :
  listeners_ok h -> listeners_ok (handle_connection id key fd ex i h).2.
Proof.
  intros Hl. unfold handle_connection.
  destruct (i_timely i); cbn [negb]; [|done].
  destruct (control_handshake (i_control i)) as [[so r]|e]; [|done].
  destruct (authenticate id key so); [done|].
  destruct (i_accept_sent i); cbn [negb]; [|done].
  set (h1 := attach _ _ _ _ _ _). pose proof (serve_frame i r h1) as (_ & H2 & H3 & _).
  destruct (serve i r h1) as [clean h']. cbn in *. unfold listeners_ok. rewrite H2, H3.
  subst h1. unfold attach. pose proof (start_listeners_of (so_gateway_ports so)
    (so_reverse_forwards so) (h_listeners h) (h_spawned h) Hl) as Hs. cbn [record_open h_listeners].
  by destruct (start_listeners _ _ _).
Qed.

(** Over any sequence of connections, the listener tasks that were ever
    started belong to pairwise distinct specification strings, each task running
    the parsed form of its string: a client that reconnects never gets a second
    listener for the same [-R] option. *)
Theorem reverse_listeners_once {C : EnvelopeCodec} id key fd ins h :
  listeners_ok h -> listeners_ok (connections id key fd ins h).
Proof.
  intros Hl. unfold connections. revert h Hl. induction ins as [|i ins IH]; intros h Hl; [done|].
  cbn [fold_left]. by apply IH, handle_listeners_ok.
Qed.

Lemma reverse_listeners_once_witness :
  listeners_ok (connections (C := proto_codec) [171] sample_key true
    [(false, sample_incoming sample_key); (false, sample_incoming (lit "no"));
     (false, sample_incoming sample_key)] (new_host [171] sample_key)).
Proof.
  apply (reverse_listeners_once (C := proto_codec)). exists []. split; [constructor|].
  split; [|constructor]. intros s. split; intros H; [by apply elem_of_empty in H|by apply elem_of_nil in H].
Defined.
