(* ===== verification/ServerLoop.v ===== *)
(** The server's reconnect loop and its teardown (the loop of [run_session] and
    [hangup_child], [src/bin/etrs.rs]).

    A turn of the loop is given by what the operating system has ready for it:
    the shell's exit, the signals, the next connection attempt or its absence.
    Time appears only as the outcome of the three time limits (the reconnect
    window, the second granted to a pending client, the QUIC handshake). *)
From S2P Require Import Prelude Text Protocol Stream Session Utf8 Proto Quic Connection.

Open Scope Z_scope.
Open Scope list_scope.

(** ** One turn *)

Inductive QuicHandshake : Type := HsDone | HsError | HsTimeout.

Record Attempt : Type := mkAttempt {
  a_accepted : bool;           (* [incoming.accept()] *)
  a_handshake : QuicHandshake;
  a_incoming : Incoming;       (* what arrives on it, as far as it gets *)
  a_signal : bool              (* SIGTERM or SIGHUP before it ends *)
}.

(** The result of waiting for [endpoint.accept()]. *)
Inductive accept_outcome : Type := Arrived (a : Attempt) | EndpointClosed | WindowExpired.

Record Wait : Type := mkWait {
  w_shell_exited : bool;
  w_pending : option Attempt;  (* a client that connects within the last second *)
  w_sigterm : bool;
  w_sighup : bool;
  w_accept : accept_outcome
}.

Inductive loop_exit : Type :=
| ExitShell | ExitSigterm | ExitSighup | ExitEndpoint | ExitWindow | ExitClean | ExitSignal.

#[export] Instance loop_exit_eq_dec : EqDecision loop_exit.
Proof. solve_decision. Defined.

(** The [biased] select: the attempt to serve, or the reason to leave. *)
Definition wait_turn (w : Wait) : loop_exit + Attempt :=
  if w_shell_exited w then
    match w_pending w with Some a => inr a | None => inl ExitShell end
  else if w_sigterm w then inl ExitSigterm
  else if w_sighup w then inl ExitSighup
  else match w_accept w with
  | Arrived a => inr a
  | EndpointClosed => inl ExitEndpoint
  | WindowExpired => inl ExitWindow
  end.

(** The [break]s that call [record_logout] themselves; for the others the
    shell-exit watcher does. *)
Definition records_logout (e : loop_exit) : bool :=
  match e with ExitShell | ExitClean => false | _ => true end.

(** The three handles set to [None] after a connection. *)
Definition clear_connection (h : Host) : Host :=
  {| h_session := h_session h; h_active_conn := None; h_listeners := h_listeners h;
     h_spawned := h_spawned h; h_x11_cookie := h_x11_cookie h; h_logins := h_logins h;
     h_pty_tx := None; h_ctrl_tx := None; h_pty_in := h_pty_in h; h_sizes := h_sizes h |}.

Section Loop.
Context {C : EnvelopeCodec} (id : list u8) (key : str) (has_fd : bool).

Definition turn (w : Wait) (h : Host) : option loop_exit * Host :=
  match wait_turn w with
  | inl e => (Some e, h)
  | inr a =>
    if negb (a_accepted a) then (None, h)
    else match a_handshake a with
    | HsError | HsTimeout => (None, h)
    | HsDone =>
      let '(r, h) := handle_connection id key has_fd (w_shell_exited w) (a_incoming a) h in
      let clean := if a_signal a then false else match r with Ok b => b | Err _ => false end in
      let h := clear_connection h in
      if clean then (Some ExitClean, h)
      else if a_signal a then (Some ExitSignal, h)
      else (None, h)
    end
  end.

(** The loop over the turns that happen: why it ended, if it did, and the number
    of logouts recorded. *)
Fixpoint server_loop (ws : list Wait) (h : Host) : option loop_exit * nat * Host :=
  match ws with
  | [] => (None, O, h)
  | w :: ws =>
    match turn w h with
    | (Some e, h) => (Some e, if has_fd && records_logout e then 1%nat else O, h)
    | (None, h) => server_loop ws h
    end
  end.
End Loop.

(** ** Teardown *)

Inductive group_signal : Type := SIGHUP | SIGKILL.

(** [alive i]: the group still exists when it is probed for the [i]th time. *)
Fixpoint probe_group (alive : nat -> bool) (n i : nat) : bool :=
  match n with
  | O => true
  | S n => if alive i then probe_group alive n (S i) else false
  end.

(** The signals sent to the group of the shell. *)
Definition hangup_child (child_pid : option u32) (alive : nat -> bool) : list (u32 * group_signal) :=
  match child_pid with
  | None => []
  | Some pid => (pid, SIGHUP) :: (if probe_group alive 20 0 then [(pid, SIGKILL)] else [])
  end.

Definition teardown (shell_exited : bool) (child_pid : option u32) (alive : nat -> bool)
    : list (u32 * group_signal) :=
  if shell_exited then [] else hangup_child child_pid alive.

(** ** Lemmas *)

Definition disconnected (h : Host) : Prop :=
  h_active_conn h = None /\ h_pty_tx h = None /\ h_ctrl_tx h = None.

Lemma clear_disconnected h : disconnected (clear_connection h).
Proof. done. Qed.

Lemma clear_id h : disconnected h -> clear_connection h = h.
Proof. destruct h. unfold disconnected, clear_connection. simpl. by intros (-> & -> & ->). Qed.

Lemma probe_group_spec alive n i :
  probe_group alive n i = true <-> forall j, (i <= j < i + n)%nat -> alive j = true.
Proof.
  revert i. induction n as [|n IH]; intros i; cbn [probe_group].
  { split; [intros _ j; lia|done]. }
  destruct (alive i) eqn:E.
  - rewrite IH. split; intros H j Hj; [|apply H; lia].
    destruct (decide (j = i)) as [-> |]; [done|]. apply H. lia.
  - split; [done|]. intros H. rewrite H in E by lia. done.
Qed.

(** A turn in which only somebody without the credentials connects. *)
Definition stranger {C : EnvelopeCodec} (id : list u8) (key : str) (w : Wait) : Prop :=
  w_shell_exited w = false /\ w_sigterm w = false /\ w_sighup w = false /\
  exists a, w_accept w = Arrived a /\ a_signal a = false /\
    ~ exists so r, presents id key (a_incoming a) so r.

Lemma turn_stranger {C : EnvelopeCodec} id key fd w h :
  stranger id key w -> disconnected h -> turn id key fd w h = (None, h).
Proof.
  intros (Hx & Ht & Hh & a & Ha & Hs & Hno) Hd. unfold turn, wait_turn. rewrite Hx, Ht, Hh, Ha.
  destruct (a_accepted a); [|done]. cbn [negb]. destruct (a_handshake a); try done.
  destruct (handle_refused id key fd false (a_incoming a) h Hno) as (e & _ & ->).
  cbn beta iota. rewrite Hs. by rewrite clear_id.
Qed.

Lemma turn_disconnected {C : EnvelopeCodec} id key fd w h :
  disconnected h -> disconnected (turn id key fd w h).2.
Proof.
  intros Hd. unfold turn. destruct (wait_turn w) as [e|a]; [done|].
  destruct (a_accepted a); [|done]. cbn [negb]. destruct (a_handshake a); try done.
  destruct (handle_connection _ _ _ _ _ _) as [r h']. cbn zeta.
  repeat case_match; done.
Qed.

(** ** Properties *)

(** C9: while only strangers connect, whatever they send and however often, the
    session waits on: the loop does not end, nobody is logged out, and the
    session, the cookie, the listeners and everything else the server keeps for
    the absent client is untouched. *)
Theorem strangers_are_harmless {C : EnvelopeCodec} id key fd ws h :
  Forall (stranger id key) ws -> disconnected h -> server_loop id key fd ws h = (None, O, h).
Proof.
  intros Hws Hd. induction Hws as [|w ws Hw Hws IH]; [done|].
  cbn [server_loop]. by rewrite turn_stranger.
Qed.

Definition sample_wait (key : str) : Wait :=
  mkWait false None false false (Arrived (mkAttempt true HsDone (sample_incoming key) false)).

Lemma strangers_are_harmless_witness :
  Forall (stranger (C := proto_codec) [171] sample_key) [sample_wait (lit "guess"); sample_wait []] /\
  server_loop (C := proto_codec) [171] sample_key true [sample_wait (lit "guess"); sample_wait []]
    (new_host [171] sample_key) = (None, O, new_host [171] sample_key).
Proof.
  assert (Forall (stranger (C := proto_codec) [171] sample_key)
    [sample_wait (lit "guess"); sample_wait []]) as Hs.
  { repeat constructor; (eexists; split; [reflexivity|]; split; [reflexivity|]);
      intros (so & r & _ & Hc & _ & Hk); vm_compute in Hc; injection Hc as <- <-; discriminate Hk. }
  split; [exact Hs|].
  apply (strangers_are_harmless (C := proto_codec)); [exact Hs|]. split_and!; reflexivity.
Defined.

(** One turn of the loop, case by case: it goes on exactly when an attempt
    was made (at the latest within the second after the shell's exit) that failed
    to set up QUIC or whose connection ended other than by the client's
    [Disconnect] or a signal; whatever happens, no turn leaves the handles of a
    dead connection behind. *)
Theorem server_turn_spec {C : EnvelopeCodec} id key fd w h :
  disconnected h ->
  disconnected (turn id key fd w h).2 /\
  ((turn id key fd w h).1 = None <->
   exists a, (if w_shell_exited w then w_pending w = Some a
              else w_sigterm w = false /\ w_sighup w = false /\ w_accept w = Arrived a) /\
     (a_accepted a = true -> a_handshake a = HsDone ->
      a_signal a = false /\
      (handle_connection id key fd (w_shell_exited w) (a_incoming a) h).1 <> Ok true)).
Proof.
  intros Hd. split; [by apply turn_disconnected|].
  assert (forall a, (wait_turn w = inr a) <->
    (if w_shell_exited w then w_pending w = Some a
     else w_sigterm w = false /\ w_sighup w = false /\ w_accept w = Arrived a)) as Hw.
  { intros a. unfold wait_turn. repeat case_match; naive_solver. }
  setoid_rewrite <- Hw. unfold turn. destruct (wait_turn w) as [e|a].
  { split; [done|]. intros (a & Ha & _). done. }
  split.
  - intros Ht. exists a. split; [done|]. intros Hacc Hhs. rewrite Hacc, Hhs in Ht. cbn [negb] in Ht.
    destruct (handle_connection _ _ _ _ _ _) as [r h']. cbn zeta in Ht. cbn [fst].
    destruct (a_signal a); [done|]. split; [done|]. by intros ->.
  - intros (a' & [= <-] & Ha). destruct (a_accepted a); [|done]. cbn [negb].
    destruct (a_handshake a); try done. destruct Ha as [Hsig Hr]; [done|done|].
    destruct (handle_connection _ _ _ _ _ _) as [r h']. cbn [fst] in Hr. rewrite Hsig. cbn zeta.
    destruct r as [[]|]; done.
Qed.

Lemma server_turn_spec_witness :
  disconnected (turn (C := proto_codec) [171] sample_key true (sample_wait sample_key)
    (new_host [171] sample_key)).2 /\
  (turn (C := proto_codec) [171] sample_key true (sample_wait sample_key)
    (new_host [171] sample_key)).1 = Some ExitClean.
Proof.
  split; [|vm_compute; reflexivity].
  refine (proj1 (server_turn_spec (C := proto_codec) [171] sample_key true (sample_wait sample_key)
    (new_host [171] sample_key) _)). split_and!; reflexivity.
Defined.

(** Teardown leaves no shell behind: when the shell has not exited, its
    group gets SIGHUP, and SIGKILL after it exactly when it survived all 20
    probes; a shell that has exited is not signalled. *)
Theorem teardown_hangs_up exited pid alive g s :
  (g, s) ∈ teardown exited pid alive <->
  exited = false /\ pid = Some g /\
  (s = SIGHUP \/ (s = SIGKILL /\ forall j, (j < 20)%nat -> alive j = true)).
Proof.
  unfold teardown, hangup_child. destruct exited; [set_solver|]. destruct pid as [p|]; [|set_solver].
  assert (probe_group alive 20 0 = true <-> forall j, (j < 20)%nat -> alive j = true) as Hp.
  { rewrite probe_group_spec. split; intros H j Hj; apply H; lia. }
  destruct (probe_group alive 20 0).
  - assert (forall j, (j < 20)%nat -> alive j = true) as Ha by (by apply Hp).
    rewrite !elem_of_cons, elem_of_nil. naive_solver.
  - rewrite elem_of_cons, elem_of_nil. split; [naive_solver|].
    intros (_ & [= ->] & [-> |[-> Ha]]); [by left|]. by apply Hp in Ha.
Qed.
