(* ===== verification/Login.v ===== *)
(** The login records of a session: [src/login.rs], and where the server writes them
    ([handle_connection], the loop of [run_session] and the shell-exit watcher of
    [src/bin/etrs.rs]).

    The records themselves are libutempter's; what is modelled is the sequence of
    calls.  [ServerLoop] counts the loop's own logouts; here they are put in order
    with the logins of the connections and the logout of the watcher, which is a
    thread of its own. *)
From S2P Require Import Prelude Text Utf8 Protocol Stream Session Proto Quic Ip Connection ServerLoop.

Open Scope Z_scope.
Open Scope list_scope.

(** ** The calls *)

(** The call of [utempter_add_record] with its host, and that of
    [utempter_remove_added_record]. *)
Inductive login_event : Type := Login (host : str) | Logout.

#[export] Instance login_event_eq_dec : EqDecision login_event.
Proof. solve_decision. Defined.

(** [CString::new(remote_addr).unwrap_or_default()]. *)
Definition c_string (s : str) : str := if contains_char NUL s then [] else s.

Definition record_login (remote_addr : str) : login_event := Login (c_string remote_addr).

(** [IpAddr::to_canonical]. *)
Definition to_canonical (ip : IpAddr) : IpAddr :=
  match ip with
  | IpV6 s => match to_ipv4_mapped s with Some o => IpV4 o | None => ip end
  | _ => ip
  end.

Definition login_host (peer : IpAddr) (pid : u32) : str :=
  ip_to_string (to_canonical peer) ++ lit " via etr [" ++ dec pid ++ [RBRACKET].

(** ** The order of the calls *)

(** Whether the watcher makes its call during a turn of the loop, and then whether
    before or after the login of the connection that the turn lets in.  It raises the
    flag that the loop waits for before it makes the call. *)
Inductive shell_exit : Type := NotNow | BeforeLogin | AfterLogin.

#[export] Instance shell_exit_eq_dec : EqDecision shell_exit.
Proof. solve_decision. Defined.

Record Turn : Type := mkTurn { t_wait : Wait; t_exit : shell_exit }.

Section Trace.
Context {C : EnvelopeCodec} (id : list u8) (key : str) (has_fd : bool) (peer : conn -> IpAddr) (pid : u32).

(** The watcher and the loop call [record_logout] when there is a descriptor. *)
Definition logout : list login_event := if has_fd then [Logout] else [].

(** The login of the connection that a turn lets in. *)
Definition turn_logins (w : Wait) (h : Host) : list login_event :=
  (fun c => record_login (login_host (peer c) pid)) <$>
    drop (length (h_logins h)) (h_logins (turn id key has_fd w h).2).

(** The calls of a turn, and whether the watcher has made its own by its end; it makes
    one call. *)
Definition turn_calls (exited : bool) (t : Turn) (h : Host) : list login_event * bool :=
  let logins := turn_logins (t_wait t) h in
  if exited then (logins, true)
  else match t_exit t with
  | NotNow => (logins, false)
  | BeforeLogin => (logout ++ logins, true)
  | AfterLogin => (logins ++ logout, true)
  end.

(** The whole loop.  After it a shell that is still there is hung up, and [run_session]
    waits for the watcher's call before it is over. *)
Fixpoint login_loop (exited : bool) (ts : list Turn) (h : Host) : list login_event * option loop_exit :=
  match ts with
  | [] => ([], None)
  | t :: ts =>
    let '(calls, exited) := turn_calls exited t h in
    match turn id key has_fd (t_wait t) h with
    | (Some e, _) =>
      (calls ++ (if records_logout e then logout else []) ++ (if exited then [] else logout), Some e)
    | (None, h) => let '(rest, e) := login_loop exited ts h in (calls ++ rest, e)
    end
  end.

(** Somebody is let in after the watcher has recorded the logout. *)
Fixpoint late_login (exited : bool) (ts : list Turn) (h : Host) : bool :=
  match ts with
  | [] => false
  | t :: ts =>
    ((exited || bool_decide (t_exit t = BeforeLogin)) && negb (bool_decide (turn_logins (t_wait t) h = []))) ||
    match turn id key has_fd (t_wait t) h with
    | (Some _, _) => false
    | (None, h') => late_login (turn_calls exited t h).2 ts h'
    end
  end.
End Trace.

(** ** Lemmas *)

Section Last.
Context {C : EnvelopeCodec} (id : list u8) (key : str) (peer : conn -> IpAddr) (pid : u32).

(** Once the watcher has made its call, a logout is the last call as long as nobody
    is let in late. *)
Lemma turn_calls_last exited t h acc :
  (exited = true -> last acc = Some Logout) ->
  (exited || bool_decide (t_exit t = BeforeLogin)) &&
    negb (bool_decide (turn_logins id key true peer pid (t_wait t) h = [])) = false ->
  (turn_calls id key true peer pid exited t h).2 = true ->
  last (acc ++ (turn_calls id key true peer pid exited t h).1) = Some Logout.
Proof.
  intros Hex Hlate. unfold turn_calls. set (logins := turn_logins _ _ _ _ _ _ _) in *.
  assert (exited || bool_decide (t_exit t = BeforeLogin) = true -> logins = []) as Hno.
  { intros Hb. rewrite Hb in Hlate. cbn [andb] in Hlate. apply negb_false_iff in Hlate.
    by apply bool_decide_eq_true in Hlate. }
  destruct exited; cbn [orb] in Hno.
  - cbn [fst snd]. rewrite Hno by done. intros _. rewrite app_nil_r. by apply Hex.
  - destruct (t_exit t); cbn [fst snd]; [done| |]; intros _.
    + rewrite Hno by done. rewrite app_nil_r. apply last_snoc.
    + rewrite app_assoc. apply last_snoc.
Qed.

Lemma login_loop_last exited ts h acc e :
  (exited = true -> last acc = Some Logout) -> late_login id key true peer pid exited ts h = false ->
  (login_loop id key true peer pid exited ts h).2 = Some e ->
  last (acc ++ (login_loop id key true peer pid exited ts h).1) = Some Logout.
Proof.
  revert exited h acc. induction ts as [|t ts IH]; intros exited h acc Hex Hl He; [done|].
  cbn [login_loop late_login] in *. apply orb_false_iff in Hl as [Hnow Hl].
  pose proof (turn_calls_last exited t h acc Hex Hnow) as Hlast.
  destruct (turn_calls id key true peer pid exited t h) as [calls ex]. cbn [fst snd] in Hlast, Hl.
  destruct (turn id key true (t_wait t) h) as [[x|] h']; cbn [fst snd] in *.
  - destruct ex.
    + destruct (records_logout x); cbn [app]; rewrite ?app_nil_r; [rewrite app_assoc; apply last_snoc|by apply Hlast].
    + destruct (records_logout x); cbn [logout app]; rewrite !app_assoc; [|apply last_snoc].
      change [Logout; Logout] with ([Logout] ++ [Logout]). rewrite app_assoc. apply last_snoc.
  - specialize (IH ex h' (acc ++ calls) Hlast Hl). destruct (login_loop id key true peer pid ex ts h') as [rest o].
    cbn [fst snd] in *. rewrite app_assoc. by apply IH.
Qed.
End Last.

(** A client that is let in is logged in. *)
Lemma handle_logins {C : EnvelopeCodec} id key exited i h so r :
  presents id key i so r ->
  h_logins (handle_connection id key true exited i h).2 = h_logins h ++ [i_conn i].
Proof.
  intros Hp. rewrite (handle_presents _ _ _ _ _ _ _ _ Hp). cbn zeta.
  destruct (i_accept_sent i); cbn [negb]; [|done].
  pose proof (serve_frame i r (attach (i_conn i) (i_live i) exited
    (collect_replays (so_last_received_seq so) (h_session (record_open (i_conn i) true so h))) so
    (record_open (i_conn i) true so h))) as (_ & _ & _ & _ & Hl).
  destruct (serve _ _ _) as [clean h']. cbn [snd] in *. rewrite Hl. unfold attach.
  by destruct (start_listeners _ _ _).
Qed.

Lemma let_in_logins {C : EnvelopeCodec} id key peer pid w a h so r :
  wait_turn w = inr a -> a_accepted a = true -> a_handshake a = HsDone -> presents id key (a_incoming a) so r ->
  turn_logins id key true peer pid w h = [record_login (login_host (peer (i_conn (a_incoming a))) pid)].
Proof.
  intros Hw Ha Hh Hp. unfold turn_logins, turn. rewrite Hw, Ha, Hh. cbn [negb].
  pose proof (handle_logins id key (w_shell_exited w) _ h so r Hp) as Hl.
  destruct (handle_connection _ _ _ _ _ _) as [res h']. cbn [snd] in Hl. cbn zeta.
  assert (h_logins (clear_connection h') = h_logins h ++ [i_conn (a_incoming a)]) as Hc by done.
  destruct (if a_signal a then _ else _), (a_signal a); cbn [snd]; by rewrite Hc, drop_app_length.
Qed.

(** ** Properties *)

(** No record of the session is left behind: however the server's loop ends (a
    signal, an expired window, a closed endpoint, the shell's exit, the client's
    [Disconnect]), and whenever the shell exits, the last call is a logout, unless
    a client is let in after the watcher has made its own. *)
Theorem logged_out_at_the_end {C : EnvelopeCodec} id key peer pid ts h evs e :
  login_loop id key true peer pid false ts h = (evs, Some e) ->
  late_login id key true peer pid false ts h = false -> last evs = Some Logout.
Proof.
  intros Hr Hl. pose proof (login_loop_last id key peer pid false ts h [] e) as H. rewrite Hr in H. by apply H.
Qed.

(** The second after the shell's exit: a client connects in it, or nobody. *)
Definition last_second (x : shell_exit) (a : option Attempt) : Turn :=
  mkTurn (mkWait true a false false WindowExpired) x.

(** A record is left behind by a client that returns in the second that the
    server waits for it after the shell's exit: it is logged in when the watcher has
    already recorded the logout, and no other follows, whether or not it ends its
    connection with a [Disconnect]. *)
Theorem late_client_leaves_record {C : EnvelopeCodec} id key peer pid a h so r :
  a_accepted a = true -> a_handshake a = HsDone -> a_signal a = false -> presents id key (a_incoming a) so r ->
  exists e, login_loop id key true peer pid false [last_second BeforeLogin (Some a); last_second NotNow None] h =
    ([Logout; record_login (login_host (peer (i_conn (a_incoming a))) pid)], Some e).
Proof.
  intros Ha Hh Hs Hp. cbn [login_loop]. unfold turn_calls at 1. cbn [t_exit last_second].
  rewrite (let_in_logins id key peer pid _ a h so r) by done. cbn [app logout].
  set (last := t_wait (last_second BeforeLogin (Some a))).
  destruct (turn id key true last h) as [[x|] h'] eqn:Et.
  - exists x. assert (wait_turn last = inr a) as Hw by done.
    unfold turn in Et. rewrite Hw, Ha, Hh in Et. cbn [negb] in Et. destruct (handle_connection _ _ _ _ _ _) as [res h1].
    cbn zeta in Et. rewrite Hs in Et. destruct (match res with Ok b => b | Err _ => false end); by simplify_eq.
  - exists ExitShell. unfold turn_calls, turn_logins, turn. cbn. by rewrite drop_all.
Qed.

Lemma late_client_leaves_record_witness :
  exists e, login_loop (C := proto_codec) [171] sample_key true (fun _ => IpV6 [0; 0; 0; 0; 0; 65535; 2560; 7]) 42 false
    [last_second BeforeLogin (Some (mkAttempt true HsDone (sample_incoming sample_key) false)); last_second NotNow None]
    (new_host [171] sample_key) = ([Logout; Login (lit "10.0.0.7 via etr [42]")], Some e).
Proof.
  apply (late_client_leaves_record (C := proto_codec) [171] sample_key (fun _ => IpV6 [0; 0; 0; 0; 0; 65535; 2560; 7]) 42
    (mkAttempt true HsDone (sample_incoming sample_key) false) (new_host [171] sample_key)
    (sample_so [lit "8080:db:5432"; lit "nonsense"])
    (mkRecv (@ctrl_bytes proto_codec sample_msgs ++ frame (@encode proto_codec disconnect)) Lost));
    [reflexivity..|]. unfold presents. split_and!; vm_compute; reflexivity.
Defined.

Definition sample_turns : list Turn :=
  [mkTurn (sample_wait (lit "guess")) NotNow; mkTurn (sample_wait sample_key) AfterLogin].

Lemma logged_out_at_the_end_witness :
  login_loop (C := proto_codec) [171] sample_key true (fun _ => IpV4 [10; 0; 0; 7]) 42 false sample_turns
    (new_host [171] sample_key) = ([Login (lit "10.0.0.7 via etr [42]"); Logout], Some ExitClean) /\
  last [Login (lit "10.0.0.7 via etr [42]"); Logout] = Some Logout.
Proof.
  assert (login_loop (C := proto_codec) [171] sample_key true (fun _ => IpV4 [10; 0; 0; 7]) 42 false sample_turns
    (new_host [171] sample_key) = ([Login (lit "10.0.0.7 via etr [42]"); Logout], Some ExitClean)) as Hr
    by (vm_compute; reflexivity).
  split; [exact Hr|]. refine (logged_out_at_the_end (C := proto_codec) _ _ _ _ _ _ _ _ Hr _).
  vm_compute. reflexivity.
Defined.

(** The recorded host is never cut: it has no NUL. *)
Lemma login_host_whole peer pid :
  NUL ∉ login_host peer pid -> record_login (login_host peer pid) = Login (login_host peer pid).
Proof.
  intros Hn. unfold record_login, c_string. destruct (contains_char _ _) eqn:E; [|done].
  by apply contains_char_spec in E.
Qed.
