(* ===== verification/Escape.v ===== *)
(** The filter between the keyboard and the session: recognition of [~.] at the
    start of a line (the reader task of [run_connection_loop],
    [src/bin/etr.rs]). *)
From S2P Require Import Prelude Text.

Open Scope Z_scope.
Open Scope list_scope.

Definition ESCAPE_CHAR : u8 := 126.

Record EscapeState : Type := mkEscape {
  at_line_start : bool;
  escape_pending : bool
}.

Definition initial_escape : EscapeState := mkEscape true false.

(** [matches!(b, b'\r' | b'\n')]. *)
Definition ends_line (b : u8) : bool := (b =? CR) || (b =? LF).

(** One byte: the bytes to forward and the next state, or [None] for [~.]. *)
Definition escape_byte (b : u8) (st : EscapeState) : option (list u8 * EscapeState) :=
  if escape_pending st then
    if b =? DOT then None
    else if b =? ESCAPE_CHAR then Some ([ESCAPE_CHAR], mkEscape false false)
    else Some ([ESCAPE_CHAR; b], mkEscape (ends_line b) false)
  else if (b =? ESCAPE_CHAR) && at_line_start st then
    Some ([], mkEscape (at_line_start st) true)
  else Some ([b], mkEscape (ends_line b) false).

(** The loop over one buffer. *)
Fixpoint escape_buffer (buf : list u8) (st : EscapeState) : option (list u8 * EscapeState) :=
  match buf with
  | [] => Some ([], st)
  | b :: buf =>
    match escape_byte b st with
    | None => None
    | Some (out, st) =>
      match escape_buffer buf st with
      | None => None
      | Some (out', st) => Some (out ++ out', st)
      end
    end
  end.

Inductive reader_end : Type := StdinEof | ForceQuit | ChannelClosed.

(** The reader over the buffers that the reads return: what it puts in the
    channel, which takes [room] messages before its receiver is gone. *)
Fixpoint stdin_reader (reads : list (list u8)) (room : nat) (st : EscapeState)
    : list (list u8) * reader_end :=
  match reads with
  | [] => ([], StdinEof)
  | [] :: _ => ([], StdinEof)
  | buf :: reads =>
    match escape_buffer buf st with
    | None => ([], ForceQuit)
    | Some ([], st) => stdin_reader reads room st
    | Some (out, st) =>
      match room with
      | O => ([], ChannelClosed)
      | S room => let '(sent, e) := stdin_reader reads room st in (out :: sent, e)
      end
    end
  end.

(** ** Lemmas *)

Lemma escape_buffer_app a b st :
  escape_buffer (a ++ b) st =
  match escape_buffer a st with
  | None => None
  | Some (out, st) =>
    match escape_buffer b st with Some (out', st) => Some (out ++ out', st) | None => None end
  end.
Proof.
  revert st. induction a as [|x a IH]; intros st; cbn [app escape_buffer].
  { by destruct (escape_buffer b st) as [[]|]. }
  destruct (escape_byte x st) as [[o s]|]; [|done]. rewrite IH.
  destruct (escape_buffer a s) as [[o' s']|]; [|done].
  destruct (escape_buffer b s') as [[o'' s'']|]; [|done]. by rewrite app_assoc.
Qed.

(** The bytes after which a line starts. *)
Definition line_start (a : list u8) : Prop := a = [] \/ exists a' b, a = a' ++ [b] /\ ends_line b = true.

Lemma line_start_snoc a b : line_start (a ++ [b]) <-> ends_line b = true.
Proof.
  split.
  - intros [Hn|(a' & b' & He & Hb)]; [by destruct a|]. apply app_inj_2 in He as [_ [= ->]]; done.
  - intros Hb. right. by exists a, b.
Qed.

(** The state after some input: pending means that it ends in an escape
    character at the start of a line. *)
Definition state_ok (a : list u8) (st : EscapeState) : Prop :=
  if escape_pending st then at_line_start st = true /\ exists a', a = a' ++ [ESCAPE_CHAR] /\ line_start a'
  else at_line_start st = true -> line_start a.

Lemma escape_byte_ok a b st out st' :
  state_ok a st -> escape_byte b st = Some (out, st') -> state_ok (a ++ [b]) st'.
Proof.
  unfold state_ok, escape_byte. intros Hok Hb.
  destruct (escape_pending st) eqn:Ep.
  - destruct (b =? DOT); [done|]. destruct (Z.eqb_spec b ESCAPE_CHAR); simplify_eq; cbn; [done|].
    intros. by rewrite line_start_snoc.
  - destruct (Z.eqb_spec b ESCAPE_CHAR) as [->|Hne]; cbn [andb] in Hb.
    + destruct (at_line_start st) eqn:Es; simplify_eq; cbn; [|done].
      split; [done|]. exists a. auto.
    + simplify_eq. cbn. intros. by rewrite line_start_snoc.
Qed.

(** A line end and the escape character are never the same, so a line end
    resets the filter. *)
Lemma escape_after_line a b out st st' :
  ends_line b = true -> escape_buffer (a ++ [b]) st = Some (out, st') -> st' = initial_escape.
Proof.
  intros Hb. rewrite escape_buffer_app. destruct (escape_buffer a st) as [[o s]|]; [|done].
  cbn [escape_buffer]. unfold escape_byte.
  assert ((b =? DOT) = false) as E1 by (unfold ends_line, CR, LF, DOT in *; zreflect; lia).
  assert ((b =? ESCAPE_CHAR) = false) as E2 by (unfold ends_line, CR, LF, ESCAPE_CHAR in *; zreflect; lia).
  rewrite E1, E2, Hb. cbn [andb]. by destruct (escape_pending s); intros [= _ <-].
Qed.

Lemma escape_quit_split a s st :
  state_ok a st -> escape_buffer s st = None ->
  exists p q, a ++ s = p ++ ESCAPE_CHAR :: DOT :: q /\ line_start p.
Proof.
  revert a st. induction s as [|b s IH]; intros a st Hok Hn; [done|]. cbn [escape_buffer] in Hn.
  destruct (escape_byte b st) as [[out st']|] eqn:Eb.
  - destruct (IH (a ++ [b]) st') as (p & q & Hs & Hl); [by eapply escape_byte_ok| |].
    + by destruct (escape_buffer s st') as [[]|].
    + exists p, q. by rewrite <- Hs, <- app_assoc.
  - unfold escape_byte in Eb. unfold state_ok in Hok.
    destruct (escape_pending st); [|by destruct (_ && _)].
    destruct (Z.eqb_spec b DOT) as [-> |]; [|by destruct (b =? ESCAPE_CHAR)].
    destruct Hok as (_ & a' & -> & Hl). exists a', s. by rewrite <- app_assoc.
Qed.

Lemma escape_quit_iff s :
  escape_buffer s initial_escape = None <->
  exists p q, s = p ++ ESCAPE_CHAR :: DOT :: q /\ line_start p.
Proof.
  split.
  - intros Hn. apply (escape_quit_split []) in Hn; [done|]. by left.
  - intros (p & q & -> & Hl). rewrite escape_buffer_app.
    destruct (escape_buffer p initial_escape) as [[o st]|] eqn:Ep; [|done].
    assert (st = initial_escape) as ->.
    { destruct Hl as [-> |(a & b & -> & Hb)]; [by injection Ep as _ <-|].
      by eapply escape_after_line. }
    done.
Qed.

(** What to type to send [s]: the escape character doubled where a line starts. *)
Fixpoint protect (starts : bool) (s : list u8) : list u8 :=
  match s with
  | [] => []
  | b :: s => (if (b =? ESCAPE_CHAR) && starts then [b; b] else [b]) ++ protect (ends_line b) s
  end.

Lemma escape_protect s starts :
  exists st, escape_buffer (protect starts s) (mkEscape starts false) = Some (s, st).
Proof.
  revert starts. induction s as [|b s IH]; intros starts; [by eexists|].
  destruct (IH (ends_line b)) as (st & Hst). exists st. cbn [protect].
  destruct ((b =? ESCAPE_CHAR) && starts) eqn:Eb.
  - apply andb_true_iff in Eb as [He ->]. apply Z.eqb_eq in He as ->.
    cbn in Hst |- *. by rewrite Hst.
  - cbn [app escape_buffer]. unfold escape_byte. cbn [escape_pending at_line_start].
    rewrite Eb. by rewrite Hst.
Qed.

(** The reader does to its buffers what the filter does to the whole input. *)
Lemma stdin_reader_spec reads room st :
  Forall (fun r => r <> []) reads -> (length reads <= room)%nat ->
  exists sent, stdin_reader reads room st =
    (sent, match escape_buffer (concat reads) st with Some _ => StdinEof | None => ForceQuit end) /\
  forall out st', escape_buffer (concat reads) st = Some (out, st') -> concat sent = out.
Proof.
  intros Hne. revert room st. induction Hne as [|r reads Hr Hne IH]; intros room st Hlen.
  { exists []. split; [done|]. by intros out st' [= <- _]. }
  cbn [stdin_reader concat length] in *. destruct r as [|b r]; [done|].
  set (buf := b :: r) in *. rewrite escape_buffer_app.
  destruct (escape_buffer buf st) as [[out st1]|]; [|by exists []].
  destruct out as [|c out].
  - destruct (IH room st1) as (sent & Hs & Ho); [lia|]. exists sent.
    destruct (escape_buffer (concat reads) st1) as [[o s]|]; [|done].
    split; [done|]. intros o' s' [= <- <-]. by eapply Ho.
  - destruct room as [|room]; [lia|]. destruct (IH room st1) as (sent & Hs & Ho); [lia|].
    rewrite Hs. exists ((c :: out) :: sent).
    destruct (escape_buffer (concat reads) st1) as [[o s]|]; [|done].
    split; [done|]. intros o' s' [= <- <-]. cbn [concat]. by rewrite (Ho o s).
Qed.

(** ** Properties *)

(** However the keyboard input is cut into reads, the client gives up at
    the escape sequence exactly when the whole input contains [~.] at its
    beginning or just after a carriage return or line feed. *)
Theorem force_quit_iff reads room :
  Forall (fun r => r <> []) reads -> (length reads <= room)%nat ->
  (stdin_reader reads room initial_escape).2 = ForceQuit <->
  exists p q, concat reads = p ++ ESCAPE_CHAR :: DOT :: q /\ line_start p.
Proof.
  intros Hne Hlen. destruct (stdin_reader_spec reads room initial_escape Hne Hlen) as (sent & -> & _).
  rewrite <- escape_quit_iff. cbn. by destruct (escape_buffer (concat reads) initial_escape).
Qed.

Lemma force_quit_iff_witness :
  (stdin_reader [lit "ls ~."; [CR]; lit "~"; lit "."] 4 initial_escape).2 = ForceQuit.
Proof.
  apply (force_quit_iff [lit "ls ~."; [CR]; lit "~"; lit "."] 4); [repeat constructor; discriminate|vm_compute; lia|].
  exists (lit "ls ~." ++ [CR]), []. split; [reflexivity|]. right. exists (lit "ls ~."), CR.
  split; reflexivity.
Defined.

(** Nothing else is lost or added: with the escape character doubled at
    the start of lines any byte sequence can be typed, and the session receives
    that sequence, whatever the sizes of the reads. *)
Theorem stdin_transparent s reads room :
  Forall (fun r => r <> []) reads -> (length reads <= room)%nat -> concat reads = protect true s ->
  exists sent, stdin_reader reads room initial_escape = (sent, StdinEof) /\ concat sent = s.
Proof.
  intros Hne Hlen Hc. destruct (stdin_reader_spec reads room initial_escape Hne Hlen) as (sent & Hs & Ho).
  destruct (escape_protect s true) as (st & Hst). unfold initial_escape in *. rewrite Hc, Hst in *.
  exists sent. split; [done|]. by eapply Ho.
Qed.

Lemma stdin_transparent_witness :
  exists sent, stdin_reader [lit "~"; lit "~.x"; [LF]; lit "a~"] 9 initial_escape = (sent, StdinEof) /\
    concat sent = lit "~.x" ++ [LF] ++ lit "a~".
Proof.
  apply (stdin_transparent (lit "~.x" ++ [LF] ++ lit "a~"));
    [repeat constructor; discriminate|vm_compute; lia|reflexivity].
Defined.
