(* ===== verification/Stdin.v ===== *)
(** Standard input from the keyboard or a pipe to the server: the reader task
    ([Escape]), the channel, and the task of [run_session] that numbers, records
    and writes what it takes from the channel, with what it does at the end of the
    input ([src/bin/etr.rs]). *)
From S2P Require Import Prelude Text Protocol Stream Session Link Utf8 Proto Quic Escape.

Open Scope Z_scope.
Open Scope list_scope.

(** [VEOF], Ctrl-D. *)
Definition VEOF : u8 := 4.

(** The buffer of the reader. *)
Definition STDIN_BUF : nat := 1024.

(** Waiting for more; the stream failed; the channel is closed and the task
    returns, finishing the stream; or it holds the stream open. *)
Inductive stdin_end : Type := WaitsForInput | WriteFailed | InputClosed | HoldsOpen.

(** One payload: numbered and recorded, then written.  [None] is the panic of
    [expect]; the boolean tells whether the write succeeded. *)
Definition relay (payload : list u8) (ss : SessionState) (pty_send : SendStream)
    : option (SendStream * SessionState * bool) :=
  '(seq, ss) ← session_send payload ss;
  match write_pty_chunk seq payload pty_send with
  | Ok pty_send => Some (pty_send, ss, true)
  | Err _ => Some (pty_send, ss, false)
  end.

Fixpoint relay_all (rx : list (list u8)) (ss : SessionState) (pty_send : SendStream)
    : option (SendStream * SessionState * bool) :=
  match rx with
  | [] => Some (pty_send, ss, true)
  | payload :: rx =>
    '(pty_send, ss, ok) ← relay payload ss pty_send;
    if ok : bool then relay_all rx ss pty_send else Some (pty_send, ss, false)
  end.

(** The task on a channel that holds [rx] and whose sender is gone after them
    ([closed]) or not.  At the end of the input of a remote command the task
    relays [VEOF] once and then parks. *)
Definition stdin_task (has_remote_command closed : bool) (rx : list (list u8)) (ss : SessionState)
    (pty_send : SendStream) : option (SendStream * SessionState * stdin_end) :=
  '(pty_send, ss, ok) ← relay_all rx ss pty_send;
  if negb ok then Some (pty_send, ss, WriteFailed)
  else if negb closed then Some (pty_send, ss, WaitsForInput)
  else if has_remote_command then
    '(pty_send, ss, ok) ← relay [VEOF] ss pty_send;
    Some (pty_send, ss, if ok : bool then HoldsOpen else WriteFailed)
  else Some (pty_send, ss, InputClosed).

(** ** Lemmas *)

Lemma numbered_chunks_ok n rx :
  0 <= n -> n + Z.of_nat (length rx) <= U64_MAX -> Forall (fun p => Z.of_nat (length p) <= MAX_CHUNK) rx ->
  Forall chunk_ok (numbered n rx).
Proof.
  intros Hn Hl Hp. revert n Hn Hl. induction Hp as [|p rx Hp _ IH]; intros n Hn Hl; [constructor|].
  rewrite numbered_cons. cbn [length] in Hl. constructor; [split; cbn; lia|]. apply IH; lia.
Qed.

(** A session whose terminal stream will use the number [n] next. *)
Definition next_is (n : Z) (ss : SessionState) : Prop := exists s, stream 0 ss = Some s /\ next_out_seq s = n.

Lemma relay_spec p n ss w :
  next_is n ss -> 0 <= n < U64_MAX ->
  exists ss', relay p ss (mkSend w true) = Some (mkSend (w ++ chunk_bytes (n, p)) true, ss', true) /\
    next_is (n + 1) ss'.
Proof.
  intros (s & Hs & Hn) Hr. unfold relay, session_send. rewrite Hs. cbn -[write_pty_chunk].
  rewrite Hn. pose proof (write_pty_chunk_spec (n, p) (mkSend w true)) as Hw. cbn [fst snd] in Hw.
  rewrite Hw. eexists. split; [reflexivity|]. exists (send_chunk p s).2.
  rewrite stream_mut_eq, Hs. split; [done|]. unfold send_chunk. cbn [snd].
  rewrite (proj1 (record_send_next _ _ _)). cbn. rewrite Hn. apply wrap_small. unfold U64_MAX in Hr. lia.
Qed.

Lemma relay_all_spec rx n ss w :
  next_is n ss -> 0 <= n -> n + Z.of_nat (length rx) <= U64_MAX ->
  exists ss', relay_all rx ss (mkSend w true) =
      Some (mkSend (w ++ concat (chunk_bytes <$> numbered n rx)) true, ss', true) /\
    next_is (n + Z.of_nat (length rx)) ss'.
Proof.
  revert n ss w. induction rx as [|p rx IH]; intros n ss w Hn H0 Hl.
  - exists ss. cbn. by rewrite app_nil_r, Z.add_0_r.
  - cbn [length] in Hl. destruct (relay_spec p n ss w Hn) as (s1 & Hr & Hn1); [lia|]. cbn [relay_all].
    rewrite Hr. cbn [mbind option_bind].
    destruct (IH (n + 1) s1 (w ++ chunk_bytes (n, p)) Hn1) as (s2 & Hr2 & Hn2); [lia..|].
    exists s2. rewrite Hr2, numbered_cons. cbn [fmap list_fmap concat length]. rewrite <- app_assoc.
    split; [done|]. by replace (n + Z.of_nat (S (length rx))) with (n + 1 + Z.of_nat (length rx)) by lia.
Qed.

(** What is in the channel is never longer than the read it comes from and the
    [~] held back before. *)
Lemma escape_buffer_length buf st out st' :
  escape_buffer buf st = Some (out, st') -> (length out <= length buf + (if escape_pending st then 1 else 0))%nat.
Proof.
  revert st out st'. induction buf as [|b buf IH]; intros st out st' He; cbn in He; [simplify_eq; cbn; lia|].
  destruct (escape_byte b st) as [[o s]|] eqn:Eb; [|done].
  destruct (escape_buffer buf s) as [[o' s']|] eqn:Er; [|done]. simplify_eq. apply IH in Er.
  rewrite length_app. cbn [length].
  enough (length o + (if escape_pending s then 1 else 0) <= 1 + (if escape_pending st then 1 else 0))%nat by lia.
  unfold escape_byte in Eb. destruct (escape_pending st) eqn:Ep.
  - destruct (b =? DOT); [done|]. destruct (b =? ESCAPE_CHAR); simplify_eq; cbn; lia.
  - destruct (_ && _); simplify_eq; cbn; lia.
Qed.

Lemma stdin_reader_sizes m reads room st :
  Forall (fun r => (length r < m)%nat) reads ->
  Forall (fun p => (length p <= m)%nat) (stdin_reader reads room st).1.
Proof.
  intros Hr. revert room st. induction Hr as [|r reads Hr _ IH]; intros room st; [constructor|].
  cbn [stdin_reader]. destruct r as [|b r]; [constructor|].
  destruct (escape_buffer (b :: r) st) as [[out st']|] eqn:Ee; [|constructor].
  apply escape_buffer_length in Ee. destruct out as [|x out]; [apply IH|].
  destruct room as [|room]; [constructor|]. specialize (IH room st').
  destruct (stdin_reader reads room st') as [sent e]. constructor; [|done].
  destruct (escape_pending st); lia.
Qed.

Lemma stdin_reader_count reads room st : (length (stdin_reader reads room st).1 <= room)%nat.
Proof.
  revert room st. induction reads as [|[|b r] reads IH]; intros room st; cbn [stdin_reader fst length]; [lia..|].
  destruct (escape_buffer (b :: r) st) as [[[|x out] st']|]; cbn [fst length]; [apply IH| |lia].
  destruct room as [|room]; cbn [fst length]; [lia|]. specialize (IH room st').
  destruct (stdin_reader reads room st') as [sent e]. cbn [fst length] in *. lia.
Qed.

(** Everything that was written is read back. *)
Lemma read_back n payloads :
  Forall chunk_ok (numbered n payloads) ->
  let bytes := concat (chunk_bytes <$> numbered n payloads) in
  read_pty_stream (S (length bytes)) (mkRecv bytes Finished) = (numbered n payloads, Ok tt).
Proof.
  intros Hok bytes. pose proof (read_pty_stream_prefix _ (length bytes) Finished _ Hok (Nat.lt_succ_diag_r _))
    as [_ Hall _]. fold bytes in Hall. rewrite take_ge in Hall by done. destruct Hall as [H1 H2]; [done|].
  rewrite (surjective_pairing (read_pty_stream _ _)), H1, H2; done.
Qed.

(** The payloads in the channel fit in a chunk. *)
Lemma stdin_payloads_fit reads room st :
  Forall (fun r => (length r <= STDIN_BUF)%nat) reads ->
  Forall (fun p => Z.of_nat (length p) <= MAX_CHUNK) (stdin_reader reads room st).1.
Proof.
  intros Hsz. assert (STDIN_BUF < Z.to_nat MAX_CHUNK)%nat as Hlt by (unfold STDIN_BUF, MAX_CHUNK; lia).
  eapply Forall_impl; [apply (stdin_reader_sizes (Z.to_nat MAX_CHUNK))|intros p Hp; unfold MAX_CHUNK in *; lia].
  eapply Forall_impl; [exact Hsz|]. intros r Hr. cbv beta in *. lia.
Qed.

(** ** Properties *)

(** C38: [etr host cmd < file]: an input of any bytes, in reads of the reader's
    buffer size, in which only a [~] at the start of a line is doubled, passes the
    filter whole, is cut into payloads that are numbered consecutively from the
    stream's next number, and is read back by the server exactly, in order, and once.
    When the input ends a remote command gets one [VEOF] after it and the client's
    half of the stream stays open; without a remote command nothing is added and the
    task returns, which finishes the stream. *)
Theorem piped_input_arrives s reads room n ss w has_remote_command :
  Forall (fun r => r <> []) reads -> (length reads <= room)%nat -> concat reads = protect true s ->
  Forall (fun r => (length r <= STDIN_BUF)%nat) reads ->
  next_is n ss -> 0 <= n -> n + Z.of_nat room < U64_MAX ->
  exists sent ss' bytes,
    stdin_reader reads room initial_escape = (sent, StdinEof) /\ concat sent = s /\
    stdin_task has_remote_command true sent ss (mkSend w true) =
      Some (mkSend (w ++ bytes) true, ss', if has_remote_command then HoldsOpen else InputClosed) /\
    let payloads := sent ++ if has_remote_command then [[VEOF]] else [] in
    read_pty_stream (S (length bytes)) (mkRecv bytes Finished) = (numbered n payloads, Ok tt) /\
    concat (numbered n payloads).*2 = s ++ (if has_remote_command then [VEOF] else []) /\
    next_is (n + Z.of_nat (length payloads)) ss'.
Proof.
  intros Hne Hroom Hc Hsz Hn H0 Hb.
  destruct (stdin_reader_spec reads room initial_escape Hne Hroom) as (sent & Hs & Ho).
  destruct (escape_protect s true) as (est & Hst). change (mkEscape true false) with initial_escape in Hst.
  rewrite Hc, Hst in Hs, Ho. specialize (Ho _ _ eq_refl). exists sent.
  pose proof (stdin_reader_count reads room initial_escape) as Hcnt. rewrite Hs in Hcnt. cbn [fst] in Hcnt.
  assert (Forall (fun p => Z.of_nat (length p) <= MAX_CHUNK) sent) as Hps.
  { pose proof (stdin_payloads_fit reads room initial_escape Hsz) as Hf. by rewrite Hs in Hf. }
  destruct (relay_all_spec sent n ss w Hn) as (s1 & Hr & Hn1); [lia..|].
  destruct has_remote_command.
  - destruct (relay_spec [VEOF] (n + Z.of_nat (length sent)) s1
      (w ++ concat (chunk_bytes <$> numbered n sent)) Hn1) as (s2 & Hr2 & Hn2); [lia|].
    exists s2, (concat (chunk_bytes <$> numbered n (sent ++ [[VEOF]]))). cbv zeta. split_and!; [done..| | | |].
    + unfold stdin_task. rewrite Hr. cbn [mbind option_bind negb]. rewrite Hr2. cbn [mbind option_bind].
      rewrite numbered_app, numbered_cons, fmap_app, concat_app. cbn. by rewrite app_nil_r, !app_assoc.
    + apply read_back, numbered_chunks_ok; [done|rewrite length_app; cbn; lia|]. apply Forall_app. split; [done|].
      by apply Forall_singleton.
    + rewrite numbered_snd, concat_app, Ho. done.
    + rewrite length_app, Nat2Z.inj_add, Z.add_assoc. exact Hn2.
  - exists s1, (concat (chunk_bytes <$> numbered n sent)). cbv zeta. rewrite !app_nil_r. split_and!; [done..| | | |done].
    + unfold stdin_task. rewrite Hr. done.
    + apply read_back, numbered_chunks_ok; [done|lia|done].
    + by rewrite numbered_snd, Ho.
Qed.

Lemma piped_input_arrives_witness :
  exists sent ss' bytes,
    stdin_reader [lit "ls"; [CR]; lit "~~x"] 4 initial_escape = (sent, StdinEof) /\
    concat sent = lit "ls" ++ [CR] ++ lit "~x" /\
    stdin_task true true sent (new_session [] []) (mkSend [2] true) =
      Some (mkSend ([2] ++ bytes) true, ss', HoldsOpen) /\
    read_pty_stream (S (length bytes)) (mkRecv bytes Finished) = (numbered 1 (sent ++ [[VEOF]]), Ok tt).
Proof.
  destruct (piped_input_arrives (lit "ls" ++ [CR] ++ lit "~x") [lit "ls"; [CR]; lit "~~x"] 4 1 (new_session [] [])
    [2] true) as (sent & ss' & bytes & Hs & Hc & Ht & Hr & _).
  - repeat constructor; discriminate.
  - vm_compute. lia.
  - reflexivity.
  - repeat constructor; vm_compute; lia.
  - eexists. split; reflexivity.
  - lia.
  - reflexivity.
  - exists sent, ss', bytes. split_and!; assumption.
Defined.
