(* ===== verification/Console.v ===== *)
(** The Windows console: the modes and the code page that the client changes, and
    those that it puts back ([enable_vt_console], [capture_console_originals],
    [restore_console_state] of [src/bin/etr.rs]).

    The console's input and output have one mode each; [GetConsoleMode] and
    [SetConsoleMode] work on the standard handles only when these are the console.
    Raw mode is the [crossterm] crate's, which works on the console itself. *)
From S2P Require Import Prelude.

Open Scope Z_scope.

(** The flags of the Windows console API. *)
Definition ENABLE_VIRTUAL_TERMINAL_PROCESSING : u32 := 4.
Definition ENABLE_VIRTUAL_TERMINAL_INPUT : u32 := 512.

Definition CP_UTF8 : u32 := 65001.

(** ** State *)

Record Console : Type := mkConsole {
  in_console : bool;      (* the standard input is the console *)
  out_console : bool;
  in_mode : u32;
  out_mode : u32;
  input_cp : u32          (* [GetConsoleCP]; 0 when it fails *)
}.

(** The statics. *)
Record Originals : Type := mkOriginals {
  CONSOLE_CAPTURED : bool;
  ORIG_INPUT_MODE : u32;
  OUTPUT_CAPTURED : bool;
  ORIG_OUTPUT_MODE : u32;
  ORIG_INPUT_CP : u32
}.

Definition no_originals : Originals := mkOriginals false 0 false 0 0.

Record Windows : Type := mkWindows { w_console : Console; w_orig : Originals }.

(** [crossterm]'s raw mode on the mode of the console's input. *)
Class Crossterm : Type := { raw_on : u32 -> u32; raw_off : u32 -> u32 }.

(** ** The calls of the system *)

Definition set_in_mode (m : u32) (c : Console) : Console :=
  mkConsole (in_console c) (out_console c) (if in_console c then m else in_mode c) (out_mode c) (input_cp c).

Definition set_out_mode (m : u32) (c : Console) : Console :=
  mkConsole (in_console c) (out_console c) (in_mode c) (if out_console c then m else out_mode c) (input_cp c).

Definition set_cp (cp : u32) (c : Console) : Console :=
  mkConsole (in_console c) (out_console c) (in_mode c) (out_mode c) cp.

Definition set_raw (f : u32 -> u32) (c : Console) : Console :=
  mkConsole (in_console c) (out_console c) (f (in_mode c)) (out_mode c) (input_cp c).

(** [GetConsoleMode]: [None] when the handle is not a console. *)
Definition get_in_mode (c : Console) : option u32 := if in_console c then Some (in_mode c) else None.
Definition get_out_mode (c : Console) : option u32 := if out_console c then Some (out_mode c) else None.

(** ** The program's operations *)

Definition enable_vt_console (w : Windows) : Windows :=
  let c := w_console w in
  let c := match get_in_mode c with
           | Some mode => set_cp CP_UTF8 (set_in_mode (Z.lor mode ENABLE_VIRTUAL_TERMINAL_INPUT) c)
           | None => c
           end in
  let c := match get_out_mode c with
           | Some out_mode => set_out_mode (Z.lor out_mode ENABLE_VIRTUAL_TERMINAL_PROCESSING) c
           | None => c
           end in
  mkWindows c (w_orig w).

Definition capture_console_originals (w : Windows) : Windows :=
  let c := w_console w in
  let o := w_orig w in
  if CONSOLE_CAPTURED o then w
  else match get_in_mode c with
  | None => w
  | Some mode =>
    let cp := if input_cp c =? 0 then ORIG_INPUT_CP o else input_cp c in
    mkWindows c
      match get_out_mode c with
      | Some out_mode => mkOriginals true mode true out_mode cp
      | None => mkOriginals true mode (OUTPUT_CAPTURED o) (ORIG_OUTPUT_MODE o) cp
      end
  end.

Definition restore_console_state (w : Windows) : Windows :=
  let o := w_orig w in
  if negb (CONSOLE_CAPTURED o) then w
  else
    let c := set_in_mode (ORIG_INPUT_MODE o) (w_console w) in
    let c := if ORIG_INPUT_CP o =? 0 then c else set_cp (ORIG_INPUT_CP o) c in
    let c := if OUTPUT_CAPTURED o then set_out_mode (ORIG_OUTPUT_MODE o) c else c in
    mkWindows c o.

Section Raw.
Context {X : Crossterm}.

Definition enable_raw_mode (w : Windows) : Windows := mkWindows (set_raw raw_on (w_console w)) (w_orig w).
Definition disable_raw_mode (w : Windows) : Windows := mkWindows (set_raw raw_off (w_console w)) (w_orig w).

(** ** Lemmas *)

(** The statics hold the modes of the console [c], to which [w] can be restored. *)
Definition captured (c : Console) (w : Windows) : Prop :=
  in_console (w_console w) = in_console c /\ out_console (w_console w) = out_console c /\
  (out_console c = false -> out_mode (w_console w) = out_mode c) /\
  w_orig w = w_orig (capture_console_originals (mkWindows c no_originals)).

(** A console that can be captured completely. *)
Definition capturable (c : Console) : Prop := in_console c = true /\ input_cp c <> 0.

Lemma captured_first c : captured c (capture_console_originals (mkWindows c no_originals)).
Proof. by destruct c as [[] [] im om cp]; split_and!. Qed.

Lemma captured_enter c w : captured c w -> captured c (enable_vt_console (enable_raw_mode w)).
Proof.
  destruct w as [[i o im om cp] og]. intros (H1 & H2 & H3 & H4). cbn in *.
  unfold captured, enable_vt_console, get_in_mode, get_out_mode. cbn.
  destruct i, o; cbn; rewrite <- H2; split_and!; auto; congruence.
Qed.

(** A second capture changes nothing. *)
Lemma capture_once c w : in_console c = true -> captured c w -> capture_console_originals w = w.
Proof.
  intros Hi (_ & _ & _ & H). unfold capture_console_originals at 1. rewrite H.
  unfold capture_console_originals, get_in_mode. cbn. rewrite Hi. by destruct (get_out_mode c).
Qed.

Lemma restored c w : capturable c -> captured c w -> w_console (restore_console_state (disable_raw_mode w)) = c.
Proof.
  intros [Hi Hcp] (H1 & H2 & H3 & H4). unfold restore_console_state. cbn [w_orig disable_raw_mode]. rewrite H4.
  unfold capture_console_originals, get_in_mode, get_out_mode. cbn. rewrite Hi, (proj2 (Z.eqb_neq _ _) Hcp).
  destruct c as [i o im om cp], w as [[i' o' im' om' cp'] og]. cbn in *. subst. destruct o; cbn;
    rewrite (proj2 (Z.eqb_neq _ _) Hcp); cbn; [done|]. by rewrite H3.
Qed.

(** With a redirected input the output keeps the flag that the client has set. *)
Lemma output_mode_left c :
  in_console c = false -> out_console c = true ->
  let w := capture_console_originals (mkWindows c no_originals) in
  out_mode (w_console (restore_console_state (disable_raw_mode (enable_vt_console (enable_raw_mode w))))) =
    Z.lor (out_mode c) ENABLE_VIRTUAL_TERMINAL_PROCESSING.
Proof.
  intros Hi Ho. unfold capture_console_originals, enable_vt_console, restore_console_state, get_in_mode, get_out_mode.
  cbn. rewrite Hi. cbn. rewrite Hi. cbn. rewrite Ho. cbn. by rewrite Ho.
Qed.
End Raw.
