(* ===== verification/ClientLoop.v ===== *)
(** The client's reconnect loop, its exit codes and the terminal it leaves
    behind ([run_connection_loop], [restore_terminal] and the end of
    [run_session], [src/bin/etr.rs]); on Windows with the console of [Console].

    A turn is given by what happens during it: whether [~.] is typed while the
    client waits, how connecting goes, whether raw mode can be entered, which task of
    the session ends first, and what the tasks that print write meanwhile.  Those are
    not waited for: after the select of [run_session] they are aborted, after [~.] they
    go on until the process exits. *)
From S2P Require Import Prelude Text Protocol Stream Session Utf8 Proto Quic Console.

Open Scope Z_scope.
Open Scope list_scope.

(** ** The terminal *)

Definition ESC : u8 := 27.
Definition csi (s : str) : list u8 := [ESC; 91] ++ s.

Definition TERM_RESET_MODES : list u8 :=
  csi (lit "?1000l") ++ csi (lit "?1002l") ++ csi (lit "?1003l") ++ csi (lit "?1006l") ++
  csi (lit "?1015l") ++ csi (lit "?2004l") ++ csi (lit "?1l") ++ [ESC; 62] ++ csi (lit "?7h") ++ csi (lit "?25h") ++ csi (lit "0m").

Definition TERM_RESET_SCREEN : list u8 := csi (lit "?1049l") ++ csi (lit "r").

(** What is written to standard output. *)
Inductive out_piece : Type :=
| Relayed (data : list u8)     (* by the task that prints *)
| ScreenReset
| ModesReset.

Definition piece_bytes (p : out_piece) : list u8 :=
  match p with Relayed data => data | ScreenReset => TERM_RESET_SCREEN | ModesReset => TERM_RESET_MODES end.

Record Terminal : Type := mkTerminal {
  raw_ever_enabled : bool;   (* [RAW_EVER_ENABLED] *)
  in_raw_mode : bool;        (* [IN_RAW_MODE], and the console itself *)
  in_raw : bool;             (* the variable of the loop *)
  emitted : list out_piece;  (* standard output, in order *)
  windows : option Windows   (* the console, on Windows *)
}.

(** The beginning of [run_connection_loop]. *)
Definition new_terminal (c : option Console) : Terminal :=
  mkTerminal false false false [] ((fun c => capture_console_originals (mkWindows c no_originals)) <$> c).

Section Terminal.
Context {X : Crossterm}.

(** [between]: what a task that prints writes between the two resets. *)
Definition restore_terminal (reset_screen : bool) (between : list u8) (t : Terminal) : Terminal :=
  if negb (raw_ever_enabled t) then t
  else {| raw_ever_enabled := true; in_raw_mode := false; in_raw := in_raw t;
          emitted := emitted t ++ (if reset_screen then [ScreenReset; Relayed between] else []) ++ [ModesReset];
          windows := (fun w => restore_console_state (disable_raw_mode w)) <$> windows t |}.

(** The successful branch of [enable_raw_mode]. *)
Definition enter_raw (t : Terminal) : Terminal :=
  {| raw_ever_enabled := true; in_raw_mode := true; in_raw := true; emitted := emitted t;
     windows := (fun w => enable_vt_console (enable_raw_mode w)) <$> windows t |}.

(** Output of the session, of this turn's or, late, of an earlier one's. *)
Definition relay_output (data : list u8) (t : Terminal) : Terminal :=
  {| raw_ever_enabled := raw_ever_enabled t; in_raw_mode := in_raw_mode t; in_raw := in_raw t;
     emitted := emitted t ++ [Relayed data]; windows := windows t |}.
End Terminal.

(** ** The end of a session *)

(** How a task ended: [None] is a panic. *)
Definition join_task {A} (r : option (result A ErrorKind)) : result A ErrorKind :=
  default (Err OtherKind) r.

(** The first task to end, with its result. *)
Inductive session_task : Type :=
| CtrlReaderTask (r : option (result unit ErrorKind))
| StdinTask
| PtyRecvTask (r : option (result unit ErrorKind))
| CtrlSendTask (r : option (result unit ErrorKind))
| SigwinchTask
| StdoutTask.

(** The [select!]; the arm of the stdin task is disabled for a remote command. *)
Definition session_select (has_remote_command : bool) (t : session_task)
    : option (result unit ErrorKind) :=
  match t with
  | CtrlReaderTask r => Some (join_task r)
  | StdinTask => if negb has_remote_command then Some (Ok tt) else None
  | PtyRecvTask r => Some (join_task r)
  | CtrlSendTask _ => Some (Ok tt)
  | SigwinchTask => Some (Ok tt)
  | StdoutTask => Some (Ok tt)
  end.

(** The select of the tasks in the order in which they end. *)
Fixpoint session_result (has_remote_command : bool) (ts : list session_task)
    : option (result unit ErrorKind) :=
  match ts with
  | [] => None
  | t :: ts =>
    match session_select has_remote_command t with
    | Some r => Some r
    | None => session_result has_remote_command ts
    end
  end.

(** The control reader, for at most [n] messages, and the session it trims. *)
Fixpoint client_ctrl_reader {C : EnvelopeCodec} (n : nat) (r : RecvStream) (s : SessionState)
    : option (result unit ErrorKind) * SessionState :=
  match n with
  | O => (None, s)
  | S n =>
    match read_msg r with
    | Ok (Some env, r) =>
      match payload env with
      | Some (PDisconnect _) => (Some (Err ConnectionAborted), s)
      | Some (PHeartbeat hb) => client_ctrl_reader n r (apply_server_acks (hb_last_received_seq hb) s)
      | _ => client_ctrl_reader n r s
      end
    | Ok (None, _) => (Some (Ok tt), s)
    | Err e => (Some (Err e), s)
    end
  end.

(** ** The loop *)

Inductive quic_connect : Type :=
| Connected | HandshakeFailed | ConnectTimedOut | EscapedWhileConnecting.

(** [None]: the session lasts until [~.]. *)
Record ClientTurn : Type := mkClientTurn {
  t_escape_in_delay : bool;   (* [~.] in the two seconds before reconnecting *)
  t_connect_ok : bool;        (* [endpoint.connect] *)
  t_quic : quic_connect;
  t_raw_ok : bool;            (* [enable_raw_mode] *)
  t_session : option (result unit ErrorKind);
  t_output : list u8;         (* printed until the turn is decided *)
  t_between : list u8;        (* printed between the two resets *)
  t_late : list u8            (* printed after that, by the tasks that still run *)
}.

(** How the process ends: [Returned] is [return Ok(())], after which [main]
    returns as well. *)
Inductive client_exit : Type := Returned | Exit (code : Z) | NoTerminal.

Definition exit_code (e : client_exit) : Z :=
  match e with Returned => 0 | Exit c => c | NoTerminal => 1 end.

Section Loop.
Context {X : Crossterm} (has_remote_command : bool).

(** The match on the session's result; [b] is the turn's [t_between]. *)
Definition after_session (r : result unit ErrorKind) (b : list u8) (t : Terminal) : option client_exit * Terminal :=
  match r with
  | Ok _ => (Some (Exit 0), restore_terminal false b t)
  | Err e =>
    if bool_decide (e = ConnectionAborted) then (Some (Exit 0), restore_terminal false b t)
    else if has_remote_command then (Some (Exit 1), restore_terminal true b t)
    else (None, t)
  end.

(** [return Ok(())] after [~.] outside a session. *)
Definition escaped (b : list u8) (t : Terminal) : option client_exit * Terminal :=
  (Some Returned, if in_raw t then restore_terminal true b t else t).

(** A failure before the session. *)
Definition not_connected (t : Terminal) : option client_exit * Terminal :=
  (if has_remote_command then Some (Exit 1) else None, t).

Definition run_in_session (c : ClientTurn) (t : Terminal) : option client_exit * Terminal :=
  match t_session c with
  | None => (Some (Exit 0), restore_terminal true (t_between c) t)
  | Some r => after_session r (t_between c) t
  end.

(** How a turn goes. *)
Definition turn_end (first : bool) (c : ClientTurn) (t : Terminal) : option client_exit * Terminal :=
  if negb first && t_escape_in_delay c then escaped (t_between c) t
  else if negb (t_connect_ok c) then not_connected t
  else match t_quic c with
  | HandshakeFailed | ConnectTimedOut => not_connected t
  | EscapedWhileConnecting => escaped (t_between c) t
  | Connected =>
    if t_raw_ok c then run_in_session c (enter_raw t)
    else if has_remote_command then run_in_session c t
    else (Some NoTerminal, t)
  end.

Definition client_turn (first : bool) (c : ClientTurn) (t : Terminal) : option client_exit * Terminal :=
  let '(e, t) := turn_end first c (relay_output (t_output c) t) in (e, relay_output (t_late c) t).

Fixpoint client_loop (first : bool) (cs : list ClientTurn) (t : Terminal)
    : option client_exit * Terminal :=
  match cs with
  | [] => (None, t)
  | c :: cs =>
    match client_turn first c t with
    | (Some e, t) => (Some e, t)
    | (None, t) => client_loop false cs t
    end
  end.
End Loop.

(** ** Lemmas *)

Section Clean.
Context {X : Crossterm} (c0 : option Console).

(** The console has been left as it was found. *)
Definition console_left (w : option Windows) : Prop :=
  match c0, w with
  | Some c, Some w => capturable c -> w_console w = c
  | None, None => True
  | _, _ => False
  end.

Definition is_relayed (p : out_piece) : Prop := match p with Relayed _ => True | _ => False end.

(** Between turns: raw mode has been entered exactly when the flags say so, no
    reset has been written, and the console can be restored. *)
Definition between (t : Terminal) : Prop :=
  raw_ever_enabled t = in_raw t /\ in_raw_mode t = in_raw t /\ Forall is_relayed (emitted t) /\
  match c0, windows t with
  | Some c, Some w => captured c w /\ (in_raw t = false -> w_console w = c)
  | None, None => True
  | _, _ => False
  end.

(** At the end: the console is cooked again, and if raw mode was ever entered the mode
    resets have been written once, after everything but [late] and, if the screen was
    reset before, [mid]; otherwise nothing but output has been written. *)
Definition left_clean (mid late : list u8) (t : Terminal) : Prop :=
  in_raw_mode t = false /\
  (if raw_ever_enabled t
   then exists out screen, Forall is_relayed out /\
     emitted t = out ++ (if screen : bool then [ScreenReset; Relayed mid] else []) ++ [ModesReset; Relayed late]
   else Forall is_relayed (emitted t)) /\
  console_left (windows t).

(** The same before the late output. *)
Definition reset_clean (mid : list u8) (t : Terminal) : Prop :=
  in_raw_mode t = false /\
  (if raw_ever_enabled t
   then exists out screen, Forall is_relayed out /\
     emitted t = out ++ (if screen : bool then [ScreenReset; Relayed mid] else []) ++ [ModesReset]
   else Forall is_relayed (emitted t)) /\
  console_left (windows t).

Lemma relayed_snoc l data : Forall is_relayed l -> Forall is_relayed (l ++ [Relayed data]).
Proof. intros H. apply Forall_app. by repeat constructor. Qed.

Lemma new_between : between (new_terminal c0).
Proof.
  unfold between, new_terminal. cbn. destruct c0 as [c|]; [|done]. split; [done|]. split; [done|]. split; [done|].
  split; [apply captured_first|]. intros _. unfold capture_console_originals. cbn. by destruct (get_in_mode c).
Qed.

Lemma relay_between data t : between t -> between (relay_output data t).
Proof. intros (H1 & H2 & H3 & H4). split_and!; try done. by apply relayed_snoc. Qed.

Lemma relay_clean mid data t : reset_clean mid t -> left_clean mid data (relay_output data t).
Proof.
  intros (H1 & H2 & H3). split; [done|]. split; [|done]. cbn. destruct (raw_ever_enabled t).
  - destruct H2 as (out & screen & Ho & ->). exists out, screen. split; [done|]. by rewrite <- !app_assoc.
  - by apply relayed_snoc.
Qed.

Lemma clean_cooked mid t : between t -> in_raw t = false -> reset_clean mid t.
Proof.
  intros (H1 & H2 & H3 & H4) E. unfold reset_clean, console_left. rewrite H1, H2, E. split_and!; [done..|].
  destruct c0, (windows t); try done. by intros _; apply H4.
Qed.

Lemma restore_clean b mid t : between t -> reset_clean mid (restore_terminal b mid t).
Proof.
  intros Hb. destruct (raw_ever_enabled t) eqn:E.
  - destruct Hb as (_ & _ & H3 & H4). unfold restore_terminal. rewrite E. cbn [negb].
    unfold reset_clean, console_left. cbn. split_and!; [done|by exists (emitted t), b|].
    destruct c0, (windows t); try done. cbn. intros Hc. by apply restored; [|apply H4].
  - unfold restore_terminal. rewrite E. cbn [negb]. apply clean_cooked; [done|]. destruct Hb. congruence.
Qed.

Lemma enter_between t : between t -> between (enter_raw t).
Proof.
  intros (_ & _ & H3 & H4). unfold between. cbn. split_and!; [done..|].
  destruct c0, (windows t); try done. cbn. split; [by apply captured_enter, H4|done].
Qed.

Lemma escaped_clean mid t : between t -> reset_clean mid (escaped mid t).2.
Proof.
  intros Hb. unfold escaped. cbn. destruct (in_raw t) eqn:E; [by apply restore_clean|].
  by apply clean_cooked.
Qed.

(** What a turn may do to the terminal before the late output. *)
Definition turn_clean (cmd : bool) (mid : list u8) (r : option client_exit * Terminal) : Prop :=
  match r.1 with
  | None => cmd = false /\ between r.2
  | Some NoTerminal => cmd = false
  | Some _ => reset_clean mid r.2
  end.

Lemma session_clean cmd c t : between t -> turn_clean cmd (t_between c) (run_in_session cmd c t).
Proof.
  intros Hb. unfold run_in_session, after_session, turn_clean.
  destruct (t_session c) as [[[]|e]|]; try by apply restore_clean.
  case_bool_decide; [by apply restore_clean|]. destruct cmd; [by apply restore_clean|done].
Qed.

Lemma turn_terminal cmd first c t :
  between t -> (cmd = true -> in_raw t = false) -> turn_clean cmd (t_between c) (turn_end cmd first c t).
Proof.
  intros Hb Hcmd.
  assert (turn_clean cmd (t_between c) (not_connected cmd t)) as Hn.
  { unfold not_connected, turn_clean. destruct cmd; [by apply clean_cooked; auto|done]. }
  assert (turn_clean cmd (t_between c) (escaped (t_between c) t)) as He by (by apply escaped_clean).
  unfold turn_end. destruct (negb first && t_escape_in_delay c); [done|].
  destruct (t_connect_ok c); [|done]. cbn [negb]. destruct (t_quic c); try done.
  destruct (t_raw_ok c); [by apply session_clean, enter_between|].
  destruct cmd; [by apply session_clean|done].
Qed.

Lemma loop_terminal cmd first cs t :
  between t -> (cmd = true -> in_raw t = false) ->
  match client_loop cmd first cs t with
  | (None, t') => between t'
  | (Some NoTerminal, _) => cmd = false
  | (Some _, t') => exists before c after, cs = before ++ c :: after /\
      (client_loop cmd first before t).1 = None /\ left_clean (t_between c) (t_late c) t'
  end.
Proof.
  revert first t. induction cs as [|c cs IH]; intros first t Hb Hcmd; [done|].
  cbn [client_loop]. unfold client_turn.
  pose proof (turn_terminal cmd first c _ (relay_between (t_output c) t Hb) Hcmd) as Ht.
  destruct (turn_end cmd first c _) as [[e|] t'] eqn:Ee; unfold turn_clean in Ht; cbn in Ht.
  - destruct e; try done; exists [], c, cs; (split; [done|]; split; [done|]); by apply relay_clean.
  - destruct Ht as [-> Hb']. specialize (IH false _ (relay_between (t_late c) _ Hb') ltac:(done)).
    destruct (client_loop false false cs _) as [[[]|] t'']; try done;
      destruct IH as (bf & c' & af & -> & Hl & Hc); exists (c :: bf), c', af;
      (split; [done|]); (split; [|done]); cbn [client_loop]; unfold client_turn; by rewrite Ee.
Qed.
End Clean.

(** ** Properties *)

(** C36: Whenever the client's loop ends the process, after any number of
    reconnections, raw mode has been left if it was ever entered, and then the reset of
    the emulator modes has been written to standard output once, after all the output of
    the session: only what the task that prints still writes while the process exits,
    which the client cancels (after [~.] not even that) without waiting for it, can
    come later, or between the reset of the screen and that of the modes. If raw mode
    never was entered, standard output, which may be redirected, has the relayed output
    and not a byte else. On Windows the modes and the code page of the console are those
    that the client found, whatever the console library does to them, if its input is
    the console. The one exception is an interactive session that finds no terminal. *)
Theorem terminal_left_clean {X : Crossterm} c0 cmd cs e t' :
  client_loop cmd true cs (new_terminal c0) = (Some e, t') -> e <> NoTerminal ->
  exists before c after, cs = before ++ c :: after /\
    (client_loop cmd true before (new_terminal c0)).1 = None /\
    left_clean c0 (t_between c) (t_late c) t'.
Proof.
  intros Hl He. pose proof (loop_terminal c0 cmd true cs _ (new_between c0)) as Ht. rewrite Hl in Ht.
  destruct e; try done; apply Ht; done.
Qed.

Definition quiet_turn (q : quic_connect) (r : option (result unit ErrorKind)) : ClientTurn :=
  mkClientTurn false true q true r [] [] [].

Definition sample_turns : list ClientTurn :=
  [quiet_turn HandshakeFailed None;
   mkClientTurn false true Connected true (Some (Err BrokenPipe)) [104; 105] [] [];
   quiet_turn ConnectTimedOut None;
   mkClientTurn false true Connected true (Some (Err ConnectionAborted)) [33] [] [63]].

Definition sample_crossterm : Crossterm := {| raw_on m := Z.land m (Z.lnot 7); raw_off m := Z.lor m 7 |}.

Definition sample_console : Console := mkConsole true true 503 3 850.

(** Of the last session a byte is printed late. *)
Lemma terminal_left_clean_witness :
  exists t' out, client_loop (X := sample_crossterm) false true sample_turns (new_terminal (Some sample_console)) =
      (Some (Exit 0), t') /\
    emitted t' = out ++ [ModesReset; Relayed [63]] /\ (out ≫= piece_bytes) = [104; 105; 33] /\
    exists before c after, sample_turns = before ++ c :: after /\
      left_clean (Some sample_console) (t_between c) (t_late c) t'.
Proof.
  destruct (client_loop (X := sample_crossterm) false true sample_turns (new_terminal (Some sample_console)))
    as [e t'] eqn:E.
  assert (e = Some (Exit 0)) as -> by (vm_compute in E; injection E as <- _; reflexivity).
  pose proof E as E'. vm_compute in E'. injection E' as E'.
  exists t', [Relayed []; Relayed []; Relayed [104; 105]; Relayed []; Relayed []; Relayed []; Relayed [33]].
  split; [reflexivity|]. split; [rewrite <- E'; reflexivity|]. split; [reflexivity|].
  destruct (terminal_left_clean (X := sample_crossterm) (Some sample_console) false sample_turns (Exit 0) t' E)
    as (before & c & after & Hs & _ & Hc); [discriminate|].
  exists before, c, after. split; [exact Hs|exact Hc].
Defined.

(** After [~.] in a session the task that prints goes on: a program that redraws its
    screen at that moment ([ESC [?1049h], say) leaves it to the user after the resets. *)
Example output_after_the_reset {X : Crossterm} :
  let t := (client_turn false true (mkClientTurn false true Connected true None [] [] (csi (lit "?1049h")))
              (new_terminal None)).2 in
  emitted t = [Relayed []; ScreenReset; Relayed []; ModesReset; Relayed (csi (lit "?1049h"))].
Proof. reflexivity. Qed.

(** A remote command runs at most once: the first turn always ends the
    process, with code 0 exactly when the session ended by itself or by the
    server's [Disconnect], or the user typed [~.]. *)
Theorem remote_command_runs_once {X : Crossterm} c cs t :
  exists e t', client_loop true true (c :: cs) t = (Some e, t') /\
    (exit_code e = 0 <->
     t_connect_ok c = true /\
     (t_quic c = EscapedWhileConnecting \/
      (t_quic c = Connected /\
       (t_session c = None \/ t_session c = Some (Ok tt) \/ t_session c = Some (Err ConnectionAborted))))).
Proof.
  assert (forall t, exists e t', run_in_session true c t = (Some e, t') /\
    (exit_code e = 0 <-> t_session c = None \/ t_session c = Some (Ok tt) \/
       t_session c = Some (Err ConnectionAborted))) as Hs.
  { clear. intros t. unfold run_in_session, after_session.
    destruct (t_session c) as [[[]|e]|]; [| |do 2 eexists; split; [done|]; naive_solver].
    { do 2 eexists; split; [done|]; naive_solver. }
    case_bool_decide as He; do 2 eexists; (split; [done|]); cbn; [subst; naive_solver|].
    split; [done|]. naive_solver. }
  cbn [client_loop]. unfold client_turn, turn_end. cbn [negb andb]. set (t0 := relay_output (t_output c) t).
  destruct (t_connect_ok c); cbn [negb]; [|do 2 eexists; split; [done|]; cbn; naive_solver].
  destruct (t_quic c); try (do 2 eexists; split; [done|]; cbn; naive_solver).
  destruct (t_raw_ok c); [destruct (Hs (enter_raw t0)) as (e & t' & -> & He)
                         |destruct (Hs t0) as (e & t' & -> & He)];
    exists e, (relay_output (t_late c) t'); (split; [done|]); rewrite He; naive_solver.
Qed.

(** An interactive session is given up only for a reason: the loop goes on
    to another attempt exactly when the user did not type [~.] and connecting
    failed, or the session ended with an error other than the server's
    [Disconnect]. *)
Theorem interactive_reconnects {X : Crossterm} first c t :
  (client_turn false first c t).1 = None <->
  (first = false -> t_escape_in_delay c = false) /\
  (t_connect_ok c = false \/ t_quic c = HandshakeFailed \/ t_quic c = ConnectTimedOut \/
   (t_quic c = Connected /\ t_raw_ok c = true /\
    exists e, t_session c = Some (Err e) /\ e <> ConnectionAborted)).
Proof.
  unfold client_turn, turn_end, escaped, not_connected.
  destruct first, (t_escape_in_delay c), (t_connect_ok c), (t_quic c), (t_raw_ok c); cbn;
    unfold run_in_session, after_session;
    destruct (t_session c) as [[[]|e]|]; try (case_bool_decide); cbn; naive_solver.
Qed.

(** What [client_loop] does with a session whose first ended task is the
    control sender: a lost connection that it notices first passes for a clean
    end, although the control reader's error would lead to a reconnection. *)
Lemma control_sender_race {X : Crossterm} r rs first t :
  let c := quiet_turn Connected (session_result false (CtrlSendTask r :: rs)) in
  let c' := quiet_turn Connected (session_result false (CtrlReaderTask (Some (Err BrokenPipe)) :: rs)) in
  (client_turn false first c t).1 = Some (Exit 0) /\ (client_turn false first c' t).1 = None.
Proof. by destruct first. Qed.

(** The end of standard input does not end a remote command. *)
Lemma stdin_eof_ignored ts : session_result true (StdinTask :: ts) = session_result true ts.
Proof. done. Qed.
