(* ===== verification/Config.v ===== *)
(** The configuration file: its default text, the options it may hold, and the
    merge that adds missing options to an existing file ([src/config.rs]).

    Parsing the file is the [toml] crate's; a file is its text here. *)
From S2P Require Import Prelude Text.

Open Scope Z_scope.
Open Scope list_scope.

(** ** Texts *)

Definition DEFAULT_CONFIG : str := qlit "# etr configuration file
# All fields are optional. Uncomment and edit as needed.
# CLI flags take precedence over config file values.
# Config location: $XDG_CONFIG_HOME/etr/config.toml (~/.config/etr/config.toml)

[client]

# SSH port used for the bootstrap connection (default: 22).
# ssh_port = 22

# Path to the etrs binary on the remote host (default: `etrs`, relies on PATH).
# server_path = `etrs`

# Which IP version to try first when a host resolves to both: `ipv4`, `ipv6`,
# or `auto` (default). A preference, not a restriction — the other family is
# still used when the preferred one is absent or unroutable.
# Equivalent to -4 / --prefer-ipv4 and -6 / --prefer-ipv6.
# address_family = `auto`

# Path to the client-side log file (default: $XDG_STATE_HOME/etr/etr.log).
# Logs are only written when -v or higher is passed.
# log_path = `~/.local/state/etr/etr.log`

# Path to the server log file on the remote host (default: $XDG_STATE_HOME/etr/etrs.log).
# server_log_path = `~/.local/state/etr/etrs.log`

# When true, local forwarded ports are bound to all interfaces (0.0.0.0 and ::)
# instead of loopback only, allowing other hosts to connect (default: false).
# Equivalent to -g / --gateway-ports.
# gateway_ports = false

# Default local port forwards applied to every connection (same syntax as -L).
# forward = [`8080:localhost:80`, `5353:8.8.8.8:53/udp`]

# Default remote port forwards applied to every connection (same syntax as -R).
# reverse_forward = [`9090:localhost:9090`]

# Environment variables to set or forward in the remote shell.
# `KEY=VALUE` sets the variable; `KEY` alone forwards it from the local environment.
# env = [`EDITOR`, `TERM=xterm-256color`]

# Enable X11 forwarding (default: false).
# x11 = false

# Enable trusted X11 forwarding (default: false).
# x11_trusted = false

[server]

# How long (seconds) the server keeps a session alive while the client is
# disconnected (default: 1800, i.e. 30 minutes).
# Overridden by --reconnect-timeout or the ETR_SERVER_NETWORK_TMOUT env var.
# reconnect_timeout = 1800

# Which IP version etrs tries first when it resolves the targets of -L
# forwards, and which wildcard address it binds by default (`ipv4` binds
# 0.0.0.0; `ipv6`/`auto` bind the dual-stack [::]). Equivalent to etrs -4/-6.
# A connecting client's own -4/-6 overrides this for forward targets.
# address_family = `auto`
".

Definition CLIENT_KEY_BLOCKS : list (str * str) :=
  [(lit "ssh_port",
    qlit "# SSH port used for the bootstrap connection (default: 22).
# ssh_port = 22");
   (lit "server_path",
    qlit "# Path to the etrs binary on the remote host (default: `etrs`, relies on PATH).
# server_path = `etrs`");
   (lit "address_family",
    qlit "# Which IP version to try first when a host resolves to both: `ipv4`, `ipv6`,
# or `auto` (default). A preference, not a restriction — the other family is
# still used when the preferred one is absent or unroutable.
# Equivalent to -4 / --prefer-ipv4 and -6 / --prefer-ipv6.
# address_family = `auto`");
   (lit "log_path",
    qlit "# Path to the client-side log file (default: $XDG_STATE_HOME/etr/etr.log).
# Logs are only written when -v or higher is passed.
# log_path = `~/.local/state/etr/etr.log`");
   (lit "server_log_path",
    qlit "# Path to the server log file on the remote host (default: $XDG_STATE_HOME/etr/etrs.log).
# server_log_path = `~/.local/state/etr/etrs.log`");
   (lit "gateway_ports",
    qlit "# When true, local forwarded ports are bound to all interfaces (0.0.0.0 and ::)
# instead of loopback only, allowing other hosts to connect (default: false).
# gateway_ports = false");
   (lit "forward",
    qlit "# Default local port forwards applied to every connection (same syntax as -L).
# forward = [`8080:localhost:80`, `5353:8.8.8.8:53/udp`]");
   (lit "reverse_forward",
    qlit "# Default remote port forwards applied to every connection (same syntax as -R).
# reverse_forward = [`9090:localhost:9090`]");
   (lit "env",
    qlit "# Environment variables to set or forward in the remote shell.
# `KEY=VALUE` sets the variable; `KEY` alone forwards it from the local environment.
# env = [`EDITOR`, `TERM=xterm-256color`]");
   (lit "x11",
    qlit "# Enable X11 forwarding (default: false).
# x11 = false");
   (lit "x11_trusted",
    qlit "# Enable trusted X11 forwarding (default: false).
# x11_trusted = false")].

Definition SERVER_KEY_BLOCKS : list (str * str) :=
  [(lit "reconnect_timeout",
    qlit "# How long (seconds) the server keeps a session alive while the client is
# disconnected (default: 1800, i.e. 30 minutes).
# reconnect_timeout = 1800");
   (lit "address_family",
    qlit "# Which IP version etrs tries first when it resolves the targets of -L
# forwards, and which wildcard address it binds by default (`ipv4` binds
# 0.0.0.0; `ipv6`/`auto` bind the dual-stack [::]). Equivalent to etrs -4/-6.
# A connecting client's own -4/-6 overrides this for forward targets.
# address_family = `auto`")].

(** ** Merging *)

(** Whether a line is, active or commented, a setting of [key]. *)
Definition key_line (key line : str) : bool :=
  let trimmed := trim line in
  let without_comment :=
    match strip_prefix (lit "#") trimmed with Some t => trim t | None => trimmed end in
  match strip_prefix key without_comment with
  | Some rest => starts_with (lit "=") (trim rest)
  | None => false
  end.

Definition contains_key_line (content key : str) : bool :=
  existsb (key_line key) (lines content).

Definition missing (blocks : list (str * str)) (existing : str) : list (str * str) :=
  List.filter (fun kb => negb (contains_key_line existing kb.1)) blocks.

(** [for (_, block) in blocks { push_str(block); push('\n') }]. *)
Definition push_blocks (blocks : list (str * str)) (result : str) : str :=
  fold_left (fun result kb => result ++ kb.2 ++ [LF]) blocks result.

Definition push_line (line result : str) : str := result ++ line ++ [LF].

(** A section that the file does not have yet. *)
Definition push_section (header : str) (blocks : list (str * str)) (result : str) : str :=
  let result := if bool_decide (result = []) then result else result ++ [LF] in
  push_blocks blocks (push_line header result).

Definition CLIENT_HEADER : str := lit "[client]".
Definition SERVER_HEADER : str := lit "[server]".

Record Merge : Type := mkMerge { m_result : str; client_inserted : bool; server_inserted : bool }.

Definition none_missing (blocks : list (str * str)) : bool := bool_decide (blocks = []).

(** One iteration of the loop over the lines. *)
Definition merge_line (mc ms : list (str * str)) (m : Merge) (line : str) : Merge :=
  let '(mkMerge result client server) := m in
  let trimmed := trim line in
  if str_eqb trimmed CLIENT_HEADER then
    let result := push_line line result in
    if none_missing mc then mkMerge result client server
    else mkMerge (push_blocks mc result) true server
  else if str_eqb trimmed SERVER_HEADER then
    let '(result, client) :=
      if negb (none_missing mc) && negb client then (push_section CLIENT_HEADER mc result, true)
      else (result, client) in
    let result := push_line line result in
    if none_missing ms then mkMerge result client server
    else mkMerge (push_blocks ms result) client true
  else mkMerge (push_line line result) client server.

Definition merge_end (mc ms : list (str * str)) (m : Merge) : str :=
  let '(mkMerge result client server) := m in
  let result :=
    if negb (none_missing mc) && negb client then push_section CLIENT_HEADER mc result else result in
  if negb (none_missing ms) && negb server then push_section SERVER_HEADER ms result else result.

Definition merge_defaults (existing : str) : str * list str :=
  let missing_client := missing CLIENT_KEY_BLOCKS existing in
  let missing_server := missing SERVER_KEY_BLOCKS existing in
  let additions := map fst (missing_client ++ missing_server) in
  if bool_decide (additions = []) then
    let s := trim_end existing in
    (if bool_decide (s = []) then s else s ++ [LF], additions)
  else
    (merge_end missing_client missing_server
       (fold_left (merge_line missing_client missing_server) (lines existing) (mkMerge [] false false)),
     additions).

(** [--merge-config] of [main]: the file's new content, if it is written. *)
Definition merge_config (file : option str) : option str :=
  match file with
  | None => Some DEFAULT_CONFIG
  | Some existing =>
    let '(new_content, additions) := merge_defaults existing in
    if bool_decide (additions = []) then None else Some new_content
  end.

Example default_complete : (merge_defaults DEFAULT_CONFIG).2 = [].
Proof. vm_compute. reflexivity. Qed.

(** A [server] section before the [client] section. *)
Example merge_duplicate_header :
  let result := (merge_defaults (unlines [SERVER_HEADER; CLIENT_HEADER])).1 in
  length (List.filter (str_eqb CLIENT_HEADER) (lines result)) = 2%nat.
Proof. vm_compute. reflexivity. Qed.

(** ** The lines of a merged file *)

(** A line that a merge may add. *)
Definition addable (l : str) : Prop :=
  l = [] \/ starts_with (lit "#") l = true \/ l = CLIENT_HEADER \/ l = SERVER_HEADER.

(** [new] is [old] with added lines. *)
Inductive merged : list str -> list str -> Prop :=
| merged_nil : merged [] []
| merged_keep l old new : merged old new -> merged (l :: old) (l :: new)
| merged_add l old new : addable l -> merged old new -> merged old (l :: new).

Lemma merged_app a b a' b' : merged a b -> merged a' b' -> merged (a ++ a') (b ++ b').
Proof. induction 1; intros; cbn [app]; [done|constructor; auto|apply merged_add; auto]. Qed.

Lemma merged_added ls : Forall addable ls -> merged [] ls.
Proof. induction 1; by constructor. Qed.

Lemma merged_snoc old new l : merged old new -> merged (old ++ [l]) (new ++ [l]).
Proof. intros. apply merged_app; [done|repeat constructor]. Qed.

Lemma merged_extend old new ls : merged old new -> Forall addable ls -> merged old (new ++ ls).
Proof. intros H1 H2. rewrite <- (app_nil_r old). apply merged_app; [done|by apply merged_added]. Qed.

Lemma merged_elem old new l : merged old new -> l ∈ old -> l ∈ new.
Proof. induction 1; rewrite ?elem_of_cons; naive_solver. Qed.

Lemma unlines_app a b : unlines (a ++ b) = unlines a ++ unlines b.
Proof. apply bind_app. Qed.

Lemma unlines_snoc a l : unlines (a ++ [l]) = unlines a ++ l ++ [LF].
Proof. rewrite unlines_app. unfold unlines at 2. cbn. by rewrite app_nil_r. Qed.

(** The lines of the blocks. *)
Definition block_lines (blocks : list (str * str)) : list str := blocks ≫= (fun kb => lines kb.2).

Definition is_header (h l : str) : bool := str_eqb (trim l) h.

(** What the proofs use of a block: it is made of comments, one of which is a
    setting of its key. *)
Definition block_ok (kb : str * str) : bool :=
  str_eqb (kb.2 ++ [LF]) (unlines (lines kb.2)) &&
  forallb (fun l => starts_with (lit "#") l && negb (contains_any [LF; CR] l) &&
                    negb (is_header CLIENT_HEADER l) && negb (is_header SERVER_HEADER l)) (lines kb.2) &&
  existsb (key_line kb.1) (lines kb.2).

Definition blocks_ok (blocks : list (str * str)) : Prop := Forall (fun kb => block_ok kb = true) blocks.

Lemma known_blocks_ok : blocks_ok CLIENT_KEY_BLOCKS /\ blocks_ok SERVER_KEY_BLOCKS.
Proof. split; repeat constructor. Qed.

Lemma missing_ok blocks existing : blocks_ok blocks -> blocks_ok (missing blocks existing).
Proof.
  unfold blocks_ok, missing. induction 1; cbn; [constructor|]. case_match; [by constructor|done].
Qed.

Lemma block_lines_spec blocks l :
  blocks_ok blocks -> l ∈ block_lines blocks ->
  starts_with (lit "#") l = true /\ (LF ∉ l) /\ (CR ∉ l) /\
  is_header CLIENT_HEADER l = false /\ is_header SERVER_HEADER l = false.
Proof.
  intros Hb Hl. apply list_elem_of_bind in Hl as (kb & Hl & Hin).
  pose proof (proj1 (Forall_forall _ _) Hb _ Hin) as Hk. unfold block_ok in Hk.
  apply andb_true_iff in Hk as [Hk _]. apply andb_true_iff in Hk as [_ Hk].
  rewrite forallb_forall in Hk. specialize (Hk l (proj1 (list_elem_of_In _ _) Hl)).
  rewrite !andb_true_iff, !negb_true_iff in Hk. destruct Hk as (((H1 & H2) & H3) & H4).
  rewrite contains_any_false in H2. split_and!; try done; intros Hin'; eapply H2; try done; set_solver.
Qed.

Lemma push_blocks_lines blocks result :
  blocks_ok blocks -> push_blocks blocks result = result ++ unlines (block_lines blocks).
Proof.
  intros Hb. unfold push_blocks. revert result. induction Hb as [|kb blocks Hk Hb IH]; intros result.
  { cbn. by rewrite app_nil_r. }
  cbn [fold_left]. rewrite IH. unfold block_ok in Hk. apply andb_true_iff in Hk as [Hk _].
  apply andb_true_iff in Hk as [Hk _]. apply str_eqb_spec in Hk. rewrite Hk.
  change (block_lines (kb :: blocks)) with (lines kb.2 ++ block_lines blocks).
  by rewrite unlines_app, app_assoc.
Qed.

Lemma push_line_lines l new : push_line l (unlines new) = unlines (new ++ [l]).
Proof. by rewrite unlines_snoc. Qed.

(** The lines that [push_section] adds. *)
Definition section_lines (header : str) (blocks : list (str * str)) (new : list str) : list str :=
  (match new with [] => [] | _ => [[]] end) ++ [header] ++ block_lines blocks.

Lemma push_section_lines header blocks new :
  blocks_ok blocks ->
  push_section header blocks (unlines new) = unlines (new ++ section_lines header blocks new).
Proof.
  intros Hb. unfold push_section. rewrite push_blocks_lines by done.
  assert ((if bool_decide (unlines new = []) then unlines new else unlines new ++ [LF]) =
          unlines (new ++ match new with [] => [] | _ => [[]] end)) as ->.
  { destruct new as [|l new]; [done|]. rewrite bool_decide_eq_false_2; [by rewrite unlines_snoc|].
    intros Hn. unfold unlines in Hn. cbn in Hn. by destruct l. }
  rewrite push_line_lines. unfold section_lines. by rewrite !unlines_app, !app_assoc.
Qed.

(** ** The merge on lists of lines *)

(** The loop with the text replaced by its lines. *)
Definition merge_line_l (mc ms : list (str * str)) (m : list str * bool * bool) (line : str)
    : list str * bool * bool :=
  let '(new, client, server) := m in
  if is_header CLIENT_HEADER line then
    if none_missing mc then (new ++ [line], client, server)
    else (new ++ [line] ++ block_lines mc, true, server)
  else if is_header SERVER_HEADER line then
    let '(new, client) :=
      if negb (none_missing mc) && negb client then (new ++ section_lines CLIENT_HEADER mc new, true)
      else (new, client) in
    if none_missing ms then (new ++ [line], client, server)
    else (new ++ [line] ++ block_lines ms, client, true)
  else (new ++ [line], client, server).

Definition merge_end_l (mc ms : list (str * str)) (m : list str * bool * bool) : list str :=
  let '(new, client, server) := m in
  let new := if negb (none_missing mc) && negb client then new ++ section_lines CLIENT_HEADER mc new else new in
  if negb (none_missing ms) && negb server then new ++ section_lines SERVER_HEADER ms new else new.

Definition merge_lines (mc ms : list (str * str)) (old : list str) : list str :=
  merge_end_l mc ms (fold_left (merge_line_l mc ms) old ([], false, false)).

Section Text.
Context (mc ms : list (str * str)) (Hmc : blocks_ok mc) (Hms : blocks_ok ms).

Lemma merge_line_text new c s line :
  merge_line mc ms (mkMerge (unlines new) c s) line =
  let '(new, c, s) := merge_line_l mc ms (new, c, s) line in mkMerge (unlines new) c s.
Proof.
  unfold merge_line, merge_line_l. fold (is_header CLIENT_HEADER line). fold (is_header SERVER_HEADER line).
  destruct (is_header CLIENT_HEADER line).
  { rewrite push_line_lines. destruct (none_missing mc); [done|].
    by rewrite push_blocks_lines, <- unlines_app, <- app_assoc. }
  destruct (is_header SERVER_HEADER line); [|by rewrite push_line_lines].
  destruct (negb (none_missing mc) && negb c);
    rewrite ?push_section_lines, push_line_lines by done;
    (destruct (none_missing ms); [done|]); by rewrite push_blocks_lines, <- unlines_app, <- app_assoc.
Qed.

Lemma merge_loop_text old new c s :
  fold_left (merge_line mc ms) old (mkMerge (unlines new) c s) =
  let '(new, c, s) := fold_left (merge_line_l mc ms) old (new, c, s) in mkMerge (unlines new) c s.
Proof.
  revert new c s. induction old as [|l old IH]; intros new c s; [done|].
  cbn [fold_left]. rewrite merge_line_text. destruct (merge_line_l mc ms (new, c, s) l) as [[n' c'] s'].
  apply IH.
Qed.

Lemma merge_text old :
  merge_end mc ms (fold_left (merge_line mc ms) old (mkMerge [] false false)) =
  unlines (merge_lines mc ms old).
Proof.
  change (@nil Z) with (unlines []). rewrite merge_loop_text. unfold merge_lines, merge_end, merge_end_l.
  destruct (fold_left _ _ _) as [[new c] s].
  destruct (negb (none_missing mc) && negb c), (negb (none_missing ms) && negb s);
    by rewrite ?push_section_lines by done.
Qed.

(** *** What is kept and what is added *)

Lemma blocks_addable blocks : blocks_ok blocks -> Forall addable (block_lines blocks).
Proof.
  intros Hb. apply Forall_forall. intros l Hl. right. left.
  by apply (block_lines_spec blocks l Hb Hl).
Qed.

Lemma section_addable header blocks new :
  blocks_ok blocks -> header = CLIENT_HEADER \/ header = SERVER_HEADER ->
  Forall addable (section_lines header blocks new).
Proof.
  intros Hb Hh. unfold section_lines. apply Forall_app; split; [|apply Forall_app; split].
  - destruct new; repeat constructor.
  - apply Forall_singleton. unfold addable. tauto.
  - by apply blocks_addable.
Qed.

Lemma merge_line_merged old new c s line :
  merged old new -> merged (old ++ [line]) (merge_line_l mc ms (new, c, s) line).1.1.
Proof.
  intros Hm. unfold merge_line_l. pose proof (blocks_addable mc Hmc). pose proof (blocks_addable ms Hms).
  destruct (is_header CLIENT_HEADER line).
  { destruct (none_missing mc); cbn [fst]; [by apply merged_snoc|].
    rewrite app_assoc. apply merged_extend; [by apply merged_snoc|done]. }
  destruct (is_header SERVER_HEADER line); [|by apply merged_snoc].
  assert (merged old (new ++ section_lines CLIENT_HEADER mc new)) as Hm'.
  { apply merged_extend; [done|]. apply section_addable; auto. }
  destruct (negb (none_missing mc) && negb c); (destruct (none_missing ms); cbn [fst];
    [by apply merged_snoc|rewrite app_assoc; apply merged_extend; [by apply merged_snoc|done]]).
Qed.

Lemma merge_lines_merged old : merged old (merge_lines mc ms old).
Proof.
  assert (forall old' new c s, merged old' new ->
    merged (old' ++ old) (fold_left (merge_line_l mc ms) old (new, c, s)).1.1) as Hl.
  { induction old as [|l old IH]; intros old' new c s Hm; [by rewrite app_nil_r|].
    cbn [fold_left]. pose proof (merge_line_merged old' new c s l Hm) as Hm'.
    destruct (merge_line_l mc ms (new, c, s) l) as [[n' c'] s']. apply (IH _ n' c' s') in Hm'.
    by rewrite <- app_assoc in Hm'. }
  specialize (Hl [] [] false false merged_nil). unfold merge_lines, merge_end_l.
  destruct (fold_left _ _ _) as [[new c] s]. cbn in Hl.
  assert (forall h b n, blocks_ok b -> h = CLIENT_HEADER \/ h = SERVER_HEADER -> merged old n ->
    merged old (n ++ section_lines h b n)) as Hs.
  { intros. apply merged_extend; [done|]. by apply section_addable. }
  destruct (negb (none_missing mc) && negb c), (negb (none_missing ms) && negb s); auto 10.
Qed.

(** *** The missing blocks are all added *)

Definition inserted_ok (m : list str * bool * bool) : Prop :=
  (m.1.2 = true -> block_lines mc ⊆ m.1.1) /\ (m.2 = true -> block_lines ms ⊆ m.1.1).

Ltac sub := first [assumption | reflexivity | apply list_subseteq_app_l; sub | apply list_subseteq_app_r; sub].

Lemma merge_line_inserted m line : inserted_ok m -> inserted_ok (merge_line_l mc ms m line).
Proof.
  destruct m as [[new c] s]. unfold inserted_ok. cbn [fst snd]. intros [Hc Hs]. unfold merge_line_l.
  assert (c = true -> forall l, block_lines mc ⊆ new ++ l) as Hc' by (intros E l; specialize (Hc E); sub).
  assert (s = true -> forall l, block_lines ms ⊆ new ++ l) as Hs' by (intros E l; specialize (Hs E); sub).
  destruct (is_header CLIENT_HEADER line).
  { destruct (none_missing mc); cbn [fst snd]; (split; intros E; [try by apply Hc'|by apply Hs']). sub. }
  destruct (is_header SERVER_HEADER line);
    [|cbn [fst snd]; split; intros E; [by apply Hc'|by apply Hs']].
  unfold section_lines.
  destruct (negb (none_missing mc) && negb c); (destruct (none_missing ms); cbn [fst snd]);
    (split; intros E; [|try (rewrite <- ?app_assoc; by apply Hs')]);
    try (by apply Hc'); try sub.
Qed.

Lemma none_missing_lines b n : none_missing b = true -> block_lines b ⊆ n.
Proof.
  intros Hn. unfold none_missing in Hn. apply bool_decide_eq_true in Hn as ->.
  intros x Hx. by apply elem_of_nil in Hx.
Qed.

Lemma merge_lines_inserted old :
  block_lines mc ⊆ merge_lines mc ms old /\ block_lines ms ⊆ merge_lines mc ms old.
Proof.
  assert (forall m, inserted_ok m -> inserted_ok (fold_left (merge_line_l mc ms) old m)) as Hl.
  { induction old as [|l old IH]; intros m Hm; [done|]. by apply IH, merge_line_inserted. }
  specialize (Hl ([], false, false)). destruct Hl as [Hc Hs]; [by split|].
  unfold merge_lines, merge_end_l. destruct (fold_left _ _ _) as [[new c] s]. cbn [fst snd] in Hc, Hs.
  assert (block_lines mc ⊆ new \/ negb (none_missing mc) && negb c = true) as Hc'.
  { destruct (none_missing mc) eqn:E; [left; by apply none_missing_lines|]. destruct c; auto. }
  assert (block_lines ms ⊆ new \/ negb (none_missing ms) && negb s = true) as Hs'.
  { destruct (none_missing ms) eqn:E; [left; by apply none_missing_lines|]. destruct s; auto. }
  clear Hc Hs. unfold section_lines.
  destruct (negb (none_missing mc) && negb c), (negb (none_missing ms) && negb s);
    destruct Hc' as [Hc|Hc]; destruct Hs' as [Hs|Hs]; try discriminate; split; sub.
Qed.
End Text.

(** ** Reading the merged file again *)

Lemma trim_start_ws s : Forall (fun c => is_whitespace c = true) s -> trim_start s = [].
Proof. induction 1 as [|c s Hc Hs IH]; [done|]. cbn. by rewrite Hc. Qed.

Lemma trim_start_snoc s w :
  is_whitespace w = true ->
  trim_start (s ++ [w]) = match trim_start s with [] => [] | t => t ++ [w] end.
Proof.
  intros Hw. induction s as [|c s IH]; cbn [app trim_start].
  - by rewrite Hw.
  - by destruct (is_whitespace c).
Qed.

Lemma trim_end_snoc s w : is_whitespace w = true -> trim_end (s ++ [w]) = trim_end s.
Proof. intros Hw. unfold trim_end. rewrite reverse_app. cbn. by rewrite Hw. Qed.

Lemma trim_snoc s w : is_whitespace w = true -> trim (s ++ [w]) = trim s.
Proof.
  intros Hw. unfold trim. rewrite trim_start_snoc by done.
  destruct (trim_start s) as [|c t] eqn:E; [done|]. by rewrite trim_end_snoc.
Qed.

Lemma trim_strip_cr s : trim (strip_cr s) = trim s.
Proof.
  unfold strip_cr. destruct (strip_suffix [CR] s) as [t|] eqn:E; [|done].
  apply strip_suffix_Some in E as ->. by rewrite trim_snoc.
Qed.

Lemma lines_unlines_cr ls : Forall (fun l => LF ∉ l) ls -> lines (unlines ls) = strip_cr <$> ls.
Proof.
  unfold lines, unlines. induction 1 as [|l ls Hl Hls IH]; [done|].
  cbn [mbind list_bind]. rewrite <- app_assoc. cbn [app]. by rewrite lines_aux_app, IH.
Qed.

Lemma lines_aux_no_lf s cur : LF ∉ cur -> Forall (fun l => LF ∉ l) (lines_aux cur s).
Proof.
  assert (forall l, LF ∉ l -> LF ∉ reverse l) as Hr.
  { intros l Hl. by rewrite elem_of_reverse. }
  revert cur. induction s as [|c s IH]; intros cur Hc; cbn [lines_aux].
  - destruct cur; [constructor|]. apply Forall_singleton. by apply Hr.
  - destruct (Z.eqb_spec c LF) as [->|Hne].
    + constructor; [|apply IH; by intros ?%elem_of_nil]. unfold strip_cr.
      destruct (strip_suffix [CR] (reverse cur)) as [t|] eqn:E; [|by apply Hr].
      apply strip_suffix_Some in E. apply Hr in Hc. rewrite E, elem_of_app in Hc. tauto.
    + apply IH. rewrite elem_of_cons. intros [E|]; [by apply Hne|done].
Qed.

Lemma lines_no_lf s : Forall (fun l => LF ∉ l) (lines s).
Proof. apply lines_aux_no_lf. by intros ?%elem_of_nil. Qed.

(** Whatever a merge adds is free of line feeds. *)
Lemma merged_no_lf mc ms old :
  blocks_ok mc -> blocks_ok ms -> Forall (fun l => LF ∉ l) old ->
  Forall (fun l => LF ∉ l) (merge_lines mc ms old).
Proof.
  intros Hmc Hms Hold.
  assert (forall b, blocks_ok b -> Forall (fun l => LF ∉ l) (block_lines b)) as Hb.
  { intros b Hb. apply Forall_forall. intros l Hl. by apply (block_lines_spec b). }
  assert (forall h b n, h = CLIENT_HEADER \/ h = SERVER_HEADER -> blocks_ok b ->
    Forall (fun l => LF ∉ l) (section_lines h b n)) as Hs.
  { intros h b n Hh Hbo. unfold section_lines. apply Forall_app. split; [destruct n; repeat constructor; set_solver|].
    apply Forall_app. split; [|by apply Hb]. apply Forall_singleton.
    destruct Hh as [-> | ->]; apply (bool_decide_unpack (LF ∉ _)); vm_compute; exact I. }
  assert (forall new c s, Forall (fun l => LF ∉ l) new ->
    Forall (fun l => LF ∉ l) (fold_left (merge_line_l mc ms) old (new, c, s)).1.1) as Hl.
  { induction Hold as [|l old Hl Hold IH]; intros new c s Hn; [done|]. cbn [fold_left].
    assert (Forall (fun l => LF ∉ l) (merge_line_l mc ms (new, c, s) l).1.1) as Hn'.
    { unfold merge_line_l. repeat case_match; simplify_eq/=; rewrite ?Forall_app, ?Forall_singleton; auto 10. }
    destruct (merge_line_l mc ms (new, c, s) l) as [[n' c'] s']. by apply IH. }
  specialize (Hl [] false false (Forall_nil_2 _)). unfold merge_lines, merge_end_l.
  destruct (fold_left _ _ _) as [[new c] s]. cbn in Hl.
  destruct (negb (none_missing mc) && negb c), (negb (none_missing ms) && negb s);
    rewrite ?Forall_app; auto 10.
Qed.

Lemma contains_unlines new key :
  Forall (fun l => LF ∉ l) new ->
  contains_key_line (unlines new) key = existsb (key_line key) new.
Proof.
  intros Hn. unfold contains_key_line. rewrite lines_unlines_cr by done. clear Hn.
  induction new as [|l new IH]; [done|]. cbn. rewrite IH. f_equal.
  unfold key_line. by rewrite trim_strip_cr.
Qed.

Lemma missing_nil blocks new :
  (forall kb, kb ∈ blocks -> existsb (key_line kb.1) new = true) ->
  Forall (fun l => LF ∉ l) new -> missing blocks (unlines new) = [].
Proof.
  intros Hk Hn. unfold missing. induction blocks as [|kb blocks IH]; [done|]. cbn.
  rewrite contains_unlines by done. rewrite Hk by (by left). cbn. apply IH. intros. apply Hk. by right.
Qed.

Lemma merge_has_key blocks mc ms existing :
  blocks_ok mc -> blocks_ok ms -> blocks_ok blocks ->
  block_lines (missing blocks existing) ⊆ merge_lines mc ms (lines existing) ->
  forall kb, kb ∈ blocks -> existsb (key_line kb.1) (merge_lines mc ms (lines existing)) = true.
Proof.
  intros Hmc Hms Hb Hsub kb Hin. rewrite existsb_exists.
  destruct (contains_key_line existing kb.1) eqn:E.
  - unfold contains_key_line in E. apply existsb_exists in E as (l & Hl & Hk). exists l. split; [|done].
    apply list_elem_of_In. apply list_elem_of_In in Hl.
    eapply merged_elem; [by apply merge_lines_merged|done].
  - pose proof (proj1 (Forall_forall _ _) Hb _ Hin) as Hk. unfold block_ok in Hk.
    apply andb_true_iff in Hk as [_ Hk]. apply existsb_exists in Hk as (l & Hl & Hk).
    exists l. split; [|done]. apply list_elem_of_In, Hsub, list_elem_of_bind. exists kb.
    split; [by apply list_elem_of_In|]. unfold missing. apply list_elem_of_In, filter_In.
    split; [by apply list_elem_of_In|]. by rewrite E.
Qed.

(** ** Section headers *)

Definition headers (h : str) (ls : list str) : nat := length (List.filter (is_header h) ls).

Lemma headers_app h a b : headers h (a ++ b) = (headers h a + headers h b)%nat.
Proof. unfold headers. by rewrite List.filter_app, length_app. Qed.

Lemma headers_one h l : headers h [l] = if is_header h l then 1%nat else 0%nat.
Proof. unfold headers. cbn. by destruct (is_header h l). Qed.

Lemma headers_blocks h blocks :
  blocks_ok blocks -> h = CLIENT_HEADER \/ h = SERVER_HEADER -> headers h (block_lines blocks) = 0%nat.
Proof.
  intros Hb Hh. unfold headers.
  assert (forall l, l ∈ block_lines blocks -> is_header h l = false) as Hl.
  { intros l Hl. destruct (block_lines_spec blocks l Hb Hl) as (_ & _ & _ & H1 & H2).
    by destruct Hh as [-> | ->]. }
  induction (block_lines blocks) as [|l ls IH]; [done|]. cbn.
  rewrite Hl by (by left). apply IH. intros. apply Hl. by right.
Qed.

Lemma headers_section h h' blocks new :
  blocks_ok blocks -> (h = CLIENT_HEADER \/ h = SERVER_HEADER) -> (h' = CLIENT_HEADER \/ h' = SERVER_HEADER) ->
  headers h (section_lines h' blocks new) = if str_eqb h h' then 1%nat else 0%nat.
Proof.
  intros Hb Hh Hh'. unfold section_lines. rewrite !headers_app, headers_blocks by done.
  destruct new; destruct Hh as [-> | ->], Hh' as [-> | ->]; vm_compute; reflexivity.
Qed.

Lemma header_server_not_client l : is_header SERVER_HEADER l = true -> is_header CLIENT_HEADER l = false.
Proof.
  unfold is_header. intros H. apply str_eqb_spec in H as ->. vm_compute. reflexivity.
Qed.

Lemma str_eqb_same a : str_eqb a a = true.
Proof. by apply str_eqb_spec. Qed.

Lemma client_not_server : str_eqb CLIENT_HEADER SERVER_HEADER = false.
Proof. reflexivity. Qed.

Lemma server_not_client : str_eqb SERVER_HEADER CLIENT_HEADER = false.
Proof. reflexivity. Qed.

(** No [server] header comes before a [client] header. *)
Definition client_first (old : list str) : Prop :=
  forall a l b, old = a ++ l :: b -> is_header CLIENT_HEADER l = true -> headers SERVER_HEADER a = 0%nat.

Lemma client_first_prefix a b : client_first (a ++ b) -> client_first a.
Proof. intros H x l y -> Hl. apply (H x l (y ++ b)); [by rewrite <- app_assoc|done]. Qed.

Section Headers.
Context (mc ms : list (str * str)) (Hmc : blocks_ok mc) (Hms : blocks_ok ms).

(** The headers seen in the input and those in the output. *)
Record counted (old : list str) (m : list str * bool * bool) : Prop := {
  ct_server : headers SERVER_HEADER m.1.1 = headers SERVER_HEADER old;
  ct_client : headers CLIENT_HEADER m.1.1 = headers CLIENT_HEADER old \/
    (headers CLIENT_HEADER old = 0%nat /\ headers CLIENT_HEADER m.1.1 = 1%nat /\
     (1 <= headers SERVER_HEADER old)%nat);
  ct_client_flag : none_missing mc = false -> m.1.2 = false ->
    headers CLIENT_HEADER m.1.1 = 0%nat /\ headers SERVER_HEADER old = 0%nat;
  ct_server_flag : none_missing ms = false -> m.2 = false -> headers SERVER_HEADER old = 0%nat
}.

Lemma merge_line_counted old m line :
  counted old m -> client_first (old ++ [line]) ->
  counted (old ++ [line]) (merge_line_l mc ms m line).
Proof.
  destruct m as [[new c] s]. intros [H1 H2 H3 H4] Hcf. cbn [fst snd] in *.
  assert (is_header CLIENT_HEADER line = true -> headers SERVER_HEADER old = 0%nat) as Hord.
  { intros Hl. by apply (Hcf old line []). }
  pose proof (header_server_not_client line) as Hexcl.
  assert (forall h, h = CLIENT_HEADER \/ h = SERVER_HEADER -> headers h (block_lines mc) = 0%nat /\
     headers h (block_lines ms) = 0%nat) as Hb by (intros; split; by apply headers_blocks).
  destruct (Hb CLIENT_HEADER) as [Hb1 Hb2]; [auto|]. destruct (Hb SERVER_HEADER) as [Hb3 Hb4]; [auto|].
  pose proof (headers_section CLIENT_HEADER CLIENT_HEADER mc new Hmc (or_introl eq_refl) (or_introl eq_refl)) as Hs1.
  pose proof (headers_section SERVER_HEADER CLIENT_HEADER mc new Hmc (or_intror eq_refl) (or_introl eq_refl)) as Hs2.
  rewrite str_eqb_same in Hs1. rewrite server_not_client in Hs2.
  unfold merge_line_l. destruct (is_header CLIENT_HEADER line) eqn:Ec.
  - assert (is_header SERVER_HEADER line = false) as Es.
    { destruct (is_header SERVER_HEADER line); [|done]. by specialize (Hexcl eq_refl). }
    specialize (Hord eq_refl).
    destruct (none_missing mc) eqn:Em; split; cbn [fst snd];
      rewrite ?headers_app, ?headers_one, ?Ec, ?Es, ?Hb1, ?Hb3; intros; (congruence || lia).
  - destruct (is_header SERVER_HEADER line) eqn:Es.
    + destruct (none_missing mc) eqn:Em, c; cbn [negb andb];
        destruct (none_missing ms) eqn:Em'; split; cbn [fst snd];
        rewrite ?headers_app, ?headers_one, ?Ec, ?Es, ?Hb2, ?Hb4, ?Hs1, ?Hs2; intros; try congruence; try lia.
      all: try (specialize (H3 eq_refl eq_refl); lia).
    + split; cbn [fst snd]; rewrite ?headers_app, ?headers_one, ?Ec, ?Es; intros Hn Hf || intros; try lia.
      * specialize (H3 Hn Hf). lia.
      * specialize (H4 Hn Hf). lia.
Qed.

Lemma merge_loop_counted done_ old m :
  counted done_ m -> client_first (done_ ++ old) ->
  counted (done_ ++ old) (fold_left (merge_line_l mc ms) old m).
Proof.
  revert done_ m. induction old as [|l old IH]; intros done_ m Hct Hcf; [by rewrite app_nil_r|].
  cbn [fold_left]. replace (done_ ++ l :: old) with ((done_ ++ [l]) ++ old) in * by (by rewrite <- app_assoc).
  apply IH; [|done]. apply merge_line_counted; [done|]. by eapply client_first_prefix.
Qed.

Lemma merge_headers old :
  client_first old -> (headers CLIENT_HEADER old <= 1)%nat -> (headers SERVER_HEADER old <= 1)%nat ->
  (headers CLIENT_HEADER (merge_lines mc ms old) <= 1)%nat /\
  (headers SERVER_HEADER (merge_lines mc ms old) <= 1)%nat.
Proof.
  intros Hcf Hc Hs. destruct (merge_loop_counted [] old ([], false, false)) as [H1 H2 H3 H4];
    [by split; auto|done|]. cbn [app] in *.
  unfold merge_lines, merge_end_l. destruct (fold_left _ _ _) as [[new c] s]. cbn [fst snd] in *.
  assert (forall h h' b n, blocks_ok b -> h = CLIENT_HEADER \/ h = SERVER_HEADER ->
    h' = CLIENT_HEADER \/ h' = SERVER_HEADER ->
    headers h (n ++ section_lines h' b n) = (headers h n + if str_eqb h h' then 1 else 0)%nat) as Hsec.
  { intros. by rewrite headers_app, headers_section. }
  destruct (none_missing mc) eqn:Em, (none_missing ms) eqn:Em', c, s; cbn [negb andb];
    rewrite ?Hsec, ?str_eqb_same, ?client_not_server, ?server_not_client by auto;
    try (specialize (H3 eq_refl eq_refl)); try (specialize (H4 eq_refl eq_refl)); lia.
Qed.
End Headers.

(** ** Properties *)

(** A content that mentions every known option, in a setting or in a comment. *)
Definition complete (content : str) : Prop :=
  forall kb, kb ∈ CLIENT_KEY_BLOCKS ++ SERVER_KEY_BLOCKS -> contains_key_line content kb.1 = true.

Lemma missing_none blocks content :
  missing blocks content = [] <-> forall kb, kb ∈ blocks -> contains_key_line content kb.1 = true.
Proof.
  unfold missing. induction blocks as [|kb blocks IH]; [by split; [intros _ ? []%elem_of_nil|]|].
  cbn [List.filter]. destruct (contains_key_line content kb.1) eqn:E; cbn [negb].
  - rewrite IH. split; intros H kb' Hkb; [apply elem_of_cons in Hkb as [->|]; auto|apply H; by right].
  - split; [done|]. intros H. specialize (H kb ltac:(by left)). congruence.
Qed.

#[local] Opaque CLIENT_KEY_BLOCKS SERVER_KEY_BLOCKS DEFAULT_CONFIG missing merge_end merge_line.

Lemma merge_config_Some existing content :
  merge_config (Some existing) = Some content ->
  content = unlines (merge_lines (missing CLIENT_KEY_BLOCKS existing) (missing SERVER_KEY_BLOCKS existing)
              (lines existing)).
Proof.
  destruct known_blocks_ok as [Hc Hs].
  rewrite <- merge_text by (by apply missing_ok). unfold merge_config, merge_defaults.
  generalize (missing CLIENT_KEY_BLOCKS existing), (missing SERVER_KEY_BLOCKS existing).
  intros mc ms. destruct (bool_decide _) eqn:E; rewrite E; congruence.
Qed.

(** Merging the defaults into a user's configuration file keeps every line
    the user wrote, in order; what it adds are only comments, blank lines and
    section headers. *)
Theorem merge_keeps_lines existing content :
  merge_config (Some existing) = Some content ->
  exists new, content = unlines new /\ merged (lines existing) new.
Proof.
  intros H. apply merge_config_Some in H as ->. destruct known_blocks_ok. eexists. split; [done|].
  apply merge_lines_merged; by apply missing_ok.
Qed.

Definition sample_config : str := unlines [lit "[client]"; lit "ssh_port = 2222"; lit "#x11=true"].

Lemma merge_keeps_lines_witness :
  exists content new, merge_config (Some sample_config) = Some content /\
    content = unlines new /\ merged (lines sample_config) new.
Proof.
  destruct (merge_config (Some sample_config)) as [content|] eqn:E; [|vm_compute in E; discriminate E].
  destruct (merge_keeps_lines sample_config content E) as (new & H1 & H2).
  exists content, new. split; [reflexivity|]. split; [exact H1|exact H2].
Defined.

(** A merge is complete, so it happens once: after it the file mentions
    every known option, and merging again writes nothing. *)
Theorem merge_idempotent existing content :
  merge_config (Some existing) = Some content -> merge_config (Some content) = None.
Proof.
  intros H. apply merge_config_Some in H as ->. destruct known_blocks_ok as [Hc Hs].
  set (mc := missing CLIENT_KEY_BLOCKS existing). set (ms := missing SERVER_KEY_BLOCKS existing).
  assert (blocks_ok mc) as Hmc by (by apply missing_ok). assert (blocks_ok ms) as Hms by (by apply missing_ok).
  destruct (merge_lines_inserted mc ms (lines existing)) as [Hic His].
  pose proof (merged_no_lf mc ms _ Hmc Hms (lines_no_lf existing)) as Hlf.
  pose proof (merge_has_key _ mc ms existing Hmc Hms Hc Hic) as Hkc.
  pose proof (merge_has_key _ mc ms existing Hmc Hms Hs His) as Hks.
  unfold merge_config, merge_defaults. by rewrite !missing_nil.
Qed.

Lemma merge_idempotent_witness :
  exists content, merge_config (Some sample_config) = Some content /\ merge_config (Some content) = None.
Proof.
  destruct (merge_config (Some sample_config)) as [content|] eqn:E; [|vm_compute in E; discriminate E].
  exists content. split; [reflexivity|]. exact (merge_idempotent sample_config content E).
Defined.

Lemma merge_config_None existing : merge_config (Some existing) = None <-> complete existing.
Proof.
  unfold merge_config, merge_defaults, complete.
  pose proof (missing_none CLIENT_KEY_BLOCKS existing) as Hc. pose proof (missing_none SERVER_KEY_BLOCKS existing) as Hs.
  setoid_rewrite elem_of_app.
  generalize dependent (missing CLIENT_KEY_BLOCKS existing). generalize dependent (missing SERVER_KEY_BLOCKS existing).
  intros ms Hs mc Hc. destruct (bool_decide (map fst (mc ++ ms) = [])) eqn:E; cbv zeta; rewrite E.
  - apply bool_decide_eq_true in E. destruct mc; [|done]. destruct ms; [|done]. split; [|done].
    intros _ kb [H|H]; [by apply Hc|by apply Hs].
  - apply bool_decide_eq_false in E. split; [done|]. intros H. destruct E.
    rewrite (proj2 Hc), (proj2 Hs); naive_solver.
Qed.


(** In a file with at most one header of each section, the client's before
    the server's, a merge leaves at most one of each, so the result parses; the
    condition on the order is needed ([merge_duplicate_header]). *)
Theorem merge_one_header existing content :
  merge_config (Some existing) = Some content ->
  client_first (lines existing) ->
  (headers CLIENT_HEADER (lines existing) <= 1)%nat -> (headers SERVER_HEADER (lines existing) <= 1)%nat ->
  (headers CLIENT_HEADER (lines content) <= 1)%nat /\ (headers SERVER_HEADER (lines content) <= 1)%nat.
Proof.
  intros H Hcf Hc Hs. apply merge_config_Some in H as ->. destruct known_blocks_ok as [Hkc Hks].
  rewrite lines_unlines_cr by (apply merged_no_lf; by apply missing_ok || apply lines_no_lf).
  assert (forall h ls, headers h (strip_cr <$> ls) = headers h ls) as Hh.
  { intros h ls. unfold headers. induction ls as [|l ls IH]; [done|]. rewrite fmap_cons. cbn [List.filter].
    assert (is_header h (strip_cr l) = is_header h l) as -> by (unfold is_header; by rewrite trim_strip_cr).
    destruct (is_header h l); cbn [length]; by rewrite IH. }
  rewrite !Hh. apply merge_headers; by apply missing_ok || done.
Qed.

Lemma merge_one_header_witness :
  exists content, merge_config (Some sample_config) = Some content /\
    (headers CLIENT_HEADER (lines content) <= 1)%nat /\ (headers SERVER_HEADER (lines content) <= 1)%nat.
Proof.
  destruct (merge_config (Some sample_config)) as [content|] eqn:E; [|vm_compute in E; discriminate E].
  exists content. split; [reflexivity|]. apply (merge_one_header sample_config content E).
  - intros a l b Hl Hh. destruct a as [|x a]; [reflexivity|]. exfalso.
    vm_compute in Hl. injection Hl as <- Hl. destruct a as [|x a]; injection Hl as <- Hl; [discriminate Hh|].
    destruct a as [|x a]; injection Hl as <- Hl; [discriminate Hh|]. destruct a; discriminate Hl.
  - vm_compute. lia.
  - vm_compute. lia.
Defined.
