(* ===== verification/X11Setup.v ===== *)
(** X11 forwarding on the server: the display it offers, and the connection
    setup in which it exchanges its own cookie for the user's
    ([bind_free_x11_display], [process_x11_setup], [forward_x11_connection] and
    the X11 part of [run_session], [src/bin/etrs.rs]).

    What the operating system and [xauth] answer are parameters; the bytes of a
    local X11 client are a [RecvStream]. *)
From S2P Require Import Prelude Text Protocol Stream Utf8 Proto Quic.

Open Scope Z_scope.
Open Scope list_scope.

(** ** The setup message *)

(** [tokio]'s [read_exact]. *)
Definition x_read_exact (n : nat) (s : RecvStream) : result (list u8 * RecvStream) ErrorKind :=
  match read_exact n s with
  | Ok r => Ok r
  | Err FinishedEarly => Err UnexpectedEof
  | Err ReadError => Err OtherKind
  end.

(** [(n + 3) & !3]. *)
Definition padded (n : nat) : nat := Z.to_nat (Z.land (Z.of_nat n + 3) (Z.lnot 3)).

Definition LITTLE : u8 := 108.

(** A 16-bit field in the byte order of the client. *)
Definition get_u16 (is_little : bool) (bs : list u8) : u16 :=
  if is_little then from_le bs else from_be bs.

Definition put_u16 (is_little : bool) (v : Z) : list u8 :=
  if is_little then to_le 2 (wrap 16 v) else to_be 2 (wrap 16 v).

(** [vec![0u8; padded]] with the data copied to its front. *)
Definition pad_zero (data : list u8) : list u8 := data ++ repeat 0 (padded (length data) - length data).

Definition MIT_MAGIC_COOKIE_1 : list u8 := as_bytes (lit "MIT-MAGIC-COOKIE-1").

(** The message that replaces the client's. *)
Definition new_setup (is_little : bool) (header real_cookie : list u8) : list u8 :=
  match real_cookie with
  | [] => take 6 header ++ [0; 0; 0; 0] ++ drop 10 header
  | _ =>
    take 6 header ++ put_u16 is_little (Z.of_nat (length MIT_MAGIC_COOKIE_1)) ++
    put_u16 is_little (Z.of_nat (length real_cookie)) ++ drop 10 header ++
    pad_zero MIT_MAGIC_COOKIE_1 ++ pad_zero real_cookie
  end.

Definition process_x11_setup (stream : RecvStream) (fake_cookie real_cookie : list u8)
    : result (RecvStream * list u8) ErrorKind :=
  let? (header, stream) := x_read_exact 12 stream in
  let is_little := nth 0 header 0 =? LITTLE in
  let name_len := Z.to_nat (get_u16 is_little (take 2 (drop 6 header))) in
  let data_len := Z.to_nat (get_u16 is_little (take 2 (drop 8 header))) in
  let? (name_buf, stream) := x_read_exact (padded name_len) stream in
  let? (data_buf, stream) := x_read_exact (padded data_len) stream in
  if bool_decide (fake_cookie = []) then Err PermissionDenied
  else if (data_len <? length fake_cookie)%nat then Err PermissionDenied
  else if negb (constant_time_eq (take (length fake_cookie) data_buf) fake_cookie)
  then Err PermissionDenied
  else Ok (stream, new_setup is_little header real_cookie).

(** ** The forwarded connection *)

Definition x11_open : Envelope :=
  mkEnvelope (Some (PStreamOpen (mkStreamOpen 0 (StreamType_as_i32 X11) [] 0 (ForwardProto_as_i32 Tcp)))).

(** What [forward_x11_connection] writes before the pipe takes over. *)
Definition forward_x11_connection {C : EnvelopeCodec} (setup_block : list u8) (quic_send : SendStream)
    : result SendStream ErrorKind :=
  let? s := write_all [TAG_FORWARD] quic_send in
  let? s := write_msg x11_open s in
  write_all setup_block s.

(** The task of one accepted local connection: it needs a client connection and
    its cookie. *)
Definition x11_accept {C : EnvelopeCodec} (stream : RecvStream) (fake_cookie : list u8)
    (conn : option SendStream) (real_cookie : option (list u8))
    : option (result SendStream ErrorKind * RecvStream) :=
  match conn, real_cookie with
  | Some c, Some rc =>
    match process_x11_setup stream fake_cookie rc with
    | Ok (stream, setup_block) => Some (forward_x11_connection setup_block c, stream)
    | Err _ => None
    end
  | _, _ => None
  end.

(** ** The display *)

Record dir_meta : Type := mkDirMeta { d_uid : Z; d_mode : Z; d_is_dir : bool; d_is_symlink : bool }.

Definition is_safe_dir (euid : Z) (m : dir_meta) : bool :=
  d_is_dir m && negb (d_is_symlink m) &&
  (((d_uid m =? 0) && negb (Z.land (d_mode m) 512 =? 0)) ||
   ((d_uid m =? euid) && (Z.land (d_mode m) 63 =? 0))).

Inductive v6_bind : Type := V6Bound | V6Unavailable | V6Refused.

Section Display.
(** [/tmp/.X11-unix] and, for each display: whether its socket path exists,
    whether its IPv4 port can be bound and listened on, likewise for IPv6, and
    whether its socket can be bound. *)
Context (euid : Z) (x11_dir : option dir_meta).
Context (socket_exists : nat -> bool) (v4_free : nat -> bool) (v6 : nat -> v6_bind) (unix_free : nat -> bool).

Definition can_use_unix_socket : bool :=
  match x11_dir with Some m => is_safe_dir euid m | None => false end.

(** One display: whether a Unix socket listens, and the number of TCP listeners. *)
Definition try_display (d : nat) : option (bool * nat) :=
  if socket_exists d then None
  else if negb (v4_free d) then None
  else match v6 d with
  | V6Refused => None
  | b =>
    let tcp := match b with V6Bound => 2%nat | _ => 1%nat end in
    if can_use_unix_socket then if unix_free d then Some (true, tcp) else None
    else Some (false, tcp)
  end.

Fixpoint find_display (ds : list nat) : option (nat * bool * nat) :=
  match ds with
  | [] => None
  | d :: ds =>
    match try_display d with
    | Some (u, t) => Some (d, u, t)
    | None => find_display ds
    end
  end.

Definition bind_free_x11_display : option (nat * bool * nat) := find_display (seq 10 90).

(** [run_session]: the display given to the shell; [xauth_add] is the success of
    [xauth add] for an entry. *)
Definition setup_x11 (x11_enabled : bool) (xauth_add : str -> bool) : option (nat * bool * nat) :=
  if x11_enabled then
    match bind_free_x11_display with
    | Some (d, u, t) =>
      let n := dec (Z.of_nat d) in
      if xauth_add (lit "localhost/unix:" ++ n) && xauth_add (lit "localhost:" ++ n)
      then Some (d, u, t) else None
    | None => None
    end
  else None.
End Display.

(** ** Lemmas *)

Lemma padded_spec n : (n <= padded n < n + 4)%nat /\ (padded n mod 4 = 0)%nat.
Proof.
  unfold padded.
  assert (Z.land (Z.of_nat n + 3) (Z.lnot 3) = (Z.of_nat n + 3) - (Z.of_nat n + 3) mod 4) as ->.
  { change (Z.lnot 3) with (Z.lnot (Z.ones 2)). rewrite <- Z.ldiff_land.
    rewrite Z.ldiff_ones_r by lia. rewrite Z.shiftl_mul_pow2, Z.shiftr_div_pow2 by lia.
    change (2 ^ 2) with 4. pose proof (Z.div_mod (Z.of_nat n + 3) 4). lia. }
  pose proof (Z.mod_pos_bound (Z.of_nat n + 3) 4). split; [lia|].
  apply Nat2Z.inj. rewrite Nat2Z.inj_mod, Z2Nat.id by lia. change (Z.of_nat 4) with 4.
  rewrite Zminus_mod, Z.mod_mod, Z.sub_diag by lia. done.
Qed.

(** A setup message as a client writes it. *)
Definition setup_bytes (order : u8) (version post name npad data dpad : list u8) : list u8 :=
  [order] ++ version ++
  put_u16 (order =? LITTLE) (Z.of_nat (length name)) ++ put_u16 (order =? LITTLE) (Z.of_nat (length data)) ++
  post ++ name ++ npad ++ data ++ dpad.

Lemma length_put b v : length (put_u16 b v) = 2%nat.
Proof. unfold put_u16. destruct b; [apply length_to_le|apply length_to_be]. Qed.

Lemma get_put b v : 0 <= v < 65536 -> get_u16 b (put_u16 b v) = v.
Proof.
  intros Hv. unfold get_u16, put_u16. rewrite wrap_small by (change (2 ^ 16) with 65536; lia).
  destruct b; [rewrite from_le_to_le|rewrite from_be_to_be]; apply Z.mod_small;
    change (256 ^ Z.of_nat 2) with 65536; lia.
Qed.

Lemma x_read_app n a b e : length a = n -> x_read_exact n (mkRecv (a ++ b) e) = Ok (a, mkRecv b e).
Proof. intros <-. unfold x_read_exact. by rewrite read_exact_app. Qed.

(** What reading a setup message makes of it, before the cookie is judged. *)
Lemma read_setup order version post name npad data dpad rest e fake real :
  length version = 5%nat -> length post = 2%nat ->
  Z.of_nat (length name) < 65536 -> Z.of_nat (length data) < 65536 ->
  length npad = (padded (length name) - length name)%nat ->
  length dpad = (padded (length data) - length data)%nat ->
  process_x11_setup (mkRecv (setup_bytes order version post name npad data dpad ++ rest) e) fake real =
  if bool_decide (fake = []) then Err PermissionDenied
  else if (length data <? length fake)%nat then Err PermissionDenied
  else if negb (constant_time_eq (take (length fake) (data ++ dpad)) fake) then Err PermissionDenied
  else Ok (mkRecv rest e, new_setup (order =? LITTLE)
    ([order] ++ version ++ put_u16 (order =? LITTLE) (Z.of_nat (length name)) ++
     put_u16 (order =? LITTLE) (Z.of_nat (length data)) ++ post) real).
Proof.
  intros Hv Hp Hn Hd Hnp Hdp. unfold process_x11_setup, setup_bytes.
  pose proof (padded_spec (length name)) as [Hpn _]. pose proof (padded_spec (length data)) as [Hpd _].
  set (L := order =? LITTLE).
  set (pn := put_u16 L (Z.of_nat (length name))). set (pd := put_u16 L (Z.of_nat (length data))).
  assert (length pn = 2%nat /\ length pd = 2%nat) as [Hlp Hld] by (split; apply length_put).
  set (hdr := [order] ++ version ++ pn ++ pd ++ post).
  assert (length hdr = 12%nat) as H12.
  { subst hdr. rewrite !length_app, Hlp, Hld, Hv, Hp. done. }
  replace (([order] ++ version ++ pn ++ pd ++ post ++ name ++ npad ++ data ++ dpad) ++ rest)
    with (hdr ++ (name ++ npad) ++ (data ++ dpad) ++ rest) by (subst hdr; by rewrite <- !app_assoc).
  rewrite x_read_app by done. cbn [result_bind].
  change (nth 0 hdr 0) with order. fold L.
  assert (take 2 (drop 6 hdr) = pn) as ->.
  { subst hdr. rewrite (app_assoc [order]). rewrite drop_app_length' by (rewrite length_app, Hv; done).
    by rewrite take_app_length'. }
  assert (take 2 (drop 8 hdr) = pd) as ->.
  { subst hdr. rewrite (app_assoc [order]), (app_assoc _ pn).
    rewrite drop_app_length' by (by rewrite !length_app, Hv, Hlp).
    by rewrite take_app_length'. }
  subst pn pd. rewrite !get_put by lia. rewrite !Nat2Z.id.
  rewrite x_read_app by (rewrite length_app; lia). cbn [result_bind].
  rewrite x_read_app by (rewrite length_app; lia). done.
Qed.

Lemma new_setup_bytes order version post n d real :
  length version = 5%nat -> length post = 2%nat -> real <> [] ->
  length n = 2%nat -> length d = 2%nat ->
  new_setup (order =? LITTLE) ([order] ++ version ++ n ++ d ++ post) real =
  setup_bytes order version post MIT_MAGIC_COOKIE_1
    (repeat 0 (padded (length MIT_MAGIC_COOKIE_1) - length MIT_MAGIC_COOKIE_1)) real
    (repeat 0 (padded (length real) - length real)).
Proof.
  intros Hv Hp Hr Hn Hd. unfold new_setup. destruct real as [|r0 real]; [done|].
  unfold setup_bytes, pad_zero.
  assert (take 6 ([order] ++ version ++ n ++ d ++ post) = [order] ++ version) as ->.
  { rewrite (app_assoc [order]), take_app_length' by (rewrite length_app, Hv; done). done. }
  assert (drop 10 ([order] ++ version ++ n ++ d ++ post) = post) as ->.
  { rewrite (app_assoc [order]), (app_assoc _ n), (app_assoc _ d).
    rewrite drop_app_length' by (rewrite !length_app, Hv, Hn, Hd; done). done. }
  by rewrite <- !app_assoc.
Qed.

Lemma find_display_spec euid dir ex v4 v6 un ds r :
  find_display euid dir ex v4 v6 un ds = r <->
  match r with
  | Some (d, u, t) => exists a b, ds = a ++ d :: b /\ try_display euid dir ex v4 v6 un d = Some (u, t) /\
      Forall (fun d' => try_display euid dir ex v4 v6 un d' = None) a
  | None => Forall (fun d' => try_display euid dir ex v4 v6 un d' = None) ds
  end.
Proof.
  revert r. induction ds as [|d ds IH]; intros r; cbn [find_display].
  - destruct r as [[[d u] t]|]; split; try done. by intros ([] & b & ? & _).
  - destruct (try_display euid dir ex v4 v6 un d) as [[u t]|] eqn:Et.
    + split.
      * intros <-. exists [], ds. by repeat constructor.
      * destruct r as [[[d' u'] t']|].
        -- intros (a & b & He & Ht & Ha). destruct a as [|x a]; simplify_eq/=; [congruence|].
           inversion Ha; congruence.
        -- intros Hf. inversion Hf; congruence.
    + rewrite IH. destruct r as [[[d' u'] t']|].
      * split.
        -- intros (a & b & -> & Ht & Ha). exists (d :: a), b. split; [done|]. split; [done|]. by constructor.
        -- intros (a & b & He & Ht & Ha). destruct a as [|x a]; simplify_eq/=.
           exists a, b. inversion Ha; subst. done.
      * split; [by constructor|]. intros Hf. by inversion Hf.
Qed.

(** The exchange of cookies on a message of any fields. *)
Lemma process_setup_spec order version post name npad data dpad rest e fake real :
  length version = 5%nat -> length post = 2%nat ->
  Z.of_nat (length name) < 65536 -> Z.of_nat (length data) < 65536 ->
  length npad = (padded (length name) - length name)%nat ->
  length dpad = (padded (length data) - length data)%nat ->
  real <> [] ->
  process_x11_setup (mkRecv (setup_bytes order version post name npad data dpad ++ rest) e) fake real =
  if bool_decide (fake <> [] /\ fake `prefix_of` data)
  then Ok (mkRecv rest e, setup_bytes order version post MIT_MAGIC_COOKIE_1
    (repeat 0 (padded (length MIT_MAGIC_COOKIE_1) - length MIT_MAGIC_COOKIE_1)) real
    (repeat 0 (padded (length real) - length real)))
  else Err PermissionDenied.
Proof.
  intros Hv Hp Hn Hd Hnp Hdp Hr. rewrite read_setup by done.
  rewrite new_setup_bytes by (done || apply length_put).
  destruct (decide (fake = [])) as [->|Hf].
  { rewrite bool_decide_eq_true_2 by done. by rewrite bool_decide_eq_false_2 by (by intros []). }
  rewrite (bool_decide_eq_false_2 (fake = [])) by done.
  destruct (Nat.ltb_spec (length data) (length fake)) as [Hl|Hl].
  { rewrite bool_decide_eq_false_2; [done|]. intros [_ Hpre]. apply prefix_length in Hpre. lia. }
  rewrite take_app_le by done.
  assert (constant_time_eq (take (length fake) data) fake = bool_decide (fake `prefix_of` data)) as ->.
  { apply eq_true_iff_eq. rewrite ct_eq_spec, bool_decide_eq_true. split.
    - intros Ht. exists (drop (length fake) data). rewrite <- Ht at 1. by rewrite take_drop.
    - intros [k ->]. by rewrite take_app_length. }
  destruct (decide (fake `prefix_of` data)) as [Hpre|Hpre].
  - by rewrite !bool_decide_eq_true_2.
  - by rewrite !bool_decide_eq_false_2 by naive_solver.
Qed.

(** ** Properties *)

(** The exchange of cookies: a local client's setup message, of either byte
    order and whatever its other fields, is accepted exactly when its
    authorization data starts with the server's non-empty cookie; what is then
    sent to the user's X server is the same message with MIT-MAGIC-COOKIE-1 and
    the user's cookie in place of the client's, correctly padded, and everything
    after the message is left in the stream. *)
Theorem x11_setup_substitution order version post name npad data dpad rest e fake real :
  length version = 5%nat -> length post = 2%nat ->
  Z.of_nat (length name) < 65536 -> Z.of_nat (length data) < 65536 ->
  length npad = (padded (length name) - length name)%nat ->
  length dpad = (padded (length data) - length data)%nat ->
  real <> [] ->
  process_x11_setup (mkRecv (setup_bytes order version post name npad data dpad ++ rest) e) fake real =
  if bool_decide (fake <> [] /\ fake `prefix_of` data)
  then Ok (mkRecv rest e, setup_bytes order version post MIT_MAGIC_COOKIE_1
    (repeat 0 (padded (length MIT_MAGIC_COOKIE_1) - length MIT_MAGIC_COOKIE_1)) real
    (repeat 0 (padded (length real) - length real)))
  else Err PermissionDenied.
Proof. apply process_setup_spec. Qed.

Lemma x11_setup_substitution_witness :
  process_x11_setup (mkRecv (setup_bytes LITTLE [0; 11; 0; 0; 0] [0; 0] (lit "MIT") [0] [1; 2; 3] [9] ++ [7; 7]) Lost)
    [1; 2] [5; 6; 7; 8] =
  Ok (mkRecv [7; 7] Lost, setup_bytes LITTLE [0; 11; 0; 0; 0] [0; 0] MIT_MAGIC_COOKIE_1 [0; 0] [5; 6; 7; 8] []).
Proof.
  rewrite x11_setup_substitution; [vm_compute; reflexivity|..]; try reflexivity. discriminate.
Defined.

(** The display offered is the lowest of 10 to 99 that nobody else uses: no
    socket file of that number exists, the IPv4 port is bound, the IPv6 port is
    bound or IPv6 is absent, and the socket is bound whenever the directory of
    sockets is trusted; none is offered only if there is none. *)
Theorem x11_display_choice euid dir ex v4 v6 un r :
  bind_free_x11_display euid dir ex v4 v6 un = r <->
  let usable d := ex d = false /\ v4 d = true /\ v6 d <> V6Refused /\
    (can_use_unix_socket euid dir = true -> un d = true) in
  match r with
  | None => forall d, (10 <= d < 100)%nat -> ~ usable d
  | Some (d, u, t) => (10 <= d < 100)%nat /\ usable d /\ u = can_use_unix_socket euid dir /\
      (t = match v6 d with V6Bound => 2 | _ => 1 end)%nat /\
      forall d', (10 <= d' < d)%nat -> ~ usable d'
  end.
Proof.
  cbn zeta. unfold bind_free_x11_display. rewrite find_display_spec.
  set (usable := fun d => ex d = false /\ v4 d = true /\ v6 d <> V6Refused /\
    (can_use_unix_socket euid dir = true -> un d = true)).
  assert (forall d, try_display euid dir ex v4 v6 un d = None <-> ~ usable d) as Hn.
  { intros d. unfold try_display, usable. destruct (ex d), (v4 d), (v6 d); cbn;
      destruct (can_use_unix_socket euid dir), (un d); intuition congruence. }
  assert (forall d u t, try_display euid dir ex v4 v6 un d = Some (u, t) <->
    usable d /\ u = can_use_unix_socket euid dir /\
    t = (match v6 d with V6Bound => 2 | _ => 1 end)%nat) as Hs.
  { intros d u t. unfold try_display, usable. destruct (ex d), (v4 d), (v6 d); cbn;
      destruct (can_use_unix_socket euid dir), (un d); intuition congruence. }
  destruct r as [[[d u] t]|].
  - split.
    + intros (a & b & He & Ht & Ha).
      assert (d = (10 + length a)%nat /\ (length a < 90)%nat) as [Hd Hla].
      { assert (length (seq 10 90) = length (a ++ d :: b)) as Hl by (by rewrite He).
        rewrite length_app, length_seq in Hl. cbn in Hl. split; [|lia].
        assert (seq 10 90 !! length a = Some d) as Hx by (rewrite He; by apply list_lookup_middle).
        by apply lookup_seq in Hx as [-> _]. }
      apply Hs in Ht as (Hu & -> & ->). split; [lia|]. split; [done|]. do 2 (split; [done|]).
      intros d' Hd'. apply Hn. rewrite Forall_lookup in Ha. apply (Ha (d' - 10)%nat).
      rewrite <- (lookup_app_l a (d :: b)) by lia. rewrite <- He. apply lookup_seq. lia.
    + intros (Hd & Hu & -> & -> & Hmin). exists (seq 10 (d - 10)), (seq (S d) (99 - d)).
      split_and!.
      * transitivity (seq 10 ((d - 10) + S (99 - d))); [f_equal; lia|]. rewrite seq_app.
        by replace (10 + (d - 10))%nat with d by lia.
      * by apply Hs.
      * apply Forall_forall. intros x Hx. apply elem_of_seq in Hx. apply Hn, Hmin. lia.
  - rewrite Forall_forall. split.
    + intros Hf d Hd. apply Hn, Hf, elem_of_seq. lia.
    + intros Hf d Hd. apply elem_of_seq in Hd. apply Hn, Hf. lia.
Qed.
