(* ===== verification/X11Session.v ===== *)
(** The X11 display of a session on the server, from its set-up to its removal: the
    listeners, the [xauth] entries and the [Drop] of [X11Cleanup] ([run_session] of
    [src/bin/etrs.rs]).  [X11Setup] chooses the display; here are the effects, in
    order. *)
From S2P Require Import Prelude Text Protocol Stream Utf8 Proto Quic Hex X11Setup.

Open Scope Z_scope.
Open Scope list_scope.

(** Listening on a Unix socket, if there is one, and on TCP ports; closing these
    listeners; removing a file; running [xauth]. *)
Inductive x11_effect : Type :=
| Listen (socket : option str) (tcp : nat)
| CloseListeners
| RemoveFile (path : str)
| Xauth (args : list str).

Definition socket_path (d : nat) : str := lit "/tmp/.X11-unix/X" ++ dec (Z.of_nat d).

Definition unix_entry (d : nat) : str := lit "localhost/unix:" ++ dec (Z.of_nat d).

Definition tcp_entry (d : nat) : str := lit "localhost:" ++ dec (Z.of_nat d).

Definition xauth_add (entry cookie_hex : str) : x11_effect :=
  Xauth [lit "add"; entry; lit "MIT-MAGIC-COOKIE-1"; cookie_hex].

Definition xauth_remove (entry : str) : x11_effect := Xauth [lit "remove"; entry].

Record X11Cleanup : Type := mkCleanup { cleanup_display : nat; has_unix_socket : bool }.

Definition drop_cleanup (c : X11Cleanup) : list x11_effect :=
  (if has_unix_socket c then [RemoveFile (socket_path (cleanup_display c))] else []) ++
  [xauth_remove (unix_entry (cleanup_display c)); xauth_remove (tcp_entry (cleanup_display c))].

(** The beginning of the session: what is done, and the cleanup that the session
    keeps, [None] when there is no display.  [add_ok] is the success of
    [xauth add]; the second entry is added only after the first. *)
Definition x11_begin (bound : option (nat * bool * nat)) (add_ok : str -> bool) (fake_cookie : list u8)
    : list x11_effect * option X11Cleanup :=
  match bound with
  | None => ([], None)
  | Some (d, u, tcp) =>
    let cleanup := mkCleanup d u in
    let hex := hex_encode fake_cookie in
    let listen := [Listen (if u : bool then Some (socket_path d) else None) tcp] in
    if add_ok (unix_entry d) then
      let adds := [xauth_add (unix_entry d) hex; xauth_add (tcp_entry d) hex] in
      if add_ok (tcp_entry d) then (listen ++ adds, Some cleanup)
      else (listen ++ adds ++ [CloseListeners] ++ drop_cleanup cleanup, None)
    else (listen ++ [xauth_add (unix_entry d) hex; CloseListeners] ++ drop_cleanup cleanup, None)
  end.

(** The whole session; the cleanup is dropped when [run_session] returns, on every
    path. *)
Definition x11_session (x11_enabled : bool) (bound : option (nat * bool * nat)) (add_ok : str -> bool)
    (fake_cookie : list u8) : list x11_effect :=
  let '(es, c) := x11_begin (if x11_enabled then bound else None) add_ok fake_cookie in
  es ++ match c with Some c => drop_cleanup c | None => [] end.

(** ** Lemmas *)

(** [b] comes after every [a] in [es]. *)
Definition followed_by (es : list x11_effect) (a b : x11_effect) : Prop :=
  forall l1 l2, es = l1 ++ a :: l2 -> b ∈ l2.

Lemma followed_cons es e a b :
  followed_by es a b -> (e = a -> b ∈ es) -> followed_by (e :: es) a b.
Proof.
  intros Hf He [|x l1] l2 Heq; simplify_eq/=; [by apply He|]. by eapply Hf.
Qed.

Lemma followed_nil a b : followed_by [] a b.
Proof. by intros [|? ?] ?. Qed.

(** Effect by effect. *)
Ltac follows :=
  repeat (apply followed_cons; [|intros ?; simplify_eq; set_solver]); apply followed_nil.

(** The display that the shell sees is the one [setup_x11] describes. *)
Lemma x11_begin_display euid dir ex v4 v6 un enabled add_ok fake :
  let bound := bind_free_x11_display euid dir ex v4 v6 un in
  (fun c => (cleanup_display c, has_unix_socket c)) <$>
    (x11_begin (if enabled : bool then bound else None) add_ok fake).2 =
  fst <$> setup_x11 euid dir ex v4 v6 un enabled add_ok.
Proof.
  cbv zeta. unfold setup_x11, x11_begin. destruct enabled; [|reflexivity].
  destruct (bind_free_x11_display _ _ _ _ _ _) as [[[d u] t]|]; [|reflexivity].
  fold (unix_entry d) (tcp_entry d). generalize (unix_entry d) as ue, (tcp_entry d) as te. intros ue te.
  destruct (add_ok ue), (add_ok te); reflexivity.
Qed.

(** ** Properties *)

(** Nothing of the display survives the session: whatever [xauth] answers, every
    entry that was asked for is asked to be removed afterwards, the socket that was
    bound is removed afterwards, and no file is removed but a socket of the session's
    own. *)
Theorem x11_leaves_nothing enabled bound add_ok fake :
  let es := x11_session enabled bound add_ok fake in
  (forall entry hex, followed_by es (xauth_add entry hex) (xauth_remove entry)) /\
  (forall path t, followed_by es (Listen (Some path) t) (RemoveFile path)) /\
  (forall path, RemoveFile path ∈ es -> exists t, Listen (Some path) t ∈ es).
Proof.
  assert (forall es, es = [] ->
    (forall entry hex, followed_by es (xauth_add entry hex) (xauth_remove entry)) /\
    (forall path t, followed_by es (Listen (Some path) t) (RemoveFile path)) /\
    (forall path, RemoveFile path ∈ es -> exists t, Listen (Some path) t ∈ es)) as Hnone.
  { intros es ->. split; [intros; apply followed_nil|]. split; [intros; apply followed_nil|].
    by intros path ?%not_elem_of_nil. }
  cbv zeta. unfold x11_session. destruct enabled; [|by apply Hnone].
  destruct bound as [[[d u] t]|]; [|by apply Hnone]. clear Hnone.
  unfold x11_begin, drop_cleanup, xauth_add, xauth_remove.
  destruct (add_ok (unix_entry d)), (add_ok (tcp_entry d)), u; cbn [app cleanup_display has_unix_socket];
    generalize (socket_path d) as sp, (unix_entry d) as ue, (tcp_entry d) as te, (hex_encode fake) as hex,
      (lit "add") as add, (lit "remove") as remove, (lit "MIT-MAGIC-COOKIE-1") as mit;
    intros sp ue te hex add remove mit;
    (split; [intros entry hex'; follows|split; [intros path t'; follows|]];
     intros path Hp; exists t; set_solver).
Qed.

Lemma x11_leaves_nothing_sample :
  x11_session true (Some (10%nat, true, 2%nat)) (fun _ => true) [1; 255] =
  [Listen (Some (lit "/tmp/.X11-unix/X10")) 2;
   Xauth [lit "add"; lit "localhost/unix:10"; lit "MIT-MAGIC-COOKIE-1"; lit "01ff"];
   Xauth [lit "add"; lit "localhost:10"; lit "MIT-MAGIC-COOKIE-1"; lit "01ff"];
   RemoveFile (lit "/tmp/.X11-unix/X10");
   Xauth [lit "remove"; lit "localhost/unix:10"]; Xauth [lit "remove"; lit "localhost:10"]].
Proof. reflexivity. Qed.
