(* ===== verification/UdpSenders.v ===== *)
(** The sockets of a UDP forward: one for each sender behind the tunnel, with an
    idle limit, a bound on their number and a task that relays the replies
    ([serve_udp_forward] of [src/bin/etrs.rs] and the UDP branch of the reverse
    acceptor of [src/bin/etr.rs], which are the same code).

    Times are milliseconds.  Sockets are numbered in the order of their binding.
    A hash map yields its entries in no particular order; where the code takes
    the first minimum of that order, the model takes the first of its own. *)
From S2P Require Import Prelude Text Protocol.

Open Scope Z_scope.
Open Scope list_scope.

(** ** State *)

Definition MAX_UDP_SENDERS : nat := 256.
Definition SENDER_IDLE : Z := 30000.

Definition sender_key : Type := str * u32.

Record Sender : Type := mkSender {
  sock : nat;
  last_used : Z;
  waiting_since : Z;   (* the reply task's current [recv_from] began *)
  task_alive : bool    (* the reply task has not timed out *)
}.

#[export] Instance Sender_eq_dec : EqDecision Sender.
Proof. solve_decision. Defined.

Record Senders : Type := mkSenders {
  sender_map : gmap sender_key Sender;
  next_sock : nat
}.

Definition no_senders : Senders := mkSenders ∅ 0.

(** ** Operations *)

(** The condition of [retain]. *)
Definition active (now : Z) (s : Sender) : bool := now - last_used s <? SENDER_IDLE.

Definition retain (now : Z) (m : gmap sender_key Sender) : gmap sender_key Sender :=
  filter (fun kv => active now kv.2 = true) m.

(** [iter().min_by_key(..)]. *)
Fixpoint min_by_last (best : sender_key * Sender) (l : list (sender_key * Sender)) : sender_key * Sender :=
  match l with
  | [] => best
  | kv :: l => min_by_last (if last_used kv.2 <? last_used best.2 then kv else best) l
  end.

Definition oldest_key (m : gmap sender_key Sender) : option sender_key :=
  match map_to_list m with [] => None | kv :: l => Some (min_by_last kv l).1 end.

Definition make_room (m : gmap sender_key Sender) : gmap sender_key Sender :=
  if (MAX_UDP_SENDERS <=? size m)%nat
  then match oldest_key m with Some k => delete k m | None => m end
  else m.

(** What the sending task holds in the middle of its work: the table, and a socket
    that is bound and not yet in it. *)
Record Held : Type := mkHeld { h_table : gmap sender_key Sender; in_hand : option nat }.

Definition held_sockets (h : Held) : nat :=
  (size (h_table h) + match in_hand h with Some _ => 1 | None => 0 end)%nat.

(** One datagram from the tunnel; [bind_ok]: a socket can be bound if one is
    needed.  The result is the socket through which the data goes out, and what was
    held on the way: a new socket is bound before the oldest entry is given up. *)
Definition handle_datagram (dg : UdpDatagram) (now : Z) (bind_ok : bool) (s : Senders)
    : option nat * list Held * Senders :=
  if bool_decide (peer_addr dg = []) then (None, [], s)
  else
    let key := (peer_addr dg, peer_port dg) in
    let m := retain now (sender_map s) in
    match m !! key with
    | Some e =>
      (Some (sock e), [mkHeld m None],
       mkSenders (<[key := mkSender (sock e) now (waiting_since e) (task_alive e)]> m) (next_sock s))
    | None =>
      if bind_ok then
        let new := next_sock s in
        (Some new, [mkHeld m None; mkHeld m (Some new); mkHeld (make_room m) (Some new)],
         mkSenders (<[key := mkSender new now now true]> (make_room m)) (S new))
      else (None, [mkHeld m None], mkSenders m (next_sock s))
    end.

Definition on_datagram (dg : UdpDatagram) (now : Z) (bind_ok : bool) (s : Senders) : option nat * Senders :=
  let '(r, _, s') := handle_datagram dg now bind_ok s in (r, s').

Definition datagram_trace (dg : UdpDatagram) (now : Z) (bind_ok : bool) (s : Senders) : list Held :=
  (handle_datagram dg now bind_ok s).1.2.

(** The entry of a socket; dropping an entry aborts its reply task. *)
Definition owner (i : nat) (m : gmap sender_key Sender) : option (sender_key * Sender) :=
  head (List.filter (fun kv => (sock kv.2 =? i)%nat) (map_to_list m)).

(** Bytes that arrive on a socket: the message relayed to the tunnel.  A reply
    task whose [recv_from] waited for [SENDER_IDLE] has ended. *)
Definition on_reply (i : nat) (data : list u8) (now : Z) (s : Senders) : option UdpDatagram * Senders :=
  match owner i (sender_map s) with
  | None => (None, s)
  | Some (key, e) =>
    if task_alive e && (now - waiting_since e <? SENDER_IDLE) then
      (Some (mkUdpDatagram key.1 key.2 data),
       mkSenders (<[key := mkSender (sock e) (last_used e) now true]> (sender_map s)) (next_sock s))
    else
      (None, mkSenders (<[key := mkSender (sock e) (last_used e) (waiting_since e) false]> (sender_map s))
               (next_sock s))
  end.

Inductive udp_event : Type :=
| FromTunnel (dg : UdpDatagram) (now : Z) (bind_ok : bool)
| FromTarget (i : nat) (data : list u8) (now : Z).

(** What leaves the forward: data through a socket on behalf of a sender, or a
    reply into the tunnel with the socket it came from. *)
Inductive udp_output : Type :=
| Sent (i : nat) (key : sender_key) (data : list u8)
| Relayed (i : nat) (reply : UdpDatagram).

#[export] Instance udp_output_eq_dec : EqDecision udp_output.
Proof. solve_decision. Defined.

Definition udp_step (ev : udp_event) (s : Senders) : list udp_output * Senders :=
  match ev with
  | FromTunnel dg now ok =>
    let '(r, s) := on_datagram dg now ok s in
    (match r with Some i => [Sent i (peer_addr dg, peer_port dg) (dg_data dg)] | None => [] end, s)
  | FromTarget i data now =>
    let '(r, s) := on_reply i data now s in
    (match r with Some reply => [Relayed i reply] | None => [] end, s)
  end.

Fixpoint udp_run (evs : list udp_event) (s : Senders) : list udp_output * Senders :=
  match evs with
  | [] => ([], s)
  | ev :: evs =>
    let '(out, s) := udp_step ev s in
    let '(outs, s) := udp_run evs s in (out ++ outs, s)
  end.

(** ** Lemmas *)

Lemma retain_lookup now m k e : retain now m !! k = Some e <-> m !! k = Some e /\ active now e = true.
Proof. unfold retain. by rewrite map_lookup_filter_Some. Qed.

Lemma retain_subset now m : retain now m ⊆ m.
Proof. apply map_filter_subseteq. Qed.

Lemma make_room_subset m : make_room m ⊆ m.
Proof.
  unfold make_room. case_match; [|done]. destruct (oldest_key m); [apply delete_subseteq|done].
Qed.

Lemma min_by_last_spec best l :
  min_by_last best l ∈ best :: l /\
  Forall (fun kv => last_used (min_by_last best l).2 <= last_used kv.2) (best :: l).
Proof.
  revert best. induction l as [|kv l IH]; intros best; cbn [min_by_last].
  { split; [by left|]. apply Forall_singleton. lia. }
  destruct (IH (if last_used kv.2 <? last_used best.2 then kv else best)) as [H1 H2].
  apply Forall_cons in H2 as [H2 H3]. split.
  - rewrite !elem_of_cons in *. destruct (last_used kv.2 <? last_used best.2); tauto.
  - destruct (Z.ltb_spec (last_used kv.2) (last_used best.2)); repeat constructor; try done; lia.
Qed.

Lemma oldest_key_spec m :
  m <> ∅ -> exists k e, oldest_key m = Some k /\ m !! k = Some e /\
    forall k' e', m !! k' = Some e' -> last_used e <= last_used e'.
Proof.
  intros Hm. unfold oldest_key. destruct (map_to_list m) as [|kv l] eqn:El.
  { by apply map_to_list_empty_iff in El. }
  destruct (min_by_last_spec kv l) as [H1 H2]. rewrite <- El in H1, H2.
  destruct (min_by_last kv l) as [k e]. cbn in *. apply elem_of_map_to_list in H1.
  exists k, e. split_and!; [done|done|]. intros k' e' Hk'.
  apply elem_of_map_to_list in Hk'. by apply (proj1 (Forall_forall _ _) H2 _ Hk').
Qed.

Lemma make_room_size m : (size m <= MAX_UDP_SENDERS)%nat -> (size (make_room m) < MAX_UDP_SENDERS)%nat.
Proof.
  intros Hs. unfold make_room. destruct (Nat.leb_spec MAX_UDP_SENDERS (size m)) as [Hl|Hl]; [|done].
  destruct (oldest_key_spec m) as (k & e & -> & Hk & _).
  { intros ->. rewrite map_size_empty in Hl. unfold MAX_UDP_SENDERS in Hl. lia. }
  rewrite map_size_delete, Hk. unfold MAX_UDP_SENDERS in *. lia.
Qed.

(** Every socket in use was bound, and belongs to one sender. *)
Definition senders_ok (s : Senders) : Prop :=
  (size (sender_map s) <= MAX_UDP_SENDERS)%nat /\
  (forall k e, sender_map s !! k = Some e -> (sock e < next_sock s)%nat) /\
  (forall k k' e e', sender_map s !! k = Some e -> sender_map s !! k' = Some e' -> sock e = sock e' -> k = k').

Lemma owner_Some i m k e : owner i m = Some (k, e) -> m !! k = Some e /\ sock e = i.
Proof.
  unfold owner. destruct (List.filter _ _) as [|kv l] eqn:E; [done|]. intros [= ->].
  assert (In (k, e) ((k, e) :: l)) as Hin by (by left). rewrite <- E in Hin.
  apply filter_In in Hin as [Hin Hs]. apply list_elem_of_In, elem_of_map_to_list in Hin.
  split; [done|]. by apply Nat.eqb_eq in Hs.
Qed.

Lemma owner_lookup s k e :
  senders_ok s -> sender_map s !! k = Some e -> owner (sock e) (sender_map s) = Some (k, e).
Proof.
  intros (_ & _ & Huniq) Hk. destruct (owner (sock e) (sender_map s)) as [[k' e']|] eqn:E.
  - apply owner_Some in E as [Hk' He]. assert (k = k') as -> by (by eapply Huniq). congruence.
  - exfalso. unfold owner in E. destruct (List.filter _ _) as [|kv l] eqn:El; [|done].
    assert (In (k, e) []) as []. rewrite <- El. apply filter_In. split; [|apply Nat.eqb_refl].
    by apply list_elem_of_In, elem_of_map_to_list.
Qed.

(** [f i] is the sender for which socket [i] was bound. *)
Definition entries_of (f : nat -> sender_key) (s : Senders) : Prop :=
  forall k e, sender_map s !! k = Some e -> f (sock e) = k /\ (sock e < next_sock s)%nat.

Definition output_of (f : nat -> sender_key) (o : udp_output) : Prop :=
  match o with
  | Sent i key _ => f i = key
  | Relayed i r => f i = (peer_addr r, peer_port r)
  end.

(** The outputs concern only bound sockets. *)
Definition output_below (n : nat) (o : udp_output) : Prop :=
  match o with Sent i _ _ | Relayed i _ => (i < n)%nat end.

Definition agree (n : nat) (f g : nat -> sender_key) : Prop := forall i, (i < n)%nat -> f i = g i.

Lemma output_agree n f g o : agree n f g -> output_below n o -> output_of f o -> output_of g o.
Proof. intros Ha Hb. destruct o; cbn in *; by rewrite Ha. Qed.

Lemma insert_entries f m k e n :
  (forall k' e', m !! k' = Some e' -> f (sock e') = k' /\ (sock e' < n)%nat) ->
  f (sock e) = k -> (sock e < n)%nat -> entries_of f (mkSenders (<[k := e]> m) n).
Proof.
  intros Hm Hf Hn k' e' Hk'. cbn in *. apply lookup_insert_Some in Hk' as [[<- <-]|[_ Hk']]; [done|].
  by apply Hm.
Qed.

Lemma step_entries ev s f :
  entries_of f s ->
  exists g, agree (next_sock s) f g /\ entries_of g (udp_step ev s).2 /\
    (next_sock s <= next_sock (udp_step ev s).2)%nat /\
    Forall (fun o => output_of g o /\ output_below (next_sock (udp_step ev s).2) o) (udp_step ev s).1.
Proof.
  intros Hf. destruct ev as [dg now ok|i data now].
  - unfold udp_step, on_datagram, handle_datagram. case_bool_decide; [by exists f|]. cbn zeta.
    set (k := (peer_addr dg, peer_port dg)).
    assert (forall k' e', retain now (sender_map s) !! k' = Some e' -> f (sock e') = k' /\ (sock e' < next_sock s)%nat)
      as Hr by (intros k' e' [Hk' _]%retain_lookup; by apply Hf).
    destruct (retain now (sender_map s) !! k) as [e|] eqn:Ek.
    + destruct (Hr _ _ Ek) as [He Hn]. exists f. split; [done|]. split; [by apply insert_entries|].
      split; [done|]. cbn. apply Forall_singleton. done.
    + destruct ok; [|exists f; split_and!; [done| |done|constructor]; intros k' e' Hk'; by apply Hr].
      exists (fun j => if (j =? next_sock s)%nat then k else f j). cbn [fst snd next_sock].
      split; [|split; [|split; [lia|]]].
      * intros j Hj. by rewrite (proj2 (Nat.eqb_neq _ _)) by lia.
      * apply insert_entries; cbn; [|by rewrite Nat.eqb_refl|lia].
        intros k' e' Hk'. assert (retain now (sender_map s) !! k' = Some e') as [Hfe Hn]%Hr
          by (by eapply lookup_weaken, make_room_subset).
        split; [|lia]. by rewrite (proj2 (Nat.eqb_neq _ _)) by lia.
      * apply Forall_singleton. cbn. rewrite Nat.eqb_refl. auto.
  - unfold udp_step, on_reply. destruct (owner i (sender_map s)) as [[k e]|] eqn:Eo; [|by exists f].
    apply owner_Some in Eo as [Hk <-]. destruct (Hf _ _ Hk) as [He Hn]. exists f. split; [done|].
    destruct (task_alive e && _); cbn [fst snd].
    + split; [by apply insert_entries|]. split; [done|]. apply Forall_singleton. cbn. split; [|done].
      rewrite He. by destruct k.
    + split; [by apply insert_entries|done].
Qed.

Lemma run_entries evs s f :
  entries_of f s ->
  exists g, agree (next_sock s) f g /\ Forall (output_of g) (udp_run evs s).1.
Proof.
  revert s f. induction evs as [|ev evs IH]; intros s f Hf; [by exists f|].
  cbn [udp_run]. destruct (step_entries ev s f Hf) as (g & Ha & Hg & Hn & Ho).
  destruct (udp_step ev s) as [out s']. cbn [fst snd] in *.
  destruct (IH s' g Hg) as (g' & Ha' & Ho'). destruct (udp_run evs s') as [outs s'']. cbn [fst snd] in *.
  exists g'. split; [intros j Hj; rewrite Ha, Ha' by lia; done|]. apply Forall_app. split; [|done].
  eapply Forall_impl; [exact Ho|]. cbn. intros o [H1 H2]. by eapply output_agree.
Qed.

Lemma step_size ev s :
  (size (sender_map s) <= MAX_UDP_SENDERS)%nat ->
  (size (sender_map (udp_step ev s).2) <= MAX_UDP_SENDERS)%nat.
Proof.
  intros Hs. destruct ev as [dg now ok|i data now].
  - unfold udp_step, on_datagram, handle_datagram. case_bool_decide; [done|]. cbn zeta.
    assert (size (retain now (sender_map s)) <= MAX_UDP_SENDERS)%nat as Hr.
    { etransitivity; [apply map_subseteq_size, retain_subset|done]. }
    destruct (retain now (sender_map s) !! _) as [e|] eqn:Ek; cbn [snd sender_map].
    + rewrite map_size_insert_Some; [done|by exists e].
    + destruct ok; cbn [snd sender_map]; [|done]. pose proof (make_room_size _ Hr) as Hm.
      rewrite map_size_insert. destruct (make_room _ !! _); unfold id; lia.
  - unfold udp_step, on_reply. destruct (owner i (sender_map s)) as [[k e]|] eqn:Eo; [|done].
    apply owner_Some in Eo as [Hk _]. destruct (task_alive e && _); cbn [snd sender_map];
      (rewrite map_size_insert_Some; [done|by exists e]).
Qed.

(** No socket serves two senders: whatever leaves through a socket is one sender's, and
    whatever is relayed from it is relayed to that sender. *)
Definition sockets_private (outs : list udp_output) : Prop :=
  forall i key data, Sent i key data ∈ outs ->
    (forall key' data', Sent i key' data' ∈ outs -> key' = key) /\
    (forall r, Relayed i r ∈ outs -> (peer_addr r, peer_port r) = key).

Lemma output_of_private g outs : Forall (output_of g) outs -> sockets_private outs.
Proof.
  rewrite Forall_forall. intros Ho i key data Hs%Ho. cbn in Hs.
  split; [intros key' data' H%Ho|intros r H%Ho]; cbn in H; congruence.
Qed.

Lemma run_private evs : sockets_private (udp_run evs no_senders).1.
Proof.
  destruct (run_entries evs no_senders (fun _ => ([], 0))) as (g & _ & Ho).
  { intros k e Hk. cbn in Hk. by apply lookup_empty_Some in Hk. }
  by eapply output_of_private.
Qed.

(** *** Sizes *)

Lemma retain_size now s :
  (size (sender_map s) <= MAX_UDP_SENDERS)%nat -> (size (retain now (sender_map s)) <= MAX_UDP_SENDERS)%nat.
Proof. intros Hs. etransitivity; [apply map_subseteq_size, retain_subset|done]. Qed.

Lemma trace_size dg now ok s :
  (size (sender_map s) <= MAX_UDP_SENDERS)%nat ->
  Forall (fun h => (held_sockets h <= S MAX_UDP_SENDERS)%nat) (datagram_trace dg now ok s).
Proof.
  intros Hr%(retain_size now). unfold datagram_trace, handle_datagram. case_bool_decide; [constructor|]. cbn zeta.
  assert (size (make_room (retain now (sender_map s))) <= size (retain now (sender_map s)))%nat as Hm
    by apply map_subseteq_size, make_room_subset.
  destruct (_ !! _), ok; cbn [fst snd]; rewrite ?Forall_cons, ?Forall_nil; unfold held_sockets; cbn [h_table in_hand];
    repeat split; lia.
Qed.

(** Only a new sender at a full table takes one more. *)
Lemma trace_full dg now ok s h :
  h ∈ datagram_trace dg now ok s -> (MAX_UDP_SENDERS < held_sockets h)%nat ->
  (size (sender_map s) <= MAX_UDP_SENDERS)%nat ->
  size (retain now (sender_map s)) = MAX_UDP_SENDERS /\
  retain now (sender_map s) !! (peer_addr dg, peer_port dg) = None.
Proof.
  intros Hin Hh Hs. pose proof (retain_size now s Hs) as Hr. pose proof (make_room_size _ Hr) as Hm.
  unfold datagram_trace, handle_datagram in Hin. case_bool_decide; [by apply elem_of_nil in Hin|]. cbn zeta in Hin.
  destruct (retain now (sender_map s) !! _) as [e|], ok; cbn [fst snd] in Hin;
    rewrite !elem_of_cons in Hin; repeat destruct Hin as [->|Hin]; try (by apply elem_of_nil in Hin);
    unfold held_sockets in Hh; cbn [h_table in_hand] in Hh; try lia; split; try done; lia.
Qed.

Lemma displaced s dg now k e :
  (size (sender_map s) <= MAX_UDP_SENDERS)%nat ->
  sender_map s !! k = Some e -> active now e = true ->
  sender_map (on_datagram dg now true s).2 !! k = None ->
  size (retain now (sender_map s)) = MAX_UDP_SENDERS /\
  forall k' e', retain now (sender_map s) !! k' = Some e' -> last_used e <= last_used e'.
Proof.
  intros Hs Hk Ha Hgone. pose proof (retain_size now s Hs) as Hle.
  assert (retain now (sender_map s) !! k = Some e) as Hr by (by apply retain_lookup).
  unfold on_datagram, handle_datagram in Hgone. case_bool_decide as Hp; [cbn in Hgone; congruence|]. cbn zeta in Hgone.
  destruct (retain now (sender_map s) !! (peer_addr dg, peer_port dg)) as [e0|] eqn:Ek; cbn in Hgone;
    apply lookup_insert_None in Hgone as [Hgone Hne]; [congruence|].
  unfold make_room in Hgone. destruct (Nat.leb_spec MAX_UDP_SENDERS (size (retain now (sender_map s)))) as [Hl|Hl];
    [|congruence].
  split; [lia|]. destruct (oldest_key_spec (retain now (sender_map s))) as (k1 & e1 & Ho & Hk1 & Hmin).
  { intros Hn. by rewrite Hn, lookup_empty in Hr. }
  rewrite Ho in Hgone. apply lookup_delete_None in Hgone as [->|Hgone]; [|congruence].
  assert (e1 = e) as -> by congruence. done.
Qed.

(** ** Properties *)

Definition sample_dg (peer : Z) : UdpDatagram := mkUdpDatagram (lit "::1") peer [1; 2].
Definition sample_udp : list udp_event :=
  [FromTunnel (sample_dg 7) 0 true; FromTunnel (sample_dg 8) 10 true; FromTarget 0%nat [9] 20;
   FromTunnel (sample_dg 7) 40000 true; FromTarget 2%nat [8] 40001; FromTarget 1%nat [5] 40002].

(** The second sender's socket has expired with it; its late reply is dropped. *)
Example sample_udp_run :
  (udp_run sample_udp no_senders).1 =
    [Sent 0 (lit "::1", 7) [1; 2]; Sent 1 (lit "::1", 8) [1; 2]; Relayed 0 (mkUdpDatagram (lit "::1") 7 [9]);
     Sent 2 (lit "::1", 7) [1; 2]; Relayed 2 (mkUdpDatagram (lit "::1") 7 [8])].
Proof. vm_compute. reflexivity. Qed.

(** C37: A flood of senders is bounded and harms as few as possible. From one datagram
    to the next the table has at most 256 senders, each with its socket; while a
    datagram is handled the task holds at most 257, and that many only when a new
    sender's socket has been bound at a table of 256 active ones and the oldest entry
    is not yet given up. A new sender displaces an active one only when 256 are active,
    and then only the one that was silent the longest. (A socket counts until its entry
    is dropped, which aborts the task that reads from it.) *)
Theorem udp_senders_bounded s :
  (size (sender_map s) <= MAX_UDP_SENDERS)%nat ->
  (forall ev, size (sender_map (udp_step ev s).2) <= MAX_UDP_SENDERS)%nat /\
  (forall dg now ok h, h ∈ datagram_trace dg now ok s ->
     (held_sockets h <= S MAX_UDP_SENDERS)%nat /\
     ((MAX_UDP_SENDERS < held_sockets h)%nat ->
      size (retain now (sender_map s)) = MAX_UDP_SENDERS /\
      retain now (sender_map s) !! (peer_addr dg, peer_port dg) = None)) /\
  (forall dg now k e,
     sender_map s !! k = Some e -> active now e = true ->
     sender_map (on_datagram dg now true s).2 !! k = None ->
     size (retain now (sender_map s)) = MAX_UDP_SENDERS /\
     forall k' e', retain now (sender_map s) !! k' = Some e' -> last_used e <= last_used e').
Proof.
  intros Hs. split; [intros ev; by apply step_size|]. split; [|intros *; by apply displaced].
  intros dg now ok h Hin. split; [|intros Hh; by eapply trace_full].
  exact (proj1 (Forall_forall _ _) (trace_size dg now ok s Hs) h Hin).
Qed.

(** A full table: 256 senders, of which number [n] was heard at time [n]. *)
Definition full_table : Senders :=
  mkSenders (list_to_map (map (fun n => (([49], Z.of_nat n), mkSender n (Z.of_nat n) 0 true)) (seq 0 256))) 256.

(** The next one has a socket besides the 256, and takes the place of the first. *)
Lemma udp_senders_bounded_witness :
  let dg := mkUdpDatagram [49] 1000 [7] in
  existsb (fun h => (held_sockets h =? 257)%nat) (datagram_trace dg 300 true full_table) = true /\
  size (sender_map (on_datagram dg 300 true full_table).2) = 256%nat /\
  forall k' e', retain 300 (sender_map full_table) !! k' = Some e' -> 0 <= last_used e'.
Proof.
  cbv zeta. split; [vm_compute; reflexivity|]. split; [vm_compute; reflexivity|].
  assert (size (sender_map full_table) <= MAX_UDP_SENDERS)%nat as Hs
    by (apply Nat.leb_le; vm_compute; reflexivity).
  destruct (udp_senders_bounded full_table Hs) as (_ & _ & Hd).
  apply (Hd (mkUdpDatagram [49] 1000 [7]) 300 ([49], 0) (mkSender 0 0 0 true)); vm_compute; reflexivity.
Defined.

(** A sender that stays active while the target is silent for the idle limit
    loses every later reply: its entry stays, its reply task is gone. *)
Example replies_lost_after_silence :
  (udp_run [FromTunnel (sample_dg 7) 0 true; FromTunnel (sample_dg 7) 20000 true;
            FromTunnel (sample_dg 7) 40000 true; FromTarget 0%nat [9] 40010] no_senders).1 =
  [Sent 0 (lit "::1", 7) [1; 2]; Sent 0 (lit "::1", 7) [1; 2]; Sent 0 (lit "::1", 7) [1; 2]].
Proof. vm_compute. reflexivity. Qed.
