(* ===== verification/LogFile.v ===== *)
(** Opening the private log file: the walk over the directories of its path and
    the checks on each of them ([verify_trusted_log_dir],
    [open_private_log_file] of [src/config.rs]).

    The file system is a tree; what a symbolic link points to does not matter,
    since every step refuses to follow one.  The decisions of the kernel's access
    control are parameters. *)
From S2P Require Import Prelude Text.

Open Scope Z_scope.
Open Scope list_scope.

(** ** The file system *)

Record attrs : Type := mkAttrs { f_uid : u32; f_mode : Z; f_nlink : Z }.

Inductive node : Type :=
| Dir (a : attrs) (entries : list (str * node))
| RegularFile (a : attrs)
| Symlink
| Special (a : attrs).

Definition set_mode (m : Z) (a : attrs) : attrs := mkAttrs (f_uid a) m (f_nlink a).

Fixpoint entry (name : str) (es : list (str * node)) : option node :=
  match es with
  | [] => None
  | (n, x) :: es => if str_eqb n name then Some x else entry name es
  end.

Fixpoint set_entry (name : str) (x : node) (es : list (str * node)) : list (str * node) :=
  match es with
  | [] => [(name, x)]
  | (n, y) :: es => if str_eqb n name then (n, x) :: es else (n, y) :: set_entry name x es
  end.

(** ** Paths *)

Inductive component : Type := Normal (part : str) | ParentDir.

(** [Path::components], less the root and [.], which the walk skips. *)
Definition components (path : str) : list component :=
  omap (fun p => if str_eqb p [] || str_eqb p (lit ".") then None
                 else if str_eqb p (lit "..") then Some ParentDir else Some (Normal p))
       (split_on SLASH path).

Definition is_absolute (path : str) : bool := starts_with [SLASH] path.

Definition file_name (path : str) : option str :=
  match last (components path) with Some (Normal f) => Some f | _ => None end.

Definition is_parent_dir (c : component) : bool := match c with ParentDir => true | _ => false end.

(** The normal components before the last. *)
Definition parent_parts (path : str) : list str :=
  omap (fun c => match c with Normal p => Some p | ParentDir => None end) (removelast (components path)).

(** ** The checks *)

Section LogFile.
(** [geteuid], the number in [/proc/sys/kernel/overflowuid], and the umask. *)
Context (euid : u32) (overflowuid : option u32) (umask : Z).
(** Whether the kernel lets the process open a directory or a file with these
    attributes, and create an entry in a directory. *)
Context (may_open may_create : attrs -> bool).
(** Whether [fchmod] succeeds; the code ignores that it fails. *)
Context (chmod_ok : attrs -> bool).

(** [let _ = file.set_permissions(..)]. *)
Definition set_permissions (m : Z) (a : attrs) : attrs := if chmod_ok a then set_mode m a else a.

Definition is_root_or_userns_overflow_uid (uid : u32) : bool :=
  (uid =? 0) || match overflowuid with Some o => uid =? o | None => false end.

(** The new value of [under_sticky_dir]. *)
Definition verify_trusted_log_dir (n : node) (under_sticky_dir : bool) : result bool ErrorKind :=
  match n with
  | Dir a _ =>
    let uid := f_uid a in
    let mode := Z.land (f_mode a) 4095 in
    if under_sticky_dir then
      if negb (uid =? euid) || negb (Z.land mode 63 =? 0) then Err PermissionDenied else Ok true
    else if (Z.land mode 18 =? 0) && ((uid =? euid) || is_root_or_userns_overflow_uid uid) then Ok false
    else if negb (Z.land mode 512 =? 0) && is_root_or_userns_overflow_uid uid then Ok true
    else Err PermissionDenied
  | _ => Err PermissionDenied
  end.

(** [openat] with [O_DIRECTORY | O_NOFOLLOW]. *)
Definition open_dir (x : option node) : result (attrs * list (str * node)) ErrorKind :=
  match x with
  | Some (Dir a es) => if may_open a then Ok (a, es) else Err PermissionDenied
  | Some _ => Err OtherKind
  | None => Err NotFound
  end.

(** The directory named [part], made if there is none; the entries afterwards
    and whether it was made. *)
Definition open_or_make (part : str) (a : attrs) (es : list (str * node))
    : result (attrs * list (str * node)) ErrorKind * list (str * node) * bool :=
  match open_dir (entry part es) with
  | Ok d => (Ok d, es, false)
  | Err NotFound =>
    if may_create a then
      let es := set_entry part (Dir (mkAttrs euid (Z.ldiff 448 umask) 2) []) es in
      (open_dir (entry part es), es, true)
    else (Err PermissionDenied, es, false)
  | Err e => (Err e, es, false)
  end.

(** The checks on the file that was opened, and its mode afterwards. *)
Definition accept_file (name : str) (f : attrs) (es : list (str * node))
    : result attrs ErrorKind * list (str * node) :=
  if negb (f_uid f =? euid) || negb (f_nlink f =? 1) then (Err PermissionDenied, es)
  else let f := set_permissions 384 f in (Ok f, set_entry name (RegularFile f) es).

(** The log file itself, in a directory that has passed the checks: [openat] with
    [O_CREAT | O_NOFOLLOW] and the mode 0600, of which the umask takes its bits. *)
Definition open_log (name : str) (a : attrs) (es : list (str * node))
    : result attrs ErrorKind * list (str * node) :=
  match entry name es with
  | None =>
    if may_create a then
      let f := mkAttrs euid (Z.ldiff 384 umask) 1 in accept_file name f (set_entry name (RegularFile f) es)
    else (Err PermissionDenied, es)
  | Some (RegularFile f) => if may_open f then accept_file name f es else (Err PermissionDenied, es)
  | Some (Special f) => (Err (if may_open f then PermissionDenied else OtherKind), es)
  | Some _ => (Err OtherKind, es)
  end.

(** From a verified directory down the remaining parts. *)
Fixpoint walk (parts : list str) (name : str) (under_sticky_dir : bool) (a : attrs)
    (es : list (str * node)) : result attrs ErrorKind * list (str * node) :=
  match parts with
  | [] => open_log name a es
  | part :: parts =>
    match open_or_make part a es with
    | (Err e, es, _) => (Err e, es)
    | (Ok (a', es'), es, created) =>
      let a' := if created then set_permissions 448 a' else a' in
      match verify_trusted_log_dir (Dir a' es') under_sticky_dir with
      | Err e => (Err e, set_entry part (Dir a' es') es)
      | Ok under =>
        let '(r, es') := walk parts name under a' es' in (r, set_entry part (Dir a' es') es)
      end
    end
  end.

(** [root] and [cwd] are the directories an absolute and a relative path start
    from; the result has the start directory after the call. *)
Definition open_private_log_file (log_path : str) (root cwd : node) : result attrs ErrorKind * node :=
  let start := if is_absolute log_path then root else cwd in
  match file_name log_path with
  | None => (Err InvalidInput, start)
  | Some name =>
    if existsb is_parent_dir (components log_path) then (Err PermissionDenied, start)
    else match open_dir (Some start) with
    | Err e => (Err e, start)
    | Ok (a, es) =>
      match verify_trusted_log_dir start false with
      | Err e => (Err e, start)
      | Ok under =>
        let '(r, es) := walk (parent_parts log_path) name under a es in (r, Dir a es)
      end
    end
  end.

(** ** What the result guarantees *)

(** The directories of a path, without following a link. *)
Fixpoint resolve (parts : list str) (n : node) : option (list attrs * node) :=
  match n with
  | Dir a es =>
    match parts with
    | [] => Some ([a], n)
    | p :: parts =>
      match entry p es with
      | Some x => match resolve parts x with Some (l, d) => Some (a :: l, d) | None => None end
      | None => None
      end
    end
  | _ => None
  end.

(** Nobody but the user and root can rename or replace an entry of the
    directory. *)
Definition protected (a : attrs) : Prop :=
  Z.land (Z.land (f_mode a) 4095) 18 = 0 /\ (f_uid a = euid \/ is_root_or_userns_overflow_uid (f_uid a) = true).

Definition root_sticky (a : attrs) : Prop :=
  Z.land (Z.land (f_mode a) 4095) 512 <> 0 /\ is_root_or_userns_overflow_uid (f_uid a) = true.

Definition private (a : attrs) : Prop :=
  f_uid a = euid /\ Z.land (Z.land (f_mode a) 4095) 63 = 0.

(** Protected directories, then possibly a sticky directory of root's below
    which everything is private to the user. *)
Definition trusted_chain (under : bool) (l : list attrs) : Prop :=
  if under then Forall private l
  else Forall protected l \/
    exists l1 s l2, l = l1 ++ s :: l2 /\ Forall protected l1 /\ root_sticky s /\ Forall private l2.

Lemma entry_set name x es : entry name (set_entry name x es) = Some x.
Proof.
  induction es as [|[n y] es IH]; cbn.
  - unfold str_eqb. by rewrite bool_decide_eq_true_2.
  - destruct (str_eqb n name) eqn:E; cbn; by rewrite E.
Qed.

Lemma verify_spec a es under under' :
  verify_trusted_log_dir (Dir a es) under = Ok under' ->
  forall l, trusted_chain under' l -> trusted_chain under (a :: l).
Proof.
  unfold verify_trusted_log_dir, trusted_chain. intros Hv l Hl. destruct under.
  - destruct (Z.eqb_spec (f_uid a) euid), (Z.eqb_spec (Z.land (Z.land (f_mode a) 4095) 63) 0);
      cbn in Hv; simplify_eq. constructor; [by split|done].
  - destruct (_ && _) eqn:E1 in Hv.
    + simplify_eq. apply andb_true_iff in E1 as [H1 H2]. apply Z.eqb_eq in H1.
      assert (protected a) as Ha.
      { split; [done|]. apply orb_true_iff in H2 as [H2|H2]; [left; by apply Z.eqb_eq|by right]. }
      destruct Hl as [Hl|(l1 & s & l2 & -> & H3 & H4 & H5)]; [left; by constructor|right].
      exists (a :: l1), s, l2. split_and!; try done. by constructor.
    + destruct (_ && _) eqn:E2 in Hv; simplify_eq. apply andb_true_iff in E2 as [H1 H2].
      right. exists [], a, l. split_and!; try done. split; [|done].
      apply negb_true_iff in H1. by apply Z.eqb_neq in H1.
Qed.

(** The entry of the log file: a regular file of the user's with no second name, of
    the mode 0600 unless that could not be set. *)
Record log_entry (name : str) (es : list (str * node)) (f : attrs) : Prop := {
  log_is_entry : entry name es = Some (RegularFile f);
  log_owner : f_uid f = euid;
  log_one_name : f_nlink f = 1;
  log_mode : f_mode f = 384 \/ chmod_ok f = false
}.

(** The log file opened at the end of a path. *)
Definition opened_at (parts : list str) (name : str) (under : bool) (n : node) (f : attrs) : Prop :=
  exists l a es, resolve parts n = Some (l, Dir a es) /\ trusted_chain under (tail l) /\
    log_entry name es f.

Lemma accept_file_spec name g es f es' :
  accept_file name g es = (Ok f, es') -> log_entry name es' f.
Proof.
  unfold accept_file. destruct (Z.eqb_spec (f_uid g) euid), (Z.eqb_spec (f_nlink g) 1); cbn; try done.
  unfold set_permissions. destruct (chmod_ok g) eqn:Ec; intros [= <- <-]; split; try done; try apply entry_set.
  - by left.
  - by right.
Qed.

Lemma open_log_spec name a es f es' : open_log name a es = (Ok f, es') -> log_entry name es' f.
Proof.
  unfold open_log. destruct (entry name es) as [[| g | |]|]; try done.
  - destruct (may_open g); [apply accept_file_spec|done].
  - destruct (may_create a); [apply accept_file_spec|done].
Qed.

Lemma walk_spec parts name under a es f es' :
  walk parts name under a es = (Ok f, es') ->
  opened_at parts name under (Dir a es') f.
Proof.
  revert under a es es'. induction parts as [|part parts IH]; intros under a es es' Hw; cbn [walk] in Hw.
  { apply open_log_spec in Hw. exists [a], a, es'. split_and!; try done.
    unfold trusted_chain. destruct under; [constructor|left; constructor]. }
  destruct (open_or_make part a es) as [[[[a1 es1]|e] es2] created]; [|done].
  set (a2 := if created then set_permissions 448 a1 else a1) in *.
  destruct (verify_trusted_log_dir (Dir a2 es1) under) as [under'|e] eqn:Ev; [|done].
  destruct (walk parts name under' a2 es1) as [r es3] eqn:Ew. simplify_eq.
  destruct (IH _ _ _ _ Ew) as (l & d & des & Hres & Htr & Hf).
  exists (a :: l), d, des. split_and!; try apply Hf.
  - cbn [resolve]. by rewrite entry_set, Hres.
  - cbn [tail]. destruct l as [|x l].
    { destruct parts; cbn in Hres; repeat case_match; done. }
    assert (x = a2) as ->. { destruct parts; cbn in Hres; repeat case_match; by simplify_eq. }
    by eapply verify_spec.
Qed.
End LogFile.

(** ** Properties *)

(** C35: A log file is opened only where nobody can have planted it. Every directory
    on its path is a real directory, owned by a trusted user and not writable by others,
    or a sticky directory of the system's, below which all are private to the user.
    Trusted are the user, and the system: root or the kernel's overflow user, which
    owns what root owns outside of a user namespace. The file is a regular file of the
    user's with no second name, and readable by the user alone unless its mode could
    not be set, which the code ignores. *)
Theorem log_file_trusted euid overflowuid umask may_open may_create chmod_ok log_path root cwd f start :
  open_private_log_file euid overflowuid umask may_open may_create chmod_ok log_path root cwd = (Ok f, start) ->
  exists name l a es, file_name log_path = Some name /\
    (ParentDir ∉ components log_path) /\
    resolve (parent_parts log_path) start = Some (l, Dir a es) /\
    trusted_chain euid overflowuid false l /\
    log_entry euid chmod_ok name es f.
Proof.
  unfold open_private_log_file. set (st := if is_absolute log_path then root else cwd).
  destruct (file_name log_path) as [name|]; [|done].
  destruct (existsb is_parent_dir (components log_path)) eqn:Ep; [done|].
  destruct (open_dir may_open (Some st)) as [[a es]|e] eqn:Eo; [|done].
  assert (st = Dir a es) as Hst.
  { unfold open_dir in Eo. destruct st; try done. destruct (may_open a0); by simplify_eq. }
  rewrite Hst. destruct (verify_trusted_log_dir euid overflowuid (Dir a es) false) as [under|e] eqn:Ev; [|done].
  destruct (walk _ _ _ _ _ _ (parent_parts log_path) name under a es) as [r es'] eqn:Ew. intros [= -> <-].
  apply walk_spec in Ew as (l & d & des & Hres & Htr & Hf). exists name, l, d, des.
  split_and!; try done; try apply Hf.
  - intros Hin. apply list_elem_of_In in Hin.
    assert (existsb is_parent_dir (components log_path) = true) as Hx by (apply existsb_exists; by exists ParentDir).
    congruence.
  - destruct l as [|x l]; [destruct (parent_parts log_path); cbn in Hres; repeat case_match; done|].
    assert (x = a) as -> by (destruct (parent_parts log_path); cbn in Hres; repeat case_match; by simplify_eq).
    by eapply verify_spec.
Qed.

(** In a user namespace: what root owns is shown as the overflow user's. *)
Definition sample_root : node :=
  Dir (mkAttrs 65534 493 2) [(lit "tmp", Dir (mkAttrs 65534 1023 2) [(lit "evil", Symlink)])].

Definition sample_open (path : str) : result attrs ErrorKind * node :=
  open_private_log_file 1000 (Some 65534) 18 (fun _ => true) (fun _ => true) (fun _ => true) path sample_root sample_root.

Lemma log_file_trusted_witness :
  (sample_open (lit "/tmp/etr-1000/etr.log")).1 = Ok (mkAttrs 1000 384 1) /\
  exists name l a es, file_name (lit "/tmp/etr-1000/etr.log") = Some name /\
    resolve (parent_parts (lit "/tmp/etr-1000/etr.log")) (sample_open (lit "/tmp/etr-1000/etr.log")).2 = Some (l, Dir a es) /\
    trusted_chain 1000 (Some 65534) false l.
Proof.
  destruct (sample_open (lit "/tmp/etr-1000/etr.log")) as [r start] eqn:E.
  assert (r = Ok (mkAttrs 1000 384 1)) as Hr by (vm_compute in E; injection E as <- _; reflexivity).
  rewrite Hr in E |- *. split; [reflexivity|].
  destruct (log_file_trusted _ _ _ _ _ _ _ _ _ _ _ E) as (name & l & a & es & H1 & _ & H2 & H3 & _).
  exists name, l, a, es. split; [exact H1|]. split; [exact H2|exact H3].
Defined.

(** A link or another user's directory in the sticky directory is refused. *)
Example planted_link_refused : (sample_open (lit "/tmp/evil/etr.log")).1 = Err OtherKind.
Proof. reflexivity. Qed.

(** Outside of a user namespace the overflow user is an ordinary one ([nobody]), whose
    directories are trusted all the same. *)
Example overflow_user_trusted :
  (open_private_log_file 1000 (Some 65534) 18 (fun _ => true) (fun _ => true) (fun _ => true) (lit "/var/nobody/etr.log")
     (Dir (mkAttrs 0 493 2) [(lit "var", Dir (mkAttrs 0 493 2)
        [(lit "nobody", Dir (mkAttrs 65534 493 2) [(lit "etr.log", RegularFile (mkAttrs 1000 420 1))])])]) Symlink).1 =
  Ok (mkAttrs 1000 384 1).
Proof. reflexivity. Qed.
