(* ===== verification/Settings.v ===== *)
(** From the command line and the configuration file to the bootstrap: the
    options the client settles on and what it starts ([main] and the [ssh]
    command of [bootstrap_ssh], [src/bin/etr.rs]; [ClientConfig],
    [src/config.rs]).

    Parsing the command line is the [clap] crate's and parsing the file the
    [toml] crate's: both appear as the records they fill.  The environment and
    name resolution are parameters. *)
From S2P Require Import Prelude Text Protocol Ip Addrfam Forward Hex X11 ShellQuote Bootstrap.

Open Scope Z_scope.
Open Scope list_scope.

(** ** Inputs *)

Record Cli : Type := mkCli {
  cli_target : option str;
  cli_ssh_port : option u16;
  cli_verbose : nat;
  cli_prefer_ipv4 : bool;
  cli_prefer_ipv6 : bool;
  cli_server_path : option str;
  cli_forward : list str;
  cli_reverse_forward : list str;
  cli_gateway_ports : bool;
  cli_server_log_path : option str;
  cli_env : list str;
  cli_x11 : bool;
  cli_x11_trusted : bool;
  cli_command : list str
}.

Record ClientConfig : Type := mkClientConfig {
  cfg_ssh_port : option u16;
  cfg_server_path : option str;
  cfg_address_family : option str;
  cfg_log_path : option str;
  cfg_server_log_path : option str;
  cfg_gateway_ports : option bool;
  cfg_forward : option (list str);
  cfg_reverse_forward : option (list str);
  cfg_env : option (list str);
  cfg_x11 : option bool;
  cfg_x11_trusted : option bool
}.

(** What [main] hands to [bootstrap_ssh] and [run_connection_loop]. *)
Record Settings : Type := mkSettings {
  st_target : str;
  st_ssh_port : u16;
  st_addr_pref : AddrPref;
  st_server_path : str;
  st_server_log_path : option str;
  st_forward_specs : list ForwardSpec;
  st_reverse_forward_specs : list str;
  st_gateway_ports : bool;
  st_env_vars : list str;
  st_term : str;
  st_remote_command : option str;
  st_ssh_family_flag : option str;
  st_x11_enabled : bool;
  st_x11_trusted : bool;
  st_verbose : nat
}.

(** [PrintHelp] and [BadSpec] return from [main] without a session. *)
Inductive startup : Type := PrintHelp | BadSpec (e : SpecError) | Start (s : Settings).

(** ** Options *)

(** Command-line entries replace those of the file. *)
Definition list_option (cli : list str) (cfg : option (list str)) : list str :=
  match cli with
  | _ :: _ => cli
  | [] => match cfg with Some list => list | None => cli end
  end.

(** The loop over [-L] specifications; the first bad one ends it. *)
Fixpoint parse_specs (l : list str) : result (list ForwardSpec) SpecError :=
  match l with
  | [] => Ok []
  | s :: l =>
    match parse s with
    | Ok spec => match parse_specs l with Ok specs => Ok (spec :: specs) | Err e => Err e end
    | Err e => Err e
    end
  end.

Definition locale_keys : list str :=
  [lit "LANG"; lit "LC_ALL"; lit "LC_CTYPE"; lit "LC_COLLATE"; lit "LC_MESSAGES"; lit "LC_MONETARY";
   lit "LC_NUMERIC"; lit "LC_TIME"; lit "COLORTERM"; lit "TERM_PROGRAM"; lit "TERM_PROGRAM_VERSION"].

Definition AT : char := 64.

(** The part after the first [@]. *)
Definition host_for_lookup (target : str) : str :=
  match split_once AT target with Some (_, host) => host | None => target end.

Section Main.
(** [std::env::var] and [family_available]. *)
Context (getenv : str -> option str) (available : str -> AddrPref -> bool).

(** [--env] entries; bare keys take their value from the local environment. *)
Definition explicit_env (raw_env : list str) : list str :=
  omap (fun e => if contains_char EQUALS e then Some e
                 else (fun v => e ++ [EQUALS] ++ v) <$> getenv e) raw_env.

Definition locale_prefix (env_vars : list str) : list str :=
  omap (fun k =>
    if existsb (starts_with (k ++ [EQUALS])) env_vars then None
    else match getenv k with
    | Some v => if contains_any control_chars v then None else Some (k ++ [EQUALS] ++ v)
    | None => None
    end) locale_keys.

Definition env_vars (raw_env : list str) : list str :=
  let env_vars := explicit_env raw_env in locale_prefix env_vars ++ env_vars.

Definition term : str :=
  match getenv (lit "TERM") with
  | Some t => if contains_any control_chars t then lit "xterm-256color" else t
  | None => lit "xterm-256color"
  end.

Definition ssh_family_flag (target : str) (ssh_port : u16) (addr_pref : AddrPref) : option str :=
  match addr_pref with
  | Auto => None
  | _ =>
    if available (host_for_lookup target ++ [COLON] ++ dec ssh_port) addr_pref
    then ssh_flag addr_pref else None
  end.

Definition settings (cli : Cli) (cfg : ClientConfig) : startup :=
  match cli_target cli with
  | None => PrintHelp
  | Some target =>
    let ssh_port := default (default 22 (cfg_ssh_port cfg)) (cli_ssh_port cli) in
    let addr_pref := pref_or (from_flags (cli_prefer_ipv4 cli) (cli_prefer_ipv6 cli))
                             (from_config (cfg_address_family cfg)) in
    let server_path := default (default (lit "etrs") (cfg_server_path cfg)) (cli_server_path cli) in
    match parse_specs (list_option (cli_forward cli) (cfg_forward cfg)) with
    | Err e => BadSpec e
    | Ok forward_specs =>
      let reverse_forwards := list_option (cli_reverse_forward cli) (cfg_reverse_forward cfg) in
      match parse_specs reverse_forwards with
      | Err e => BadSpec e
      | Ok _ =>
        let x11_trusted := cli_x11_trusted cli || default false (cfg_x11_trusted cfg) in
        let remote_command := join [SPACE] (cli_command cli) in
        Start {|
          st_target := target;
          st_ssh_port := ssh_port;
          st_addr_pref := addr_pref;
          st_server_path := server_path;
          st_server_log_path :=
            match cli_server_log_path cli with Some p => Some p | None => cfg_server_log_path cfg end;
          st_forward_specs := forward_specs;
          st_reverse_forward_specs := reverse_forwards;
          st_gateway_ports := if cli_gateway_ports cli then true else default false (cfg_gateway_ports cfg);
          st_env_vars := env_vars (match cli_env cli with [] => default [] (cfg_env cfg) | l => l end);
          st_term := term;
          st_remote_command := if bool_decide (remote_command = []) then None else Some remote_command;
          st_ssh_family_flag := ssh_family_flag target ssh_port addr_pref;
          st_x11_enabled := cli_x11 cli || default false (cfg_x11 cfg) || x11_trusted;
          st_x11_trusted := x11_trusted;
          st_verbose := cli_verbose cli |}
      end
    end
  end.
End Main.

(** The arguments of [ssh]. *)
Definition ssh_args (s : Settings) : list str :=
  [lit "-p"; dec (st_ssh_port s)] ++
  match st_ssh_family_flag s with Some flag => [flag] | None => [] end ++
  [lit "--"; st_target s] ++
  remote_args (st_server_path s) (st_server_log_path s) (st_verbose s).

(** What [bootstrap_ssh] starts and writes, once it has checked its inputs. *)
Definition bootstrap_ssh (session_id : list u8) (passkey : str) (s : Settings)
    : result (list str * str) ErrorKind :=
  let? text := bootstrap_stdin (st_target s) session_id passkey (st_term s) (st_env_vars s)
                 (st_remote_command s) (st_x11_enabled s) (st_addr_pref s) in
  Ok (ssh_args s, text).

(** ** Lemmas *)

Lemma starts_with_app p s : starts_with p (p ++ s) = true.
Proof. apply starts_with_spec. by eexists. Qed.

Lemma control_free_app a b :
  contains_any control_chars (a ++ b) = contains_any control_chars a || contains_any control_chars b.
Proof. unfold contains_any. apply existsb_app. Qed.

Section Env.
Context (getenv : str -> option str).

Lemma explicit_has_equals raw e : e ∈ explicit_env getenv raw -> EQUALS ∈ e.
Proof.
  unfold explicit_env. intros (x & Hx & He)%list_elem_of_omap.
  destruct (contains_char EQUALS x) eqn:E; simplify_eq.
  - by apply contains_char_spec.
  - destruct (getenv x) as [v|]; simplify_eq/=. rewrite elem_of_app. right. by left.
Qed.

(** A locale entry: one of the keys with the local value. *)
Lemma locale_spec vars e :
  e ∈ locale_prefix getenv vars ->
  exists k v, k ∈ locale_keys /\ e = k ++ [EQUALS] ++ v /\ contains_any control_chars e = false /\
    forall e', e' ∈ vars -> starts_with (k ++ [EQUALS]) e' = false.
Proof.
  unfold locale_prefix. intros (k & Hk & He)%list_elem_of_omap.
  destruct (existsb _ vars) eqn:Ev; [done|]. destruct (getenv k) as [v|]; [|done].
  destruct (contains_any control_chars v) eqn:Ec; simplify_eq. exists k, v. split_and!; try done.
  - rewrite app_assoc, control_free_app, Ec, orb_false_r.
    assert (forallb (fun k => negb (contains_any control_chars (k ++ [EQUALS]))) locale_keys = true) as Hall
      by (vm_compute; reflexivity).
    rewrite forallb_forall in Hall. apply list_elem_of_In in Hk. apply Hall in Hk. by apply negb_true_iff in Hk.
  - intros e' He'. destruct (starts_with (k ++ [EQUALS]) e') eqn:E; [|done]. exfalso.
    assert (existsb (starts_with (k ++ [EQUALS])) vars = true) as Hx.
    { apply existsb_exists. exists e'. split; [by apply list_elem_of_In|done]. }
    congruence.
Qed.

Lemma locale_line k v : k ∈ locale_keys -> parse_bootstrap_line (k ++ v) = LEnv (k ++ v).
Proof.
  intros Hk. unfold locale_keys in Hk.
  repeat (apply elem_of_cons in Hk as [-> |Hk]; [reflexivity|]). by apply elem_of_nil in Hk.
Qed.

Lemma term_no_control : contains_any control_chars (term getenv) = false.
Proof. unfold term. destruct (getenv _) as [t|]; [|reflexivity]. by destruct (contains_any _ t) eqn:E. Qed.
End Env.

(** ** Properties *)

(** The entries the user asked for. *)
Definition asked_env (getenv : str -> option str) (cli : Cli) (cfg : ClientConfig) : list str :=
  explicit_env getenv (match cli_env cli with [] => default [] (cfg_env cfg) | l => l end).

Lemma settings_env getenv available cli cfg s :
  settings getenv available cli cfg = Start s ->
  st_env_vars s = locale_prefix getenv (asked_env getenv cli cfg) ++ asked_env getenv cli cfg /\
  st_term s = term getenv.
Proof.
  unfold settings. destruct (cli_target cli); [|done].
  destruct (parse_specs _) as [specs|e]; [|done].
  destruct (parse_specs (list_option (cli_reverse_forward cli) _)) as [rspecs|e]; [|done].
  by intros [= <-].
Qed.

(** From the options to what the server has read. *)
Lemma request_trip getenv available cli cfg s id passkey :
  settings getenv available cli cfg = Start s ->
  length id = 16%nat -> Forall is_byte id ->
  Forall (fun c => is_ascii_alphanumeric c = true) passkey ->
  SLASH ∉ st_term s -> last_visible (st_term s) ->
  st_target s <> [] -> starts_with (lit "-") (st_target s) = false ->
  Forall (fun e => contains_any control_chars e = false /\ parse_bootstrap_line e = LEnv e)
    (asked_env getenv cli cfg) ->
  match st_remote_command s with Some cmd => contains_any control_chars cmd = false | None => True end ->
  (exists locale, st_env_vars s = locale ++ asked_env getenv cli cfg /\
     forall e, e ∈ locale -> exists k v, k ∈ locale_keys /\ e = k ++ [EQUALS] ++ v /\
       forall e', e' ∈ asked_env getenv cli cfg -> starts_with (k ++ [EQUALS]) e' = false) /\
  exists text, bootstrap_ssh id passkey s = Ok (ssh_args s, text) /\
    parse_bootstrap text = Ret (Ok (mkRequest id passkey (st_term s) (st_env_vars s)
      (st_remote_command s) (st_x11_enabled s) (st_addr_pref s))).
Proof.
  intros Hs Hlen Hid Hpk Hsl Hlast Ht1 Ht2 Hasked Hcmd.
  destruct (settings_env _ _ _ _ _ Hs) as [Henv Hterm]. split.
  { exists (locale_prefix getenv (asked_env getenv cli cfg)). split; [done|].
    intros e He. apply locale_spec in He as (k & v & Hk & -> & _ & Hno). by exists k, v. }
  assert (Forall (fun e => contains_any control_chars e = false /\ e <> [] /\ parse_bootstrap_line e = LEnv e)
    (st_env_vars s)) as Hall.
  { rewrite Henv. apply Forall_app. split; apply Forall_forall.
    - intros e He. apply locale_spec in He as (k & v & Hk & -> & Hc & _). split_and!; [done| |by apply locale_line].
      by destruct k.
    - intros e He. pose proof (proj1 (Forall_forall _ _) Hasked _ He) as [Hc Hl]. split_and!; try done.
      intros ->. by apply explicit_has_equals, elem_of_nil in He. }
  destruct (bootstrap_trip (st_target s) id passkey (st_term s) (st_env_vars s) (st_remote_command s)
    (st_x11_enabled s) (st_addr_pref s)) as (text & Htext & Hparse); try done.
  - eapply Forall_impl; [exact Hall|]. cbn. intuition congruence.
  - unfold validate_bootstrap_inputs. rewrite bool_decide_eq_false_2, Ht2 by done. cbn [orb].
    rewrite Hterm, term_no_control.
    assert (existsb (contains_any control_chars) (st_env_vars s) = false) as ->.
    { destruct (existsb _ _) eqn:E; [|done]. apply existsb_exists in E as (e & He & Hc).
      apply list_elem_of_In in He. pose proof (proj1 (Forall_forall _ _) Hall _ He) as [Hn _]. cbn in Hn. congruence. }
    destruct (st_remote_command s); [by rewrite Hcmd|done].
  - exists text. split; [|done]. unfold bootstrap_ssh. by rewrite Htext.
Qed.

(** What the user asked for is what the server gets, from the command line
    and the configuration file of the client to the request the server parses:
    the environment is the locale variables that the user did not set, then the
    user's own entries in order, and command, TERM, X11 and address family
    arrive unchanged.  The conditions are on the user's own input: no control
    characters, no entry that begins like one of the control lines. *)
Theorem request_received getenv available cli cfg s id passkey :
  settings getenv available cli cfg = Start s ->
  length id = 16%nat -> Forall is_byte id ->
  Forall (fun c => is_ascii_alphanumeric c = true) passkey ->
  SLASH ∉ st_term s -> last_visible (st_term s) ->
  st_target s <> [] -> starts_with (lit "-") (st_target s) = false ->
  Forall (fun e => contains_any control_chars e = false /\ parse_bootstrap_line e = LEnv e)
    (asked_env getenv cli cfg) ->
  match st_remote_command s with Some cmd => contains_any control_chars cmd = false | None => True end ->
  (exists locale, st_env_vars s = locale ++ asked_env getenv cli cfg /\
     forall e, e ∈ locale -> exists k v, k ∈ locale_keys /\ e = k ++ [EQUALS] ++ v /\
       forall e', e' ∈ asked_env getenv cli cfg -> starts_with (k ++ [EQUALS]) e' = false) /\
  exists text, bootstrap_ssh id passkey s = Ok (ssh_args s, text) /\
    parse_bootstrap text = Ret (Ok (mkRequest id passkey (st_term s) (st_env_vars s)
      (st_remote_command s) (st_x11_enabled s) (st_addr_pref s))).
Proof. apply request_trip. Qed.

Definition sample_cli : Cli :=
  mkCli (Some (lit "me@host")) None 1 false true None [lit "8080:db:5432"] [] false None
    [lit "EDITOR"; lit "LANG=C"] false false [lit "ls"; lit "-l"].
Definition sample_cfg : ClientConfig :=
  mkClientConfig (Some 2222) None None None None None None None None None (Some true).
Definition sample_getenv (k : str) : option str :=
  if str_eqb k (lit "TERM") then Some (lit "xterm")
  else if str_eqb k (lit "EDITOR") then Some (lit "vi")
  else if str_eqb k (lit "LANG") then Some (lit "de_DE")
  else if str_eqb k (lit "LC_TIME") then Some (lit "C") else None.

Lemma request_received_witness :
  exists s, settings sample_getenv (fun _ _ => true) sample_cli sample_cfg = Start s /\
    st_env_vars s = [lit "LC_TIME=C"; lit "EDITOR=vi"; lit "LANG=C"] /\
    exists text, bootstrap_ssh (repeat 171 16) (lit "Zx9") s = Ok (ssh_args s, text) /\
      parse_bootstrap text = Ret (Ok (mkRequest (repeat 171 16) (lit "Zx9") (st_term s) (st_env_vars s)
        (st_remote_command s) (st_x11_enabled s) (st_addr_pref s))).
Proof.
  destruct (settings sample_getenv (fun _ _ => true) sample_cli sample_cfg) as [|e|s] eqn:E;
    [vm_compute in E; discriminate E..|].
  exists s. split; [reflexivity|].
  pose proof E as E'. vm_compute in E'. injection E' as E'.
  split; [rewrite <- E'; reflexivity|].
  apply (proj2 (request_received sample_getenv (fun _ _ => true) sample_cli sample_cfg s (repeat 171 16) (lit "Zx9") E
    ltac:(reflexivity) ltac:(repeat constructor; discriminate) ltac:(repeat constructor)
    ltac:(rewrite <- E'; apply (bool_decide_unpack (SLASH ∉ _)); vm_compute; exact I)
    ltac:(rewrite <- E'; reflexivity) ltac:(rewrite <- E'; discriminate) ltac:(rewrite <- E'; reflexivity)
    ltac:(repeat constructor) ltac:(rewrite <- E'; reflexivity))).
Defined.
