(* ===== verification/Tunnel.v ===== *)
(** Forwarded streams: the header that the accepting end writes, what the other
    end makes of it, and the pipe between a socket and a stream
    ([run_tcp_acceptor_quic], [run_udp_forward_client_socket], the reverse
    acceptor, [connect_local_x11] and [run_tcp_connection_quic] of
    [src/bin/etr.rs]; [run_tcp_reverse_listener],
    [run_udp_reverse_listener_socket], [serve_tcp_forward] and [pipe_tcp_quic] of
    [src/bin/etrs.rs]). *)
From S2P Require Import Prelude Text Protocol Stream Utf8 Proto Quic Forward X11 Connection X11Setup.

Open Scope Z_scope.
Open Scope list_scope.

(** ** Opening *)

(** The [StreamOpen] of a specification, the same at both ends. *)
Definition forward_open (spec : ForwardSpec) : StreamOpen :=
  mkStreamOpen 0 (StreamType_as_i32 PortForward) (remote_host spec) (remote_port spec)
    (ForwardProto_as_i32 (proto spec)).

(** [format!("{}:{}", so.remote_host, so.remote_port)]. *)
Definition target_addr (so : StreamOpen) : str :=
  open_remote_host so ++ [COLON] ++ dec (open_remote_port so).

(** The listeners of a specification that can be bound; none at all ends the
    task. *)
Definition bind_listeners (bind_ok : str -> bool) (gateway : bool) (spec : ForwardSpec) : option (list str) :=
  match List.filter bind_ok (map (fun addr => addr ++ [COLON] ++ dec (local_port spec))
                               (get_bind_addresses gateway spec)) with
  | [] => None
  | listeners => Some listeners
  end.

Section Tunnel.
Context {C : EnvelopeCodec}.

(** The tag and the header, on the stream of an accepted connection. *)
Definition open_forward (spec : ForwardSpec) (quic_send : SendStream) : result SendStream ErrorKind :=
  let? s := write_all [TAG_FORWARD] quic_send in
  write_msg (stream_open (forward_open spec)) s.

(** ** The reverse acceptor of the client *)

Inductive x11_target : Type := XUnixPath (path : str) | XTcpAddr (addr : str).

(** [connect_local_x11]: where it connects. *)
Definition x11_connect_target (display_str : str) : result x11_target ErrorKind :=
  match parse_display display_str with
  | Err _ => Err InvalidInput
  | Ok (XUnix n) => Ok (XUnixPath (lit "/tmp/.X11-unix/X" ++ dec n))
  | Ok (XPath p) => Ok (XUnixPath p)
  | Ok (XTcp host port) => Ok (XTcpAddr (host ++ [COLON] ++ dec port))
  end.

(** What becomes of a stream that the server opens: it is dropped, finished at
    once, or connected to a local target, with the bytes that follow. *)
Inductive reverse_action : Type :=
| Dropped
| Refused
| ToX11 (t : x11_target) (rest : RecvStream)
| ToTcp (addr : str) (rest : RecvStream)
| ToUdp (addr : str) (rest : RecvStream).

Definition reverse_accept (x11_enabled : bool) (specs : list ForwardSpec) (display : option str)
    (quic_recv : RecvStream) : reverse_action :=
  match read_tag quic_recv with
  | Err _ => Dropped
  | Ok (tag, quic_recv) =>
    if negb (tag =? TAG_FORWARD) then Dropped
    else match read_msg quic_recv with
    | Ok (Some env, quic_recv) =>
      match payload env with
      | Some (PStreamOpen so) =>
        if negb (is_authorized_reverse_stream so x11_enabled specs) then Refused
        else if open_stream_type so =? StreamType_as_i32 X11 then
          match display with
          | None => Refused
          | Some d => match x11_connect_target d with Ok t => ToX11 t quic_recv | Err _ => Refused end
          end
        else match default Tcp (ForwardProto_try_from (open_forward_proto so)) with
        | Tcp => ToTcp (target_addr so) quic_recv
        | Udp => ToUdp (target_addr so) quic_recv
        end
      | _ => Dropped
      end
    | _ => Dropped
    end
  end.
End Tunnel.

(** ** The pipe *)

(** One direction, a task of its own: what is still to be read, how its source
    ends ([source_closed] tells that it does, after these bytes), what is left of
    the buffer that the task is writing, what it has written, and how it has
    ended. *)
Inductive direction_end : Type := SourceEnded | ReadFailed | WriteFailed.

Record Direction : Type := mkDirection {
  source : list u8;
  source_closed : bool;
  hand : list u8;
  sink : list u8;
  ended : option direction_end
}.

(** [t1] goes from the socket to the stream ([up]) and [t2] from the stream to the
    socket; [closed] once the [select!] has returned and both are aborted. *)
Record Pipe : Type := mkPipe { up : Direction; down : Direction; closed : bool }.

Definition BUF : nat := Z.to_nat (256 * 1024).

Inductive direction_label : Type :=
| Read (n : nat)    (* a read that returns [n] bytes *)
| ReadNothing       (* a read of the QUIC stream that returns [Some(0)]: [continue] *)
| Write (n : nat)   (* [write_all] has written [n] more bytes *)
| ReadEnd           (* a read that reports the end *)
| ReadError
| WriteError.

Inductive pipe_label : Type :=
| Up (l : direction_label)
| Down (l : direction_label)
| Abort.            (* the [select!] returns *)

(** [from_quic]: the task that reads the stream. A read of no bytes ends the other
    task, that of the socket ([ReadEnd]). *)
Definition step_direction (from_quic : bool) (l : direction_label) (d : Direction) : option Direction :=
  match ended d with
  | Some _ => None
  | None =>
    match l, hand d with
    | Read n, [] =>
      if ((1 <=? n) && (n <=? BUF) && (n <=? length (source d)))%nat
      then Some (mkDirection (drop n (source d)) (source_closed d) (take n (source d)) (sink d) None)
      else None
    | ReadNothing, [] => if from_quic then Some d else None
    | ReadEnd, [] =>
      if bool_decide (source d = []) && source_closed d
      then Some (mkDirection (source d) (source_closed d) [] (sink d) (Some SourceEnded)) else None
    | ReadError, [] => Some (mkDirection (source d) (source_closed d) [] (sink d) (Some ReadFailed))
    | Write n, _ :: _ =>
      if ((1 <=? n) && (n <=? length (hand d)))%nat
      then Some (mkDirection (source d) (source_closed d) (drop n (hand d)) (sink d ++ take n (hand d)) None)
      else None
    | WriteError, _ :: _ =>
      Some (mkDirection (source d) (source_closed d) (hand d) (sink d) (Some WriteFailed))
    | _, _ => None
    end
  end.

Definition is_ended (d : Direction) : bool := match ended d with Some _ => true | None => false end.

Definition step_pipe (l : pipe_label) (p : Pipe) : option Pipe :=
  if closed p then None
  else match l with
  | Up l => (fun d => mkPipe d (down p) false) <$> step_direction false l (up p)
  | Down l => (fun d => mkPipe (up p) d false) <$> step_direction true l (down p)
  | Abort => if is_ended (up p) || is_ended (down p) then Some (mkPipe (up p) (down p) true) else None
  end.

Fixpoint run_pipe (ls : list pipe_label) (p : Pipe) : option Pipe :=
  match ls with
  | [] => Some p
  | l :: ls => match step_pipe l p with Some p => run_pipe ls p | None => None end
  end.

Definition new_direction (bytes : list u8) (closes : bool) : Direction := mkDirection bytes closes [] [] None.

Definition new_pipe (a b : list u8) (a_closes b_closes : bool) : Pipe :=
  mkPipe (new_direction a a_closes) (new_direction b b_closes) false.

(** The four functions that pipe are the same code over different sockets: what
    the socket and the stream will yield, whether they end, and the interleaving. *)
Definition pipe_tcp_quic (tcp_r : list u8) (tcp_ends : bool) (quic_recv : list u8) (quic_ends : bool)
    (ls : list pipe_label) : option Pipe :=
  run_pipe ls (new_pipe tcp_r quic_recv tcp_ends quic_ends).

Definition run_tcp_connection_quic (tcp_r : list u8) (tcp_ends : bool) (quic_recv : list u8) (quic_ends : bool)
    (ls : list pipe_label) : option Pipe :=
  run_pipe ls (new_pipe tcp_r quic_recv tcp_ends quic_ends).

(** [X11Stream]: the local display behind a Unix socket or a TCP connection. *)
Inductive X11Stream : Type := X11Unix (r : list u8) (ends : bool) | X11Tcp (r : list u8) (ends : bool).

Definition run_x11_connection_quic (stream : X11Stream) (quic_recv : list u8) (quic_ends : bool)
    (ls : list pipe_label) : option Pipe :=
  match stream with
  | X11Unix r ends => run_pipe ls (new_pipe r quic_recv ends quic_ends)
  | X11Tcp r ends => run_pipe ls (new_pipe r quic_recv ends quic_ends)
  end.

Definition pipe_generic_quic (r : list u8) (r_ends : bool) (quic_recv : list u8) (quic_ends : bool)
    (ls : list pipe_label) : option Pipe :=
  run_pipe ls (new_pipe r quic_recv r_ends quic_ends).

(** Two specifications with one target. *)
Definition same_target (spec sp : ForwardSpec) : bool :=
  bool_decide (remote_host sp = remote_host spec /\ remote_port sp = remote_port spec /\
               proto sp = proto spec).

(** ** Lemmas *)

Lemma open_forward_bytes {C : EnvelopeCodec} spec s :
  connected s = true ->
  open_forward spec s =
  Ok (mkSend (written s ++ TAG_FORWARD :: frame (encode (stream_open (forward_open spec)))) true).
Proof.
  intros Hc. unfold open_forward, write_msg, write_framed, write_all. rewrite Hc. cbn.
  by rewrite <- app_assoc.
Qed.

Lemma open_forward_inv {C : EnvelopeCodec} spec tx tx' :
  open_forward spec tx = Ok tx' -> connected tx = true /\ connected tx' = true /\
  written tx' = written tx ++ TAG_FORWARD :: frame (encode (stream_open (forward_open spec))).
Proof.
  intros Ho. destruct (connected tx) eqn:Ec.
  - rewrite open_forward_bytes in Ho by done. by simplify_eq.
  - unfold open_forward, write_all in Ho. by rewrite Ec in Ho.
Qed.

(** Nothing is lost, added or reordered within a direction; it ends by its source
    only when all of it is written. *)
Definition direction_ok (bytes : list u8) (d : Direction) : Prop :=
  bytes = sink d ++ hand d ++ source d /\ (ended d = Some SourceEnded -> hand d = [] /\ source d = []).

Definition pipe_ok (a b : list u8) (p : Pipe) : Prop :=
  direction_ok a (up p) /\ direction_ok b (down p) /\
  (closed p = true -> is_ended (up p) || is_ended (down p) = true).

Lemma step_direction_ok bytes q l d d' :
  direction_ok bytes d -> step_direction q l d = Some d' -> direction_ok bytes d'.
Proof.
  intros [Hb He]. unfold step_direction. destruct (ended d) eqn:Ed; [done|].
  destruct l as [n| |n| | |], (hand d) as [|x h] eqn:Eh; try done.
  - case_match; [|done]. intros [= <-]. split; cbn; [|done]. by rewrite take_drop.
  - destruct q; [|done]. intros [= <-]. split; [by rewrite Eh|by rewrite Ed].
  - case_match; [|done]. intros [= <-]. split; cbn [sink hand source ended]; [|done].
    by rewrite <- app_assoc, (app_assoc (take n _)), take_drop.
  - case_match eqn:E; [|done]. intros [= <-]. apply andb_true_iff in E as [E _].
    apply bool_decide_eq_true in E. split; cbn; [done|]. by rewrite E.
  - intros [= <-]. by split.
  - intros [= <-]. by split.
Qed.

Lemma run_pipe_ok a b ls p p' : pipe_ok a b p -> run_pipe ls p = Some p' -> pipe_ok a b p'.
Proof.
  revert p. induction ls as [|l ls IH]; intros p Hp Hr; [by simplify_eq/=|].
  cbn [run_pipe] in Hr. destruct (step_pipe l p) as [p1|] eqn:Es; [|done].
  apply (IH p1); [|done]. destruct Hp as (Ha & Hb & Hc). unfold step_pipe in Es.
  destruct (closed p); [done|]. destruct l as [l|l|].
  - apply fmap_Some in Es as (d & Hd & ->). split; [by eapply step_direction_ok|done].
  - apply fmap_Some in Es as (d & Hd & ->). split; [done|]. split; [by eapply step_direction_ok|done].
  - case_match eqn:E; [|done]. by simplify_eq.
Qed.

Lemma run_pipe_app ls1 ls2 p :
  run_pipe (ls1 ++ ls2) p = run_pipe ls1 p ≫= run_pipe ls2.
Proof. revert p. induction ls1 as [|l ls IH]; intros p; [done|]. cbn. destruct (step_pipe l p); cbn; auto. Qed.

(** A direction alone, read by read. *)
Fixpoint run_direction (q : bool) (ls : list direction_label) (d : Direction) : option Direction :=
  match ls with
  | [] => Some d
  | l :: ls => match step_direction q l d with Some d => run_direction q ls d | None => None end
  end.

Lemma run_up ls a b d :
  run_direction false ls a = Some d -> run_pipe (map Up ls) (mkPipe a b false) = Some (mkPipe d b false).
Proof.
  revert a. induction ls as [|l ls IH]; intros a; cbn; [by intros [= ->]|].
  unfold step_pipe. cbn. destruct (step_direction false l a); cbn; [apply IH|done].
Qed.

Lemma run_down ls a b d :
  run_direction true ls b = Some d -> run_pipe (map Down ls) (mkPipe a b false) = Some (mkPipe a d false).
Proof.
  revert b. induction ls as [|l ls IH]; intros b; cbn; [by intros [= ->]|].
  unfold step_pipe. cbn. destruct (step_direction true l b); cbn; [apply IH|done].
Qed.

Lemma BUF_pos : (1 <= BUF)%nat.
Proof. unfold BUF. lia. Qed.

(** All that the source holds can be relayed, whatever its length. *)
Lemma direction_drains q bytes cl out :
  exists ls, run_direction q ls (mkDirection bytes cl [] out None) =
    Some (mkDirection [] cl [] (out ++ bytes) None).
Proof.
  remember (length bytes) as n eqn:E. revert bytes out E.
  induction (lt_wf n) as [n _ IH]; intros bytes out E.
  destruct bytes as [|x bs]; [exists []; cbn; by rewrite app_nil_r|].
  set (bytes := x :: bs) in *.
  set (k := Nat.min BUF (length bytes)).
  assert (1 <= k <= BUF /\ k <= length bytes)%nat as [Hk Hl].
  { pose proof BUF_pos. subst k bytes. cbn [length]. lia. }
  clearbody k bytes.
  assert (length (drop k bytes) < n)%nat as Hlt by (rewrite length_drop; lia).
  destruct (IH _ Hlt (drop k bytes) (out ++ take k bytes) eq_refl) as [ls Hls].
  exists (Read k :: Write k :: ls). cbn [run_direction]. unfold step_direction at 1.
  cbn [ended hand source source_closed sink].
  rewrite (proj2 (Nat.leb_le 1 k)), (proj2 (Nat.leb_le k BUF)), (proj2 (Nat.leb_le k (length bytes))) by lia.
  cbn [andb]. unfold step_direction at 1. cbn [ended hand source source_closed sink].
  assert (length (take k bytes) = k) as Ht by (rewrite length_take; lia).
  destruct (take k bytes) as [|y ys] eqn:Et; [cbn in Ht; lia|]. rewrite Ht.
  rewrite (proj2 (Nat.leb_le 1 k)), Nat.leb_refl by lia. cbn [andb].
  rewrite (drop_ge (y :: ys)), (take_ge (y :: ys)), Hls by lia.
  by rewrite <- app_assoc, <- Et, take_drop.
Qed.

(** The client's check of the header of a specification. *)
Lemma authorized_forward_open s spec x11 specs :
  parse s = Ok spec ->
  is_authorized_reverse_stream (forward_open spec) x11 specs = existsb (same_target spec) specs.
Proof.
  intros Hp. apply eq_true_iff_eq. rewrite authorized_iff, existsb_exists. unfold forward_open, same_target.
  cbn [open_stream_type open_remote_host open_remote_port open_forward_proto]. split.
  - intros [[? _]|(_ & sp & Hin & Hh & Hq & _ & Hf)]; [done|]. exists sp.
    split; [by apply list_elem_of_In|]. apply bool_decide_eq_true.
    by destruct (proto sp), (proto spec).
  - intros (sp & Hin & Hs). apply bool_decide_eq_true in Hs as (Hh & Hq & Hf). right.
    split; [done|]. exists sp. rewrite list_elem_of_In, Hf.
    repeat apply conj; try done; apply (ok_remote _ (parse_spec_ok _ _ Hp)).
Qed.

(** Its stream, as the server reads it. *)
Lemma dispatch_forward_open {C : EnvelopeCodec} {L : LawfulCodec C} spec data :
  msg_ok (stream_open (forward_open spec)) ->
  dispatch None [mkRecv (TAG_FORWARD :: frame (encode (stream_open (forward_open spec))) ++ data) Finished] =
    (None, [(proto spec, forward_open spec, mkRecv data Finished)]).
Proof.
  intros Hm.
  change (dispatch None _) with (dispatch None (opened_stream <$> [OpenForward (forward_open spec) data])).
  rewrite dispatch_opened by (by apply Forall_singleton). cbn. by rewrite ForwardProto_try_from_as.
Qed.

(** Its stream, as the client reads it. *)
Lemma reverse_accept_open {C : EnvelopeCodec} {L : LawfulCodec C} s spec specs x11 display data :
  parse s = Ok spec -> msg_ok (stream_open (forward_open spec)) ->
  reverse_accept x11 specs display
    (mkRecv (TAG_FORWARD :: frame (encode (stream_open (forward_open spec))) ++ data) Finished) =
  if existsb (same_target spec) specs
  then match proto spec with
       | Tcp => ToTcp (target_addr (forward_open spec)) (mkRecv data Finished)
       | Udp => ToUdp (target_addr (forward_open spec)) (mkRecv data Finished)
       end
  else Refused.
Proof.
  intros Hp Hm. unfold reverse_accept. rewrite read_tag_cons, Z.eqb_refl. cbn [negb].
  rewrite read_msg_frame by done. cbn [payload stream_open].
  rewrite (authorized_forward_open _ _ _ _ Hp). destruct (existsb _ _); cbn [negb]; [|done].
  cbn [open_stream_type open_forward_proto forward_open]. rewrite ForwardProto_try_from_as. by destruct (proto spec).
Qed.

(** How much there is left to do. *)
Definition reads_nothing (l : direction_label) : bool := match l with ReadNothing => true | _ => false end.

Definition is_idle (l : pipe_label) : bool :=
  match l with Up l | Down l => reads_nothing l | Abort => false end.

(** The steps of a run that are not reads of nothing. *)
Definition busy (ls : list pipe_label) : nat := length (List.filter (fun l => negb (is_idle l)) ls).

Definition direction_work (d : Direction) : nat :=
  2 * length (source d) + length (hand d) + (if is_ended d then 0 else 1).

Definition pipe_work (p : Pipe) : nat :=
  direction_work (up p) + direction_work (down p) + (if closed p then 0 else 1).

Lemma step_direction_work q l d d' :
  step_direction q l d = Some d' ->
  (direction_work d' + (if reads_nothing l then 0 else 1) <= direction_work d)%nat.
Proof.
  unfold step_direction, direction_work, is_ended. destruct (ended d) eqn:Ed; [done|].
  destruct l as [n| |n| | |], (hand d) as [|x h] eqn:Eh; try done; cbn [reads_nothing].
  - case_match eqn:E; [|done]. intros [= <-]. cbn [source hand ended length].
    apply andb_true_iff in E as [[H1 _]%andb_true_iff H2]. apply Nat.leb_le in H1, H2.
    rewrite length_drop, length_take. lia.
  - destruct q; [|done]. intros [= <-]. rewrite Ed, Eh. cbn [length]. lia.
  - case_match eqn:E; [|done]. intros [= <-]. cbn [source hand ended].
    apply andb_true_iff in E as [H1 H2]. apply Nat.leb_le in H1, H2. rewrite length_drop. lia.
  - case_match; [|done]. intros [= <-]. cbn. lia.
  - intros [= <-]. cbn. lia.
  - intros [= <-]. cbn [source hand ended length]. lia.
Qed.

Lemma step_pipe_work l p p' :
  step_pipe l p = Some p' -> (pipe_work p' + (if is_idle l then 0 else 1) <= pipe_work p)%nat.
Proof.
  unfold step_pipe, pipe_work. destruct (closed p); [done|]. destruct l as [l|l|].
  - intros (d & Hd & ->)%fmap_Some. apply step_direction_work in Hd. cbn [is_idle up down closed]. lia.
  - intros (d & Hd & ->)%fmap_Some. apply step_direction_work in Hd. cbn [is_idle up down closed]. lia.
  - case_match; [|done]. intros [= <-]. cbn. lia.
Qed.

Lemma run_pipe_work ls p p' : run_pipe ls p = Some p' -> (busy ls + pipe_work p' <= pipe_work p)%nat.
Proof.
  revert p. induction ls as [|l ls IH]; intros p; cbn [run_pipe]; [intros [= ->]; cbn; lia|].
  destruct (step_pipe l p) as [p1|] eqn:Es; [|done]. intros Hr. apply IH in Hr.
  apply step_pipe_work in Es. unfold busy in *. cbn [List.filter]. destruct (is_idle l); cbn [negb length]; lia.
Qed.

(** The source of a direction closes or not once and for all. *)
Lemma step_direction_closes q l d d' : step_direction q l d = Some d' -> source_closed d' = source_closed d.
Proof.
  unfold step_direction. destruct (ended d); [done|].
  destruct l, (hand d); try done; try (intros [= <-]; done); case_match; try done; by intros [= <-].
Qed.

Lemma run_pipe_closes ls p p' :
  run_pipe ls p = Some p' ->
  source_closed (up p') = source_closed (up p) /\ source_closed (down p') = source_closed (down p).
Proof.
  revert p. induction ls as [|l ls IH]; intros p; cbn [run_pipe]; [by intros [= ->]|].
  destruct (step_pipe l p) as [p1|] eqn:Es; [|done]. intros [-> ->]%IH. unfold step_pipe in Es.
  destruct (closed p); [done|]. destruct l as [l|l|].
  - by apply fmap_Some in Es as (d & Hd%step_direction_closes & ->).
  - by apply fmap_Some in Es as (d & Hd%step_direction_closes & ->).
  - case_match; by simplify_eq.
Qed.

Definition is_failure (l : pipe_label) : bool :=
  match l with Up ReadError | Up WriteError | Down ReadError | Down WriteError => true | _ => false end.

(** A direction whose source closes always has a next step until it ends. *)
Lemma direction_progress q d :
  source_closed d = true -> is_ended d = false ->
  exists l d', step_direction q l d = Some d' /\ l <> ReadError /\ l <> WriteError /\ l <> ReadNothing.
Proof.
  unfold is_ended, step_direction. intros Hc He. destruct (ended d); [done|].
  destruct (hand d) as [|x h] eqn:Eh.
  - destruct (source d) as [|y s] eqn:Es.
    + exists ReadEnd. rewrite Hc, bool_decide_eq_true_2 by done.
      eexists. split; [reflexivity|done].
    + exists (Read 1). cbn [length]. rewrite (proj2 (Nat.leb_le 1 BUF) BUF_pos).
      eexists. split; [reflexivity|done].
  - exists (Write 1). eexists. split; [reflexivity|done].
Qed.

(** ** Properties *)

(** C23: A forwarded connection reaches the target of its specification with the
    bytes of the connection: what the client's acceptor writes for a [-L]
    specification is dispatched by the server as a forward of that protocol to
    [remote_host:remote_port], what the server's listener writes for an [-R]
    specification of the client is accepted by the client and connected to
    [remote_host:remote_port], and in both cases the rest of the stream is exactly
    what the pipe writes; the same stream is refused when no specification asks for
    it. *)
Theorem forward_reaches_target {C : EnvelopeCodec} {L : LawfulCodec C} s spec specs x11 display st data :
  parse s = Ok spec -> msg_ok (stream_open (forward_open spec)) ->
  open_forward spec (mkSend [] true) = Ok st ->
  dispatch None [mkRecv (written st ++ data) Finished] =
    (None, [(proto spec, forward_open spec, mkRecv data Finished)]) /\
  reverse_accept x11 specs display (mkRecv (written st ++ data) Finished) =
    (if existsb (same_target spec) specs
     then match proto spec with
          | Tcp => ToTcp (target_addr (forward_open spec)) (mkRecv data Finished)
          | Udp => ToUdp (target_addr (forward_open spec)) (mkRecv data Finished)
          end
     else Refused).
Proof.
  intros Hp Hm Ho. rewrite open_forward_bytes in Ho by done. simplify_eq. cbn [written app].
  split; [by apply dispatch_forward_open|by apply (reverse_accept_open s)].
Qed.

(** C27: The pipe of a forwarded connection: in every interleaving of its two tasks
    each side has received an exact prefix of what the other side sent, and all of
    it when that direction ended by the end of its source; the pipe is closed only
    after one of the directions has ended; and some interleaving relays everything
    that both sides hold, whatever its length, in reads of at most [BUF] bytes. *)
Theorem pipe_is_faithful a b ca cb :
  (forall ls p, run_pipe ls (new_pipe a b ca cb) = Some p ->
     sink (up p) `prefix_of` a /\ sink (down p) `prefix_of` b /\
     (ended (up p) = Some SourceEnded -> sink (up p) = a) /\
     (ended (down p) = Some SourceEnded -> sink (down p) = b) /\
     (closed p = true -> is_ended (up p) || is_ended (down p) = true)) /\
  (exists ls, run_pipe ls (new_pipe a b ca cb) =
     Some (mkPipe (mkDirection [] ca [] a None) (mkDirection [] cb [] b None) false)).
Proof.
  split.
  - intros ls p Hr. apply (run_pipe_ok a b) in Hr as ([Ha Hae] & [Hb Hbe] & Hc); [|by repeat split].
    repeat apply conj; [by eexists|by eexists| | |done].
    + intros He. destruct (Hae He) as [E1 E2]. by rewrite Ha, E1, E2, !app_nil_r.
    + intros He. destruct (Hbe He) as [E1 E2]. by rewrite Hb, E1, E2, !app_nil_r.
  - destruct (direction_drains false a ca []) as [la Ha], (direction_drains true b cb []) as [lb Hb].
    exists (map Up la ++ map Down lb). rewrite run_pipe_app. unfold new_pipe, new_direction.
    rewrite (run_up _ _ _ _ Ha). by apply run_down.
Qed.

(** A half-closed connection loses its answer: when the side of the socket
    sends its request and shuts its writing half down, the pipe may close as soon
    as the request is relayed, with nothing of the answer passed on, and nothing
    moves in a closed pipe. *)
Theorem half_close_truncates request answer cb :
  exists ls p, run_pipe ls (new_pipe request answer true cb) = Some p /\
    closed p = true /\ sink (up p) = request /\ sink (down p) = [] /\
    forall l, step_pipe l p = None.
Proof.
  destruct (direction_drains false request true []) as [la Ha].
  exists (map Up la ++ [Up ReadEnd; Abort]). eexists. rewrite run_pipe_app. unfold new_pipe, new_direction.
  rewrite (run_up _ _ _ _ Ha). by repeat apply conj.
Qed.

(** C29: A pipe ends: whatever the sizes of its reads and partial writes and whatever
    fails, and whether or not its two sources end, it makes at most
    [2 * (|a| + |b|) + 3] steps over what the sources yield, reads of the QUIC stream
    that return nothing not counted (the code reads again then); and when one of the
    sources ends it is never stuck: until it is closed it has a step in which nothing
    fails and which is not such a read. *)
Theorem pipe_terminates a b ca cb ls p :
  run_pipe ls (new_pipe a b ca cb) = Some p ->
  (busy ls <= 2 * (length a + length b) + 3)%nat /\
  (ca || cb = true -> closed p = false ->
   exists l p', step_pipe l p = Some p' /\ is_failure l = false /\ is_idle l = false).
Proof.
  intros Hr. split.
  - apply run_pipe_work in Hr.
    assert (pipe_work (new_pipe a b ca cb) = 2 * (length a + length b) + 3)%nat as Hw
      by (unfold pipe_work, direction_work; cbn; lia).
    lia.
  - intros He Hc. apply run_pipe_closes in Hr as [Hca Hcb]. cbn in Hca, Hcb. unfold step_pipe. rewrite Hc.
    destruct (is_ended (up p)) eqn:Eu; [exists Abort; by eexists|].
    destruct (is_ended (down p)) eqn:Ed; [exists Abort; by eexists|].
    destruct ca; cbn [orb] in He.
    + destruct (direction_progress false (up p) Hca Eu) as (l & d & Hd & Hl).
      exists (Up l). rewrite Hd. eexists. split; [done|]. by destruct l; intuition.
    + rewrite He in Hcb. destruct (direction_progress true (down p) Hcb Ed) as (l & d & Hd & Hl).
      exists (Down l). rewrite Hd. eexists. split; [done|]. by destruct l; intuition.
Qed.

(** C28: X11 end to end: a program on the server that presents the server's cookie
    is connected to the display of the user's [DISPLAY], with a setup message that
    carries the user's own cookie and with the bytes behind it untouched; a
    program that does not is not connected at all, and neither is any program
    when the user has not asked for X11 or has no display. *)
Theorem x11_reaches_display {C : EnvelopeCodec} {L : LawfulCodec C}
    order version post name npad data dpad rest e fake real specs disp t :
  length version = 5%nat -> length post = 2%nat ->
  Z.of_nat (length name) < 65536 -> Z.of_nat (length data) < 65536 ->
  length npad = (padded (length name) - length name)%nat ->
  length dpad = (padded (length data) - length data)%nat ->
  real <> [] -> msg_ok x11_open -> x11_connect_target disp = Ok t ->
  let accepted := x11_accept (mkRecv (setup_bytes order version post name npad data dpad ++ rest) e) fake
                    (Some (mkSend [] true)) (Some real) in
  if bool_decide (fake <> [] /\ fake `prefix_of` data)
  then exists st, accepted = Some (Ok st, mkRecv rest e) /\
    reverse_accept true specs (Some disp) (mkRecv (written st ++ rest) Finished) =
      ToX11 t (mkRecv (setup_bytes order version post MIT_MAGIC_COOKIE_1
                 (repeat 0 (padded (length MIT_MAGIC_COOKIE_1) - length MIT_MAGIC_COOKIE_1)) real
                 (repeat 0 (padded (length real) - length real)) ++ rest) Finished) /\
    reverse_accept false specs (Some disp) (mkRecv (written st ++ rest) Finished) = Refused /\
    reverse_accept true specs None (mkRecv (written st ++ rest) Finished) = Refused
  else accepted = None.
Proof.
  intros Hv Hp Hn Hd Hnp Hdp Hr Hm Ht accepted. subst accepted. unfold x11_accept.
  rewrite process_setup_spec by done. case_bool_decide; [|done].
  unfold forward_x11_connection, write_msg, write_framed, write_all. cbn [connected written result_bind app].
  eexists. split; [done|]. cbn [written app]. rewrite <- !app_assoc. unfold reverse_accept.
  rewrite !read_tag_cons, Z.eqb_refl. cbn [negb]. rewrite !read_msg_frame by done.
  cbn [payload x11_open]. unfold is_authorized_reverse_stream. cbn [open_stream_type].
  rewrite !Z.eqb_refl. cbn [negb]. by rewrite Ht.
Qed.

(** ** Witnesses *)

Definition db_spec : ForwardSpec := mkForwardSpec None 8080 (lit "[::1]") 5432 Udp.

Lemma forward_reaches_target_witness :
  exists st,
    parse (lit "8080:[::1]:5432/udp") = Ok db_spec /\ msg_ok (H := proto_codec) (stream_open (forward_open db_spec)) /\
    open_forward (C := proto_codec) db_spec (mkSend [] true) = Ok st /\
    reverse_accept (C := proto_codec) false [db_spec] None (mkRecv (written st ++ [1; 2]) Finished) =
      ToUdp (lit "[::1]:5432") (mkRecv [1; 2] Finished).
Proof.
  assert (parse (lit "8080:[::1]:5432/udp") = Ok db_spec) as Hp by reflexivity.
  assert (msg_ok (H := proto_codec) (stream_open (forward_open db_spec))) as Hm by small_msg.
  destruct (open_forward (C := proto_codec) db_spec (mkSend [] true)) as [st|] eqn:Ho; [|vm_compute in Ho; discriminate].
  exists st. split; [exact Hp|]. split; [exact Hm|]. split; [reflexivity|].
  rewrite (proj2 (forward_reaches_target (C := proto_codec) (L := proto_codec_lawful) _ _ [db_spec] false None st
    [1; 2] Hp Hm Ho)).
  reflexivity.
Defined.

Definition sample_run : list pipe_label :=
  [Up (Read 2); Down (Read 1); Down (Write 1); Up (Write 1); Up (Write 1); Up ReadEnd].

Lemma pipe_is_faithful_witness :
  exists p, run_pipe sample_run (new_pipe [1; 2] [3; 4] true true) = Some p /\
    sink (up p) = [1; 2] /\ sink (down p) `prefix_of` [3; 4].
Proof.
  destruct (run_pipe sample_run (new_pipe [1; 2] [3; 4] true true)) as [p|] eqn:Hr; [|vm_compute in Hr; discriminate].
  exists p. split; [reflexivity|].
  destruct (proj1 (pipe_is_faithful [1; 2] [3; 4] true true) sample_run p Hr) as (_ & Hd & Hu & _).
  split; [|exact Hd]. apply Hu. vm_compute in Hr. injection Hr as <-. reflexivity.
Defined.

(** The stream reads nothing once and does not end; the socket does. *)
Definition idle_run : list pipe_label := [Down ReadNothing; Up (Read 2); Up (Write 2)].

Lemma pipe_terminates_witness :
  (busy idle_run <= 2 * (2 + 2) + 3)%nat /\
  exists p l p', run_pipe idle_run (new_pipe [1; 2] [3; 4] true false) = Some p /\
    step_pipe l p = Some p' /\ is_failure l = false.
Proof.
  destruct (run_pipe idle_run (new_pipe [1; 2] [3; 4] true false)) as [p|] eqn:Hr; [|vm_compute in Hr; discriminate].
  destruct (pipe_terminates [1; 2] [3; 4] true false idle_run p Hr) as [Hb Hs]. split; [exact Hb|].
  destruct Hs as (l & p' & Hl & Hf & _); [reflexivity|vm_compute in Hr; injection Hr as <-; reflexivity|].
  exists p, l, p'. split; [reflexivity|]. split; [exact Hl|exact Hf].
Defined.

Lemma x11_reaches_display_witness :
  let msg := setup_bytes LITTLE [0; 11; 0; 0; 0] [0; 0] (lit "MIT") [0] [1; 2; 3] [9] in
  exists st, x11_accept (C := proto_codec) (mkRecv (msg ++ [7; 7]) Lost) [1; 2] (Some (mkSend [] true)) (Some [5; 6; 7; 8])
      = Some (Ok st, mkRecv [7; 7] Lost) /\
    reverse_accept (C := proto_codec) true [] (Some (lit ":0")) (mkRecv (written st ++ [7; 7]) Finished) =
      ToX11 (XUnixPath (lit "/tmp/.X11-unix/X0"))
        (mkRecv (setup_bytes LITTLE [0; 11; 0; 0; 0] [0; 0] MIT_MAGIC_COOKIE_1 [0; 0] [5; 6; 7; 8] [] ++ [7; 7]) Finished).
Proof.
  pose proof (x11_reaches_display (C := proto_codec) (L := proto_codec_lawful) LITTLE [0; 11; 0; 0; 0] [0; 0]
    (lit "MIT") [0] [1; 2; 3] [9] [7; 7] Lost [1; 2] [5; 6; 7; 8] [] (lit ":0")
    (XUnixPath (lit "/tmp/.X11-unix/X0"))) as H.
  destruct H as (st & Ha & Hd & _); try reflexivity; try discriminate; [small_msg|].
  exists st. split; [exact Ha|exact Hd].
Defined.
