(* ===== verification/Acceptors.v ===== *)
(** The tasks that accept forwarded TCP connections, and what a reconnection does
    to them: [run_tcp_acceptor_quic] and the forward tasks of [run_session]
    ([src/bin/etr.rs]); [run_tcp_reverse_listener] and [serve_tcp_forward]
    ([src/bin/etrs.rs]).  Both acceptors are one machine; they differ in where an
    accepted connection finds the QUIC connection that it is forwarded over. *)
From S2P Require Import Prelude Text Protocol Stream Utf8 Proto Quic Ip Addrfam Forward X11 Connection X11Setup Tunnel.

Open Scope Z_scope.
Open Scope list_scope.

(** ** The machine *)

(** The handle that a task holds: the connection of its session (the client), or
    the shared [active_conn] (the server). *)
Inductive ConnSource : Type := Own (conn : nat) | Shared.

(** The task of one specification while it binds: the addresses it has still to
    try and the listeners it has. *)
Record Acceptor : Type := mkAcceptor {
  a_spec : ForwardSpec;
  a_source : ConnSource;
  a_todo : list str;
  a_bound : list str;
}.

(** A spawned [run_loop], which owns its listener. *)
Record Loop : Type := mkLoop {
  l_addr : str;
  l_spec : ForwardSpec;
  l_source : ConnSource;
}.

(** A spawned task of an accepted connection; [w_conn] is the QUIC connection once
    it has one. *)
Record Waiting : Type := mkWaiting {
  w_peer : nat;
  w_loop : Loop;
  w_conn : option nat;
}.

(** How it ends: the TCP connection is dropped, or it is piped into a stream that
    carries the tag and the header. *)
Inductive accept_end : Type := Discarded | Piped (conn : nat) (stream : SendStream).

(** [came_in] and [activated] record the past. *)
Record Tasks : Type := mkTasks {
  acceptors : list Acceptor;
  loops : list Loop;
  waiting : list Waiting;
  settled : list (nat * Loop * accept_end);
  t_active : option nat;
  t_lost : list nat;
  came_in : list (nat * Loop);
  activated : list nat;
}.

Definition no_tasks : Tasks := mkTasks [] [] [] [] None [] [] [].

(** The [target] strings of a specification. *)
Definition bind_targets (gateway : bool) (spec : ForwardSpec) : list str :=
  map (fun addr => addr ++ [COLON] ++ dec (local_port spec)) (get_bind_addresses gateway spec).

Definition is_tcp (spec : ForwardSpec) : bool := match proto spec with Tcp => true | Udp => false end.

(** The tasks spawned for the TCP specifications of a list. *)
Definition spawn_acceptors (gateway : bool) (source : ConnSource) (specs : list ForwardSpec) : list Acceptor :=
  map (fun spec => mkAcceptor spec source (bind_targets gateway spec) []) (List.filter is_tcp specs).

(** The addresses that have a listening socket. *)
Definition in_use (t : Tasks) : list str := map l_addr (loops t) ++ concat (map a_bound (acceptors t)).

(** - [Spawn]: the forward tasks of a session are started.
    - [Bind]: a task binds its next address, which fails when the address has a
      listener or for another reason ([ok] false).
    - [Serve]: a task that has tried its addresses ends, or spawns its loops.
    - [Accept], [AcceptFails]: a loop accepts a connection, or ends.
    - [LockConn]: an accepted connection's task reads [active_conn].
    - [OpenBi]: [open_bi] returns, and tag and header are written.
    - [SetActive]: [active_conn] is set or cleared.
    - [Lose]: a QUIC connection is closed or times out.
    - [EndSession]: [run_session] of the client returns, aborting the tasks it
      has spawned; a loop is another task, which dropping its handle detaches. *)
Inductive task_label : Type :=
| Spawn (source : ConnSource) (specs : list ForwardSpec)
| Bind (i : nat) (ok : bool)
| Serve (i : nat)
| Accept (i : nat) (peer : nat)
| AcceptFails (i : nat)
| LockConn (i : nat)
| OpenBi (i : nat) (stream : option SendStream)
| SetActive (conn : option nat)
| Lose (conn : nat)
| EndSession.

Section Machine.
Context {C : EnvelopeCodec} (gateway : bool).

Definition with_acceptors (a : list Acceptor) (t : Tasks) : Tasks :=
  mkTasks a (loops t) (waiting t) (settled t) (t_active t) (t_lost t) (came_in t) (activated t).

Definition with_loops (l : list Loop) (t : Tasks) : Tasks :=
  mkTasks (acceptors t) l (waiting t) (settled t) (t_active t) (t_lost t) (came_in t) (activated t).

Definition with_waiting (w : list Waiting) (t : Tasks) : Tasks :=
  mkTasks (acceptors t) (loops t) w (settled t) (t_active t) (t_lost t) (came_in t) (activated t).

(** Task [i] of the accepted connections is done. *)
Definition settle (i : nat) (w : Waiting) (e : accept_end) (t : Tasks) : Tasks :=
  mkTasks (acceptors t) (loops t) (delete i (waiting t)) (settled t ++ [(w_peer w, w_loop w, e)])
    (t_active t) (t_lost t) (came_in t) (activated t).

(** The tag and the header on a stream just opened. *)
Definition forward_end (w : Waiting) (conn : nat) (stream : option SendStream) : accept_end :=
  match stream with
  | None => Discarded
  | Some st =>
    match open_forward (l_spec (w_loop w)) st with
    | Ok st => Piped conn st
    | Err _ => Discarded
    end
  end.

(** A fresh stream, and none on a connection that is lost. *)
Definition may_open (conn : nat) (stream : option SendStream) (t : Tasks) : bool :=
  match stream with
  | None => true
  | Some st => bool_decide (written st = []) && negb (bool_decide (conn ∈ t_lost t))
  end.

Definition bind_next (ok : bool) (a : Acceptor) (t : Tasks) : option Acceptor :=
  match a_todo a with
  | [] => None
  | target :: todo =>
    let bound := ok && negb (bool_decide (target ∈ in_use t)) in
    Some (mkAcceptor (a_spec a) (a_source a) todo (if bound then a_bound a ++ [target] else a_bound a))
  end.

Definition serve_loops (a : Acceptor) : list Loop :=
  map (fun target => mkLoop target (a_spec a) (a_source a)) (a_bound a).

Definition step_tasks (l : task_label) (t : Tasks) : option Tasks :=
  match l with
  | Spawn source specs => Some (with_acceptors (acceptors t ++ spawn_acceptors gateway source specs) t)
  | Bind i ok =>
    a ← acceptors t !! i; a' ← bind_next ok a t;
    Some (with_acceptors (<[i := a']> (acceptors t)) t)
  | Serve i =>
    a ← acceptors t !! i;
    match a_todo a with
    | [] => Some (with_loops (loops t ++ serve_loops a) (with_acceptors (delete i (acceptors t)) t))
    | _ => None
    end
  | Accept i peer =>
    l ← loops t !! i;
    let w := mkWaiting peer l (match l_source l with Own c => Some c | Shared => None end) in
    Some (mkTasks (acceptors t) (loops t) (waiting t ++ [w]) (settled t) (t_active t) (t_lost t)
            (came_in t ++ [(peer, l)]) (activated t))
  | AcceptFails i => _ ← loops t !! i; Some (with_loops (delete i (loops t)) t)
  | LockConn i =>
    w ← waiting t !! i;
    match w_conn w, t_active t with
    | Some _, _ => None
    | None, None => Some (settle i w Discarded t)
    | None, Some c => Some (with_waiting (<[i := mkWaiting (w_peer w) (w_loop w) (Some c)]> (waiting t)) t)
    end
  | OpenBi i stream =>
    w ← waiting t !! i; c ← w_conn w;
    if may_open c stream t then Some (settle i w (forward_end w c stream) t) else None
  | SetActive c =>
    Some (mkTasks (acceptors t) (loops t) (waiting t) (settled t) c (t_lost t) (came_in t)
            (match c with Some c => activated t ++ [c] | None => activated t end))
  | Lose c =>
    Some (mkTasks (acceptors t) (loops t) (waiting t) (settled t) (t_active t) (c :: t_lost t)
            (came_in t) (activated t))
  | EndSession => Some (with_acceptors [] t)
  end.

Fixpoint run_tasks (ls : list task_label) (t : Tasks) : option Tasks :=
  match ls with
  | [] => Some t
  | l :: ls => t' ← step_tasks l t; run_tasks ls t'
  end.
End Machine.

(** ** Connecting to the target *)
Section Serve.
Context (lookup_host : str -> result (list SocketAddr) ErrorKind).
Context {TcpStream : Type} (connect : SocketAddr -> result TcpStream ErrorKind).

(** [serve_tcp_forward]: the pipe between target and stream, or the stream is
    finished. *)
Definition serve_tcp_forward (so : StreamOpen) (pref : AddrPref) : option TcpStream :=
  match connect_tcp_preferred lookup_host connect (target_addr so) pref with
  | Ok s => Some s
  | Err _ => None
  end.
End Serve.

(** ** The invariant *)
Section Invariant.
Context {C : EnvelopeCodec} (gateway : bool).
(** The specifications that tasks were spawned for. *)
Context (asked : ConnSource -> ForwardSpec -> Prop).

Definition task_of (w : Waiting) : nat * Loop := (w_peer w, w_loop w).

Record acceptor_ok (a : Acceptor) : Prop := {
  ok_tcp : proto (a_spec a) = Tcp;
  ok_asked : asked (a_source a) (a_spec a);
  ok_targets : Forall (fun x => x ∈ bind_targets gateway (a_spec a)) (a_todo a ++ a_bound a);
}.

Record loop_ok (l : Loop) : Prop := {
  lok_tcp : proto (l_spec l) = Tcp;
  lok_asked : asked (l_source l) (l_spec l);
  lok_target : l_addr l ∈ bind_targets gateway (l_spec l);
}.

(** The connection that a task may use. *)
Definition conn_ok (past : list nat) (l : Loop) (c : nat) : Prop :=
  match l_source l with Own c' => c = c' | Shared => c ∈ past end.

Definition waiting_ok (past : list nat) (w : Waiting) : Prop :=
  match w_conn w with Some c => conn_ok past (w_loop w) c | None => l_source (w_loop w) = Shared end.

Definition settled_ok (past : list nat) (s : nat * Loop * accept_end) : Prop :=
  match s.2 with
  | Discarded => True
  | Piped c st => conn_ok past s.1.2 c /\ open_forward (l_spec s.1.2) (mkSend [] true) = Ok st
  end.

Record tasks_ok (t : Tasks) : Prop := {
  ok_acceptors : Forall acceptor_ok (acceptors t);
  ok_loops : Forall loop_ok (loops t);
  ok_came_in : Forall (fun p => loop_ok p.2) (came_in t);
  ok_waiting : Forall (waiting_ok (activated t)) (waiting t);
  ok_settled : Forall (settled_ok (activated t)) (settled t);
  ok_in_use : NoDup (in_use t);
  ok_active : forall c, t_active t = Some c -> c ∈ activated t;
  ok_accounted : came_in t ≡ₚ map task_of (waiting t) ++ map fst (settled t);
}.

Definition label_ok (l : task_label) : Prop :=
  match l with Spawn source specs => Forall (asked source) specs | _ => True end.

Lemma no_tasks_ok : tasks_ok no_tasks.
Proof. split; by (constructor || done). Qed.

Lemma spawn_acceptors_ok source specs :
  Forall (asked source) specs -> Forall acceptor_ok (spawn_acceptors gateway source specs).
Proof.
  intros Hs. apply Forall_fmap, Forall_forall. intros spec Hin.
  apply list_elem_of_In, filter_In in Hin as [Hin Ht]. apply list_elem_of_In in Hin.
  split; cbn; [unfold is_tcp in Ht; by destruct (proto spec)|by eapply Forall_forall in Hs|].
  rewrite app_nil_r. by apply Forall_forall.
Qed.

Lemma spawn_bound source specs : concat (map a_bound (spawn_acceptors gateway source specs)) = [].
Proof. unfold spawn_acceptors. by induction (List.filter is_tcp specs). Qed.

Lemma serve_loops_ok a : acceptor_ok a -> Forall loop_ok (serve_loops a).
Proof.
  intros [Ht Ha Hb]. apply Forall_app in Hb as [_ Hb]. apply Forall_fmap.
  eapply Forall_impl; [exact Hb|]. by split.
Qed.

Lemma serve_loops_addr a : map l_addr (serve_loops a) = a_bound a.
Proof. unfold serve_loops. rewrite map_map. apply map_id. Qed.

Lemma bind_next_ok ok a a' t : acceptor_ok a -> bind_next ok a t = Some a' -> acceptor_ok a'.
Proof.
  intros [Ht Ha Hb] Hn. unfold bind_next in Hn. destruct (a_todo a) as [|x todo] eqn:Ed; [done|].
  simplify_eq. cbn in Hb. apply Forall_cons in Hb as [Hx Hb]. apply Forall_app in Hb as [? ?].
  split; cbn; [done..|]. apply Forall_app. split; [done|]. destruct (_ && _); [|done].
  apply Forall_app. by split; [|apply Forall_singleton].
Qed.

(** What the acceptors hold, one of them apart. *)
Lemma bound_insert (acc : list Acceptor) i a a' :
  acc !! i = Some a ->
  concat (map a_bound (<[i := a']> acc)) ≡ₚ a_bound a' ++ concat (map a_bound (delete i acc)).
Proof.
  intros Hi. apply lookup_lt_Some in Hi. rewrite insert_take_drop, delete_take_drop by done.
  rewrite !map_app, !concat_app. cbn. solve_Permutation.
Qed.

Lemma bound_split (acc : list Acceptor) i a :
  acc !! i = Some a -> concat (map a_bound acc) ≡ₚ a_bound a ++ concat (map a_bound (delete i acc)).
Proof. intros Hi. by rewrite <- (bound_insert acc i a a), list_insert_id by done. Qed.

Lemma conn_ok_mono past c l x : conn_ok past l x -> conn_ok (past ++ c) l x.
Proof. unfold conn_ok. destruct (l_source l); [done|]. set_solver. Qed.

Lemma waiting_ok_mono past c w : waiting_ok past w -> waiting_ok (past ++ c) w.
Proof. unfold waiting_ok. destruct (w_conn w); [apply conn_ok_mono|done]. Qed.

Lemma settled_ok_mono past c s : settled_ok past s -> settled_ok (past ++ c) s.
Proof. unfold settled_ok. destruct (s.2); [done|]. intros [? ?]. split; [by apply conn_ok_mono|done]. Qed.

Lemma forward_end_ok w c stream t :
  waiting_ok (activated t) w -> w_conn w = Some c -> may_open c stream t = true ->
  settled_ok (activated t) (w_peer w, w_loop w, forward_end w c stream).
Proof.
  intros Hw Hc Hm. unfold settled_ok, forward_end. cbn. destruct stream as [st|]; [|done].
  destruct (open_forward _ st) as [st'|] eqn:Ho; [|done]. unfold waiting_ok in Hw. rewrite Hc in Hw.
  split; [done|]. apply andb_true_iff in Hm as [Hf _]. apply bool_decide_eq_true in Hf.
  destruct (open_forward_inv _ _ _ Ho) as [Hconn _]. destruct st as [b cn]; cbn in *. by subst.
Qed.

Lemma settle_ok i w e t :
  tasks_ok t -> waiting t !! i = Some w -> settled_ok (activated t) (w_peer w, w_loop w, e) ->
  tasks_ok (settle i w e t).
Proof.
  intros [? ? ? Hw Hs ? ? Ha] Hi He. split; cbn; try done.
  - by apply Forall_delete.
  - apply Forall_app. by split; [|apply Forall_singleton].
  - rewrite Ha, (Permutation_map task_of (delete_Permutation _ _ _ Hi)), map_app. cbn. solve_Permutation.
Qed.

Lemma bind_in_use i ok a a' t :
  NoDup (in_use t) -> acceptors t !! i = Some a -> bind_next ok a t = Some a' ->
  NoDup (in_use (with_acceptors (<[i := a']> (acceptors t)) t)).
Proof.
  intros Hu Hi Hn. unfold bind_next, in_use in *. cbn. rewrite (bound_insert _ _ _ a' Hi).
  destruct (a_todo a) as [|x todo]; [done|]. simplify_eq. cbn.
  rewrite (bound_split _ _ _ Hi) in Hu. destruct (ok && _) eqn:Eb; [|done].
  apply andb_true_iff in Eb as [_ Eb]. apply negb_true_iff, bool_decide_eq_false in Eb.
  rewrite (bound_split _ _ _ Hi) in Eb.
  assert (map l_addr (loops t) ++ (a_bound a ++ [x]) ++ concat (map a_bound (delete i (acceptors t)))
    ≡ₚ x :: map l_addr (loops t) ++ a_bound a ++ concat (map a_bound (delete i (acceptors t)))) as ->
    by solve_Permutation.
  by apply NoDup_cons.
Qed.

Lemma fewer_in_use l a t :
  l `sublist_of` loops t -> a = acceptors t \/ a = [] -> NoDup (in_use t) ->
  NoDup (map l_addr l ++ concat (map a_bound a)).
Proof.
  intros Hl Ha Hu. eapply sublist_NoDup; [exact Hu|]. apply sublist_app; [by apply (fmap_sublist l_addr)|].
  destruct Ha as [->| ->]; [done|]. apply sublist_nil_l.
Qed.

Lemma lock_conn_ok i w c t :
  tasks_ok t -> waiting t !! i = Some w -> w_conn w = None -> t_active t = Some c ->
  tasks_ok (with_waiting (<[i := mkWaiting (w_peer w) (w_loop w) (Some c)]> (waiting t)) t).
Proof.
  intros [? ? ? Hw ? ? Hac Ha] Hi Hn Hc. split; cbn; try done.
  - apply Forall_insert; [done|]. eapply Forall_lookup_1 in Hw; [|exact Hi].
    unfold waiting_ok, conn_ok in *. rewrite Hn in Hw. cbn. rewrite Hw. by apply Hac.
  - change (map task_of (<[i:=?x]> ?l)) with (task_of <$> <[i:=x]> l). rewrite list_fmap_insert.
    rewrite list_insert_id; [done|]. rewrite list_lookup_fmap, Hi. done.
Qed.

Lemma step_tasks_ok l t t' :
  label_ok l -> tasks_ok t -> step_tasks gateway l t = Some t' -> tasks_ok t'.
Proof.
  intros Hl Ht Hst. pose proof Ht as [Hac Hlo Hci Hw Hs Hu Hact Ha].
  destruct l as [source specs|i ok|i|i peer|i|i|i stream|c|c|]; cbn in Hst.
  - simplify_eq. split; cbn; try done.
    + apply Forall_app. split; [done|]. by apply spawn_acceptors_ok.
    + unfold in_use. cbn. by rewrite map_app, concat_app, spawn_bound, app_nil_r.
  - apply bind_Some in Hst as (a & Hi & Hst). apply bind_Some in Hst as (a' & Hn & Hst). simplify_eq.
    pose proof (Forall_lookup_1 _ _ _ _ Hac Hi) as Haok.
    split; cbn; try done; [by apply Forall_insert, (bind_next_ok ok a a' t)|by eapply bind_in_use].
  - apply bind_Some in Hst as (a & Hi & Hst). destruct (a_todo a) eqn:Et; [|done]. simplify_eq.
    pose proof (Forall_lookup_1 _ _ _ _ Hac Hi) as Haok. split; cbn; try done.
    + by apply Forall_delete.
    + apply Forall_app. split; [done|]. by apply serve_loops_ok.
    + unfold in_use in *. cbn. rewrite map_app, serve_loops_addr. rewrite (bound_split _ _ _ Hi) in Hu.
      by rewrite <- app_assoc.
  - apply bind_Some in Hst as (lp & Hi & Hst). simplify_eq.
    pose proof (Forall_lookup_1 _ _ _ _ Hlo Hi) as Hlok. split; cbn; try done.
    + apply Forall_app. by split; [|apply Forall_singleton].
    + apply Forall_app. split; [done|]. apply Forall_singleton. unfold waiting_ok, conn_ok. cbn.
      by destruct (l_source lp) eqn:El; rewrite ?El.
    + rewrite Ha, map_app. cbn. solve_Permutation.
  - apply bind_Some in Hst as (lp & Hi & Hst). simplify_eq. split; cbn; try done.
    + by apply Forall_delete.
    + apply (fewer_in_use _ _ t); [apply sublist_delete|by left|done].
  - apply bind_Some in Hst as (w & Hi & Hst).
    destruct (w_conn w) eqn:Ec; [done|]. destruct (t_active t) as [c|] eqn:Eact; simplify_eq.
    + by apply lock_conn_ok.
    + by apply settle_ok.
  - apply bind_Some in Hst as (w & Hi & Hst). apply bind_Some in Hst as (c & Hc & Hst).
    destruct (may_open c stream t) eqn:Em; [|done]. simplify_eq.
    apply settle_ok; [done..|]. apply (forward_end_ok _ _ _ t); try done. by eapply Forall_lookup_1 in Hw.
  - simplify_eq. destruct c as [c|]; split; cbn; try done; [| |intros ? [= <-]; set_solver].
    + eapply Forall_impl; [exact Hw|]. intros. by apply waiting_ok_mono.
    + eapply Forall_impl; [exact Hs|]. intros. by apply settled_ok_mono.
  - simplify_eq. by split.
  - simplify_eq. split; cbn; try done. apply (fewer_in_use (loops t) [] t); [done|by right|done].
Qed.

Lemma run_tasks_ok ls t t' :
  Forall label_ok ls -> tasks_ok t -> run_tasks gateway ls t = Some t' -> tasks_ok t'.
Proof.
  intros Hls. revert t. induction Hls as [|l ls Hl _ IH]; intros t Ht Hr; cbn in Hr; [by simplify_eq|].
  apply bind_Some in Hr as (t1 & Hst & Hr). eapply IH; [|exact Hr]. by eapply step_tasks_ok.
Qed.
End Invariant.

(** ** Runs from the start *)
Section Runs.
Context {C : EnvelopeCodec} (gateway : bool).

(** What a run was asked to forward. *)
Definition asked_in (ls : list task_label) (source : ConnSource) (spec : ForwardSpec) : Prop :=
  exists specs, Spawn source specs ∈ ls /\ spec ∈ specs.

Lemma labels_asked ls : Forall (label_ok (asked_in ls)) ls.
Proof.
  apply Forall_forall. intros l Hl. destruct l; try done. apply Forall_forall. intros spec Hs. by eexists.
Qed.

Lemma started_ok ls t : run_tasks gateway ls no_tasks = Some t -> tasks_ok gateway (asked_in ls) t.
Proof. apply run_tasks_ok; [apply labels_asked|apply no_tasks_ok]. Qed.

Lemma settled_came_in asked t s : tasks_ok gateway asked t -> s ∈ settled t -> loop_ok gateway asked s.1.2.
Proof.
  intros Ht Hs. pose proof (ok_came_in _ _ _ Ht) as Hc. rewrite Forall_forall in Hc. apply (Hc s.1).
  rewrite (ok_accounted _ _ _ Ht). apply elem_of_app. right. by apply (list_elem_of_fmap_2 fst).
Qed.

(** No accept error. *)
Definition accepts (l : task_label) : Prop := match l with AcceptFails _ => False | _ => True end.

Lemma step_keeps_loop l t t' i lp :
  accepts l -> step_tasks gateway l t = Some t' -> loops t !! i = Some lp -> loops t' !! i = Some lp.
Proof.
  intros Hl Hst Hi. destruct l as [| | | | |k|k stream| | |]; cbn in Hst; try done; try (by simplify_eq);
    apply bind_Some in Hst as (x & Hx & Hst).
  - apply bind_Some in Hst as (a & _ & Hst). by simplify_eq.
  - destruct (a_todo x); [|done]. simplify_eq. cbn. by apply lookup_app_l_Some.
  - by simplify_eq.
  - destruct (w_conn x), (t_active t); by simplify_eq.
  - apply bind_Some in Hst as (c & _ & Hst). destruct (may_open _ _ _); by simplify_eq.
Qed.

Lemma run_keeps_loop ls t t' i lp :
  Forall accepts ls -> run_tasks gateway ls t = Some t' -> loops t !! i = Some lp -> loops t' !! i = Some lp.
Proof.
  intros Hls. revert t. induction Hls as [|l ls Hl _ IH]; intros t Hr Hi; cbn in Hr; [by simplify_eq|].
  apply bind_Some in Hr as (t1 & Hst & Hr). eapply IH; [exact Hr|]. by eapply step_keeps_loop.
Qed.

Lemma run_tasks_app ls1 ls2 t :
  run_tasks gateway (ls1 ++ ls2) t = t' ← run_tasks gateway ls1 t; run_tasks gateway ls2 t'.
Proof.
  revert t. induction ls1 as [|l ls1 IH]; intros t; [done|]. cbn. destruct (step_tasks _ _ _); cbn; [apply IH|done].
Qed.

(** A loop of a lost connection forwards nothing more. *)
Lemma step_lost asked l t t' lp c :
  tasks_ok gateway asked t -> l_source lp = Own c -> c ∈ t_lost t -> step_tasks gateway l t = Some t' ->
  c ∈ t_lost t' /\
  forall peer c' st, (peer, lp, Piped c' st) ∈ settled t' -> (peer, lp, Piped c' st) ∈ settled t.
Proof.
  intros Ht Hl Hc Hst. destruct l as [| | | | |k|k stream| | |]; cbn in Hst;
    try (by simplify_eq); try (simplify_eq; cbn; split; [set_solver|done]);
    apply bind_Some in Hst as (x & Hx & Hst).
  - apply bind_Some in Hst as (a & _ & Hst). by simplify_eq.
  - destruct (a_todo x); by simplify_eq.
  - by simplify_eq.
  - by simplify_eq.
  - destruct (w_conn x), (t_active t); simplify_eq; [done|]. cbn. split; [done|]. set_solver.
  - apply bind_Some in Hst as (c2 & Hc2 & Hst). destruct (may_open _ _ _) eqn:Em; simplify_eq. cbn.
    split; [done|]. intros peer c' st [Hin|Heq]%elem_of_app; [done|]. apply list_elem_of_singleton in Heq.
    simplify_eq. pose proof (Forall_lookup_1 _ _ _ _ (ok_waiting _ _ _ Ht) Hx) as Hw.
    unfold waiting_ok, conn_ok in Hw. rewrite Hc2, Hl in Hw. subst c2. destruct stream as [st0|]; [|done].
    apply andb_true_iff in Em as [_ Em]. by rewrite bool_decide_eq_true_2 in Em.
Qed.

Lemma run_lost asked ls t t' lp c :
  Forall (label_ok asked) ls -> tasks_ok gateway asked t -> l_source lp = Own c -> c ∈ t_lost t ->
  run_tasks gateway ls t = Some t' ->
  c ∈ t_lost t' /\
  forall peer c' st, (peer, lp, Piped c' st) ∈ settled t' -> (peer, lp, Piped c' st) ∈ settled t.
Proof.
  intros Hls. revert t. induction Hls as [|l ls Hlab _ IH]; intros t Ht Hl Hc Hr; cbn in Hr; [by simplify_eq|].
  apply bind_Some in Hr as (t1 & Hst & Hr).
  destruct (step_lost _ _ _ _ _ _ Ht Hl Hc Hst) as [Hc1 Hp1].
  destruct (IH t1) as [Hc2 Hp2]; [by eapply step_tasks_ok|done..|]. eauto.
Qed.

Lemma one_loop_per_address asked t i lp lp' :
  tasks_ok gateway asked t -> loops t !! i = Some lp -> lp' ∈ loops t -> l_addr lp' = l_addr lp -> lp' = lp.
Proof.
  intros Ht Hi Hin He. apply list_elem_of_lookup in Hin as [j Hj].
  pose proof (ok_in_use _ _ _ Ht) as Hu. apply NoDup_app in Hu as [Hu _].
  change (map l_addr (loops t)) with (l_addr <$> loops t) in Hu.
  assert (i = j) as ->; [|congruence].
  eapply (NoDup_lookup _ _ _ (l_addr lp) Hu); rewrite list_lookup_fmap, ?Hi, ?Hj; cbn; congruence.
Qed.
End Runs.

(** ** Properties *)

(** C24: Both acceptors, in every order of binding, accepting, reconnecting and
    aborting: each TCP connection that was accepted is accounted for exactly once
    (its task is waiting, or it was dropped, or it was piped), no two loops hold
    the same address, every connection came in on a bind address of a TCP
    specification that the run was asked to forward; and where it was piped, the
    stream was opened on the connection of the client's own session, respectively
    on one that has been the server's active connection, and the other end makes of
    the stream exactly the specification's target, followed by the bytes of the
    TCP connection. *)
Theorem accepted_once_and_forwarded {C : EnvelopeCodec} {L : LawfulCodec C} gateway ls t :
  (forall source specs spec, Spawn source specs ∈ ls -> spec ∈ specs ->
     (exists s, parse s = Ok spec) /\ msg_ok (stream_open (forward_open spec))) ->
  run_tasks gateway ls no_tasks = Some t ->
  came_in t ≡ₚ map task_of (waiting t) ++ map fst (settled t) /\ NoDup (map l_addr (loops t)) /\
  forall peer l e, (peer, l, e) ∈ settled t ->
    asked_in ls (l_source l) (l_spec l) /\ proto (l_spec l) = Tcp /\ l_addr l ∈ bind_targets gateway (l_spec l) /\
    forall c st data, e = Piped c st ->
      match l_source l with
      | Own c' =>
        c = c' /\ dispatch None [mkRecv (written st ++ data) Finished] =
          (None, [(Tcp, forward_open (l_spec l), mkRecv data Finished)])
      | Shared =>
        c ∈ activated t /\ forall x11 specs display, l_spec l ∈ specs ->
          reverse_accept x11 specs display (mkRecv (written st ++ data) Finished) =
            ToTcp (target_addr (forward_open (l_spec l))) (mkRecv data Finished)
      end.
Proof.
  intros Hspecs Hr. pose proof (started_ok _ _ _ Hr) as Ht. split_and!.
  - apply (ok_accounted _ _ _ Ht).
  - pose proof (ok_in_use _ _ _ Ht) as Hu. by apply NoDup_app in Hu as [Hu _].
  - intros peer l e Hs. pose proof (settled_came_in _ _ _ _ Ht Hs) as [Htcp Hask Hadr]. cbn in Htcp, Hask, Hadr.
    split_and!; [done..|]. intros c st data ->. destruct Hask as (sp & Hsp & Hin).
    destruct (Hspecs _ _ _ Hsp Hin) as [[s Hp] Hm].
    pose proof (proj1 (Forall_forall _ _) (ok_settled _ _ _ Ht) _ Hs) as [Hc Ho]. cbn -[open_forward] in Hc, Ho.
    apply open_forward_inv in Ho as (_ & _ & ->). unfold conn_ok in Hc. destruct (l_source l).
    + split; [done|]. rewrite <- Htcp. by apply dispatch_forward_open.
    + split; [done|]. intros x11 specs display Hl. cbn [app written]. rewrite (reverse_accept_open s) by done.
      rewrite (proj2 (existsb_exists _ _)), Htcp; [done|]. exists (l_spec l).
      split; [by apply list_elem_of_In|]. by apply bool_decide_eq_true.
Qed.

(** C25: The reverse listeners survive reconnections: whatever happens to sessions
    and connections, a listener that has met no accept error still accepts, and a
    TCP connection taken after a new connection has become the active one is
    forwarded over that one, to the target of the [-R] specification. *)
Theorem reverse_listeners_survive {C : EnvelopeCodec} {L : LawfulCodec C} gateway ls1 t i l s ls2 t' c peer :
  run_tasks gateway ls1 no_tasks = Some t -> loops t !! i = Some l -> l_source l = Shared ->
  parse s = Ok (l_spec l) -> msg_ok (stream_open (forward_open (l_spec l))) ->
  run_tasks gateway ls2 t = Some t' -> Forall accepts ls2 -> c ∉ t_lost t' ->
  exists t'' st, let n := length (waiting t') in
    run_tasks gateway [SetActive (Some c); Accept i peer; LockConn n; OpenBi n (Some (mkSend [] true))] t' = Some t'' /\
    loops t'' = loops t' /\ settled t'' = settled t' ++ [(peer, l, Piped c st)] /\
    forall x11 specs display data, l_spec l ∈ specs ->
      reverse_accept x11 specs display (mkRecv (written st ++ data) Finished) =
        ToTcp (target_addr (forward_open (l_spec l))) (mkRecv data Finished).
Proof.
  intros Hr1 Hi Hsh Hp Hm Hr2 Hacc Hc. pose proof (run_keeps_loop _ _ _ _ _ _ Hacc Hr2 Hi) as Hi'.
  assert (proto (l_spec l) = Tcp) as Htcp.
  { pose proof (ok_loops _ _ _ (started_ok _ _ _ Hr1)) as Hl. by eapply Forall_lookup_1 in Hl as [? _ _]. }
  eexists _, _. cbn -[open_forward]. rewrite Hi'. cbn -[open_forward]. rewrite Hsh.
  rewrite lookup_app_r, Nat.sub_diag by lia. cbn -[open_forward].
  rewrite list_lookup_insert_eq by (rewrite length_app; cbn; lia). cbn -[open_forward].
  unfold may_open. cbn -[open_forward]. rewrite (bool_decide_eq_false_2 (c ∈ _)) by done.
  unfold forward_end. cbn -[open_forward]. rewrite open_forward_bytes by done.
  split; [reflexivity|]. split; [reflexivity|]. split; [reflexivity|].
  intros x11 specs display data Hl. cbn [app written]. rewrite (reverse_accept_open s) by done.
  rewrite (proj2 (existsb_exists _ _)), Htcp; [done|]. exists (l_spec l).
  split; [by apply list_elem_of_In|]. by apply bool_decide_eq_true.
Qed.

(** C26: The local TCP listeners do not: once the connection of a session is lost,
    its [run_loop] goes on, detached by the abort of its parent; in every
    continuation without an accept error its address stays its own, so that no
    acceptor of a later session gets it, it forwards nothing more, and every
    connection that it still accepts is dropped. *)
Theorem local_forward_lost {C : EnvelopeCodec} gateway ls1 t i l c ls2 t' :
  run_tasks gateway ls1 no_tasks = Some t -> loops t !! i = Some l -> l_source l = Own c -> c ∈ t_lost t ->
  run_tasks gateway ls2 t = Some t' -> Forall accepts ls2 ->
  (forall l', l' ∈ loops t' -> l_addr l' = l_addr l -> l' = l) /\
  (forall peer c' st, (peer, l, Piped c' st) ∈ settled t' -> (peer, l, Piped c' st) ∈ settled t) /\
  forall peer, exists t'', run_tasks gateway [Accept i peer; OpenBi (length (waiting t')) None] t' = Some t'' /\
    settled t'' = settled t' ++ [(peer, l, Discarded)].
Proof.
  intros Hr1 Hi Ho Hc Hr2 Hacc. pose proof (run_keeps_loop _ _ _ _ _ _ Hacc Hr2 Hi) as Hi'.
  assert (run_tasks gateway (ls1 ++ ls2) no_tasks = Some t') as Hr by (by rewrite run_tasks_app, Hr1).
  pose proof (proj1 (Forall_app _ ls1 ls2) (labels_asked _)) as [Hl1 Hl2].
  pose proof (run_tasks_ok _ _ _ _ _ Hl1 (no_tasks_ok _ _) Hr1) as Ht.
  split_and!.
  - intros l' Hin He. by apply (one_loop_per_address _ _ _ _ _ _ (started_ok _ _ _ Hr) Hi').
  - apply (run_lost _ _ _ _ _ _ _ Hl2 Ht Ho Hc Hr2).
  - intros peer. eexists. cbn. rewrite Hi'. cbn. rewrite Ho.
    rewrite lookup_app_r, Nat.sub_diag by lia. cbn. split; reflexivity.
Qed.

(** A session of the client is lost, and the next one finds the address taken. *)
Definition tcp_spec : ForwardSpec := mkForwardSpec (Some (lit "localhost")) 8080 (lit "db") 5432 Tcp.

Definition client_run : list task_label :=
  [Spawn (Own 0) [tcp_spec]; Bind 0 true; Serve 0; Accept 0 7; OpenBi 0 (Some (mkSend [] true)); Lose 0; EndSession].

Definition next_session : list task_label := [Spawn (Own 1) [tcp_spec]; Bind 0 true; Serve 0; Accept 0 8].

Definition server_run : list task_label :=
  [SetActive (Some 0%nat); Spawn Shared [tcp_spec]; Bind 0 true; Serve 0; Accept 0 7; LockConn 0].

Definition sample_after (ls : list task_label) : Tasks :=
  default no_tasks (run_tasks (C := proto_codec) false ls no_tasks).

Example targets_sample : bind_targets false tcp_spec = [lit "localhost:8080"].
Proof. reflexivity. Qed.

Lemma tcp_spec_parsed : parse (lit "localhost:8080:db:5432") = Ok tcp_spec.
Proof. reflexivity. Qed.

Lemma tcp_spec_small : msg_ok (H := proto_codec) (stream_open (forward_open tcp_spec)).
Proof. small_msg. Qed.

Lemma sample_spawned (ls : list task_label) source specs spec :
  Forall (fun l => match l with Spawn _ sp => sp = [tcp_spec] | _ => True end) ls ->
  Spawn source specs ∈ ls -> spec ∈ specs ->
  (exists s, parse s = Ok spec) /\ msg_ok (H := proto_codec) (stream_open (forward_open spec)).
Proof.
  intros Hls Hin Hs. eapply Forall_forall in Hls; [|exact Hin]. cbn in Hls. subst. apply list_elem_of_singleton in Hs as ->.
  split; [eexists; apply tcp_spec_parsed|apply tcp_spec_small].
Qed.

Lemma accepted_once_and_forwarded_witness :
  run_tasks (C := proto_codec) false client_run no_tasks = Some (sample_after client_run) /\
  length (settled (sample_after client_run)) = 1%nat /\
  came_in (sample_after client_run) ≡ₚ map fst (settled (sample_after client_run)).
Proof.
  assert (run_tasks (C := proto_codec) false client_run no_tasks = Some (sample_after client_run)) as Hr
    by (vm_compute; reflexivity).
  split; [exact Hr|]. split; [vm_compute; reflexivity|].
  apply (accepted_once_and_forwarded (C := proto_codec) (L := proto_codec_lawful) false client_run); [|exact Hr].
  intros source specs spec. apply sample_spawned. by repeat constructor.
Defined.

Lemma reverse_listeners_survive_witness :
  exists t'' st,
    run_tasks (C := proto_codec) false
      [SetActive (Some 1%nat); Accept 0 9; LockConn 1; OpenBi 1 (Some (mkSend [] true))]
      (sample_after (server_run ++ [Lose 0; SetActive None])) = Some t'' /\
    settled t'' = [(9%nat, mkLoop (lit "localhost:8080") tcp_spec Shared, Piped 1 st)].
Proof.
  destruct (reverse_listeners_survive (C := proto_codec) (L := proto_codec_lawful) false server_run
    (sample_after server_run) 0 (mkLoop (lit "localhost:8080") tcp_spec Shared)
    (lit "localhost:8080:db:5432") [Lose 0; SetActive None]
    (sample_after (server_run ++ [Lose 0; SetActive None])) 1 9) as (t'' & st & Hr & _ & Hs & _);
    [vm_compute; reflexivity|vm_compute; reflexivity|reflexivity|apply tcp_spec_parsed|apply tcp_spec_small|vm_compute; reflexivity|by repeat constructor| |].
  - vm_compute. intros H. inversion H as [|? ? ? H']. inversion H'.
  - exists t'', st. split; [exact Hr|exact Hs].
Defined.

Lemma local_forward_lost_witness :
  let t' := sample_after (client_run ++ next_session) in
  loops t' = [mkLoop (lit "localhost:8080") tcp_spec (Own 0)] /\ map w_peer (waiting t') = [8%nat] /\
  exists t'', run_tasks (C := proto_codec) false [Accept 0 9; OpenBi 1 None] t' = Some t'' /\
    settled t'' = settled t' ++ [(9%nat, mkLoop (lit "localhost:8080") tcp_spec (Own 0), Discarded)].
Proof.
  cbv zeta. split; [vm_compute; reflexivity|]. split; [vm_compute; reflexivity|].
  apply (local_forward_lost (C := proto_codec) false client_run (sample_after client_run) 0
    (mkLoop (lit "localhost:8080") tcp_spec (Own 0)) 0 next_session
    (sample_after (client_run ++ next_session))); try (vm_compute; reflexivity).
  - vm_compute. by left.
  - by repeat constructor.
Defined.
