(* ===== verification/UdpReverse.v ===== *)
(** The UDP listener of a reverse forward, which keeps one stream to the client
    across datagrams and opens another when the connection has changed
    ([run_udp_reverse_listener_socket] of [src/bin/etrs.rs]), and the sender of a
    local UDP forward ([run_udp_forward_client_socket] of [src/bin/etr.rs]).

    Connections are told apart by a number, their [stable_id].  All the streams
    that the listener has opened are kept, in the order of their opening. *)
From S2P Require Import Prelude Text Protocol Stream Utf8 Proto Quic Ip UdpFrame Forward X11 Connection Tunnel.

Open Scope Z_scope.
Open Scope list_scope.

(** ** State *)

Definition datagram : Type := SocketAddr * list u8.

Definition dgram_env (d : datagram) : Envelope := datagram_env d.1 d.2.

Record Listener : Type := mkListener {
  streams : list (nat * SendStream);
  current_tx : option nat;       (* the index of the current stream *)
  last_conn_id : option nat
}.

Definition new_listener : Listener := mkListener [] None None.

(** A received datagram, and what the network does meanwhile: the active
    connection, the stream that [open_bi] returns, and whether the current stream
    still takes a message. *)
Record Arrival : Type := mkArrival {
  a_datagram : datagram;
  a_active_conn : option nat;
  a_open_bi : option SendStream;
  a_alive : bool
}.

(** ** Operations *)

Definition need_new_stream (conn : nat) (l : Listener) : bool :=
  match current_tx l with
  | None => true
  | Some _ => match last_conn_id l with Some lc => negb (lc =? conn)%nat | None => true end
  end.

Section Listener.
Context {C : EnvelopeCodec}.

(** The new stream with its tag and header; [None] where the loop continues. *)
Definition open_listener_stream (spec : ForwardSpec) (conn : nat) (open_bi : option SendStream) (l : Listener)
    : option Listener :=
  match open_bi with
  | None => None
  | Some tx =>
    match open_forward spec tx with
    | Ok tx => Some (mkListener (streams l ++ [(conn, tx)]) (Some (length (streams l))) (Some conn))
    | Err _ => None
    end
  end.

Definition send_datagram (d : datagram) (alive : bool) (l : Listener) : Listener :=
  match current_tx l with
  | None => l
  | Some i =>
    match streams l !! i with
    | None => l
    | Some (conn, tx) =>
      match write_msg (dgram_env d) (mkSend (written tx) (connected tx && alive)) with
      | Ok tx => mkListener (<[i := (conn, tx)]> (streams l)) (current_tx l) (last_conn_id l)
      | Err _ => mkListener (streams l) None (last_conn_id l)
      end
    end
  end.

Definition on_arrival (spec : ForwardSpec) (l : Listener) (a : Arrival) : Listener :=
  match a_active_conn a with
  | None => l
  | Some conn =>
    match (if need_new_stream conn l then open_listener_stream spec conn (a_open_bi a) l else Some l) with
    | None => l
    | Some l => send_datagram (a_datagram a) (a_alive a) l
    end
  end.

Definition run_listener (spec : ForwardSpec) (arrivals : list Arrival) (l : Listener) : Listener :=
  fold_left (on_arrival spec) arrivals l.

(** [run_udp_forward_client_socket]: the header, then the frames of the encoder. *)
Definition udp_client_stream {F : DatagramField C} (spec : ForwardSpec) (ds : list datagram) (quic_send : SendStream)
    : result SendStream ErrorKind :=
  let? s := open_forward spec quic_send in
  fold_left (fun s framed => let? s := s in write_framed framed s) (frame_all ds new_encoder) (Ok s).

(** [run_udp_forward_client_quic]: a task for each socket that can be bound, each with a
    stream of its own; [None] when there is none.  What a socket receives and the stream
    that its task opens are the environment's. *)
Definition run_udp_forward_client_quic {F : DatagramField C} (bind_ok : str -> bool) (gateway : bool) (spec : ForwardSpec)
    (received : str -> list datagram) (open_bi : str -> SendStream) : option (list (result SendStream ErrorKind)) :=
  (fun sockets => map (fun s => udp_client_stream spec (received s) (open_bi s)) sockets) <$>
    bind_listeners bind_ok gateway spec.

(** [run_udp_reverse_listener], likewise. *)
Definition run_udp_reverse_listener (bind_ok : str -> bool) (gateway : bool) (spec : ForwardSpec)
    (arrivals : str -> list Arrival) : option (list Listener) :=
  (fun sockets => map (fun s => run_listener spec (arrivals s) new_listener) sockets) <$>
    bind_listeners bind_ok gateway spec.

(** ** The specification: a stream for each run of datagrams on one connection *)

Definition group_push (g : list (nat * list datagram)) (x : nat * datagram) : list (nat * list datagram) :=
  match last g with
  | Some (c, ds) => if (c =? x.1)%nat then removelast g ++ [(c, ds ++ [x.2])] else g ++ [(x.1, [x.2])]
  | None => [(x.1, [x.2])]
  end.

(** The datagrams that arrive while a client is connected. *)
Definition offered (arrivals : list Arrival) : list (nat * datagram) :=
  omap (fun a => (., a_datagram a) <$> a_active_conn a) arrivals.

Definition delivered (g : list (nat * list datagram)) : list (nat * datagram) :=
  concat (map (fun p => map (pair p.1) p.2) g).

(** The stream [st] carries the header and the datagrams [p] of its connection. *)
Definition carries (spec : ForwardSpec) (st : nat * SendStream) (p : nat * list datagram) : Prop :=
  st.1 = p.1 /\
  written st.2 = TAG_FORWARD :: frame (encode (stream_open (forward_open spec)))
                   ++ concat ((fun m => frame (encode m)) <$> map dgram_env p.2).

Definition healthy (a : Arrival) : Prop :=
  a_open_bi a = Some (mkSend [] true) /\ a_alive a = true.

Definition healthy_arrival (c : nat) (d : datagram) : Arrival :=
  mkArrival d (Some c) (Some (mkSend [] true)) true.

#[export] Instance healthy_dec a : Decision (healthy a).
Proof.
  destruct (a_open_bi a) as [[[] []]|] eqn:E, (a_alive a) eqn:A;
    (left; split; [by rewrite E|done]) || (right; intros [H1 H2]; congruence).
Defined.

(** A fresh stream has nothing written. *)
Definition fresh_open (a : Arrival) : Prop :=
  forall tx, a_open_bi a = Some tx -> written tx = [].

(** ** Lemmas *)

(** The current stream, if any, is the last one and of the last connection. *)
Definition listener_ok (spec : ForwardSpec) (l : Listener) (g : list (nat * list datagram)) : Prop :=
  Forall2 (carries spec) (streams l) g /\
  (forall i, current_tx l = Some i ->
     exists init conn tx, streams l = init ++ [(conn, tx)] /\ i = length init /\ last_conn_id l = Some conn).

(** ... and it takes messages, when nothing has failed. *)
Definition current_alive (l : Listener) : Prop :=
  streams l = [] /\ current_tx l = None \/
  exists init conn tx, streams l = init ++ [(conn, tx)] /\ connected tx = true /\
    current_tx l = Some (length init) /\ last_conn_id l = Some conn.

Lemma delivered_app g1 g2 : delivered (g1 ++ g2) = delivered g1 ++ delivered g2.
Proof. unfold delivered. by rewrite map_app, concat_app. Qed.

Lemma delivered_single c ds : delivered [(c, ds)] = map (pair c) ds.
Proof. unfold delivered. cbn. by rewrite app_nil_r. Qed.

(** Sending on the current stream. *)
Lemma send_current d alive l init conn tx :
  streams l = init ++ [(conn, tx)] -> current_tx l = Some (length init) ->
  send_datagram d alive l =
  if connected tx && alive
  then mkListener (init ++ [(conn, mkSend (written tx ++ frame (encode (dgram_env d))) true)])
         (current_tx l) (last_conn_id l)
  else mkListener (streams l) None (last_conn_id l).
Proof.
  intros Hs Hc. unfold send_datagram. rewrite Hc, Hs, list_lookup_middle by done.
  unfold write_msg, write_framed, write_all. cbn [written connected].
  destruct (connected tx && alive); [|done]. by rewrite insert_app_r_alt, Nat.sub_diag by done.
Qed.

(** ... adds the datagram to the last group. *)
Lemma carries_push spec init conn tx g d b :
  Forall2 (carries spec) (init ++ [(conn, tx)]) g ->
  exists ginit ds, g = ginit ++ [(conn, ds)] /\
    Forall2 (carries spec) (init ++ [(conn, mkSend (written tx ++ frame (encode (dgram_env d))) b)])
      (ginit ++ [(conn, ds ++ [d])]).
Proof.
  intros (ginit & glast & Hgi & Hgl & ->)%Forall2_app_inv_l.
  apply Forall2_cons_inv_l in Hgl as ([c ds] & g0 & [Hc1 Hw] & Hg0 & ->).
  apply Forall2_nil_inv_l in Hg0 as ->. cbn in Hc1, Hw. subst c.
  exists ginit, ds. split; [done|]. apply Forall2_app; [done|]. constructor; [|done]. split; [done|].
  cbn [fst snd written]. rewrite Hw, !fmap_app, concat_app. cbn. by rewrite app_nil_r, <- !app_assoc.
Qed.

Lemma open_stream_ok spec conn open_bi l l' g :
  listener_ok spec l g -> (forall tx, open_bi = Some tx -> written tx = []) ->
  open_listener_stream spec conn open_bi l = Some l' ->
  listener_ok spec l' (g ++ [(conn, [])]) /\ last_conn_id l' = Some conn /\ current_alive l' /\
  current_tx l' <> None.
Proof.
  intros [Hg Hc] Hf Ho. unfold open_listener_stream in Ho. destruct open_bi as [tx|]; [|done].
  destruct (open_forward spec tx) as [tx'|] eqn:Et; [|done]. simplify_eq.
  apply open_forward_inv in Et as (_ & Hconn & Hw). rewrite (Hf tx eq_refl) in Hw. repeat split; try done.
  - apply Forall2_app; [done|]. constructor; [|done]. split; [done|]. cbn. by rewrite Hw, app_nil_r.
  - cbn. intros i [= <-]. by exists (streams l), conn, tx'.
  - right. by exists (streams l), conn, tx'.
Qed.

(** Whatever fails, a datagram is delivered once, on the connection that was
    active, or not at all. *)
Lemma on_datagram_ok spec l g a :
  listener_ok spec l g -> fresh_open a ->
  exists g', listener_ok spec (on_arrival spec l a) g' /\
    (delivered g' = delivered g \/
     exists conn, a_active_conn a = Some conn /\ delivered g' = delivered g ++ [(conn, a_datagram a)]).
Proof.
  intros Hl Hf. unfold on_arrival. destruct (a_active_conn a) as [conn|]; [|by exists g; split; [|left]].
  assert (forall l1 g1, listener_ok spec l1 g1 -> delivered g1 = delivered g ->
    (current_tx l1 <> None -> last_conn_id l1 = Some conn) ->
    exists g', listener_ok spec (send_datagram (a_datagram a) (a_alive a) l1) g' /\
      (delivered g' = delivered g \/
       exists c, Some conn = Some c /\ delivered g' = delivered g ++ [(c, a_datagram a)])) as Hsend.
  { intros l1 g1 Hl1 Hd Hlast. destruct (current_tx l1) as [i|] eqn:Ei.
    2: { exists g1. unfold send_datagram. rewrite Ei. by split; [|left]. }
    destruct (proj2 Hl1 i Ei) as (init & c & tx & Hs & -> & Hlc).
    rewrite Hlast in Hlc by done. injection Hlc as <-.
    rewrite (send_current _ _ _ _ _ _ Hs Ei). destruct (_ && _).
    - destruct Hl1 as [Hg _]. rewrite Hs in Hg.
      apply (carries_push _ _ _ _ _ (a_datagram a) true) in Hg as (ginit & ds & -> & Hg).
      exists (ginit ++ [(conn, ds ++ [a_datagram a])]). split; [split; [done|]|].
      + cbn. intros i Hi. rewrite Ei in Hi. simplify_eq. eexists init, conn, _. by rewrite Hlast.
      + right. exists conn. split; [done|].
        by rewrite <- Hd, !delivered_app, !delivered_single, map_app, app_assoc.
    - exists g1. split; [|by left]. split; [by apply Hl1|done]. }
  unfold need_new_stream. destruct (current_tx l) as [i|] eqn:Ei.
  2: { destruct (open_listener_stream _ _ _ _) as [l1|] eqn:Eo; [|by exists g; split; [|left]].
       destruct (open_stream_ok _ _ _ _ _ _ Hl Hf Eo) as (Hl1 & Hlast & _).
       apply (Hsend _ _ Hl1); [|done]. by rewrite delivered_app, delivered_single, app_nil_r. }
  destruct (proj2 Hl i Ei) as (init & c & tx & Hs & -> & Hlc). rewrite Hlc.
  destruct (Nat.eqb_spec c conn) as [->|Hne]; cbn [negb]; [by apply (Hsend l g)|].
  destruct (open_listener_stream _ _ _ _) as [l1|] eqn:Eo; [|by exists g; split; [|left]].
  destruct (open_stream_ok _ _ _ _ _ _ Hl Hf Eo) as (Hl1 & Hlast & _).
  apply (Hsend _ _ Hl1); [|done]. by rewrite delivered_app, delivered_single, app_nil_r.
Qed.

Lemma run_listener_ok spec arrivals l g :
  listener_ok spec l g -> Forall fresh_open arrivals ->
  exists g' xs, listener_ok spec (run_listener spec arrivals l) g' /\
    delivered g' = delivered g ++ xs /\ xs `sublist_of` offered arrivals.
Proof.
  intros Hl Hf. revert l g Hl. induction Hf as [|a arrivals Ha Hf IH]; intros l g Hl.
  { exists g, []. rewrite app_nil_r. split; [done|]; split; [by rewrite ?app_nil_r|constructor]. }
  destruct (on_datagram_ok _ _ _ _ Hl Ha) as (g1 & Hl1 & Hd).
  destruct (IH _ _ Hl1) as (g' & xs & Hl' & Hd' & Hx).
  unfold offered in *. cbn [omap list_omap].
  destruct Hd as [Hd|(conn & Hc & Hd)]; rewrite Hd in Hd'.
  - exists g', xs. split; [done|]. split; [done|]. destruct (a_active_conn a); cbn; [by apply sublist_cons|done].
  - exists g', ((conn, a_datagram a) :: xs). split; [done|]. split; [by rewrite Hd', <- app_assoc|].
    rewrite Hc. cbn. by apply sublist_skip.
Qed.

(** Nothing fails: the groups are those of the specification. *)
Lemma send_alive spec d l g conn :
  listener_ok spec l g -> current_alive l -> current_tx l <> None -> last_conn_id l = Some conn ->
  exists ginit ds, g = ginit ++ [(conn, ds)] /\
    listener_ok spec (send_datagram d true l) (ginit ++ [(conn, ds ++ [d])]) /\
    current_alive (send_datagram d true l).
Proof.
  intros [Hg _] [[_ Hn]|(init & c & tx & Hs & Htx & Hc & Hl)] Hcur Hconn; [done|].
  rewrite Hl in Hconn. injection Hconn as ->. rewrite Hs in Hg.
  apply (carries_push _ _ _ _ _ d true) in Hg as (ginit & ds & -> & Hg). exists ginit, ds.
  rewrite (send_current _ _ _ _ _ _ Hs Hc), Htx. cbn [andb]. split; [done|]. split; [split; [done|]|].
  - cbn. intros i Hi. rewrite Hc in Hi. simplify_eq. by eexists init, conn, _.
  - right. by eexists init, conn, _.
Qed.

Lemma open_healthy spec conn l :
  exists l', open_listener_stream spec conn (Some (mkSend [] true)) l = Some l'.
Proof. unfold open_listener_stream. rewrite open_forward_bytes by done. by eexists. Qed.

Lemma group_push_snoc init c ds x :
  group_push (init ++ [(c, ds)]) x =
  if (c =? x.1)%nat then init ++ [(c, ds ++ [x.2])] else init ++ [(c, ds); (x.1, [x.2])].
Proof.
  unfold group_push. rewrite last_snoc. destruct (c =? x.1)%nat; [by rewrite removelast_last|].
  by rewrite <- app_assoc.
Qed.

Lemma on_datagram_healthy spec l g a :
  listener_ok spec l g -> current_alive l -> healthy a ->
  listener_ok spec (on_arrival spec l a)
    (match a_active_conn a with Some c => group_push g (c, a_datagram a) | None => g end) /\
  current_alive (on_arrival spec l a).
Proof.
  intros Hl Ha [Ho Hlive]. unfold on_arrival. destruct (a_active_conn a) as [conn|]; [|done].
  rewrite Ho, Hlive. destruct (open_healthy spec conn l) as [l1 Hl1].
  destruct (open_stream_ok spec conn (Some (mkSend [] true)) l l1 g Hl ltac:(by intros ? [= <-]) Hl1)
    as (Hok1 & Hlast1 & Halive1 & Hcur1).
  destruct (send_alive spec (a_datagram a) l1 _ conn Hok1 Halive1 Hcur1 Hlast1)
    as (ginit & ds & [<- [= <-]]%app_inj_tail & Hnew & Hnewa).
  unfold need_new_stream. destruct Ha as [[Hs Hn]|(init & c & tx & Hs & Htx & Hc & Hlc)].
  - rewrite Hn, Hl1. destruct Hl as [Hg _]. rewrite Hs in Hg. by apply Forall2_nil_inv_l in Hg as ->.
  - rewrite Hc, Hlc.
    assert (current_alive l) as Ha by (right; by exists init, c, tx).
    destruct (send_alive spec (a_datagram a) l g c Hl Ha ltac:(by rewrite Hc) Hlc) as (ginit' & ds & -> & Hold & Holda).
    rewrite group_push_snoc. cbn [fst snd]. destruct (Nat.eqb_spec c conn) as [->|Hne]; cbn [negb]; [done|].
    rewrite Hl1. split; [|done]. by rewrite <- app_assoc in Hnew.
Qed.

Lemma run_listener_healthy spec arrivals l g :
  listener_ok spec l g -> current_alive l -> Forall healthy arrivals ->
  listener_ok spec (run_listener spec arrivals l) (fold_left group_push (offered arrivals) g).
Proof.
  intros Hl Ha Hf. revert l g Hl Ha. induction Hf as [|a arrivals Hh Hf IH]; intros l g Hl Ha; [done|].
  destruct (on_datagram_healthy _ _ _ _ Hl Ha Hh) as [Hl1 Ha1]. unfold offered in *. cbn [omap list_omap].
  specialize (IH _ _ Hl1 Ha1). by destruct (a_active_conn a).
Qed.

Lemma delivered_group_push g x : delivered (group_push g x) = delivered g ++ [x].
Proof.
  destruct x as [c d]. destruct g as [|[c' ds] g _] using rev_ind; [done|].
  rewrite group_push_snoc. cbn [fst snd]. destruct (Nat.eqb_spec c' c) as [->|_].
  - by rewrite !delivered_app, !delivered_single, map_app, app_assoc.
  - change [(c', ds); (c, [d])] with ([(c', ds)] ++ [(c, [d])]). by rewrite app_assoc, delivered_app, delivered_single.
Qed.

Lemma delivered_groups xs g : delivered (fold_left group_push xs g) = delivered g ++ xs.
Proof.
  revert g. induction xs as [|x xs IH]; intros g; cbn [fold_left]; [by rewrite app_nil_r|].
  by rewrite IH, delivered_group_push, <- app_assoc.
Qed.

Lemma groups_one_conn c ds pre d :
  fold_left group_push (map (pair c) ds) [(c, pre ++ [d])] = [(c, pre ++ [d] ++ ds)].
Proof.
  revert pre d. induction ds as [|d' ds IH]; intros pre d; cbn [map fold_left]; [by rewrite app_nil_r|].
  change [(c, pre ++ [d])] with ([] ++ [(c, pre ++ [d])]). rewrite group_push_snoc. cbn [fst snd].
  rewrite Nat.eqb_refl. cbn [app]. by rewrite IH, <- app_assoc.
Qed.

Lemma offered_one_conn c ds : offered (map (healthy_arrival c) ds) = map (pair c) ds.
Proof. unfold offered. induction ds as [|d ds IH]; [done|]. cbn [map omap list_omap]. rewrite IH. done. Qed.

(** The frames of the encoder, written one by one. *)
Lemma write_frames_spec framed s :
  connected s = true ->
  fold_left (fun s framed => let? s := s in write_framed framed s) framed (Ok s) =
  Ok (mkSend (written s ++ concat framed) true).
Proof.
  revert s. induction framed as [|f framed IH]; intros [w []] Hc; cbn in Hc |- *; try done.
  - by rewrite app_nil_r.
  - rewrite IH by done. cbn. by rewrite <- app_assoc.
Qed.

Lemma udp_client_stream_spec {F : DatagramField C} `{!LawfulField C F} spec ds :
  udp_client_stream spec ds (mkSend [] true) =
  Ok (mkSend (TAG_FORWARD :: frame (encode (stream_open (forward_open spec)))
                ++ concat ((fun m => frame (encode m)) <$> map dgram_env ds)) true).
Proof.
  unfold udp_client_stream. rewrite open_forward_bytes by done. cbn [written app result_bind].
  rewrite write_frames_spec, frame_all_spec by done. cbn [written].
  assert (forall g : datagram -> Envelope, (fun m => frame (encode m)) <$> map g ds =
    (fun d => frame (encode (g d))) <$> ds) as Hm by (intros g; apply map_map).
  by rewrite Hm.
Qed.

Lemma new_listener_ok spec : listener_ok spec new_listener [].
Proof. split; [constructor|done]. Qed.

(** The client takes the stream [st] for the target and reads the datagrams [p]. *)
Definition accepted (spec : ForwardSpec) (specs : list ForwardSpec) (x11 : bool) (display : option str)
    (st : nat * SendStream) (p : nat * list datagram) : Prop :=
  st.1 = p.1 /\
  exists r, reverse_accept x11 specs display (mkRecv (written st.2) Finished) =
      ToUdp (target_addr (forward_open spec)) r /\
    read_msgs (S (length p.2)) r = (map dgram_env p.2, Ok tt).

(** What the client makes of a stream that carries a group. *)
Lemma carries_accepted {L : LawfulCodec C} s spec specs x11 display st p :
  parse s = Ok spec -> spec ∈ specs -> proto spec = Udp -> msg_ok (stream_open (forward_open spec)) ->
  Forall (fun d => msg_ok (dgram_env d)) p.2 -> carries spec st p ->
  exists r, reverse_accept x11 specs display (mkRecv (written st.2) Finished) =
      ToUdp (target_addr (forward_open spec)) r /\
    read_msgs (S (length p.2)) r = (map dgram_env p.2, Ok tt).
Proof.
  intros Hp Hin Hu Hm Hds [_ Hw]. rewrite Hw, (reverse_accept_open s) by done.
  rewrite (proj2 (existsb_exists _ _)), Hu.
  - eexists. split; [done|]. apply read_msgs_frames; [|rewrite length_map; lia].
    apply Forall_fmap. exact Hds.
  - exists spec. split; [by apply list_elem_of_In|]. by apply bool_decide_eq_true.
Qed.

Lemma carries_all_accepted {L : LawfulCodec C} s spec specs x11 display sts g :
  parse s = Ok spec -> spec ∈ specs -> proto spec = Udp -> msg_ok (stream_open (forward_open spec)) ->
  Forall (fun p => Forall (fun d => msg_ok (dgram_env d)) p.2) g -> Forall2 (carries spec) sts g ->
  Forall2 (accepted spec specs x11 display) sts g.
Proof.
  intros Hp Hin Hu Hm Hg Hc. induction Hc as [|st p sts g Hst Hc IH]; [constructor|].
  apply Forall_cons in Hg as [Hds Hg]. constructor; [|by apply IH]. split; [apply Hst|].
  by eapply (carries_accepted s).
Qed.

(** What is relayed has been received. *)
Lemma delivered_received (P : datagram -> Prop) arrivals g :
  delivered g `sublist_of` offered arrivals -> Forall (fun a => P (a_datagram a)) arrivals ->
  Forall (fun p => Forall P p.2) g.
Proof.
  intros Hs Ha. assert (Forall (fun x => P x.2) (delivered g)) as Hd.
  { apply (sublist_Forall _ _ _ Hs), Forall_forall. intros x Hx.
    apply list_elem_of_omap in Hx as (a & Hin & Hx). rewrite Forall_forall in Ha.
    destruct (a_active_conn a); [|done]. simplify_eq/=. by apply Ha. }
  clear Hs. induction g as [|p g IH]; constructor.
  - apply Forall_app in Hd as [Hd _]. revert Hd. by rewrite Forall_map.
  - apply IH. by apply Forall_app in Hd as [_ Hd].
Qed.

(** What the listener does with any arrivals. *)
Lemma listener_groups spec arrivals :
  Forall fresh_open arrivals ->
  exists groups, Forall2 (carries spec) (streams (run_listener spec arrivals new_listener)) groups /\
    delivered groups `sublist_of` offered arrivals /\
    (Forall healthy arrivals -> groups = fold_left group_push (offered arrivals) []).
Proof.
  intros Hf. destruct (decide (Forall healthy arrivals)) as [Hh|Hh].
  - exists (fold_left group_push (offered arrivals) []). split; [|by rewrite delivered_groups].
    apply (run_listener_healthy spec arrivals new_listener []); [apply new_listener_ok|by left|done].
  - destruct (run_listener_ok spec arrivals new_listener [] (new_listener_ok spec) Hf)
      as (g & xs & [Hg _] & Hdel & Hx). exists g. by rewrite Hdel.
Qed.

End Listener.

(** ** Properties *)

(** The listener of a reverse UDP forward: every stream that it opens is
    accepted by the client for the target of the specification, and the messages
    on it are datagrams of its connection, in the order of their arrival.  Over
    all streams, each datagram that arrives while a client is connected is relayed
    at most once and on the connection that was active then, whatever [open_bi]
    and the writes do; when nothing fails every one is relayed, with one stream for
    each run of datagrams on the same connection, so a reconnection does not stop
    the forward. *)
Theorem udp_reverse_delivery {C : EnvelopeCodec} {L : LawfulCodec C} s spec specs x11 display arrivals :
  parse s = Ok spec -> spec ∈ specs -> proto spec = Udp -> msg_ok (stream_open (forward_open spec)) ->
  Forall (fun a => fresh_open a /\ msg_ok (dgram_env (a_datagram a))) arrivals ->
  exists groups,
    Forall2 (accepted spec specs x11 display) (streams (run_listener spec arrivals new_listener)) groups /\
    delivered groups `sublist_of` offered arrivals /\
    (Forall healthy arrivals -> groups = fold_left group_push (offered arrivals) []).
Proof.
  intros Hp Hin Hu Hm [Hf Hd]%Forall_and.
  destruct (listener_groups spec arrivals Hf) as (groups & Hg & Hsub & Hh).
  exists groups. split; [|done]. apply (carries_all_accepted s); try done.
  by apply (delivered_received _ arrivals).
Qed.

(** C32: Both ends put the same bytes on a UDP forward's stream: what the client
    writes for the datagrams of a local socket, with the encoder that keeps its
    buffers and the text of the last address, is byte for byte what the server's
    listener writes for the same datagrams, message by message, when its
    connection stays. *)
Theorem udp_ends_write_alike {C : EnvelopeCodec} {F : DatagramField C} {LF : LawfulField C F}
    spec c d ds :
  exists tx tx',
    udp_client_stream spec (d :: ds) (mkSend [] true) = Ok tx /\
    streams (run_listener spec (map (healthy_arrival c) (d :: ds)) new_listener) = [(c, tx')] /\
    written tx = written tx'.
Proof.
  eexists. pose proof (run_listener_healthy spec (map (healthy_arrival c) (d :: ds)) new_listener []
    (new_listener_ok spec) ltac:(by left)
    ltac:(apply Forall_map, Forall_true; by split)) as [Hg _].
  assert (fold_left group_push (offered (map (healthy_arrival c) (d :: ds))) [] = [(c, d :: ds)]) as Ho.
  { rewrite offered_one_conn. apply (groups_one_conn c ds [] d). }
  rewrite Ho in Hg. apply Forall2_cons_inv_r in Hg as ([c' tx'] & sts & [Hc Hw] & Hs & Hl).
  apply Forall2_nil_inv_r in Hs as ->. cbn in Hc. subst c'. exists tx'.
  rewrite Hl, udp_client_stream_spec. repeat split. symmetry. exact Hw.
Qed.

(** ** Witnesses *)

Definition sample_arrivals : list Arrival :=
  let peer := SockV4 [10; 0; 0; 7] 5353 in
  [mkArrival (peer, [1]) (Some 1%nat) (Some (mkSend [] true)) true;
   mkArrival (peer, [2]) (Some 1%nat) None true;
   mkArrival (peer, [3]) None None true;
   mkArrival (peer, [4]) (Some 2%nat) (Some (mkSend [] true)) false;
   mkArrival (peer, [5]) (Some 2%nat) (Some (mkSend [] true)) true].

(** The datagrams that arrive without a client or when a write fails are lost,
    the others are on a stream of their connection. *)
Lemma udp_reverse_delivery_witness :
  exists groups,
    Forall2 (accepted (C := proto_codec) db_spec [db_spec] false None)
      (streams (run_listener (C := proto_codec) db_spec sample_arrivals new_listener)) groups /\
    delivered groups `sublist_of` offered sample_arrivals.
Proof.
  destruct (udp_reverse_delivery (C := proto_codec) (L := proto_codec_lawful) (lit "8080:[::1]:5432/udp") db_spec [db_spec]
    false None sample_arrivals) as (groups & Hg & Hs & _).
  - reflexivity.
  - left.
  - reflexivity.
  - small_msg.
  - unfold sample_arrivals. cbv zeta. repeat (constructor; [split; [intros tx E; cbn in E; now simplify_eq|small_msg]|]). constructor.
  - exists groups. split; [exact Hg|exact Hs].
Defined.

Example sample_streams :
  map fst (streams (run_listener (C := proto_codec) db_spec sample_arrivals new_listener)) = [1; 2; 2]%nat.
Proof. vm_compute. reflexivity. Qed.

Lemma udp_ends_write_alike_witness :
  exists tx tx',
    udp_client_stream (C := proto_codec) (F := proto_field) db_spec sample_datagrams (mkSend [] true) = Ok tx /\
    streams (run_listener (C := proto_codec) db_spec (map (healthy_arrival 5) sample_datagrams) new_listener) = [(5%nat, tx')] /\
    written tx = written tx'.
Proof.
  exact (udp_ends_write_alike (C := proto_codec) (F := proto_field) (LF := proto_field_lawful) db_spec 5
    (SockV4 [127; 0; 0; 1] 53, [1]) (drop 1 sample_datagrams)).
Defined.
