(* ===== verification/UdpForward.v ===== *)
(** A local UDP forward from end to end: datagrams of applications on the client's
    side, the stream, the server's sockets, and the replies back to the
    applications ([run_udp_forward_client_quic] and its socket task of
    [src/bin/etr.rs], [serve_udp_forward] of [src/bin/etrs.rs]).

    The parts are those of [UdpReverse] (the client's writer), [Connection] (the
    dispatch), [UdpSenders] (the sockets) and [UdpFrame] (addresses). *)
From S2P Require Import Prelude Text Protocol Stream Utf8 Proto Quic Ip Addrfam UdpFrame Forward X11 Connection Tunnel UdpSenders UdpReverse.

Open Scope Z_scope.
Open Scope list_scope.

(** ** The server's end *)

Section Target.
Context (lookup_host : str -> result (list SocketAddr) ErrorKind) (routable : SocketAddr -> bool).

(** The target and the address its sockets are bound to; [None] finishes the
    stream. *)
Definition udp_target (so : StreamOpen) (pref : AddrPref) : option (SocketAddr * str) :=
  (fun a => (a, if is_ipv6 a then lit "[::]:0" else lit "0.0.0.0:0")) <$>
    resolve_udp_target lookup_host routable (target_addr so) pref.
End Target.

(** What the sending task and the reply tasks do, in order: take the next message
    of the stream at a time at which a socket can be bound or not, or receive a
    reply. *)
Inductive serve_label : Type :=
| NextMessage (now : Z) (bind_ok : bool)
| TargetReply (i : nat) (data : list u8) (now : Z).

(** The events for the sockets; the task ends with the stream. *)
Fixpoint serve_events (ls : list serve_label) (ms : list Envelope) : list udp_event :=
  match ls with
  | [] => []
  | NextMessage now ok :: ls =>
    match ms with
    | [] => []
    | m :: ms =>
      match payload m with Some (PUdpDatagram dg) => [FromTunnel dg now ok] | _ => [] end ++ serve_events ls ms
    end
  | TargetReply i data now :: ls => FromTarget i data now :: serve_events ls ms
  end.

(** The collector task: each reply is a message. *)
Definition reply_env (r : UdpDatagram) : Envelope := mkEnvelope (Some (PUdpDatagram r)).

Definition replies (outs : list udp_output) : list (nat * UdpDatagram) :=
  omap (fun o => match o with Relayed i r => Some (i, r) | Sent _ _ _ => None end) outs.

Definition reply_task {C : EnvelopeCodec} (outs : list udp_output) (s : SendStream) : result SendStream ErrorKind :=
  write_msgs (map (fun p => reply_env p.2) (replies outs)) s.

(** ** The client's end *)

(** [dgram_out]: where each message is sent to and what; others are passed over. *)
Definition dgram_out (ms : list Envelope) : list (SocketAddr * list u8) := omap received_datagram ms.

(** ** Lemmas *)

(** Data that came in from the tunnel. *)
Definition from_tunnel (evs : list udp_event) (key : sender_key) (data : list u8) : Prop :=
  exists dg now ok, FromTunnel dg now ok ∈ evs /\ key = (peer_addr dg, peer_port dg) /\ data = dg_data dg.

Lemma step_sent ev s i key data :
  Sent i key data ∈ (udp_step ev s).1 -> from_tunnel [ev] key data.
Proof.
  destruct ev as [dg now ok|j d now]; unfold udp_step.
  - destruct (on_datagram dg now ok s) as [[k|] s']; [|by intros ?%elem_of_nil].
    intros Hin%list_elem_of_singleton. injection Hin as -> -> ->. exists dg, now, ok. by repeat split; try left.
  - destruct (on_reply j d now s) as [[r|] s']; [|by intros ?%elem_of_nil]. by intros Hin%list_elem_of_singleton.
Qed.

Lemma step_relayed ev s i r :
  Relayed i r ∈ (udp_step ev s).1 -> exists now, ev = FromTarget i (dg_data r) now.
Proof.
  destruct ev as [dg now ok|j d now]; unfold udp_step.
  - destruct (on_datagram dg now ok s) as [[k|] s']; [|by intros ?%elem_of_nil]. by intros Hin%list_elem_of_singleton.
  - unfold on_reply. destruct (owner j (sender_map s)) as [[key e]|]; [|by intros ?%elem_of_nil].
    destruct (task_alive e && _); [|by intros ?%elem_of_nil]. intros Hin%list_elem_of_singleton.
    injection Hin as -> ->. by exists now.
Qed.

(** Every socket that is in use has sent for its sender. *)
Definition has_sent (outs : list udp_output) (s : Senders) : Prop :=
  forall key e, sender_map s !! key = Some e -> exists data, Sent (sock e) key data ∈ outs.

Lemma step_has_sent ev s outs :
  has_sent outs s -> has_sent (outs ++ (udp_step ev s).1) (udp_step ev s).2.
Proof.
  intros Hs. assert (forall m o n, m ⊆ sender_map s -> has_sent (outs ++ o) (mkSenders m n)) as Hmono.
  { intros m o n Hm key e Hk. destruct (Hs key e) as [data Hd]; [by eapply lookup_weaken|].
    exists data. apply elem_of_app. by left. }
  destruct ev as [dg now ok|j d now]; unfold udp_step.
  - unfold on_datagram, handle_datagram. case_bool_decide; [by rewrite app_nil_r|]. cbn zeta.
    destruct (retain now (sender_map s) !! _) as [e|] eqn:Ek; cbn [fst snd].
    + apply retain_lookup in Ek as [Ek _]. intros key e' Hk. cbn in Hk.
      apply lookup_insert_Some in Hk as [[<- <-]|[_ Hk]].
      * cbn. eexists. apply elem_of_app. right. by left.
      * apply (Hmono (retain now (sender_map s)) _ 0%nat (retain_subset _ _)). exact Hk.
    + destruct ok; cbn [fst snd]; [|apply Hmono, retain_subset].
      intros key e' Hk. cbn in Hk. apply lookup_insert_Some in Hk as [[<- <-]|[_ Hk]].
      * cbn. eexists. apply elem_of_app. right. by left.
      * apply (Hmono (make_room (retain now (sender_map s))) _ 0%nat); [|exact Hk].
        etrans; [apply make_room_subset|apply retain_subset].
  - unfold on_reply. destruct (owner j (sender_map s)) as [[k e]|] eqn:Eo; [|by rewrite app_nil_r; destruct s].
    apply owner_Some in Eo as [Hk <-]. destruct (Hs _ _ Hk) as [data Hd].
    assert (forall o e', sock e' = sock e -> forall n, has_sent (outs ++ o) (mkSenders (<[k := e']> (sender_map s)) n)) as Hgo.
    { intros o e' He n key e2 Hk2. cbn in Hk2. apply lookup_insert_Some in Hk2 as [[<- <-]|[_ Hk2]].
      - exists data. rewrite He. apply elem_of_app. by left.
      - apply (Hmono (sender_map s) o 0%nat); done. }
    destruct (task_alive e && _); cbn [fst snd]; by apply Hgo.
Qed.

Lemma step_relayed_sent ev s outs i r :
  has_sent outs s -> Relayed i r ∈ (udp_step ev s).1 ->
  exists data, Sent i (peer_addr r, peer_port r) data ∈ outs.
Proof.
  intros Hs. destruct ev as [dg now ok|j d now]; unfold udp_step.
  - destruct (on_datagram dg now ok s) as [[k|] s']; [|by intros ?%elem_of_nil]. by intros Hin%list_elem_of_singleton.
  - unfold on_reply. destruct (owner j (sender_map s)) as [[key e]|] eqn:Eo; [|by intros ?%elem_of_nil].
    destruct (task_alive e && _); [|by intros ?%elem_of_nil]. intros Hin%list_elem_of_singleton.
    injection Hin as -> ->. apply owner_Some in Eo as [Hk <-]. cbn. rewrite <- surjective_pairing. by apply Hs.
Qed.

(** The same for a whole run, after the outputs [outs]. *)
Lemma run_provenance evs s outs :
  has_sent outs s ->
  (forall i key data, Sent i key data ∈ (udp_run evs s).1 -> from_tunnel evs key data) /\
  (forall i r, Relayed i r ∈ (udp_run evs s).1 ->
     (exists now, FromTarget i (dg_data r) now ∈ evs) /\
     exists data, Sent i (peer_addr r, peer_port r) data ∈ outs ++ (udp_run evs s).1).
Proof.
  revert s outs. induction evs as [|ev evs IH]; intros s outs Hs; cbn [udp_run].
  { split; intros *; by intros ?%elem_of_nil. }
  pose proof (step_has_sent ev s outs Hs) as Hs'. pose proof (step_sent ev s) as Hsent.
  pose proof (step_relayed ev s) as Hrel. pose proof (step_relayed_sent ev s outs) as Hrs.
  destruct (udp_step ev s) as [out s'] eqn:E. cbn [fst snd] in *. destruct (IH s' (outs ++ out) Hs') as [IH1 IH2].
  destruct (udp_run evs s') as [outs' s'']. cbn [fst] in *. split.
  - intros i key data [H|H]%elem_of_app.
    + destruct (Hsent _ _ _ H) as (dg & now & ok & Hin%list_elem_of_singleton & Hk & Hd).
      exists dg, now, ok. split; [rewrite Hin; by left|done].
    + destruct (IH1 _ _ _ H) as (dg & now & ok & Hin & Hk & Hd). exists dg, now, ok. split; [by right|done].
  - intros i r [H|H]%elem_of_app.
    + destruct (Hrel _ _ H) as [now ->]. split; [exists now; by left|].
      destruct (Hrs _ _ Hs H) as [data Hd]. exists data. apply elem_of_app. by left.
    + destruct (IH2 _ _ H) as [[now Hn] [data Hd]]. split; [exists now; by right|].
      exists data. by rewrite app_assoc.
Qed.

Lemma serve_events_tunnel ls ms dg now ok :
  FromTunnel dg now ok ∈ serve_events ls ms -> reply_env dg ∈ ms.
Proof.
  revert ms. induction ls as [|[n b|i d n] ls IH]; intros ms; cbn [serve_events]; [by intros ?%elem_of_nil| |].
  - destruct ms as [|m ms]; [by intros ?%elem_of_nil|]. intros [H|H]%elem_of_app; [|right; by apply IH].
    apply elem_of_cons. left. destruct m as [[[]|]]; cbn in H; try by apply elem_of_nil in H.
    apply list_elem_of_singleton in H. by injection H as -> _ _.
  - rewrite elem_of_cons. intros [H|H]; [done|by apply IH].
Qed.

(** The data that goes out, in the order in which it came. *)
Definition sent_data (outs : list udp_output) : list (list u8) :=
  omap (fun o => match o with Sent _ _ data => Some data | Relayed _ _ => None end) outs.

Definition tunnel_data (evs : list udp_event) : list (list u8) :=
  omap (fun ev => match ev with FromTunnel dg _ _ => Some (dg_data dg) | FromTarget _ _ _ => None end) evs.

Lemma run_in_order evs s : sent_data (udp_run evs s).1 `sublist_of` tunnel_data evs.
Proof.
  revert s. induction evs as [|ev evs IH]; intros s; cbn [udp_run]; [done|].
  assert (sent_data (udp_step ev s).1 `sublist_of` tunnel_data [ev]) as Hs.
  { destruct ev as [dg now ok|j d now]; unfold udp_step.
    - destruct (on_datagram dg now ok s) as [[k|] s']; cbn; [done|apply sublist_nil_l].
    - by destruct (on_reply j d now s) as [[r|] s']. }
  destruct (udp_step ev s) as [out s']. specialize (IH s'). destruct (udp_run evs s') as [outs s'']. cbn [fst] in *.
  unfold sent_data, tunnel_data in *. rewrite omap_app. change (ev :: evs) with ([ev] ++ evs). rewrite omap_app.
  by apply sublist_app.
Qed.

Lemma serve_events_data ls ds :
  tunnel_data (serve_events ls (map dgram_env ds)) `sublist_of` map snd ds.
Proof.
  revert ds. induction ls as [|[n b|i d n] ls IH]; intros ds; cbn [serve_events].
  - apply sublist_nil_l.
  - destruct ds as [|[a p] ds]; [done|]. cbn. by apply sublist_skip.
  - apply IH.
Qed.

Lemma serve_events_target ls ms i data now :
  FromTarget i data now ∈ serve_events ls ms -> TargetReply i data now ∈ ls.
Proof.
  revert ms. induction ls as [|[n b|j d n] ls IH]; intros ms; cbn [serve_events]; [by intros ?%elem_of_nil| |].
  - destruct ms as [|m ms]; [by intros ?%elem_of_nil|]. intros [H|H]%elem_of_app; [|right; by eapply IH].
    destruct m as [[[]|]]; cbn in H; try by apply elem_of_nil in H. by apply list_elem_of_singleton in H.
  - rewrite !elem_of_cons. intros [H|H]; [|right; by eapply IH]. left. by injection H as -> -> ->.
Qed.

Definition app_key (a : SocketAddr) : sender_key := (ip_to_string (sock_ip a), sock_port a).

(** A reply [p] and what the client makes of it: it goes to an application that sent
    a datagram through the very socket on which the reply arrived. *)
Definition answers (ds : list datagram) (ls : list serve_label) (outs : list udp_output)
    (p : nat * UdpDatagram) (x : SocketAddr * list u8) : Prop :=
  exists d now, d ∈ ds /\ Sent p.1 (app_key d.1) d.2 ∈ outs /\ TargetReply p.1 x.2 now ∈ ls /\ x.1 = sock_plain d.1.

Section EndToEnd.
Context (ds : list datagram) (ls : list serve_label).

Local Abbreviation outs := (udp_run (serve_events ls (map dgram_env ds)) no_senders).1.

Lemma sent_for_app i key data :
  Sent i key data ∈ outs -> exists d, d ∈ ds /\ key = app_key d.1 /\ data = d.2.
Proof.
  intros Hs. destruct (run_provenance (serve_events ls (map dgram_env ds)) no_senders []) as [Hp _].
  { intros k e Hk. cbn in Hk. by apply lookup_empty_Some in Hk. }
  destruct (Hp _ _ _ Hs) as (dg & now & ok & Hin%serve_events_tunnel & -> & ->).
  apply list_elem_of_In, in_map_iff in Hin as (d & Hd & Hin%list_elem_of_In). exists d. split; [done|].
  unfold dgram_env, datagram_env, reply_env in Hd. by injection Hd as <-.
Qed.

Lemma reply_answers i r :
  Forall (fun d => sock_ok d.1) ds -> Relayed i r ∈ outs ->
  exists x, received_datagram (reply_env r) = Some x /\ answers ds ls outs (i, r) x.
Proof.
  intros Hok Hr. destruct (run_provenance (serve_events ls (map dgram_env ds)) no_senders []) as [_ Hp].
  { intros k e Hk. cbn in Hk. by apply lookup_empty_Some in Hk. }
  destruct (Hp _ _ Hr) as [[now Hn%serve_events_target] [data Hs]]. cbn [app] in Hs.
  destruct (sent_for_app _ _ _ Hs) as (d & Hd & Hkey & ->). injection Hkey as Ha Hq.
  rewrite Forall_forall in Hok. exists (sock_plain d.1, dg_data r). split.
  - unfold received_datagram. cbn [reply_env payload]. by rewrite Ha, Hq, datagram_peer_addr_print by (by apply Hok).
  - exists d, now. cbn. split; [done|]. unfold app_key. by rewrite <- Ha, <- Hq.
Qed.

Lemma replies_answered rs :
  Forall (fun d => sock_ok d.1) ds -> (forall p, p ∈ rs -> Relayed p.1 p.2 ∈ outs) ->
  Forall2 (answers ds ls outs) rs (dgram_out (map (fun p => reply_env p.2) rs)).
Proof.
  intros Hok. induction rs as [|[i r] rs IH]; intros Hin; [constructor|].
  destruct (reply_answers i r Hok (Hin (i, r) ltac:(by left))) as (x & Hx & Ha).
  unfold dgram_out. cbn [map omap list_omap]. cbn [snd]. rewrite Hx. constructor; [exact Ha|].
  apply IH. intros p Hp. apply Hin. by right.
Qed.
End EndToEnd.

Lemma replies_relayed os p : p ∈ replies os -> Relayed p.1 p.2 ∈ os.
Proof. intros (o & Ho & Hp)%list_elem_of_omap. destruct o; [done|]. by injection Hp as <-. Qed.

(** What the serving end makes of the datagrams [ds] under the events [ls], up to what
    the other end makes of the replies. *)
Definition served {C : EnvelopeCodec} (ds : list datagram) (ls : list serve_label) : Prop :=
  let outs := (udp_run (serve_events ls (map dgram_env ds)) no_senders).1 in
  sent_data outs `sublist_of` map snd ds /\
  (forall i key data, Sent i key data ∈ outs -> exists d, d ∈ ds /\ key = app_key d.1 /\ data = d.2) /\
  sockets_private outs /\
  (Forall (fun p => msg_ok (reply_env p.2)) (replies outs) ->
   exists rx msgs,
     reply_task outs (mkSend [] true) = Ok rx /\
     read_msgs (S (length (replies outs))) (mkRecv (written rx) Finished) = (msgs, Ok tt) /\
     Forall2 (answers ds ls outs) (replies outs) (dgram_out msgs)).

Lemma serve_served {C : EnvelopeCodec} {L : LawfulCodec C} ds ls :
  Forall (fun d => sock_ok d.1) ds -> served ds ls.
Proof.
  intros Hsock. split; [|split; [|split]].
  - etrans; [apply run_in_order|apply serve_events_data].
  - intros i key data. apply sent_for_app.
  - apply run_private.
  - intros Hrep. do 2 eexists. split; [by apply write_msgs_spec|]. cbn [written app].
    split; [|apply replies_answered; [done|]; intros p; apply replies_relayed].
    match goal with |- context [length ?l] =>
      replace (S (length l)) with (S (length (map (fun p => reply_env p.2) l))) by (by rewrite length_map) end.
    apply read_msgs_frames; [|lia]. by apply Forall_map.
Qed.

(** ** Properties *)

(** C31: A local UDP forward, end to end, for any interleaving of messages, replies,
    expiring, evicted and returning senders and failing binds: the server serves the
    client's stream as a UDP forward to the target of the specification and reads
    exactly the datagrams of the applications; what leaves its sockets are payloads
    of those datagrams, in order and each at most once, each through a socket of the
    application's own (nothing of another application leaves through it, and no reply
    from it is for another one; the key of an application is its address and port); and
    every reply that it relays is delivered by the client, in order, to the application whose datagrams left through the socket on
    which the reply arrived. Provided that the replies fit a message. *)
Theorem udp_forward_end_to_end {C : EnvelopeCodec} {F : DatagramField C} {LC : LawfulCodec C} {LF : LawfulField C F}
    spec ds ls :
  proto spec = Udp -> msg_ok (stream_open (forward_open spec)) ->
  Forall (fun d => sock_ok d.1 /\ msg_ok (dgram_env d)) ds ->
  let outs := (udp_run (serve_events ls (map dgram_env ds)) no_senders).1 in
  Forall (fun p => msg_ok (reply_env p.2)) (replies outs) ->
  exists tx r rx msgs,
    udp_client_stream spec ds (mkSend [] true) = Ok tx /\
    dispatch None [mkRecv (written tx) Finished] = (None, [(Udp, forward_open spec, r)]) /\
    read_msgs (S (length ds)) r = (map dgram_env ds, Ok tt) /\
    sent_data outs `sublist_of` map snd ds /\
    (forall i key data, Sent i key data ∈ outs -> exists d, d ∈ ds /\ key = app_key d.1 /\ data = d.2) /\
    sockets_private outs /\
    reply_task outs (mkSend [] true) = Ok rx /\
    read_msgs (S (length (replies outs))) (mkRecv (written rx) Finished) = (msgs, Ok tt) /\
    Forall2 (answers ds ls outs) (replies outs) (dgram_out msgs).
Proof.
  intros Hudp Hhdr Hds outs Hrep. assert (Forall (fun d => sock_ok d.1) ds) as Hsock
    by (eapply Forall_impl; [exact Hds|]; by intros ? [? ?]).
  destruct (serve_served ds ls Hsock) as (Hsub & Hsent & Hpriv & Hr). destruct (Hr Hrep) as (rx & msgs & Hrx & Hmsgs & Hans).
  eexists _, _, rx, msgs. split; [apply udp_client_stream_spec|]. cbn [written]. split; [|split; [|done]].
  - pose proof (dispatch_opened None [OpenForward (forward_open spec) (concat ((fun m => frame (encode m)) <$> map dgram_env ds))])
      as Hd. cbn [fmap list_fmap opened_stream] in Hd. rewrite Hd by (by apply Forall_singleton).
    cbn. rewrite ForwardProto_try_from_as, Hudp. reflexivity.
  - replace (S (length ds)) with (S (length (map dgram_env ds))) by (by rewrite length_map).
    apply read_msgs_frames; [|lia]. apply Forall_map. eapply Forall_impl; [exact Hds|]. by intros ? [? ?].
Qed.

Definition sample_apps : list datagram :=
  [(SockV4 [127; 0; 0; 1] 5000, [1]); (SockV4 [127; 0; 0; 1] 5001, [2]); (SockV4 [127; 0; 0; 1] 5000, [3])].

Definition sample_serve : list serve_label :=
  [NextMessage 0 true; NextMessage 10 true; TargetReply 1%nat [20] 20; NextMessage 30 true; TargetReply 0%nat [10] 40].

Lemma udp_forward_end_to_end_witness :
  exists tx msgs, udp_client_stream (F := proto_field) db_spec sample_apps (mkSend [] true) = Ok tx /\
    length (replies (udp_run (serve_events sample_serve (map dgram_env sample_apps)) no_senders).1) = 2%nat /\
    Forall2 (answers sample_apps sample_serve (udp_run (serve_events sample_serve (map dgram_env sample_apps)) no_senders).1)
      (replies (udp_run (serve_events sample_serve (map dgram_env sample_apps)) no_senders).1) (dgram_out msgs).
Proof.
  destruct (udp_forward_end_to_end (F := proto_field) (LC := proto_codec_lawful) (LF := proto_field_lawful) db_spec sample_apps
    sample_serve) as (tx & r & rx & msgs & Htx & _ & _ & _ & _ & _ & _ & _ & Ha).
  - reflexivity.
  - small_msg.
  - repeat constructor; try (vm_compute; discriminate); try (vm_compute; reflexivity).
  - assert (replies (udp_run (serve_events sample_serve (map dgram_env sample_apps)) no_senders).1 =
      [(1%nat, mkUdpDatagram (lit "127.0.0.1") 5001 [20]); (0%nat, mkUdpDatagram (lit "127.0.0.1") 5000 [10])]) as ->
      by (vm_compute; reflexivity).
    small_msg.
  - exists tx, msgs. split; [exact Htx|]. split; [vm_compute; reflexivity|exact Ha].
Defined.

(** What the client sends back to the two applications. *)
Example sample_delivered :
  dgram_out (map (fun p => reply_env p.2)
    (replies (udp_run (serve_events sample_serve (map dgram_env sample_apps)) no_senders).1)) =
  [(SockV4 [127; 0; 0; 1] 5001, [20]); (SockV4 [127; 0; 0; 1] 5000, [10])].
Proof. vm_compute. reflexivity. Qed.
