(* ===== verification/UdpReverseTrip.v ===== *)
(** A reverse UDP forward from end to end: datagrams at the server's listener, its
    streams across reconnections, the client's sockets towards the target, and the
    replies back to the senders ([run_udp_reverse_listener_socket] of
    [src/bin/etrs.rs], the UDP branch of the reverse acceptor of [src/bin/etr.rs]).

    The parts are those of [UdpReverse] (the listener), [Tunnel] (the client's check),
    [UdpSenders] and [UdpForward] (the sockets, which are the same code in the client)
    and [UdpFrame] (addresses). *)
From S2P Require Import Prelude Text Protocol Stream Utf8 Proto Quic Ip Addrfam UdpFrame Forward X11 Connection Tunnel UdpSenders UdpReverse UdpForward.

Open Scope Z_scope.
Open Scope list_scope.

(** The reader task of one of the listener's streams: the datagrams that it sends to
    the senders, and how the stream ended. *)
Definition listener_replies {C : EnvelopeCodec} (n : nat) (rx : RecvStream) : list datagram * result unit ErrorKind :=
  let '(msgs, e) := read_msgs n rx in (dgram_out msgs, e).

(** What the client does with a stream of the listener: the target and the local
    address of its sockets, and the events for them; [None] when it refuses it, when it
    is not a UDP forward or when the target does not resolve. *)
Definition serve_reverse {C : EnvelopeCodec} (lookup_host : str -> result (list SocketAddr) ErrorKind)
    (routable : SocketAddr -> bool) (pref : AddrPref) (x11 : bool) (specs : list ForwardSpec) (display : option str)
    (n : nat) (stream : RecvStream) (ls : list serve_label) : option (SocketAddr * str * list udp_output) :=
  match reverse_accept x11 specs display stream with
  | ToUdp addr_str quic_recv =>
    (fun a => (a, if is_ipv6 a then lit "[::]:0" else lit "0.0.0.0:0",
               (udp_run (serve_events ls (read_msgs n quic_recv).1) no_senders).1)) <$>
      resolve_udp_target lookup_host routable addr_str pref
  | _ => None
  end.

(** ** Properties *)

(** C30: A reverse UDP forward, end to end, for any interleaving and any failures.  The
    datagrams that arrive while a client is connected are on the streams of their
    connections, each at most once; when nothing fails all of them are, with one stream
    for each run of datagrams on the same connection, so a reconnection does not stop
    the forward.  The client accepts each stream and sends
    to the target of the specification payloads of its datagrams only, in order and
    each at most once, each through a socket of the sender's own (nothing of another
    sender leaves through it, and no reply from it is for another one; the key of a
    sender is its address and port); and every reply
    that it relays is delivered by the listener, in order, to the sender whose datagrams
    left through the socket on which the reply arrived, if the replies fit a message. *)
Theorem udp_reverse_end_to_end {C : EnvelopeCodec} {L : LawfulCodec C} s spec specs x11 display arrivals
    lookup_host routable pref target :
  parse s = Ok spec -> spec ∈ specs -> proto spec = Udp -> msg_ok (stream_open (forward_open spec)) ->
  Forall (fun a => fresh_open a /\ sock_ok (a_datagram a).1 /\ msg_ok (dgram_env (a_datagram a))) arrivals ->
  resolve_udp_target lookup_host routable (target_addr (forward_open spec)) pref = Some target ->
  exists groups,
    delivered groups `sublist_of` offered arrivals /\
    (Forall healthy arrivals ->
       groups = fold_left group_push (offered arrivals) [] /\ delivered groups = offered arrivals) /\
    Forall2 (fun st p => st.1 = p.1 /\ forall ls,
      let outs := (udp_run (serve_events ls (map dgram_env p.2)) no_senders).1 in
      serve_reverse lookup_host routable pref x11 specs display (S (length p.2)) (mkRecv (written st.2) Finished) ls =
        Some (target, (if is_ipv6 target then lit "[::]:0" else lit "0.0.0.0:0"), outs) /\
      sent_data outs `sublist_of` map snd p.2 /\
      (forall i key data, Sent i key data ∈ outs -> exists d, d ∈ p.2 /\ key = app_key d.1 /\ data = d.2) /\
      sockets_private outs /\
      (Forall (fun q => msg_ok (reply_env q.2)) (replies outs) ->
       exists rx ds, reply_task outs (mkSend [] true) = Ok rx /\
         listener_replies (S (length (replies outs))) (mkRecv (written rx) Finished) = (ds, Ok tt) /\
         Forall2 (answers p.2 ls outs) (replies outs) ds))
      (streams (run_listener spec arrivals new_listener)) groups.
Proof.
  intros Hp Hin Hu Hm [Hf [Hsock Hd]%Forall_and]%Forall_and Ht.
  destruct (listener_groups spec arrivals Hf) as (groups & Hg & Hsub & Hh). exists groups.
  split; [done|]. split; [by intros H; rewrite (Hh H), delivered_groups|].
  assert (Forall (fun p => Forall (fun d => sock_ok d.1) p.2) groups) as Hso
    by (by apply (delivered_received (fun d => sock_ok d.1) arrivals)).
  pose proof (carries_all_accepted s spec specs x11 display _ _ Hp Hin Hu Hm
    (delivered_received (fun d => msg_ok (dgram_env d)) _ _ Hsub Hd) Hg) as Hacc.
  clear Hg Hsub Hh. induction Hacc as [|st p sts g [Hc (r & Hr & Hms)] _ IH]; [constructor|].
  apply Forall_cons in Hso as [Hso Hsos]. constructor; [|by apply IH]. split; [done|]. intros ls. cbv zeta.
  destruct (serve_served p.2 ls Hso) as (H1 & H2 & Hpriv & H3). split; [|split; [done|split; [done|split; [done|]]]].
  - unfold serve_reverse. by rewrite Hr, Ht, Hms.
  - intros Hrep. destruct (H3 Hrep) as (rx & msgs & Hrx & Hmsgs & Hans). exists rx, (dgram_out msgs).
    split; [done|]. unfold listener_replies. by rewrite Hmsgs.
Qed.

Definition sample_lookup (s : str) : result (list SocketAddr) ErrorKind := Ok [SockV6 [0; 0; 0; 0; 0; 0; 0; 1] 5432 0 0].

(** Two messages, a reply to each of the two senders' sockets, a third message. *)
Definition sample_events : list serve_label :=
  [NextMessage 0 true; NextMessage 5 true; TargetReply 0%nat [9] 10; NextMessage 20 true].

Definition sample_senders : list Arrival :=
  [healthy_arrival 1 (SockV4 [10; 0; 0; 7] 5353, [1]); healthy_arrival 1 (SockV4 [10; 0; 0; 8] 5353, [2]);
   healthy_arrival 2 (SockV4 [10; 0; 0; 8] 5353, [3])].

Definition sample_first_stream : list datagram :=
  [(SockV4 [10; 0; 0; 7] 5353, [1]); (SockV4 [10; 0; 0; 8] 5353, [2])].

Local Abbreviation sample_outs :=
  (udp_run (serve_events sample_events (map dgram_env sample_first_stream)) no_senders).1.

Lemma sample_replies :
  replies sample_outs = [(0%nat, mkUdpDatagram (lit "10.0.0.7") 5353 [9])] /\
  dgram_out (map (fun q => reply_env q.2) (replies sample_outs)) = [(SockV4 [10; 0; 0; 7] 5353, [9])].
Proof. split; vm_compute; reflexivity. Qed.

(** The first sender gets the reply; the datagram after the reconnection is on a second
    stream. *)
Lemma udp_reverse_end_to_end_witness :
  exists rx ds st st',
    streams (run_listener (C := proto_codec) db_spec sample_senders new_listener) = [st; st'] /\
    reply_task (C := proto_codec) sample_outs (mkSend [] true) = Ok rx /\
    listener_replies (C := proto_codec) (S (length (replies sample_outs))) (mkRecv (written rx) Finished) = (ds, Ok tt) /\
    Forall2 (answers sample_first_stream sample_events sample_outs) (replies sample_outs) ds.
Proof.
  destruct (udp_reverse_end_to_end (C := proto_codec) (L := proto_codec_lawful) (lit "8080:[::1]:5432/udp") db_spec [db_spec]
    false None sample_senders sample_lookup (fun _ => true) Auto (SockV6 [0; 0; 0; 0; 0; 0; 0; 1] 5432 0 0))
    as (groups & _ & Hgroups & Hg).
  - reflexivity.
  - left.
  - reflexivity.
  - small_msg.
  - unfold sample_senders.
    repeat (constructor; [split; [intros tx E; cbn in E; now simplify_eq|split; [|small_msg]]|]); [..|constructor];
      repeat constructor; vm_compute; discriminate.
  - vm_compute. reflexivity.
  - destruct Hgroups as [Hgr _]; [repeat constructor|]. rewrite Hgr in Hg. clear Hgr.
    assert (fold_left group_push (offered sample_senders) [] =
      [(1%nat, sample_first_stream);
       (2%nat, [(SockV4 [10; 0; 0; 8] 5353, [3])])]) as Hgr by reflexivity.
    rewrite Hgr in Hg. apply Forall2_cons_inv_r in Hg as (st & sts & [_ Hp] & Hg & Hs).
    apply Forall2_cons_inv_r in Hg as (st' & sts' & _ & Hg & ->). apply Forall2_nil_inv_r in Hg as ->.
    destruct (Hp sample_events) as (_ & _ & _ & _ & Hr).
    cbn [snd] in Hr. destruct Hr as (rx & ds & Hrx & Hl & Ha); [rewrite (proj1 sample_replies); small_msg|].
    exists rx, ds, st, st'. split; [exact Hs|]. split; [exact Hrx|]. split; [exact Hl|exact Ha].
Defined.
