(* ===== verification/LinkSpec.v ===== *)
(** What the terminal relay of [Link] promises, as a machine of two queues: one
    takes keystrokes from the keyboard to the shell, one takes output from the
    shell to the screen, and neither loses, adds or reorders anything.  The relay,
    with its handshakes, histories, channels and lost connections, refines it. *)
From S2P Require Import Prelude Text Protocol Stream Session Link.

Open Scope Z_scope.
Open Scope list_scope.

(** ** The specification *)

Record Channel : Type := mkChannel { waiting : list (list u8); arrived : list (list u8) }.

Definition put (p : list u8) (c : Channel) : Channel := mkChannel (waiting c ++ [p]) (arrived c).

Definition get (c : Channel) : option Channel :=
  match waiting c with [] => None | p :: q => Some (mkChannel q (arrived c ++ [p])) end.

Record Duplex : Type := mkDuplex { keyboard : Channel; screen : Channel }.

Definition idle : Duplex := mkDuplex (mkChannel [] []) (mkChannel [] []).

Inductive event : Type :=
| Typed (p : list u8)      (* a read of standard input *)
| Delivered                (* a write to the PTY *)
| Produced (p : list u8)   (* a read of the PTY *)
| Printed.                 (* a write to standard output *)

Definition spec_step (e : event) (t : Duplex) : option Duplex :=
  match e with
  | Typed p => Some (mkDuplex (put p (keyboard t)) (screen t))
  | Delivered => (fun k => mkDuplex k (screen t)) <$> get (keyboard t)
  | Produced p => Some (mkDuplex (keyboard t) (put p (screen t)))
  | Printed => (fun s => mkDuplex (keyboard t) s) <$> get (screen t)
  end.

Fixpoint spec_run (es : list event) (t : Duplex) : option Duplex :=
  match es with
  | [] => Some t
  | e :: es => match spec_step e t with Some t => spec_run es t | None => None end
  end.

(** ** The relation to the relay *)

(** What of a step is seen from outside. *)
Definition visible (l : label) : option event :=
  match l with
  | ClientTake p => Some (Typed p)
  | PtyWrite => Some Delivered
  | ServerRecord p => Some (Produced p)
  | Stdout => Some Printed
  | _ => None
  end.

Definition abs_channel (sent arrived : list (list u8)) : Channel :=
  mkChannel (drop (length arrived) sent) arrived.

Definition abs (w : World) : Duplex :=
  mkDuplex (abs_channel (typed (tr w)) (delivered (tr w)))
    (abs_channel (produced (tr w)) (printed (tr w))).

Definition link_ok (l : label) (w : World) : bool := input_ok l w && output_ok l w.

(** ** Lemmas *)

Lemma put_abs p sent arr q :
  sent = arr ++ q -> put p (abs_channel sent arr) = abs_channel (sent ++ [p]) arr.
Proof.
  intros ->. unfold put, abs_channel. cbn. by rewrite <- app_assoc, !drop_app_length.
Qed.

Lemma get_abs p q sent arr :
  sent = arr ++ p :: q -> get (abs_channel sent arr) = Some (abs_channel sent (arr ++ [p])).
Proof.
  intros ->. unfold get, abs_channel. cbn [waiting arrived]. rewrite drop_app_length.
  by rewrite (cons_middle p arr q), app_assoc, drop_app_length.
Qed.

(** What the relay holds at its ends is next in the queues. *)
Lemma exact_typed w : exact w -> exists q, typed (tr w) = delivered (tr w) ++ s_pty_in (sv w) ++ q.
Proof.
  intros (log & k & r & Hinv). pose proof (ie_delivered _ _ _ _ Hinv) as Hd. rewrite app_assoc in Hd.
  exists (option_list (s_hand (sv w)) ++ drop r log ++ option_list (c_hand (cl w))).
  by rewrite (ie_typed _ _ _ _ Hinv), !app_assoc, Hd, take_drop.
Qed.

Lemma exact_produced w k r :
  output_exact k r w -> exists q, produced (tr w) = printed (tr w) ++ c_stdout (cl w) ++ q.
Proof.
  intros Hinv. exists (drop r (produced (tr w))).
  by rewrite app_assoc, (oe_printed _ _ _ Hinv), take_drop.
Qed.

Lemma step_silent l w w' : step l w = Some w' -> visible l = None -> tr w' = tr w.
Proof. intros Hstep Hv. destruct l; try done; world_step w Hstep; done. Qed.

Lemma step_simulates l w w' k r :
  exact w -> output_exact k r w -> step l w = Some w' ->
  match visible l with
  | Some e => spec_step e (abs w) = Some (abs w')
  | None => abs w' = abs w
  end.
Proof.
  intros Hi Ho Hstep. destruct (visible l) as [e|] eqn:Ev.
  2: { unfold abs. by rewrite (step_silent _ _ _ Hstep Ev). }
  destruct l; try done; injection Ev as <-; unfold abs; world_step w Hstep;
    destruct (exact_typed _ Hi) as [q Hq], (exact_produced _ _ _ Ho) as [q' Hq']; cbn in Hq, Hq'.
  - by rewrite (put_abs _ _ _ _ Hq).
  - by rewrite (get_abs _ _ _ _ Hq).
  - by rewrite (put_abs _ _ _ _ Hq').
  - by rewrite (get_abs _ _ _ _ Hq').
Qed.

Lemma run_simulates ls w w' k r :
  exact w -> output_exact k r w -> run link_ok ls w = Some w' ->
  spec_run (omap visible ls) (abs w) = Some (abs w').
Proof.
  revert w k r. induction ls as [|l ls IH]; intros w k r Hi Ho Hrun; cbn [run] in Hrun; [by simplify_eq|].
  destruct (link_ok l w) eqn:Hok; [|done]. destruct (step l w) as [w1|] eqn:Hstep; [|done].
  unfold link_ok in Hok. apply andb_true_iff in Hok as [Hoki Hoko].
  destruct (output_exact_step _ _ _ _ _ Ho Hoko Hstep) as (k1 & r1 & Ho1).
  assert (exact w1) as Hi1 by (apply (exact_leads w); [done|by apply (leads_step l)]).
  pose proof (step_simulates _ _ _ _ _ Hi Ho Hstep) as Hsim. cbn [omap list_omap].
  destruct (visible l); cbn [spec_run]; rewrite Hsim || rewrite <- Hsim; by eapply IH.
Qed.

(** ** Recovery of the output *)

Definition leads_out (w w' : World) : Prop := exists ls, run output_ok ls w = Some w'.

#[export] Instance leads_out_preorder : PreOrder leads_out.
Proof.
  split.
  - intros w. by exists [].
  - intros w1 w2 w3 [l1 H1] [l2 H2]. exists (l1 ++ l2). by rewrite run_app, H1.
Qed.

Definition out_exact (w : World) : Prop := exists k r, output_exact k r w.

Lemma out_exact_leads w w' : out_exact w -> leads_out w w' -> out_exact w'.
Proof.
  intros Hex [ls Hrun]. refine (run_invariant output_ok out_exact ls w w' _ Hex Hrun).
  intros l w1 w2 (k & r & Hinv) Hok Hst. by eapply output_exact_step.
Qed.

(** What the next handshake would replay. *)
Definition replay_due (w : World) : list chunk :=
  replays0 (last_received_map (c_session (cl w))) (s_session (sv w)).

Lemma replay_due_eq w k r : output_exact k r w -> replay_due w = drop r (numbered 1 (produced (tr w))).
Proof.
  intros Ho. unfold replay_due. rewrite (sends_replays _ _ _ _ (oe_sends _ _ _ Ho)).
  rewrite (receives_map _ _ (oe_receives _ _ _ Ho)). f_equal. pose proof (oe_kr _ _ _ Ho). lia.
Qed.

(** Standard output catches up. *)
Lemma leads_stdout w :
  exists w', leads_out w w' /\ c_stdout (cl w') = [] /\ produced (tr w') = produced (tr w) /\
    sv w' = sv w /\ net w' = net w /\ c_phase (cl w') = c_phase (cl w) /\
    c_session (cl w') = c_session (cl w).
Proof.
  destruct w as [[cs cp ch co] s n [ty de pr pt]]. revert pt.
  induction co as [|p co IH]; intros pt; [eexists; split; [reflexivity|done]|].
  destruct (IH (pt ++ [p])) as (w' & Hl & Hw'). exists w'. split; [|exact Hw'].
  etrans; [|exact Hl]. exists [Stdout]. by destruct s, n.
Qed.

(** Both ends let go of the connection; the PTY reader's chunk stays in the
    history only. *)
Lemma leads_out_down w :
  c_stdout (cl w) = [] ->
  exists w', leads_out w w' /\ c_stdout (cl w') = [] /\ s_pending (sv w') = None /\
    c_phase (cl w') = CDown /\ s_phase (sv w') = SDown /\ produced (tr w') = produced (tr w) /\
    c_session (cl w') = c_session (cl w) /\ s_session (sv w') = s_session (sv w).
Proof.
  intros Hc. destruct w as [[cs cp ch co] [ss sp spd sob sh spi] [no na nl np nu nd hu hd] [ty de pr pt]].
  simpl in Hc. subst.
  exists (mkWorld (mkClient cs CDown (match cp with CDown => ch | _ => None end) [])
    (mkServer ss SDown None (match sp with SDown => sob | _ => [] end) (match sp with SDown => sh | _ => None end) spi)
    (mkNet no (match cp with CDown => na | _ => None end)
       (match cp, sp with CDown, SDown => nl | _, _ => false end) np nu nd hu hd) (mkTrace ty de pr pt)).
  split; [|done].
  exists (match cp with CDown => [] | _ => [ClientDrop] end ++ match sp with SDown => [] | _ => [ServerDrop] end ++
          match spd with None => [] | Some _ => [ServerForward] end).
  destruct cp, sp, spd; reflexivity.
Qed.

(** A quiet handshake. *)
Lemma leads_out_connected w :
  out_exact w -> c_stdout (cl w) = [] -> s_pending (sv w) = None -> c_phase (cl w) = CDown ->
  s_phase (sv w) = SDown -> (length (replay_due w) <= PTY_OB_CAP)%nat ->
  exists w', leads_out w w' /\ c_stdout (cl w') = [] /\ s_pending (sv w') = None /\
    c_phase (cl w') = CLive /\ s_phase (sv w') = SLive /\ n_linked (net w') = true /\
    produced (tr w') = produced (tr w).
Proof.
  intros (k & r & Ho) Hc Hp Hcp Hsp Hdue. rewrite (replay_due_eq _ _ _ Ho) in Hdue.
  pose proof (oe_sends _ _ _ Ho) as Hs. pose proof (receives_map _ _ (oe_receives _ _ _ Ho)) as Hm.
  destruct w as [[cs cp ch co] [ss sp spd sob sh spi] [no na nl np nu nd hu hd] [ty de pr pt]]. simpl in *. subst.
  assert ((length (replays0 (last_received_map cs) (apply_server_acks (last_received_map cs) ss)) <=? PTY_OB_CAP)%nat
          = true) as Hfit.
  { apply Nat.leb_le. destruct (sends_acks ss pr k (last_received_map cs) Hs) as (k' & Hs' & Hk').
    rewrite (sends_replays _ _ _ _ Hs'). rewrite length_drop in *. lia. }
  eexists. split.
  - exists [Connect; ServerOpen; ServerOutbound; ServerQueue; ClientAccept; ServerPty].
    cbn -[PTY_OB_CAP Nat.leb]. rewrite Hfit. reflexivity.
  - done.
Qed.

(** What is in flight is printed. *)
Lemma leads_printed w :
  out_exact w -> c_stdout (cl w) = [] -> s_pending (sv w) = None -> c_phase (cl w) = CLive ->
  s_phase (sv w) = SLive -> n_linked (net w) = true ->
  exists w', leads_out w w' /\ produced (tr w') = produced (tr w) /\ printed (tr w') = produced (tr w).
Proof.
  intros Hex. remember (length (n_down (net w) ++ s_ob (sv w))) as n eqn:En. revert w Hex En.
  induction n as [|n IH]; intros w Hex En Hc Hp Hcp Hsp Hl.
  { exists w. split; [done|]. split; [done|]. destruct Hex as (k & r & Ho).
    destruct (oe_linked _ _ _ Ho Hl) as [_ Hf]. unfold output_in_flight in Hf. rewrite Hsp, Hp in Hf.
    symmetry in En. apply nil_length_inv in En. rewrite app_assoc, En in Hf. symmetry in Hf.
    apply (f_equal length) in Hf. rewrite length_drop, length_numbered in Hf. cbn in Hf.
    pose proof (oe_printed _ _ _ Ho) as Hpr. rewrite Hc, app_nil_r in Hpr. rewrite Hpr. apply take_ge. lia. }
  assert (exists w1, leads_out w w1 /\ n = length (n_down (net w1) ++ s_ob (sv w1)) /\ c_stdout (cl w1) = [] /\
    s_pending (sv w1) = None /\ c_phase (cl w1) = CLive /\ s_phase (sv w1) = SLive /\ n_linked (net w1) = true /\
    produced (tr w1) = produced (tr w)) as (w1 & Hl1 & Hn & Hc1 & Hp1 & Hcp1 & Hsp1 & Hn1 & Hpr1).
  { clear IH Hex. destruct w as [[cs cp ch co] [ss sp spd sob sh spi] [no na nl np nu nd hu hd] [ty de pr pt]].
    simpl in *. subst. destruct nd as [|[q p] nd].
    - destruct sob as [|[q p] sob]; [done|]. eexists.
      split; [exists [ServerWrite; ClientRead; Stdout]; reflexivity|]. simpl in *. by simplify_eq.
    - eexists. split; [exists [ClientRead; Stdout]; reflexivity|]. simpl in *. by simplify_eq. }
  destruct (IH w1) as (w2 & Hl2 & Hpr2 & Hpt2); try done; [by eapply out_exact_leads|].
  exists w2. rewrite Hpr1 in *. split; [by etrans|done].
Qed.

Lemma leads_all_printed w :
  out_exact w -> (length (replay_due w) <= PTY_OB_CAP)%nat ->
  exists w', leads_out w w' /\ produced (tr w') = produced (tr w) /\ printed (tr w') = produced (tr w).
Proof.
  intros Hex Hdue. destruct (leads_stdout w) as (w1 & Hl1 & Hc1 & Hpr1 & Hsv1 & Hnet1 & Hcp1 & Hcs1).
  destruct (leads_out_down w1 Hc1) as (w2 & Hl2 & Hc2 & Hp2 & Hcp2 & Hsp2 & Hpr2 & Hcs2 & Hss2).
  assert (leads_out w w2) as Hl by (by etrans).
  destruct (leads_out_connected w2) as (w3 & Hl3 & Hc3 & Hp3 & Hcp3 & Hsp3 & Hn3 & Hpr3); try done.
  { by eapply out_exact_leads. }
  { unfold replay_due. by rewrite Hcs2, Hss2, Hcs1, Hsv1. }
  assert (leads_out w w3) as Hl' by (by etrans).
  destruct (leads_printed w3) as (w4 & Hl4 & Hpr4 & Hpt4); try done.
  { by eapply out_exact_leads. }
  exists w4. split; [by etrans|]. split; congruence.
Qed.

(** ** Properties *)

(** C1: Refinement, under the conditions of [link_ok] on every step of the run.
    [input_ok]: no keystroke evicts another from the client's 4 MiB history, the 64-bit
    sequence numbers do not run out, and a connection is not dropped while the client
    holds a keystroke that it has not recorded or the server one that it has taken off
    the stream. [output_ok]: no chunk evicts another from the server's history; at every
    handshake no recorded chunk waits to be
    queued when the [SessionOpen] is read, the PTY produces nothing between
    [collect_replays] and the queueing of the replays, and the replays that are due are
    at most the 1000 chunks that the outgoing channel holds; standard output keeps up
    with its channel, and the client drops a connection only when nothing waits there.
    Every such run, with any number of lost and resumed connections, is, seen from
    outside, a run of two queues that lose, add and reorder nothing: each write to the
    PTY and to standard output is the next element of its queue. Without
    the conditions the relay can lose or misorder data (see [input_lost_on_abort],
    [output_handshake_race] and [output_lost_on_slow_stdout] of [Link]). *)
Theorem link_refines_terminal sid key ls w :
  run link_ok ls (init sid key) = Some w -> spec_run (omap visible ls) idle = Some (abs w).
Proof.
  intros Hrun. apply (run_simulates ls (init sid key) w 0 0); [|apply output_exact_init|done].
  exists [], 0%nat, 0%nat. apply input_exact_init.
Qed.

(** A connection breaks on both sides while a keystroke and a chunk of output are
    under way; a second one carries them. *)
Definition broken_session : list label :=
  [Connect; ServerOpen; ServerOutbound; ServerQueue; ClientAccept; ServerPty;
   ClientTake [97]; ClientSend; ServerRecord [1]; ServerForward; ServerWrite;
   ServerDrop; ClientTake [98]; ClientSend; ClientDrop; ServerRecord [2]; ServerForward;
   Connect; ServerOpen; ServerOutbound; ServerQueue; ClientAccept; ServerPty;
   ServerRead; ServerPush; ServerWrite; ClientRead; PtyWrite; Stdout].

Lemma link_refines_terminal_witness :
  exists w, run link_ok broken_session (init [] []) = Some w /\
    spec_run [Typed [97]; Produced [1]; Typed [98]; Produced [2]; Delivered; Printed] idle = Some (abs w) /\
    abs w = mkDuplex (mkChannel [[98]] [[97]]) (mkChannel [[2]] [[1]]).
Proof.
  destruct (run link_ok broken_session (init [] [])) as [w|] eqn:Hrun; [|vm_compute in Hrun; discriminate].
  exists w. split; [reflexivity|]. split.
  - exact (link_refines_terminal [] [] broken_session w Hrun).
  - vm_compute in Hrun. injection Hrun as <-. reflexivity.
Defined.

(** C5: Output recovery: from every state reached by steps that keep [output_ok] (the
    server's 4 MiB history never overflowed and the sequence numbers did not run out;
    every handshake so far was quiet, that is, no recorded chunk waited to be queued
    when it began and the PTY produced nothing between [collect_replays] and the
    queueing of the replays, which were at most 1000 chunks, the capacity of the
    outgoing channel; standard output kept up with its channel, which was empty
    whenever the client dropped a connection), and in which no more than 1000 chunks
    are due, there is an execution (print, drop, reconnect, replay), itself under these
    conditions, after which everything the shell has produced so far is printed, in
    order. *)
Theorem output_recovery w :
  reaches output_ok w ->
  (length (replays0 (last_received_map (c_session (cl w))) (s_session (sv w))) <= PTY_OB_CAP)%nat ->
  exists ls w', run output_ok ls w = Some w' /\ produced (tr w') = produced (tr w) /\
    printed (tr w') = produced (tr w).
Proof.
  intros Hw Hdue. destruct (leads_all_printed w) as (w' & [ls Hls] & H).
  - by apply reaches_output.
  - exact Hdue.
  - by exists ls, w'.
Qed.

Definition broken_world : World := default (init [] []) (run output_ok (take 17 broken_session) (init [] [])).

Lemma output_recovery_witness :
  reaches output_ok broken_world /\ produced (tr broken_world) = [[1]; [2]] /\ printed (tr broken_world) = [] /\
  exists ls w', run output_ok ls broken_world = Some w' /\ printed (tr w') = [[1]; [2]].
Proof.
  assert (reaches output_ok broken_world) as Hw.
  { exists [], [], (take 17 broken_session). vm_compute. reflexivity. }
  split; [exact Hw|]. split; [reflexivity|]. split; [reflexivity|].
  destruct (output_recovery broken_world Hw) as (ls & w' & Hrun & _ & Hp).
  - apply Nat.leb_le. vm_compute. reflexivity.
  - exists ls, w'. split; [exact Hrun|rewrite Hp; reflexivity].
Defined.
