(* ===== verification/ServerStart.v ===== *)
(** The start of the server: its options, the address it binds, the fork with the
    pipe that carries the port, and the answer ([main] and [run_server] of
    [src/bin/etrs.rs]); with the client's [bootstrap_ssh] at the other end of the
    [ssh] it becomes the whole exchange before the first QUIC packet. *)
From S2P Require Import Prelude Text Protocol Stream Utf8 Proto Quic Ip Addrfam Hex Bootstrap Settings.

Open Scope Z_scope.
Open Scope list_scope.

(** ** [s.parse::<SocketAddr>()] *)

(** A colon and a port: digits without sign, of any number. *)
Definition read_port (s : str) : option (u16 * str) :=
  match read_given_char COLON s with
  | Some s => read_number 10 (length s) true U16_MAX s
  | None => None
  end.

Definition PERCENT : char := 37.

Definition read_scope_id (s : str) : u32 * str :=
  match read_given_char PERCENT s with
  | Some r => default (0, s) (read_number 10 (length r) true U32_MAX r)
  | None => (0, s)
  end.

Definition read_socket_addr_v4 (s : str) : option (SocketAddr * str) :=
  match read_ipv4_addr s with
  | Some (ip, s) => (fun '(port, s) => (SockV4 ip port, s)) <$> read_port s
  | None => None
  end.

Definition read_socket_addr_v6 (s : str) : option (SocketAddr * str) :=
  match read_given_char LBRACKET s with
  | None => None
  | Some s =>
    match read_ipv6_addr s with
    | None => None
    | Some (ip, s) =>
      let '(scope, s) := read_scope_id s in
      match read_given_char RBRACKET s with
      | Some s => (fun '(port, s) => (SockV6 ip port 0 scope, s)) <$> read_port s
      | None => None
      end
    end
  end.

Definition socket_addr_parse (s : str) : option SocketAddr :=
  let r := match read_socket_addr_v4 s with Some r => Some r | None => read_socket_addr_v6 s end in
  match r with Some (a, []) => Some a | _ => None end.

(** ** Options *)

Record ServerCli : Type := mkServerCli {
  sc_port : u16;
  sc_bind : option str;
  sc_prefer_ipv4 : bool;
  sc_prefer_ipv6 : bool;
  sc_log_path : option str;
  sc_reconnect_timeout : option u64
}.

Record ServerConfig : Type := mkServerConfig {
  sv_reconnect_timeout : option u64;
  sv_address_family : option str
}.

(** What the child hands to [run_session], with the preference for its forward
    targets and the bound port. *)
Record SessionStart : Type := mkSessionStart {
  ss_request : BootstrapRequest;
  ss_reconnect_timeout : u64;
  ss_addr_pref : AddrPref;
  ss_port : u16
}.

(** ** The two processes *)

Section Start.
(** [quinn::Endpoint::server] and [local_addr]: the port that an address gets. *)
Context (endpoint : SocketAddr -> option u16).

Definition bind_str (cli : ServerCli) (own : AddrPref) : str :=
  effective_bind_ip (sc_bind cli) own ++ [COLON] ++ dec (sc_port cli).

(** The child up to the write to the pipe: the bytes in it when it is closed. *)
Definition child_pipe (cli : ServerCli) (own : AddrPref) : option u16 * list u8 :=
  match socket_addr_parse (bind_str cli own) ≫= endpoint with
  | Some actual_port => (Some actual_port, to_be 2 actual_port)
  | None => (None, [])
  end.

(** The parent: [read_exact] of two bytes, then the answer. *)
Definition parent_answer (pipe : list u8) (cert : list u8) : result str ErrorKind :=
  if (length pipe <? 2)%nat then Err UnexpectedEof else Ok (port_line (take 2 pipe) cert).

(** What the parent prints, and the session that the child runs. *)
Definition run_server (cli : ServerCli) (reconnect_timeout : u64) (own : AddrPref) (cert : list u8) (stdin : str)
    : outcome (result str ErrorKind * option SessionStart) :=
  match parse_bootstrap stdin with
  | Panic => Panic
  | Ret (Err e) => Ret (Err e, None)
  | Ret (Ok r) =>
    let '(bound, pipe) := child_pipe cli own in
    Ret (parent_answer pipe cert,
         mkSessionStart r reconnect_timeout (forward_pref (b_client_pref r) own) <$> bound)
  end.

Definition server_main (cli : ServerCli) (cfg : ServerConfig) (env_tmout : option str) (cert : list u8) (stdin : str)
    : outcome (result str ErrorKind * option SessionStart) :=
  run_server cli
    (resolve_reconnect_timeout (sc_reconnect_timeout cli) env_tmout (sv_reconnect_timeout cfg))
    (own_pref (sc_prefer_ipv4 cli) (sc_prefer_ipv6 cli) (sv_address_family cfg))
    cert stdin.

(** ** The standard streams *)

(** What a descriptor is open on: the pipe or terminal of [ssh], or a file. *)
Inductive descriptor : Type := SshPipe | NullFile | LogFile.

Record Stdio : Type := mkStdio { fd_in : descriptor; fd_out : descriptor; fd_err : descriptor }.

(** [detach_stdio], by whether [/dev/null] and the log file open. *)
Definition detach_stdio (null_ok log_ok : bool) (s : Stdio) : Stdio :=
  let s := if null_ok then mkStdio NullFile NullFile (fd_err s) else s in
  let stderr_src := if log_ok then Some LogFile else if null_ok then Some NullFile else None in
  match stderr_src with Some f => mkStdio (fd_in s) (fd_out s) f | None => s end.

(** The session keeps no stream of [ssh] open, so [ssh] ends with the parent, unless
    there is no [/dev/null]. *)
Lemma detach_stdio_spec log_ok s :
  let s' := detach_stdio true log_ok s in
  fd_in s' = NullFile /\ fd_out s' = NullFile /\ fd_err s' <> SshPipe.
Proof. by destruct log_ok. Qed.

(** ** The client's end *)

(** [wait_with_output]: success or not, and what was printed. *)
Definition bootstrap_output (success : bool) (stdout : str) : outcome (result (u16 * list u8) ErrorKind) :=
  if success then find_port_line (lines stdout) else Ret (Err OtherKind).

(** [bootstrap_ssh] against a server that the remote shell has started; [before]
    is what the remote shell printed first. *)
Definition exchange (session_id : list u8) (passkey : str) (s : Settings)
    (cli : ServerCli) (cfg : ServerConfig) (env_tmout : option str) (cert : list u8) (before : list str)
    : outcome (result (u16 * list u8) ErrorKind) * option SessionStart :=
  match bootstrap_ssh session_id passkey s with
  | Err e => (Ret (Err e), None)
  | Ok (_, text) =>
    match server_main cli cfg env_tmout cert text with
    | Panic => (bootstrap_output false (unlines before), None)
    | Ret (Err _, session) => (bootstrap_output false (unlines before), session)
    | Ret (Ok printed, session) => (bootstrap_output true (unlines before ++ printed), session)
    end
  end.
End Start.

(** ** Lemmas *)

Lemma digit_of_decimal c : is_digit c = true -> digit_of 10 c = Some (c - 48).
Proof.
  intros Hc. unfold digit_of, hex_val. rewrite Hc. unfold is_digit in Hc.
  apply andb_true_iff in Hc as [H1%Z.leb_le H2%Z.leb_le]. by rewrite (proj2 (Z.ltb_lt _ _)) by lia.
Qed.

Lemma read_digits_decimal s r :
  Forall (fun c => is_digit c = true) s -> no_digit 10 r ->
  read_digits 10 (s ++ r) = (map (fun c => c - 48) s, r).
Proof.
  intros Hs Hr. induction Hs as [|c s Hc Hs IH]; cbn [app read_digits map].
  - destruct r as [|c r]; cbn in *; [done|]. by rewrite Hr.
  - by rewrite digit_of_decimal, IH.
Qed.

Lemma parse_digits_val max acc s n :
  parse_digits max acc s = Some n -> fold_left (fun n d => n * 10 + d) (map (fun c => c - 48) s) acc = n.
Proof.
  revert acc. induction s as [|c s IH]; intros acc; cbn [parse_digits map fold_left]; [by intros [= ->]|].
  destruct (digit_val c) as [d|] eqn:Ed; [|done]. case_match; [done|]. intros Hp.
  unfold digit_val in Ed. case_match; simplify_eq. by apply IH.
Qed.

Lemma read_number_dec max n r :
  0 <= n <= max -> no_digit 10 r ->
  read_number 10 (length (dec n ++ r)) true max (dec n ++ r) = Some (n, r).
Proof.
  intros Hn Hr. unfold read_number. rewrite read_digits_decimal by (done || apply dec_digits; lia).
  rewrite length_map, (proj2 (Nat.ltb_ge _ _)) by (rewrite length_app; lia).
  assert (digits_val 10 (map (fun c => c - 48) (dec n)) = n) as Hv.
  { pose proof (parse_uint_dec max n Hn) as Hp. unfold digits_val.
    destruct (dec n) as [|c s] eqn:E; [by apply dec_nonempty in E|].
    assert (is_digit c = true) as Hc by (apply (dec_elem c n); [lia|rewrite E; by left]).
    unfold parse_uint in Hp. assert ((c =? 43) = false) as Hplus.
    { apply Z.eqb_neq. intros ->. by vm_compute in Hc. }
    rewrite ?Hplus in Hp. destruct s; repeat case_match; try done; by apply (parse_digits_val max) in Hp. }
  destruct (map _ _) as [|d ds] eqn:E; [by apply map_eq_nil, dec_nonempty in E|].
  cbn [negb andb]. rewrite Hv. by rewrite (proj2 (Z.leb_le _ _)) by lia.
Qed.

(** The default addresses always parse. *)
Lemma default_bind_parses pref port :
  0 <= port <= U16_MAX ->
  socket_addr_parse (effective_bind_ip None pref ++ [COLON] ++ dec port) =
  Some (if bool_decide (pref = Ipv4) then SockV4 [0; 0; 0; 0] port else SockV6 (repeat 0 8) port 0 0).
Proof.
  intros Hp. pose proof (read_number_dec U16_MAX port [] Hp I) as Hn. rewrite app_nil_r in Hn.
  unfold effective_bind_ip. case_bool_decide.
  - change (lit "0.0.0.0") with (fmt_v4 [0; 0; 0; 0]). unfold socket_addr_parse, read_socket_addr_v4.
    rewrite read_ipv4_fmt by (done || (repeat constructor; discriminate)). cbn [app read_port].
    unfold read_port. cbn [read_given_char]. rewrite Z.eqb_refl, Hn. done.
  - unfold socket_addr_parse, read_socket_addr_v4, read_socket_addr_v6.
    assert (read_ipv4_addr (lit "[::]" ++ [COLON] ++ dec port) = None) as -> by reflexivity.
    assert (read_given_char LBRACKET (lit "[::]" ++ [COLON] ++ dec port) = Some (lit "::]" ++ [COLON] ++ dec port))
      as -> by reflexivity.
    assert (read_ipv6_addr (lit "::]" ++ [COLON] ++ dec port) = Some (repeat 0 8, lit "]" ++ [COLON] ++ dec port))
      as -> by reflexivity.
    assert (read_scope_id (lit "]" ++ [COLON] ++ dec port) = (0, lit "]" ++ [COLON] ++ dec port)) as -> by reflexivity.
    assert (read_given_char RBRACKET (lit "]" ++ [COLON] ++ dec port) = Some ([COLON] ++ dec port)) as -> by reflexivity.
    unfold read_port. cbn [app read_given_char]. by rewrite Z.eqb_refl, Hn.
Qed.

(** A port passed through the pipe, printed and read back. *)
Lemma answer_read port cert before :
  0 <= port <= U16_MAX -> Forall is_byte cert -> cert <> [] ->
  Forall (fun l => (LF ∉ l) /\ (CR ∉ l) /\ parse_port_line l = Ret None) before ->
  exists printed, parent_answer (to_be 2 port) cert = Ok printed /\
    bootstrap_output true (unlines before ++ printed) = Ret (Ok (port, cert)).
Proof.
  intros Hp Hc Hne Hb. exists (port_line (to_be 2 port) cert). split.
  { unfold parent_answer. rewrite (proj2 (Nat.ltb_ge _ _)) by (rewrite length_to_be; lia).
    by rewrite take_ge by (rewrite length_to_be; lia). }
  unfold bootstrap_output, port_line. rewrite from_be_to_be_small by (unfold U16_MAX in Hp; simpl; lia).
  assert (unlines before ++ lit "PORT " ++ dec port ++ lit " CERT " ++ hex_encode cert ++ [LF] =
    unlines (before ++ [lit "PORT " ++ dec port ++ lit " CERT " ++ hex_encode cert])) as ->.
  { unfold unlines. rewrite bind_app. cbn [mbind list_bind]. by rewrite app_nil_r, <- !app_assoc. }
  rewrite lines_unlines.
  2: { apply Forall_app. split; [eapply Forall_impl; [exact Hb|]; by intros l (? & ? & _)|].
       apply Forall_singleton. split; apply answer_no; solve [done | lia | auto]. }
  induction Hb as [|l before (_ & _ & Hl) Hb IH]; cbn [app find_port_line]; [by rewrite parse_answer|by rewrite Hl].
Qed.

(** What a shell printed and no answer. *)
Lemma no_answer before : bootstrap_output false before = Ret (Err OtherKind).
Proof. done. Qed.

(** ** Properties *)

(** What the two ends are given: settings that the client accepts, a fresh
    identifier and pass key, entries and a command without control characters that
    are not taken for other lines, a certificate, ports that fit, and a shell that
    prints nothing that looks like the answer. *)
Record exchange_ok (getenv : str -> option str) (available : str -> AddrPref -> bool) (ccli : Cli) (ccfg : ClientConfig)
    (s : Settings) (endpoint : SocketAddr -> option u16) (cert : list u8) (before : list str)
    (id : list u8) (passkey : str) : Prop := {
  xo_settings : settings getenv available ccli ccfg = Start s;
  xo_id : length id = 16%nat /\ Forall is_byte id;
  xo_passkey : Forall (fun c => is_ascii_alphanumeric c = true) passkey;
  xo_term : (SLASH ∉ st_term s) /\ last_visible (st_term s);
  xo_target : st_target s <> [] /\ starts_with (lit "-") (st_target s) = false;
  xo_env : Forall (fun e => contains_any control_chars e = false /\ parse_bootstrap_line e = LEnv e)
    (asked_env getenv ccli ccfg);
  xo_command : match st_remote_command s with Some cmd => contains_any control_chars cmd = false | None => True end;
  xo_cert : Forall is_byte cert /\ cert <> [];
  xo_ports : forall a p, endpoint a = Some p -> 0 <= p <= U16_MAX;
  xo_before : Forall (fun l => (LF ∉ l) /\ (CR ∉ l) /\ parse_port_line l = Ret None) before
}.

(** The session that the server then runs. *)
Definition requested (s : Settings) (cli : ServerCli) (cfg : ServerConfig) (env_tmout : option str)
    (id : list u8) (passkey : str) (port : u16) : SessionStart :=
  mkSessionStart
    (mkRequest id passkey (st_term s) (st_env_vars s) (st_remote_command s) (st_x11_enabled s) (st_addr_pref s))
    (resolve_reconnect_timeout (sc_reconnect_timeout cli) env_tmout (sv_reconnect_timeout cfg))
    (pref_or (st_addr_pref s) (own_pref (sc_prefer_ipv4 cli) (sc_prefer_ipv6 cli) (sv_address_family cfg))) port.

(** The exchange before the first packet, end to end: for settings that the
    client accepts, whatever the remote shell prints before the answer, the
    server gets the address it is told to bind, or not.  If it does, the client
    ends with the port that was bound and the server's certificate, and the
    session runs with exactly the client's identifier, pass key, terminal,
    environment entries, command and X11 request, with the client's address-family
    preference before the server's own, and with the timeout of the server's
    options; if it does not, the client ends with an error and no session runs. *)
Theorem exchange_spec getenv available ccli ccfg s endpoint cli cfg env_tmout cert before id passkey :
  exchange_ok getenv available ccli ccfg s endpoint cert before id passkey ->
  let own := own_pref (sc_prefer_ipv4 cli) (sc_prefer_ipv6 cli) (sv_address_family cfg) in
  exchange endpoint id passkey s cli cfg env_tmout cert before =
  match socket_addr_parse (bind_str cli own) ≫= endpoint with
  | Some port => (Ret (Ok (port, cert)), Some (requested s cli cfg env_tmout id passkey port))
  | None => (Ret (Err OtherKind), None)
  end.
Proof.
  intros [Hs [Hlen Hid] Hpk [Hsl Hlast] [Ht1 Ht2] Hasked Hcmd [Hc Hne] Hport Hb] own.
  destruct (proj2 (request_trip getenv available ccli ccfg s id passkey Hs Hlen Hid Hpk Hsl Hlast Ht1 Ht2 Hasked Hcmd))
    as (text & Htext & Hparse).
  unfold exchange. rewrite Htext. unfold server_main, run_server. rewrite Hparse. fold own.
  unfold child_pipe. destruct (socket_addr_parse (bind_str cli own)) as [a|] eqn:Ea; cbn [mbind option_bind]; [|done].
  destruct (endpoint a) as [port|] eqn:Ep; [|done].
  destruct (answer_read port cert before (Hport _ _ Ep) Hc Hne Hb) as (printed & -> & Hout).
  by rewrite Hout.
Qed.

(** Without [-b] the server listens on the wildcard address of its family:
    the address text that it builds always parses, to [0.0.0.0] when IPv4 is
    preferred and to [::] otherwise, with the port of its options. *)
Theorem default_bind_address cli own endpoint :
  sc_bind cli = None -> 0 <= sc_port cli <= U16_MAX ->
  fst (child_pipe endpoint cli own) =
  endpoint (if bool_decide (own = Ipv4) then SockV4 [0; 0; 0; 0] (sc_port cli) else SockV6 (repeat 0 8) (sc_port cli) 0 0).
Proof.
  intros Hb Hp. unfold child_pipe, bind_str. rewrite Hb, default_bind_parses by done.
  cbn [mbind option_bind]. by destruct (endpoint _).
Qed.

(** ** Witnesses *)

Definition sample_server_cli : ServerCli := mkServerCli 0 (Some (lit "[fe80::1%7]")) false false None (Some 60).
Definition sample_server_cfg : ServerConfig := mkServerConfig None (Some (lit "ipv6")).
Definition sample_endpoint (a : SocketAddr) : option u16 :=
  match a with SockV6 [65152; 0; 0; 0; 0; 0; 0; 1] 0 0 7 => Some 49152 | _ => None end.

Lemma sample_exchange_ok s :
  settings sample_getenv (fun _ _ => true) sample_cli sample_cfg = Start s ->
  exchange_ok sample_getenv (fun _ _ => true) sample_cli sample_cfg s sample_endpoint [48; 130] [lit "welcome"]
    (repeat 171 16) (lit "Zx9").
Proof.
  intros E. pose proof E as E'. vm_compute in E'. injection E' as E'. split.
  - exact E.
  - split; [reflexivity|]. repeat constructor; discriminate.
  - repeat constructor.
  - split; rewrite <- E'; [apply (bool_decide_unpack (SLASH ∉ _)); vm_compute; exact I|reflexivity].
  - split; rewrite <- E'; [discriminate|reflexivity].
  - repeat constructor.
  - rewrite <- E'. reflexivity.
  - split; [repeat constructor; discriminate|discriminate].
  - intros a p Hp. unfold sample_endpoint in Hp. repeat case_match; simplify_eq. done.
  - repeat constructor; apply (bool_decide_unpack (_ ∉ lit "welcome")); vm_compute; exact I.
Qed.

Lemma default_bind_address_witness :
  fst (child_pipe (fun a => Some (match a with SockV4 _ p => p | SockV6 _ p _ _ => p + 1 end))
        (mkServerCli 2022 None true false None None) Ipv4) = Some 2022.
Proof.
  rewrite (default_bind_address (mkServerCli 2022 None true false None None) Ipv4
    (fun a => Some (match a with SockV4 _ p => p | SockV6 _ p _ _ => p + 1 end)));
    [reflexivity|reflexivity|split; discriminate].
Defined.

(** An IPv6 address must be given to [-b] in brackets: as it is usually written, the
    text with the port appended is no address, and the child exits. *)
Example bind_needs_brackets :
  socket_addr_parse (bind_str (mkServerCli 2022 (Some (lit "::1")) false false None None) Auto) = None /\
  socket_addr_parse (bind_str (mkServerCli 2022 (Some (lit "[::1]")) false false None None) Auto) =
    Some (SockV6 [0; 0; 0; 0; 0; 0; 0; 1] 2022 0 0).
Proof. vm_compute. by split. Qed.
