(* ===== verification/Shell.v ===== *)
(** The program that a session runs and its environment: the part of
    [run_session] of [src/bin/etrs.rs] between the PTY and [spawn_command], and
    what it means for the environment that the client's user asked for. *)
From S2P Require Import Prelude Text Protocol Stream Ip Addrfam Bootstrap Settings ServerStart.

Open Scope Z_scope.
Open Scope list_scope.

(** ** The command *)

(** [portable_pty::CommandBuilder]: a program with arguments, or the default
    program, and an environment that starts as [base_env]. *)
Class CommandBuilder := {
  Cmd : Type;
  base_env : str -> option str;
  new : str -> Cmd;
  new_default_prog : Cmd;
  arg : str -> Cmd -> Cmd;
  env : str -> str -> Cmd -> Cmd;
  get_argv : Cmd -> list str;                (* empty for the default program *)
  get_env : Cmd -> str -> option str
}.

(** Its documented behaviour. *)
Class LawfulBuilder (B : CommandBuilder) := {
  argv_new p : get_argv (new p) = [p];
  argv_default : get_argv new_default_prog = [];
  argv_arg a c : get_argv (arg a c) = get_argv c ++ [a];
  argv_env k v c : get_argv (env k v c) = get_argv c;
  get_env_new p k : get_env (new p) k = base_env k;
  get_env_default k : get_env new_default_prog k = base_env k;
  get_env_arg a c k : get_env (arg a c) k = get_env c k;
  get_env_env k' v c k : get_env (env k' v c) k = if str_eqb k k' then Some v else get_env c k
}.

Definition ETR_VERSION : str := lit "0.10.19".

Section Spawn.
Context {B : CommandBuilder}.

(** [std::env::var] of the server, which need not agree with [base_env]. *)
Context (getenv : str -> option str).

(** One entry of the client; unsafe and malformed ones are passed over. *)
Definition client_env (c : Cmd) (kv : str) : Cmd :=
  if negb (is_safe_client_env_var kv) then c
  else match split_once EQUALS kv with Some (k, v) => env k v c | None => c end.

Definition shell_program (remote_command : option str) : Cmd :=
  match remote_command with
  | Some rcmd => arg rcmd (arg (lit "-c") (new (default (lit "/bin/sh") (getenv (lit "SHELL")))))
  | None => new_default_prog
  end.

Definition display_value (d : nat) : str := lit "localhost:" ++ dec (Z.of_nat d) ++ lit ".0".

Definition spawn_command (remote_command : option str) (display_num : option nat) (term : str)
    (extra_env : list str) : Cmd :=
  let cmd := shell_program remote_command in
  let cmd := match display_num with Some d => env (lit "DISPLAY") (display_value d) cmd | None => cmd end in
  let cmd := env (lit "TERM") term cmd in
  let cmd := env (lit "ETR_CONNECTION") (lit "1") cmd in
  let cmd := env (lit "ETR_VERSION") ETR_VERSION cmd in
  let cmd := match getenv (lit "SSH_CONNECTION") with
             | Some v => env (lit "SSH_CONNECTION") v cmd
             | None => cmd
             end in
  fold_left client_env extra_env cmd.

(** ** The specification of the environment *)

(** The variables that the server sets itself. *)
Definition server_sets (display_num : option nat) (term : str) : list (str * option str) :=
  [(lit "TERM", Some term); (lit "ETR_CONNECTION", Some (lit "1")); (lit "ETR_VERSION", Some ETR_VERSION);
   (lit "DISPLAY", display_value <$> display_num); (lit "SSH_CONNECTION", getenv (lit "SSH_CONNECTION"))].

Fixpoint assoc (k : str) (l : list (str * option str)) : option str :=
  match l with
  | [] => None
  | (k', v) :: l => if str_eqb k k' then v else assoc k l
  end.

(** What a variable is without the client's entries. *)
Definition server_value (display_num : option nat) (term : str) (k : str) : option str :=
  match assoc k (server_sets display_num term) with Some v => Some v | None => base_env k end.
End Spawn.

(** The client's values for a variable, in order. *)
Definition client_values (k : str) (entries : list str) : list str :=
  omap (fun kv => if is_safe_client_env_var kv
                  then match split_once EQUALS kv with
                       | Some (k', v) => if str_eqb k' k then Some v else None
                       | None => None
                       end
                  else None) entries.

Definition blocked (k : str) : bool := existsb (eq_ignore_ascii_case k) BLOCKED_ENV_KEYS.

(** A name that can be set. *)
Definition settable (k : str) : Prop :=
  k <> [] /\ (EQUALS ∉ k) /\ contains_any control_chars k = false /\ blocked k = false.

(** ** Lemmas *)

Lemma str_eqb_eq a b : str_eqb a b = bool_decide (a = b).
Proof. apply eq_true_iff_eq. by rewrite str_eqb_spec, bool_decide_eq_true. Qed.

Section Lookup.
Context {B : CommandBuilder} {L : LawfulBuilder B} (getenv : str -> option str).

(** Looking a variable up after the client's entries. *)
Lemma client_env_lookup entries cmd k :
  get_env (fold_left client_env entries cmd) k =
  match last (client_values k entries) with Some v => Some v | None => get_env cmd k end.
Proof.
  revert cmd. induction entries as [|kv entries IH] using rev_ind; intros cmd; [done|].
  rewrite fold_left_app. cbn [fold_left]. unfold client_values. rewrite omap_app.
  fold (client_values k entries). unfold client_env at 1. cbn [omap list_omap].
  destruct (is_safe_client_env_var kv); cbn [negb]; [|by rewrite app_nil_r, IH].
  destruct (split_once EQUALS kv) as [[k' v]|]; [|by rewrite app_nil_r, IH].
  rewrite get_env_env. assert (str_eqb k k' = str_eqb k' k) as ->.
  { apply eq_true_iff_eq. rewrite !str_eqb_spec. split; congruence. }
  destruct (str_eqb k' k).
  - by rewrite last_snoc.
  - by rewrite app_nil_r, IH.
Qed.

Lemma client_env_argv entries cmd : get_argv (fold_left client_env entries cmd) = get_argv cmd.
Proof.
  revert cmd. induction entries as [|kv entries IH]; intros cmd; cbn [fold_left]; [done|].
  rewrite IH. unfold client_env. destruct (negb _); [done|]. destruct (split_once _ _) as [[]|]; [|done].
  apply argv_env.
Qed.

Lemma shell_program_env rcmd k : get_env (shell_program getenv rcmd) k = base_env k.
Proof. destruct rcmd; cbn [shell_program]; by rewrite ?get_env_arg, ?get_env_new, ?get_env_default. Qed.

Lemma spawn_env_lookup rcmd display term extra k :
  get_env (spawn_command getenv rcmd display term extra) k =
  match last (client_values k extra) with Some v => Some v | None => server_value getenv display term k end.
Proof.
  unfold spawn_command. rewrite client_env_lookup. destruct (last _); [done|].
  unfold server_value. cbn [server_sets assoc].
  assert (forall name (o : option str) cmd,
    get_env (match o with Some v => env name v cmd | None => cmd end) k =
    if str_eqb k name then match o with Some v => Some v | None => get_env cmd k end else get_env cmd k) as Hopt.
  { intros name [v|] cmd; [apply get_env_env|by destruct (str_eqb _ _)]. }
  rewrite (Hopt (lit "SSH_CONNECTION")), !get_env_env.
  assert (forall cmd, get_env (match display with Some d => env (lit "DISPLAY") (display_value d) cmd | None => cmd end) k =
    if str_eqb k (lit "DISPLAY") then match display with Some d => Some (display_value d) | None => get_env cmd k end
    else get_env cmd k) as ->.
  { intros cmd. destruct display; [apply get_env_env|by destruct (str_eqb _ _)]. }
  rewrite shell_program_env. rewrite !str_eqb_eq.
  destruct (decide (k = lit "TERM")) as [->|N1]; [reflexivity|].
  destruct (decide (k = lit "ETR_CONNECTION")) as [->|N2]; [reflexivity|].
  destruct (decide (k = lit "ETR_VERSION")) as [->|N3]; [reflexivity|].
  destruct (decide (k = lit "DISPLAY")) as [->|N4]; [by destruct display|].
  rewrite !(bool_decide_eq_false_2 _ N1), !(bool_decide_eq_false_2 _ N2), !(bool_decide_eq_false_2 _ N3),
    !(bool_decide_eq_false_2 _ N4). destruct (bool_decide _); [|reflexivity].
  by destruct (getenv (lit "SSH_CONNECTION")).
Qed.

Lemma spawn_argv rcmd display term extra :
  get_argv (spawn_command getenv rcmd display term extra) =
  match rcmd with
  | Some cmd => [default (lit "/bin/sh") (getenv (lit "SHELL")); lit "-c"; cmd]
  | None => []
  end.
Proof.
  unfold spawn_command. rewrite client_env_argv.
  assert (forall name (o : option str) cmd,
    get_argv (match o with Some v => env name v cmd | None => cmd end) = get_argv cmd) as Hopt
    by (intros name [v|] cmd; [apply argv_env|done]).
  rewrite Hopt, !argv_env.
  assert (forall cmd, get_argv (match display with Some d => env (lit "DISPLAY") (display_value d) cmd | None => cmd end) =
    get_argv cmd) as -> by (intros cmd; destruct display; [apply argv_env|done]).
  destruct rcmd; cbn [shell_program]; by rewrite ?argv_arg, ?argv_new, ?argv_default.
Qed.
End Lookup.

(** What the filter lets through is a settable name with a value. *)
Lemma safe_entry kv k v :
  settable k -> kv = k ++ EQUALS :: v ->
  is_safe_client_env_var kv = negb (contains_any control_chars v).
Proof.
  intros (Hne & Heq & Hc & Hb) ->. unfold is_safe_client_env_var.
  change (EQUALS :: v) with ([EQUALS] ++ v). rewrite !control_free_app, Hc. cbn [orb].
  assert (contains_any control_chars [EQUALS] = false) as -> by reflexivity. cbn [orb].
  destruct (contains_any control_chars v); [done|]. cbn [negb].
  rewrite (proj2 (split_once_Some EQUALS (k ++ [EQUALS] ++ v) k v)) by done.
  unfold blocked in Hb. by rewrite bool_decide_eq_false_2, Hb.
Qed.

Lemma client_values_app k a b : client_values k (a ++ b) = client_values k a ++ client_values k b.
Proof. apply omap_app. Qed.

(** A control-free entry that begins with a settable name is one of its values. *)
Lemma client_values_none k entries :
  settable k -> Forall (fun e => contains_any control_chars e = false) entries ->
  client_values k entries = [] <-> existsb (starts_with (k ++ [EQUALS])) entries = false.
Proof.
  intros Hk He. induction He as [|e entries Hc He IH]; [done|].
  cbn [existsb]. rewrite orb_false_iff, <- IH. unfold client_values. cbn [omap list_omap].
  fold (client_values k entries). destruct (starts_with (k ++ [EQUALS]) e) eqn:Es.
  - apply starts_with_spec in Es as [v Hv]. rewrite <- app_assoc in Hv. cbn [app] in Hv.
    rewrite (safe_entry e k v Hk Hv). subst e.
    change (EQUALS :: v) with ([EQUALS] ++ v) in Hc. rewrite !control_free_app in Hc.
    apply orb_false_iff in Hc as [_ [_ Hc]%orb_false_iff]. rewrite Hc. cbn [negb].
    rewrite (proj2 (split_once_Some EQUALS (k ++ EQUALS :: v) k v)) by (by destruct Hk as (_ & ? & _)).
    rewrite str_eqb_eq, bool_decide_eq_true_2 by done. split; [done|by intros [? _]].
  - destruct (is_safe_client_env_var e); [|tauto].
    destruct (split_once EQUALS e) as [[k' v]|] eqn:E; [|tauto].
    rewrite str_eqb_eq. case_bool_decide as Hkk; [|tauto]. subst k'. exfalso.
    apply split_once_Some in E as [-> _]. assert (starts_with (k ++ [EQUALS]) (k ++ EQUALS :: v) = true); [|congruence].
    apply starts_with_spec. exists v. by rewrite <- app_assoc.
Qed.

(** A blocked name has no values. *)
Lemma client_values_blocked k entries : blocked k = true -> client_values k entries = [].
Proof.
  intros Hb. induction entries as [|e entries IH]; [done|]. unfold client_values. cbn [omap list_omap].
  fold (client_values k entries). rewrite IH. unfold is_safe_client_env_var.
  destruct (contains_any _ e); [done|]. destruct (split_once EQUALS e) as [[k' v]|]; [|done].
  case_bool_decide; [done|]. rewrite str_eqb_eq. case_bool_decide as Hk; [|by destruct (negb _)].
  subst. unfold blocked in Hb. by rewrite Hb.
Qed.

(** The entry that the client adds for a locale variable. *)
Definition locale_entry (getenv : str -> option str) (asked : list str) (k : str) : option str :=
  if existsb (starts_with (k ++ [EQUALS])) asked then None
  else match getenv k with
  | Some v => if contains_any control_chars v then None else Some (k ++ [EQUALS] ++ v)
  | None => None
  end.

(** ... and its value. *)
Definition locale_value (getenv : str -> option str) (asked : list str) (k : str) : option str :=
  if bool_decide (client_values k asked = []) then
    match getenv k with
    | Some v => if contains_any control_chars v then None else Some v
    | None => None
    end
  else None.

Lemma locale_keys_settable k : k ∈ locale_keys -> settable k.
Proof.
  intros Hk. assert (forallb (fun k => bool_decide (k <> []) && negb (contains_char EQUALS k) &&
    negb (contains_any control_chars k) && negb (blocked k)) locale_keys = true) as Hall by (vm_compute; reflexivity).
  rewrite forallb_forall in Hall. apply list_elem_of_In in Hk. apply Hall in Hk.
  apply andb_true_iff in Hk as [[[H1 H2]%andb_true_iff H3]%andb_true_iff H4].
  apply bool_decide_eq_true in H1. apply negb_true_iff in H2, H3, H4.
  repeat apply conj; try done. intros He. apply contains_char_spec in He. congruence.
Qed.

Lemma client_values_one k k' v :
  settable k' -> contains_any control_chars v = false ->
  client_values k [k' ++ [EQUALS] ++ v] = if bool_decide (k' = k) then [v] else [].
Proof.
  intros Hk Hv. unfold client_values. cbn [omap list_omap].
  rewrite (safe_entry (k' ++ [EQUALS] ++ v) k' v) by done. rewrite Hv. cbn [negb].
  rewrite (proj2 (split_once_Some EQUALS (k' ++ [EQUALS] ++ v) k' v)) by (by destruct Hk as (_ & ? & _)).
  rewrite str_eqb_eq. by case_bool_decide.
Qed.

Lemma client_values_entry getenv asked k k' :
  settable k' -> Forall (fun e => contains_any control_chars e = false) asked ->
  client_values k (option_list (locale_entry getenv asked k')) =
  if bool_decide (k' = k) then option_list (locale_value getenv asked k) else [].
Proof.
  intros Hk Ha. unfold locale_entry, locale_value.
  pose proof (client_values_none k' asked Hk Ha) as Hnone.
  destruct (existsb _ asked).
  - case_bool_decide as E; [|done]. subst k'. rewrite bool_decide_eq_false_2; [done|]. intros E%Hnone. done.
  - assert (client_values k' asked = []) as Ee by (by apply Hnone). destruct (getenv k') as [v|] eqn:Eg.
    2: { case_bool_decide as E; [|done]. subst k'. rewrite Eg. by destruct (bool_decide _). }
    destruct (contains_any control_chars v) eqn:Ec.
    { case_bool_decide as E; [|done]. subst k'. rewrite Eg, Ec. by destruct (bool_decide _). }
    change (option_list (Some (k' ++ [EQUALS] ++ v))) with [k' ++ [EQUALS] ++ v].
    rewrite client_values_one by done. case_bool_decide as E; [|done]. subst k'.
    by rewrite bool_decide_eq_true_2, Eg, Ec.
Qed.

(** The entries of a list of names, each at most once. *)
Lemma client_values_entries getenv asked k keys :
  Forall (fun e => contains_any control_chars e = false) asked -> Forall settable keys -> NoDup keys ->
  client_values k (omap (locale_entry getenv asked) keys) =
  if bool_decide (k ∈ keys) then option_list (locale_value getenv asked k) else [].
Proof.
  intros Ha Hs Hn. induction Hn as [|k' keys Hk' Hn IH]; [done|].
  apply Forall_cons in Hs as [Hs' Hs]. specialize (IH Hs).
  assert (omap (locale_entry getenv asked) (k' :: keys) =
    option_list (locale_entry getenv asked k') ++ omap (locale_entry getenv asked) keys) as ->
    by (cbn [omap list_omap]; by destruct (locale_entry getenv asked k')).
  rewrite client_values_app, client_values_entry, IH by done.
  destruct (decide (k' = k)) as [->|Hne].
  - rewrite bool_decide_eq_true_2, (bool_decide_eq_false_2 (k ∈ keys)), (bool_decide_eq_true_2 (k ∈ k :: keys)) by
      (done || by left). by rewrite app_nil_r.
  - rewrite bool_decide_eq_false_2 by done. cbn [app].
    rewrite (bool_decide_ext (k ∈ keys) (k ∈ k' :: keys)); [done|]. rewrite elem_of_cons. intuition congruence.
Qed.

Lemma locale_keys_nodup : NoDup locale_keys.
Proof. apply (bool_decide_unpack (NoDup locale_keys)). vm_compute. exact I. Qed.

(** ** Properties *)

(** C19: The shell and its environment.  A remote command is given whole to the
    server's [$SHELL -c], [/bin/sh] without one.  A variable has the last value
    that the client sent for it in an entry that passes the filter, and otherwise
    what the server sets (TERM, the markers of the session, the X11 display,
    SSH_CONNECTION) or starts with; the variables that would hijack the dynamic
    loader or the start of a shell, in any spelling of case, are those that the
    server starts with, whatever the client sends. *)
Theorem shell_environment {B : CommandBuilder} {L : LawfulBuilder B} getenv rcmd display term extra k :
  let cmd := spawn_command getenv rcmd display term extra in
  get_argv cmd =
    match rcmd with
    | Some c => [default (lit "/bin/sh") (getenv (lit "SHELL")); lit "-c"; c]
    | None => []
    end /\
  get_env cmd k =
    match last (client_values k extra) with Some v => Some v | None => server_value getenv display term k end /\
  (forall b, b ∈ BLOCKED_ENV_KEYS -> to_ascii_lowercase k = to_ascii_lowercase b -> get_env cmd k = base_env k).
Proof.
  intros cmd. split; [apply spawn_argv|]. split; [apply spawn_env_lookup|]. intros b Hb Hk.
  assert (blocked k = true) as Hbl.
  { apply existsb_exists. exists b. split; [by apply list_elem_of_In|].
    unfold eq_ignore_ascii_case. by apply str_eqb_spec. }
  unfold cmd. rewrite spawn_env_lookup, client_values_blocked by done. cbn [last].
  assert (forall name, blocked name = false -> str_eqb k name = false) as Hno.
  { intros name Hn. rewrite str_eqb_eq. apply bool_decide_eq_false_2. intros ->. congruence. }
  unfold server_value. cbn [server_sets assoc]. by rewrite !Hno by (vm_compute; reflexivity).
Qed.

(** What the shell has, when the entries arrive as the client's settings have them. *)
Lemma settings_shell_env {B : CommandBuilder} {L : LawfulBuilder B} getenv available cli cfg s server_env rcmd display k :
  settings getenv available cli cfg = Start s -> settable k ->
  Forall (fun e => contains_any control_chars e = false) (asked_env getenv cli cfg) ->
  get_env (spawn_command server_env rcmd display (st_term s) (st_env_vars s)) k =
  match last (client_values k (asked_env getenv cli cfg)) with
  | Some v => Some v
  | None =>
    match (if bool_decide (k ∈ locale_keys) then locale_value getenv (asked_env getenv cli cfg) k else None) with
    | Some v => Some v
    | None => server_value server_env display (st_term s) k
    end
  end.
Proof.
  intros Hs Hk Ha. rewrite spawn_env_lookup. destruct (settings_env _ _ _ _ _ Hs) as [-> _].
  unfold env_vars. fold (asked_env getenv cli cfg).
  change (locale_prefix getenv (asked_env getenv cli cfg))
    with (omap (locale_entry getenv (asked_env getenv cli cfg)) locale_keys).
  rewrite client_values_app, client_values_entries by (done || apply locale_keys_nodup ||
    (apply Forall_forall; intros ? ?; by apply locale_keys_settable)).
  rewrite last_app. destruct (last (client_values k (asked_env getenv cli cfg))); [done|].
  case_bool_decide; [|done]. by destruct (locale_value _ _ _).
Qed.

(** C20: What the user asks for is what the shell gets, through the text that crosses
    ssh.  Let the client's and the server's ends of the exchange, under [exchange_ok]
    (settings that the client accepts, among them entries and a command without control
    characters; no entry that reads as another line of the request, as [ETRCMD:x=1]
    does, which never reaches the shell; a TERM without slash and without white space at
    its end; a 16-byte identifier, an alphanumeric pass key, a target that is not empty
    and does not begin with a hyphen; a remote shell that first prints nothing like the
    answer), end with a session.  For every name that may be set, the shell that this
    session spawns from the request it has read has the last value that the user gave
    with [--env] or in the configuration file; for a locale variable that the user did
    not mention, the client's own value, if that has no control characters; and for any
    other name what the server sets or has, with the client's own TERM. *)
Theorem user_environment {B : CommandBuilder} {L : LawfulBuilder B} getenv available ccli ccfg s endpoint
    cli cfg env_tmout cert before id passkey answer ss server_env display k :
  exchange_ok getenv available ccli ccfg s endpoint cert before id passkey ->
  exchange endpoint id passkey s cli cfg env_tmout cert before = (answer, Some ss) ->
  settable k ->
  let r := ss_request ss in
  get_env (spawn_command server_env (b_remote_command r) display (b_term r) (b_extra_env r)) k =
  match last (client_values k (asked_env getenv ccli ccfg)) with
  | Some v => Some v
  | None =>
    match (if bool_decide (k ∈ locale_keys) then locale_value getenv (asked_env getenv ccli ccfg) k else None) with
    | Some v => Some v
    | None => server_value server_env display (term getenv) k
    end
  end.
Proof.
  intros Hx Hex Hk r. pose proof (exchange_spec _ _ _ _ _ _ cli cfg env_tmout _ _ _ _ Hx) as Hs. cbn zeta in Hs.
  rewrite Hs in Hex. destruct (_ ≫= endpoint) as [port|]; [|done]. injection Hex as _ <-. subst r.
  cbn [requested ss_request b_term b_extra_env b_remote_command].
  pose proof (xo_settings _ _ _ _ _ _ _ _ _ _ Hx) as Hset.
  rewrite (settings_shell_env getenv available ccli ccfg) by
    (done || (eapply Forall_impl; [exact (xo_env _ _ _ _ _ _ _ _ _ _ Hx)|]; by intros e [? _])).
  by destruct (settings_env _ _ _ _ _ Hset) as [_ ->].
Qed.

(** ** Witnesses *)

(** A builder whose server has two variables. *)
Definition map_builder : CommandBuilder := {|
  Cmd := list str * gmap str str;
  base_env k := (<[lit "LD_PRELOAD" := lit "/usr/lib/jemalloc.so"]> {[lit "TERM" := lit "dumb"]} : gmap str str) !! k;
  new p := ([p], <[lit "LD_PRELOAD" := lit "/usr/lib/jemalloc.so"]> {[lit "TERM" := lit "dumb"]});
  new_default_prog := ([], <[lit "LD_PRELOAD" := lit "/usr/lib/jemalloc.so"]> {[lit "TERM" := lit "dumb"]});
  arg a c := (c.1 ++ [a], c.2);
  env k v c := (c.1, <[k := v]> c.2);
  get_argv := fst;
  get_env c k := c.2 !! k
|}.

Lemma map_builder_lawful : LawfulBuilder map_builder.
Proof.
  split; try done. intros k' v [p m] k. cbn. rewrite str_eqb_eq. case_bool_decide; subst.
  - apply lookup_insert_eq.
  - by apply lookup_insert_ne.
Qed.

Definition sample_entries : list str :=
  [lit "ld_preload=/tmp/evil.so"; lit "LD_PRELOAD=/tmp/evil.so"; lit "A=1"; lit "A=2"].

Lemma shell_environment_witness :
  let cmd := spawn_command (B := map_builder) (fun _ => None) (Some (lit "ls")) (Some 10%nat) (lit "xterm") sample_entries in
  get_env (CommandBuilder := map_builder) cmd (lit "LD_PRELOAD") = Some (lit "/usr/lib/jemalloc.so") /\
  get_env (CommandBuilder := map_builder) cmd (lit "A") = Some (lit "2") /\
  get_argv (CommandBuilder := map_builder) cmd = [lit "/bin/sh"; lit "-c"; lit "ls"].
Proof.
  pose proof (fun k => shell_environment (B := map_builder) (L := map_builder_lawful) (fun _ => None) (Some (lit "ls"))
    (Some 10%nat) (lit "xterm") sample_entries k) as H.
  split; [|split].
  - rewrite (proj2 (proj2 (H (lit "LD_PRELOAD"))) (lit "LD_PRELOAD") ltac:(left) eq_refl). vm_compute. reflexivity.
  - rewrite (proj1 (proj2 (H (lit "A")))). vm_compute. reflexivity.
  - exact (proj1 (H (lit "A"))).
Defined.

Lemma user_environment_witness :
  exists s answer ss,
    exchange sample_endpoint (repeat 171 16) (lit "Zx9") s sample_server_cli sample_server_cfg None [48; 130]
      [lit "welcome"] = (answer, Some ss) /\
    let r := ss_request ss in
    let cmd := spawn_command (B := map_builder) (fun _ => None) (b_remote_command r) None (b_term r) (b_extra_env r) in
    get_env (CommandBuilder := map_builder) cmd (lit "LANG") = Some (lit "C") /\
    get_env (CommandBuilder := map_builder) cmd (lit "LC_TIME") = Some (lit "C") /\
    get_env (CommandBuilder := map_builder) cmd (lit "TERM") = Some (lit "xterm").
Proof.
  destruct (settings sample_getenv (fun _ _ => true) sample_cli sample_cfg) as [|e|s] eqn:E;
    [vm_compute in E; discriminate E..|].
  pose proof E as E'. vm_compute in E'. injection E' as E'.
  destruct (exchange sample_endpoint (repeat 171 16) (lit "Zx9") s sample_server_cli sample_server_cfg None [48; 130]
    [lit "welcome"]) as [answer [ss|]] eqn:Ex.
  2: { rewrite <- E' in Ex. vm_compute in Ex. discriminate Ex. }
  exists s, answer, ss. split; [exact Ex|].
  pose proof (fun k Hk => user_environment (B := map_builder) (L := map_builder_lawful) sample_getenv (fun _ _ => true)
    sample_cli sample_cfg s sample_endpoint sample_server_cli sample_server_cfg None [48; 130] [lit "welcome"]
    (repeat 171 16) (lit "Zx9") answer ss (fun _ => None) None k (sample_exchange_ok s E) Ex Hk) as H.
  assert (forall k, k <> [] -> contains_char EQUALS k = false -> contains_any control_chars k = false ->
    blocked k = false -> settable k) as Hset.
  { intros k H1 H2 H3 H4. repeat split; try assumption. intros Hc. apply contains_char_spec in Hc. congruence. }
  split; [|split].
  - rewrite (H (lit "LANG")); [vm_compute; reflexivity|]. apply Hset; [discriminate|reflexivity..].
  - rewrite (H (lit "LC_TIME")); [vm_compute; reflexivity|]. apply Hset; [discriminate|reflexivity..].
  - rewrite (H (lit "TERM")); [vm_compute; reflexivity|]. apply Hset; [discriminate|reflexivity..].
Defined.
