(* ===== verification/RunSession.v ===== *)
(** The whole of the server's [run_session] ([src/bin/etrs.rs]): the X11 display, the
    PTY and the shell, the reconnect loop with its login records, and what is undone
    at the end.  The parts are those of [X11Session], [Shell], [Login] and
    [ServerLoop]; what remains here is their order and the calls that may fail on the
    way to the loop. *)
From S2P Require Import Prelude Text Utf8 Protocol Stream Session Proto Quic Ip Addrfam Hex Connection ServerLoop Login Bootstrap X11Setup X11Session Settings ServerStart Shell.

Open Scope Z_scope.
Open Scope list_scope.

(** What the system does: [endpoint.local_addr], [openpty], [spawn_command],
    [try_clone_reader], [take_writer], the four [signal]s, the shell's process, whether
    the master has a descriptor, and whether the shell's exit has been seen when the
    loop is over. *)
Record PtyOutcome : Type := mkPtyOutcome {
  local_addr_ok : bool;
  openpty_ok : bool;
  spawn_ok : bool;
  reader_ok : bool;
  writer_ok : bool;
  signals_ok : bool;
  child_pid : option u32;
  master_fd : bool;
  exit_seen : bool
}.

(** The shell when [run_session] returns.  One that was started when the set-up fails is
    left to the hangup of its PTY if that is closed, that is, if the thread that reads
    from it was not started yet; otherwise it is left running, and the watcher makes its
    calls when it exits. *)
Inductive shell_fate : Type :=
| NotStarted
| PtyClosed
| LeftRunning (calls_at_exit : list login_event)
| InLoop
| TornDown.

Inductive session_end : Type := SetupFailed | Running | Ended (e : loop_exit).

(** What the session has done: X11's effects, the command that was started, the calls
    of the login records, the signals to the shell's group, how it ended, and what has
    become of the shell. *)
Record SessionRun (Cmd : Type) : Type := mkRun {
  r_x11 : list x11_effect;
  r_cmd : option Cmd;
  r_calls : list login_event;
  r_signals : list (u32 * group_signal);
  r_end : session_end;
  r_shell : shell_fate
}.
Arguments mkRun {Cmd}.
Arguments r_x11 {Cmd}.
Arguments r_cmd {Cmd}.
Arguments r_calls {Cmd}.
Arguments r_signals {Cmd}.
Arguments r_end {Cmd}.
Arguments r_shell {Cmd}.

Section Run.
Context {C : EnvelopeCodec} {B : CommandBuilder} (getenv : str -> option str).
Context (bound : option (nat * bool * nat)) (add_ok : str -> bool) (fake_cookie : list u8).
Context (peer : conn -> IpAddr) (etrs_pid : u32) (alive : nat -> bool).

(** The state before the first connection. *)
Definition begin_host (req : BootstrapRequest) : Host :=
  mkHost (new_session (b_session_id req) (b_passkey req)) None ∅ [] None [] None None [] [].

Definition run_session (req : BootstrapRequest) (p : PtyOutcome) (ts : list Turn) : SessionRun Cmd :=
  if negb (local_addr_ok p) then mkRun [] None [] [] SetupFailed NotStarted
  else
    let '(begin, cleanup) := x11_begin (if b_x11_enabled req then bound else None) add_ok fake_cookie in
    let dropped := begin ++ match cleanup with Some c => drop_cleanup c | None => [] end in
    let cmd := spawn_command getenv (b_remote_command req) (cleanup_display <$> cleanup) (b_term req) (b_extra_env req) in
    if negb (openpty_ok p) || negb (spawn_ok p) then mkRun dropped None [] [] SetupFailed NotStarted
    else if negb (reader_ok p) || negb (writer_ok p) then mkRun dropped (Some cmd) [] [] SetupFailed PtyClosed
    else if negb (signals_ok p) then
      mkRun dropped (Some cmd) [] [] SetupFailed (LeftRunning (if master_fd p then [Logout] else []))
    else
      match login_loop (b_session_id req) (b_passkey req) (master_fd p) peer etrs_pid false ts (begin_host req) with
      | (calls, None) => mkRun begin (Some cmd) calls [] Running InLoop
      | (calls, Some e) => mkRun dropped (Some cmd) calls (teardown (exit_seen p) (child_pid p) alive) (Ended e) TornDown
      end.

(** The shell and its threads are started; and the call of [run_session] gets as far as
    its loop. *)
Definition shell_up (p : PtyOutcome) : bool :=
  local_addr_ok p && openpty_ok p && spawn_ok p && reader_ok p && writer_ok p.

Definition set_up (p : PtyOutcome) : bool := shell_up p && signals_ok p.

(** ** Lemmas *)

(** X11's part is that of [X11Session], unless the session is still running. *)
Lemma run_session_x11 req p ts :
  r_end (run_session req p ts) <> Running ->
  r_x11 (run_session req p ts) =
    if local_addr_ok p then x11_session (b_x11_enabled req) bound add_ok fake_cookie else [].
Proof.
  unfold run_session, x11_session. destruct (local_addr_ok p); cbn [negb]; [|done].
  destruct (x11_begin _ _ _) as [begin cleanup].
  destruct (negb (openpty_ok p) || negb (spawn_ok p)); [done|]. destruct (negb (reader_ok p) || negb (writer_ok p)); [done|].
  destruct (negb (signals_ok p)); [done|]. by destruct (login_loop _ _ _ _ _ _ _ _) as [calls [e|]].
Qed.

(** The rest of it, by whether the set-up succeeds. *)
Lemma run_session_rest req p ts :
  let r := run_session req p ts in
  if set_up p then
    r_cmd r = Some (spawn_command getenv (b_remote_command req)
      (cleanup_display <$> (x11_begin (if b_x11_enabled req then bound else None) add_ok fake_cookie).2)
      (b_term req) (b_extra_env req)) /\
    match login_loop (b_session_id req) (b_passkey req) (master_fd p) peer etrs_pid false ts (begin_host req) with
    | (calls, None) => r_calls r = calls /\ r_signals r = [] /\ r_end r = Running
    | (calls, Some e) => r_calls r = calls /\ r_signals r = teardown (exit_seen p) (child_pid p) alive /\ r_end r = Ended e
    end
  else r_calls r = [] /\ r_signals r = [] /\ r_end r = SetupFailed /\
    if shell_up p then r_shell r = LeftRunning (if master_fd p then [Logout] else [])
    else r_shell r = NotStarted \/ r_shell r = PtyClosed.
Proof.
  cbv zeta. unfold run_session, set_up, shell_up. destruct (x11_begin _ _ _) as [begin cleanup].
  destruct (local_addr_ok p), (openpty_ok p), (spawn_ok p), (reader_ok p), (writer_ok p), (signals_ok p);
    cbn [negb orb andb]; auto.
  cbn [snd]. by destruct (login_loop _ _ _ _ _ _ _ _) as [calls [e|]].
Qed.
End Run.

(** ** Properties *)

(** C10: What is left of a session when [run_session] returns, whatever happens (a
    display that is not free, [xauth] or the PTY or the shell that fails, signals, a
    closed endpoint, an expired window, the shell's or the client's end). Every [xauth]
    entry and the socket of its display are removed after they were made. When the loop
    was reached, the shell that was asked for was started with the display, a shell that
    has not been seen to exit gets a SIGHUP, and SIGKILL exactly when it survives all
    probes, and the last login record is a logout, unless a client was let in after the
    shell's exit had been recorded. When the set-up fails no login has been recorded and
    no signal is sent; the shell has not been started or its PTY is closed, except when
    only the handlers of SIGTERM and SIGHUP could not be installed: then it is left
    running, and its watcher records a logout when it exits. *)
Theorem session_cleans_up {C : EnvelopeCodec} {B : CommandBuilder} getenv bound add_ok fake peer etrs_pid alive req p ts :
  let r := run_session getenv bound add_ok fake peer etrs_pid alive req p ts in
  r_end r <> Running ->
  (forall entry hex, followed_by (r_x11 r) (xauth_add entry hex) (xauth_remove entry)) /\
  (forall path t, followed_by (r_x11 r) (Listen (Some path) t) (RemoveFile path)) /\
  (if set_up p then
     exists e, r_end r = Ended e /\
     r_cmd r = Some (spawn_command getenv (b_remote_command req)
       (cleanup_display <$> (x11_begin (if b_x11_enabled req then bound else None) add_ok fake).2)
       (b_term req) (b_extra_env req)) /\
     (forall g s, (g, s) ∈ r_signals r <-> exit_seen p = false /\ child_pid p = Some g /\
        (s = SIGHUP \/ s = SIGKILL /\ forall j, (j < 20)%nat -> alive j = true)) /\
     (master_fd p = true ->
      late_login (b_session_id req) (b_passkey req) true peer etrs_pid false ts (begin_host req) = false ->
      last (r_calls r) = Some Logout)
   else r_end r = SetupFailed /\ r_calls r = [] /\ r_signals r = [] /\
     if shell_up p then r_shell r = LeftRunning (if master_fd p then [Logout] else [])
     else r_shell r = NotStarted \/ r_shell r = PtyClosed).
Proof.
  intros r Hr. unfold r in *. clear r. rewrite (run_session_x11 _ _ _ _ _ _ _ _ _ _ Hr).
  destruct (x11_leaves_nothing (b_x11_enabled req) bound add_ok fake) as (H1 & H2 & _).
  split; [destruct (local_addr_ok p); [exact H1|]; intros *; by apply followed_nil|].
  split; [destruct (local_addr_ok p); [exact H2|]; intros *; by apply followed_nil|]. clear H1 H2.
  pose proof (run_session_rest getenv bound add_ok fake peer etrs_pid alive req p ts) as H. cbv zeta in H.
  destruct (set_up p); [|by destruct H as (H1 & H2 & H3 & H4)]. destruct H as [Hcmd H].
  pose proof (login_loop_last (b_session_id req) (b_passkey req) peer etrs_pid false ts (begin_host req) []) as Hlast.
  destruct (login_loop _ _ _ _ _ _ _ _) as [calls [e|]] eqn:El; destruct H as (Hc & Hs & He); [|done].
  exists e. split; [done|]. split; [done|]. split.
  - intros g s. rewrite Hs. apply teardown_hangs_up.
  - intros Hfd Hlate. rewrite Hc. rewrite Hfd in El. rewrite El in Hlast. by apply (Hlast e).
Qed.

Definition sample_req : BootstrapRequest :=
  mkRequest [171] sample_key (lit "xterm") [lit "LANG=C"] (Some (lit "sleep 600")) true Auto.

(** The client connects and is lost; then the window expires, and the shell survives. *)
Definition sample_turns : list Turn :=
  [mkTurn (mkWait false None false false
     (Arrived (mkAttempt true HsDone (mkIncoming 7%nat (Some (mkRecv (sample_control sample_key) Lost)) true true [] 0 0 true []) false)))
     NotNow;
   mkTurn (mkWait false None false false WindowExpired) NotNow].

Definition sample_pty : PtyOutcome := mkPtyOutcome true true true true true true (Some 42) true false.

Lemma session_cleans_up_witness :
  let r := run_session (C := proto_codec) (B := map_builder) (fun _ => None) (Some (10%nat, true, 2%nat)) (fun _ => true) [1; 255]
    (fun _ => IpV4 [10; 0; 0; 7]) 9 (fun _ => true) sample_req sample_pty sample_turns in
  r_end r = Ended ExitWindow /\
  r_calls r = [Login (lit "10.0.0.7 via etr [9]"); Logout; Logout] /\
  followed_by (r_x11 r) (xauth_add (lit "localhost:10") (lit "01ff")) (xauth_remove (lit "localhost:10")) /\
  (42, SIGKILL) ∈ r_signals r /\ last (r_calls r) = Some Logout.
Proof.
  pose proof (session_cleans_up (C := proto_codec) (B := map_builder) (fun _ => None) (Some (10%nat, true, 2%nat)) (fun _ => true)
    [1; 255] (fun _ => IpV4 [10; 0; 0; 7]) 9 (fun _ => true) sample_req sample_pty sample_turns) as H. cbv zeta in H |- *.
  destruct H as (Hx & _ & Hrest); [vm_compute; discriminate|].
  destruct Hrest as (e & He & _ & Hsig & Hlog).
  split; [vm_compute; reflexivity|]. split; [vm_compute; reflexivity|]. split; [apply Hx|].
  split; [apply Hsig; split; [reflexivity|]; split; [reflexivity|]; right; split; [reflexivity|done]|].
  apply Hlog; vm_compute; reflexivity.
Defined.

(** No handler for SIGTERM: the shell goes on without anybody who would hang it up. *)
Example shell_left_running :
  let r := run_session (C := proto_codec) (B := map_builder) (fun _ => None) None (fun _ => true) []
    (fun _ => IpV4 [10; 0; 0; 7]) 9 (fun _ => true) sample_req
    (mkPtyOutcome true true true true true false (Some 42) true false) [] in
  (r_signals r, r_shell r, r_end r) = ([], LeftRunning [Logout], SetupFailed).
Proof. reflexivity. Qed.
