(* ===== verification/ShellExit.v ===== *)
(** The end of a session whose shell exits: the watcher of [run_session]
    ([src/bin/etrs.rs]) puts a [Disconnect] on the control stream, which reaches the
    client independently of the terminal stream of [Link].

    [e_watcher] is how far the watcher is, of which [shell_exit_rx] shows the last
    step only; [e_queue] tells whether the control channel of the current connection
    holds the [Disconnect], [e_wire] whether it is under way to the client, and
    [e_over] that the client has read it and ended. *)
From S2P Require Import Prelude Text Protocol Stream Session Link LinkSpec.

Open Scope Z_scope.
Open Scope list_scope.

Inductive Watcher : Type :=
| InWait       (* in [child.wait()] *)
| Notified     (* the [Disconnect] is given to the connection, if there is one *)
| Signalled.   (* [shell_exit_tx] is true *)

#[export] Instance Watcher_eq_dec : EqDecision Watcher.
Proof. solve_decision. Defined.

Record Ending : Type := mkEnding {
  e_world : World;
  e_watcher : Watcher;
  e_queue : bool;
  e_wire : bool;
  e_over : bool
}.

Inductive ending_label : Type :=
| LinkStep (l : label)
| ExitNotify         (* [child.wait()] has returned *)
| ExitSignal
| WriteDisconnect    (* the server's control writer *)
| ReadDisconnect.    (* the client's control reader *)

(** What a step of the relay does to the control stream: a new connection has a
    channel of its own, in which a [Disconnect] is queued at once when the shell is
    gone; a dropped one takes it along. *)
Definition control_queue (l : label) (e : Ending) : bool :=
  match l with ServerDrop => false | ServerOutbound => bool_decide (e_watcher e = Signalled) | _ => e_queue e end.

Definition control_wire (l : label) (e : Ending) : bool :=
  match l with Connect | ClientDrop => false | _ => e_wire e end.

Definition step_ending (l : ending_label) (e : Ending) : option Ending :=
  if e_over e then None
  else match l with
  | LinkStep l =>
    match step l (e_world e) with
    | Some w => Some (mkEnding w (e_watcher e) (control_queue l e) (control_wire l e) false)
    | None => None
    end
  | ExitNotify =>
    match e_watcher e with
    | InWait =>
      Some (mkEnding (e_world e) Notified (e_queue e || outbound_set (s_phase (sv (e_world e)))) (e_wire e) false)
    | _ => None
    end
  | ExitSignal =>
    match e_watcher e with
    | Notified => Some (mkEnding (e_world e) Signalled (e_queue e) (e_wire e) false)
    | _ => None
    end
  | WriteDisconnect =>
    match s_phase (sv (e_world e)) with
    | SLive =>
      if e_queue e
      then Some (mkEnding (e_world e) (e_watcher e) false (e_wire e || n_linked (net (e_world e))) false)
      else None
    | _ => None
    end
  | ReadDisconnect =>
    match c_phase (cl (e_world e)) with
    | CLive => if e_wire e then Some (mkEnding (e_world e) (e_watcher e) (e_queue e) (e_wire e) true) else None
    | _ => None
    end
  end.

Definition starting (sid : list u8) (key : str) : Ending := mkEnding (init sid key) InWait false false false.

(** Runs with a guard on the steps of the relay. *)
Fixpoint run_ending (ok : label -> World -> bool) (ls : list ending_label) (e : Ending) : option Ending :=
  match ls with
  | [] => Some e
  | l :: ls =>
    if match l with LinkStep l => ok l (e_world e) | _ => true end
    then match step_ending l e with Some e => run_ending ok ls e | None => None end
    else None
  end.

(** ** Lemmas *)

(** A [Disconnect] exists only after the shell has exited. *)
Definition ending_ok (e : Ending) : Prop :=
  (e_queue e = true -> e_watcher e <> InWait) /\ (e_wire e = true -> e_watcher e <> InWait) /\
  (e_over e = true -> e_watcher e <> InWait).

Lemma step_ending_ok l e e' : ending_ok e -> step_ending l e = Some e' -> ending_ok e'.
Proof.
  intros (Hq & Hw & Ho) Hs. unfold step_ending in Hs. destruct (e_over e) eqn:Eo; [done|].
  destruct l as [l| | | |].
  - destruct (step l (e_world e)) as [w|]; [|done]. simplify_eq. unfold ending_ok. cbn.
    split_and!; [|by destruct l|done]. destruct l; try done. cbn. intros Hs%bool_decide_eq_true. by rewrite Hs.
  - destruct (e_watcher e); [|done..]. simplify_eq. by repeat split.
  - destruct (e_watcher e); [done| |done]. simplify_eq. by repeat split.
  - destruct (s_phase _); try done. destruct (e_queue e); [|done]. simplify_eq. unfold ending_ok. cbn.
    split_and!; [done| |done]. intros _. by apply Hq.
  - destruct (c_phase _); try done. destruct (e_wire e) eqn:Ew; [|done]. simplify_eq. unfold ending_ok. cbn.
    split_and!; [done|done|]. intros _. by apply Hw.
Qed.

Lemma step_ending_world l e e' :
  step_ending l e = Some e' ->
  match l with LinkStep l => step l (e_world e) = Some (e_world e') | _ => e_world e' = e_world e end.
Proof.
  unfold step_ending. destruct (e_over e); [done|]. destruct l; repeat case_match; try done; by intros [= <-].
Qed.

Lemma run_ending_ok ls e e' :
  ending_ok e -> out_exact (e_world e) -> run_ending output_ok ls e = Some e' ->
  ending_ok e' /\ out_exact (e_world e').
Proof.
  revert e. induction ls as [|l ls IH]; intros e He Hx Hr; cbn [run_ending] in Hr; [by simplify_eq|].
  destruct (match l with LinkStep l => _ | _ => _ end) eqn:Hok; [|done].
  destruct (step_ending l e) as [e1|] eqn:Hs; [|done]. apply (IH e1); [by eapply step_ending_ok| |done].
  apply step_ending_world in Hs. destruct l as [l| | | |]; [|by rewrite Hs..].
  destruct Hx as (k & r & Hx). by destruct (output_exact_step _ _ _ _ _ Hx Hok Hs) as (k' & r' & ?); exists k', r'.
Qed.

(** ** Properties *)

(** C33: The client ends with a clean disconnect only after the shell has exited, and
    what it has printed by then is a prefix of what the shell produced: the end can cut
    the output short (see [output_cut_off]), but not mix it up. This is for runs whose
    relay steps keep [output_ok]: the server's 4 MiB history never overflows and the
    sequence numbers do not run out; at every handshake no recorded chunk waits to be
    queued when it begins, the PTY produces nothing between [collect_replays] and the
    queueing of the replays, and the replays are at most the 1000 chunks that the
    outgoing channel holds; standard output keeps up with its channel, and the client
    drops a connection only when nothing waits there. *)
Theorem clean_end sid key ls e :
  run_ending output_ok ls (starting sid key) = Some e ->
  (e_over e = true -> e_watcher e <> InWait) /\
  printed (tr (e_world e)) `prefix_of` produced (tr (e_world e)).
Proof.
  intros Hr. apply run_ending_ok in Hr as [(_ & _ & Ho) (k & r & Hx)].
  - split; [done|]. destruct (exact_produced _ _ _ Hx) as [q Hq]. by eexists.
  - by repeat split.
  - exists 0%nat, 0%nat. apply output_exact_init.
Qed.

(** A command that prints one chunk and exits. *)
Definition one_chunk : list ending_label :=
  map LinkStep [Connect; ServerOpen; ServerOutbound; ServerQueue; ClientAccept; ServerPty;
                ServerRecord [104; 105]; ServerForward] ++
  [ExitNotify; ExitSignal].

Lemma clean_end_witness :
  exists e, run_ending output_ok (one_chunk ++ map LinkStep [ServerWrite; ClientRead; Stdout] ++
      [WriteDisconnect; ReadDisconnect]) (starting [] []) = Some e /\
    e_over e = true /\ e_watcher e = Signalled /\ printed (tr (e_world e)) = [[104; 105]].
Proof.
  destruct (run_ending output_ok (one_chunk ++ map LinkStep [ServerWrite; ClientRead; Stdout] ++
      [WriteDisconnect; ReadDisconnect]) (starting [] [])) as [e|] eqn:Hr; [|vm_compute in Hr; discriminate].
  exists e. split; [reflexivity|]. pose proof (proj2 (clean_end [] [] _ e Hr)) as [q Hq].
  vm_compute in Hr. injection Hr as <-. split; [reflexivity|]. split; reflexivity.
Defined.

(** The output of a command can be cut off although nothing failed: the
    [Disconnect] is not ordered after the output, so the client can end cleanly
    while the whole output of the command waits in the server's channel, on the
    wire, or in the client's own channel to standard output. *)
Theorem output_cut_off :
  (exists e, run_ending link_ok (one_chunk ++ [WriteDisconnect; ReadDisconnect]) (starting [] []) = Some e /\
     e_over e = true /\ printed (tr (e_world e)) = [] /\ s_ob (sv (e_world e)) = [(1, [104; 105])]) /\
  (exists e, run_ending link_ok (one_chunk ++ LinkStep ServerWrite :: [WriteDisconnect; ReadDisconnect])
       (starting [] []) = Some e /\
     e_over e = true /\ printed (tr (e_world e)) = [] /\ n_down (net (e_world e)) = [(1, [104; 105])]) /\
  (exists e, run_ending link_ok (one_chunk ++ map LinkStep [ServerWrite; ClientRead] ++
       [WriteDisconnect; ReadDisconnect]) (starting [] []) = Some e /\
     e_over e = true /\ printed (tr (e_world e)) = [] /\ c_stdout (cl (e_world e)) = [[104; 105]]).
Proof.
  split; [|split]; (eexists; split; [vm_compute; reflexivity|by vm_compute]).
Qed.

(** ** A missed [Disconnect] *)

(** Nothing on the control stream, and nothing that would put it there. *)
Definition missed (e : Ending) : Prop :=
  e_watcher e = Signalled /\ s_phase (sv (e_world e)) = SLive /\ e_queue e = false /\ e_wire e = false /\
  e_over e = false.

Definition keeps_connection (l : ending_label) : bool :=
  match l with LinkStep ServerDrop => false | _ => true end.

Lemma live_stays l w w' :
  s_phase (sv w) = SLive -> step l w = Some w' -> l <> ServerDrop ->
  s_phase (sv w') = SLive /\ l <> ServerOutbound.
Proof.
  intros Hp Hs Hl. split; [|by intros ->; world_step w Hs].
  destruct l; try done; world_step w Hs; done.
Qed.

Lemma missed_step l e e' : missed e -> keeps_connection l = true -> step_ending l e = Some e' -> missed e'.
Proof.
  intros (Hwa & Hp & Hq & Hw & Ho) Hk Hs. unfold step_ending in Hs. rewrite Ho, Hwa, Hp, Hq, Hw in Hs.
  destruct l as [l| | | |]; try done; [|by destruct (c_phase _)].
  destruct (step l (e_world e)) as [w|] eqn:Hst; [|done]. simplify_eq.
  destruct (live_stays _ _ _ Hp Hst) as [Hp' Hl']; [by intros ->|].
  split_and!; cbn; try done; by destruct l.
Qed.

(** The shell exits while a connection is being set up: the watcher finds no
    connection, the connection finds the shell alive, and the client is never told
    that the session is over; it stays in it until the connection is lost. *)
Theorem disconnect_missed :
  exists e, run_ending link_ok
      (map LinkStep [Connect; ServerOpen] ++ ExitNotify ::
       map LinkStep [ServerOutbound] ++ ExitSignal :: map LinkStep [ServerQueue; ClientAccept; ServerPty])
      (starting [] []) = Some e /\
    forall ls e', forallb keeps_connection ls = true -> run_ending (fun _ _ => true) ls e = Some e' ->
      e_over e' = false.
Proof.
  eexists. split; [vm_compute; reflexivity|]. intros ls e'.
  match goal with |- context [run_ending _ ls ?e = _] => assert (missed e) as He by (by repeat split); revert He;
    generalize e end. induction ls as [|l ls IH]; intros e He Hk Hr; cbn [run_ending forallb] in *.
  - simplify_eq. apply He.
  - apply andb_true_iff in Hk as [Hl Hk]. destruct (match l with LinkStep _ => true | _ => true end); [|done].
    destruct (step_ending l e) as [e1|] eqn:Hs; [|done]. exact (IH e1 (missed_step _ _ _ He Hl Hs) Hk Hr).
Qed.
