(* ===== verification/Control.v ===== *)
(** The client's control sender: the size of the terminal at the start and after
    each SIGWINCH, and the acknowledgements every five seconds (the resize and
    heartbeat tasks of [run_session] of [src/bin/etr.rs]), up to what the server's
    control reader does with them. *)
From S2P Require Import Prelude Text Protocol Stream Session Utf8 Proto Quic Link Connection.

Open Scope Z_scope.
Open Scope list_scope.

(** ** State *)

(** [crossterm::terminal::size]: columns and rows. *)
Definition size : Type := u16 * u16.

Definition RESIZE_CAP : nat := 4.

Record CtrlSender : Type := mkCtrl {
  resize_rx : list size;         (* the [resize_tx] channel *)
  ctrl_send : SendStream;
  failed : bool                  (* the task has ended with an error *)
}.

Definition resize_of (s : size) : TerminalResize := mkTerminalResize (snd s) (fst s).

Definition resize_env (s : size) : Envelope := mkEnvelope (Some (PTerminalResize (resize_of s))).

Definition heartbeat_env (st : SessionState) : Envelope :=
  mkEnvelope (Some (PHeartbeat (mkHeartbeat (last_received_map st)))).

(** ** Steps *)

(** A signal with the size read after it ([None] when that fails); a tick of the
    interval with the session at that moment; the reception of a queued size; and
    the loss of the stream. *)
Inductive ctrl_label : Type :=
| Winch (s : option size)
| Tick (st : SessionState)
| RecvResize
| StreamLost.

Section Control.
Context {C : EnvelopeCodec}.

Definition ctrl_write (env : Envelope) (rx : list size) (s : SendStream) : CtrlSender :=
  match write_msg env s with
  | Ok s => mkCtrl rx s false
  | Err _ => mkCtrl rx s true
  end.

(** The task up to its loop. *)
Definition start_ctrl (initial : option size) (s : SendStream) : CtrlSender :=
  match initial with Some sz => ctrl_write (resize_env sz) [] s | None => mkCtrl [] s false end.

Definition step_ctrl (l : ctrl_label) (t : CtrlSender) : option CtrlSender :=
  match l with
  | Winch None => Some t
  | Winch (Some sz) =>
    if failed t then Some t else Some (mkCtrl (try_send RESIZE_CAP sz (resize_rx t)) (ctrl_send t) false)
  | Tick st =>
    if failed t then None else Some (ctrl_write (heartbeat_env st) (resize_rx t) (ctrl_send t))
  | RecvResize =>
    if failed t then None
    else match resize_rx t with
    | [] => None
    | sz :: rx => Some (ctrl_write (resize_env sz) rx (ctrl_send t))
    end
  | StreamLost => Some (mkCtrl (resize_rx t) (mkSend (written (ctrl_send t)) false) (failed t))
  end.

Fixpoint run_ctrl (ls : list ctrl_label) (t : CtrlSender) : option CtrlSender :=
  match ls with
  | [] => Some t
  | l :: ls => match step_ctrl l t with Some t => run_ctrl ls t | None => None end
  end.

(** ** What the user did *)

Definition window_sizes (ls : list ctrl_label) : list size :=
  omap (fun l => match l with Winch s => s | _ => None end) ls.

(** The channel has room whenever a size arrives. *)
Fixpoint keeps_up (ls : list ctrl_label) (t : CtrlSender) : Prop :=
  match ls with
  | [] => True
  | l :: ls =>
    match l with Winch (Some _) => failed t = false /\ (length (resize_rx t) < RESIZE_CAP)%nat | _ => True end /\
    match step_ctrl l t with Some t => keeps_up ls t | None => True end
  end.

(** The sizes among the messages, as the PTY gets them: rows and columns. *)
Definition pty_size (s : size) : u16 * u16 := (wrap 16 (snd s), wrap 16 (fst s)).

Definition sizes_of (ms : list Envelope) : list (u16 * u16) :=
  omap (fun m => match payload m with
                 | Some (PTerminalResize tr) => Some (wrap 16 (rows tr), wrap 16 (cols tr))
                 | _ => None end) ms.

(** A message of this task that can be sent. *)
Definition is_ctrl (m : Envelope) : Prop :=
  msg_ok m /\ ((exists s, m = resize_env s) \/ (exists st, m = heartbeat_env st)).

(** The messages that a step may lead to are not too large. *)
Definition label_ok (l : ctrl_label) : Prop :=
  match l with
  | Winch (Some s) => msg_ok (resize_env s)
  | Tick st => msg_ok (heartbeat_env st)
  | _ => True
  end.

(** ** Lemmas *)

(** The task has written the messages [ms] after [w], and [pending] sizes are due. *)
Definition ctrl_ok (w : list u8) (ms : list Envelope) (t : CtrlSender) : Prop :=
  written (ctrl_send t) = w ++ ctrl_bytes ms /\ Forall is_ctrl ms /\
  Forall (fun s => msg_ok (resize_env s)) (resize_rx t).

Lemma ctrl_bytes_snoc ms m : ctrl_bytes (ms ++ [m]) = ctrl_bytes ms ++ frame (encode m).
Proof. unfold ctrl_bytes. rewrite fmap_app, concat_app. cbn. by rewrite app_nil_r. Qed.

Lemma ctrl_write_ok w ms env rx s :
  written s = w ++ ctrl_bytes ms -> Forall is_ctrl ms -> is_ctrl env ->
  Forall (fun s => msg_ok (resize_env s)) rx ->
  exists sent, ctrl_ok w (ms ++ sent) (ctrl_write env rx s) /\ resize_rx (ctrl_write env rx s) = rx /\
    (failed (ctrl_write env rx s) = false -> sent = [env]) /\ (sent = [env] \/ sent = []).
Proof.
  intros Hw Hms He Hrx. unfold ctrl_write, write_msg, write_framed, write_all.
  destruct (connected s).
  - exists [env]. split; [|by split_and!; auto]. split; cbn [ctrl_send written].
    + by rewrite Hw, ctrl_bytes_snoc, app_assoc.
    + split; [|done]. apply Forall_app. by rewrite Forall_singleton.
  - exists []. rewrite app_nil_r. split; [by split|]. by split_and!; auto.
Qed.

Lemma sizes_of_app a b : sizes_of (a ++ b) = sizes_of a ++ sizes_of b.
Proof. apply omap_app. Qed.

(** One step: what is written and what is due, after what was. *)
Lemma step_ctrl_ok w ms l t t' :
  ctrl_ok w ms t -> label_ok l -> step_ctrl l t = Some t' ->
  exists sent, ctrl_ok w (ms ++ sent) t' /\
    sizes_of sent ++ map pty_size (resize_rx t') `sublist_of`
      map pty_size (resize_rx t) ++ map pty_size (window_sizes [l]) /\
    (failed t' = false -> keeps_up [l] t ->
     sizes_of sent ++ map pty_size (resize_rx t') = map pty_size (resize_rx t) ++ map pty_size (window_sizes [l])).
Proof.
  intros (Hw & Hms & Hrx) Hlab Hs. destruct l as [[sz|]|st| |]; cbn [label_ok step_ctrl window_sizes omap list_omap map] in *.
  - exists []. destruct (failed t) eqn:Ef; injection Hs as <-; rewrite ?app_nil_r; cbn [sizes_of omap list_omap app].
    { split; [by split|]. split; [by apply sublist_inserts_r|]. intros _ [[? _] _]. congruence. }
    unfold ctrl_ok. cbn [ctrl_send resize_rx failed]. unfold try_send.
    destruct (Nat.ltb_spec (length (resize_rx t)) RESIZE_CAP) as [Hl|Hl].
    + rewrite map_app, Forall_app, Forall_singleton. by split.
    + split; [done|]. split; [by apply sublist_inserts_r|]. intros _ [[_ ?] _]. lia.
  - exists []. injection Hs as <-. rewrite !app_nil_r. by split.
  - destruct (failed t) eqn:Ef; [done|]. injection Hs as <-.
    destruct (ctrl_write_ok w ms (heartbeat_env st) (resize_rx t) (ctrl_send t) Hw Hms) as (sent & Hok & Hq & _ & Hsent);
      [split; [done|right; by eexists]|done|].
    exists sent. rewrite Hq, app_nil_r. split; [done|]. by destruct Hsent as [-> | ->].
  - destruct (failed t) eqn:Ef; [done|]. destruct (resize_rx t) as [|sz rx]; [done|]. injection Hs as <-.
    destruct (ctrl_write_ok w ms (resize_env sz) rx (ctrl_send t) Hw Hms) as (sent & Hok & Hq & Hall & Hsent);
      [split; [by apply Forall_cons in Hrx as [? _]|left; by eexists]|by apply Forall_cons in Hrx as [_ ?]|].
    exists sent. rewrite Hq, app_nil_r. split; [done|]. split.
    + destruct Hsent as [-> | ->]; cbn; [done|]. by apply sublist_cons.
    + intros Hf _. by rewrite (Hall Hf).
  - exists []. injection Hs as <-. rewrite !app_nil_r. by split.
Qed.

Lemma window_sizes_cons l ls : window_sizes (l :: ls) = window_sizes [l] ++ window_sizes ls.
Proof. unfold window_sizes. cbn [omap list_omap]. by destruct l as [[]| | |]. Qed.

Lemma failed_stays ls t t' : run_ctrl ls t = Some t' -> failed t' = false -> failed t = false.
Proof.
  revert t. induction ls as [|l ls IH]; intros t; cbn [run_ctrl]; [by intros [= ->]|].
  destruct (step_ctrl l t) as [t1|] eqn:Es; [|done]. intros Hr Hf. specialize (IH _ Hr Hf).
  destruct (failed t) eqn:Ef; [|done]. destruct l as [[sz|]|st| |]; cbn [step_ctrl] in Es;
    rewrite ?Ef in Es; simplify_eq/=; congruence.
Qed.

Lemma run_ctrl_ok w ms ls t t' :
  ctrl_ok w ms t -> Forall label_ok ls -> run_ctrl ls t = Some t' ->
  exists sent, ctrl_ok w (ms ++ sent) t' /\
    sizes_of sent ++ map pty_size (resize_rx t') `sublist_of`
      map pty_size (resize_rx t) ++ map pty_size (window_sizes ls) /\
    (failed t' = false -> keeps_up ls t ->
     sizes_of sent ++ map pty_size (resize_rx t') = map pty_size (resize_rx t) ++ map pty_size (window_sizes ls)).
Proof.
  revert ms t. induction ls as [|l ls IH]; intros ms t Ht Hlab Hr; cbn [run_ctrl] in Hr.
  { simplify_eq. exists []. rewrite !app_nil_r. by split. }
  destruct (step_ctrl l t) as [t1|] eqn:Es; [|done].
  apply Forall_cons in Hlab as [Hl Hlab].
  destruct (step_ctrl_ok _ _ _ _ _ Ht Hl Es) as (s1 & Ht1 & Hsub1 & Heq1).
  destruct (IH _ _ Ht1 Hlab Hr) as (s2 & Ht2 & Hsub2 & Heq2). exists (s1 ++ s2).
  rewrite app_assoc, sizes_of_app, window_sizes_cons, map_app. split; [done|]. split.
  - rewrite <- app_assoc. etrans; [apply sublist_app; [reflexivity|exact Hsub2]|].
    rewrite !app_assoc. apply sublist_app; [done|reflexivity].
  - intros Hf Hk. cbn [keeps_up] in Hk. rewrite Es in Hk. destruct Hk as [Hk1 Hk2].
    rewrite <- app_assoc, (Heq2 Hf Hk2), !app_assoc. f_equal. apply Heq1; [by eapply failed_stays|].
    cbn [keeps_up]. rewrite Es. by split.
Qed.

(** What the server's control reader makes of it. *)
Lemma ctrl_effect_sizes ms h :
  Forall is_ctrl ms -> h_sizes (fold_left ctrl_effect ms h) = h_sizes h ++ sizes_of ms.
Proof.
  intros Hms. revert h. induction Hms as [|m ms Hm Hms IH]; intros h; cbn [fold_left]; [by rewrite app_nil_r|].
  rewrite IH. unfold sizes_of. cbn [omap list_omap]. destruct Hm as [_ [[s ->]|[st ->]]]; cbn; [|done].
  by rewrite <- app_assoc.
Qed.

Lemma is_ctrl_open m : is_ctrl m -> is_disconnect m = false.
Proof. by intros [_ [[s ->]|[st ->]]]. Qed.
End Control.

(** ** Properties *)

(** C34: The window size reaches the PTY: what the client's control sender writes is
    read by the server, message by message; the sizes that the PTY is given and
    those that still wait are, in order, the initial size and the sizes after each
    SIGWINCH, none twice; and all of them while the task keeps up, so that the PTY
    ends with the size of the user's terminal. *)
Theorem sizes_reach_the_pty {C : EnvelopeCodec} {L : LawfulCodec C} initial ls t h e :
  Forall label_ok (Winch initial :: ls) ->
  run_ctrl ls (start_ctrl initial (mkSend [] true)) = Some t ->
  exists n h',
    ctrl_reader n (mkRecv (written (ctrl_send t)) e) h = (None, h') /\
    h_sizes h' ++ map pty_size (resize_rx t) `sublist_of`
      h_sizes h ++ map pty_size (option_list initial ++ window_sizes ls) /\
    (failed t = false -> keeps_up ls (start_ctrl initial (mkSend [] true)) ->
     h_sizes h' ++ map pty_size (resize_rx t) = h_sizes h ++ map pty_size (option_list initial ++ window_sizes ls)).
Proof.
  intros [Hi Hls]%Forall_cons Hr. set (ms0 := match initial with Some s => [resize_env s] | None => [] end).
  assert (ctrl_ok [] ms0 (start_ctrl initial (mkSend [] true)) /\ resize_rx (start_ctrl initial (mkSend [] true)) = [])
    as [Hs0 Hrx0].
  { destruct initial as [s|]; cbn; [|by repeat split]. split; [|done]. split; [|split; [|constructor]].
    - unfold ctrl_bytes. cbn. by rewrite app_nil_r.
    - apply Forall_singleton. split; [exact Hi|left; by eexists]. }
  destruct (run_ctrl_ok _ _ _ _ _ Hs0 Hls Hr) as (sent & (Hw & Hms & _) & Hsub & Heq). rewrite Hrx0 in Hsub, Heq.
  exists (length (ms0 ++ sent)), (fold_left ctrl_effect (ms0 ++ sent) h).
  assert (sizes_of ms0 = map pty_size (option_list initial)) as H0 by (by destruct initial).
  split; [|split].
  - rewrite Hw. cbn [app]. pose proof (ctrl_reader_app 0 (ms0 ++ sent) [] e h) as Hrd.
    rewrite Nat.add_0_r, app_nil_r in Hrd. rewrite Hrd; [done|].
    eapply Forall_impl; [exact Hms|]. intros m Hm. split; [apply Hm|by apply is_ctrl_open].
  - rewrite ctrl_effect_sizes, sizes_of_app, H0, map_app by done. rewrite <- !app_assoc.
    do 2 (apply sublist_app; [reflexivity|]). done.
  - intros Hf Hk. rewrite ctrl_effect_sizes, sizes_of_app, H0, map_app by done. rewrite <- !app_assoc.
    by rewrite (Heq Hf Hk).
Qed.

Definition sample_ctrl : list ctrl_label :=
  [Winch (Some (100, 30)); Tick (new_session [] []); Winch None; Winch (Some (120, 40)); RecvResize; StreamLost;
   Winch (Some (90, 20))].

Lemma sizes_reach_the_pty_witness :
  exists t n h', run_ctrl (C := proto_codec) sample_ctrl (start_ctrl (C := proto_codec) (Some (80, 24)) (mkSend [] true)) = Some t /\
    ctrl_reader (C := proto_codec) n (mkRecv (written (ctrl_send t)) Lost) (new_host [] []) = (None, h') /\
    h_sizes h' ++ map pty_size (resize_rx t) = [(24, 80); (30, 100); (40, 120); (20, 90)].
Proof.
  destruct (run_ctrl (C := proto_codec) sample_ctrl (start_ctrl (C := proto_codec) (Some (80, 24)) (mkSend [] true)))
    as [t|] eqn:Hr; [|vm_compute in Hr; discriminate].
  destruct (sizes_reach_the_pty (C := proto_codec) (L := proto_codec_lawful) (Some (80, 24)) sample_ctrl t (new_host [] []) Lost)
    as (n & h' & Hrd & _ & Heq).
  - unfold sample_ctrl. repeat (constructor; [first [exact I|small_msg]|]). constructor.
  - exact Hr.
  - exists t, n, h'. split; [reflexivity|]. split; [exact Hrd|].
    rewrite Heq; [vm_compute; reflexivity|vm_compute in Hr; injection Hr as <-; reflexivity|].
    vm_compute. repeat split; repeat constructor.
Defined.

(** A fifth size that arrives before the task takes the first is dropped, although
    it is the newest: the PTY keeps a size that the terminal no longer has. *)
Example newest_size_dropped :
  let sizes := [(1, 1); (2, 2); (3, 3); (4, 4); (5, 5)] in
  option_map resize_rx (run_ctrl (C := proto_codec) (map (fun s => Winch (Some s)) sizes)
    (start_ctrl (C := proto_codec) None (mkSend [] true))) = Some [(1, 1); (2, 2); (3, 3); (4, 4)].
Proof. reflexivity. Qed.
