(* ===== verification/ClientStart.v ===== *)
(** The client from its options to the first message of its session: [main] and the
    beginning of [run_connection_loop] and [run_session] ([src/bin/etr.rs]), the
    paths of configuration and logs ([src/config.rs] and both binaries), and the
    whole way from the user's options to a session that the server lets in. *)
From S2P Require Import Prelude Text Protocol Stream Session Utf8 Proto Quic Ip Addrfam Forward X11 Bootstrap Connection Config Settings ServerStart.

Open Scope Z_scope.
Open Scope list_scope.

(** ** Paths *)

(** [Path::join]. *)
Definition path_join (base path : str) : str :=
  if starts_with [SLASH] path then path
  else match last base with
  | None => path
  | Some c => if c =? SLASH then base ++ path else base ++ [SLASH] ++ path
  end.

Section Paths.
(** The [dirs] crate, and the temporary directory with its canonical form. *)
Context (config_dir home_dir state_dir : option str) (temp_dir : str) (canonicalize : str -> option str) (euid : Z).

Definition config_path : str :=
  path_join (path_join
    (match config_dir with
     | Some d => d
     | None => path_join (default (lit ".") home_dir) (lit ".config")
     end) (lit "etr")) (lit "config.toml").

Definition fallback_tmp_state_dir : str :=
  path_join (default temp_dir (canonicalize temp_dir)) (lit "etr-" ++ dec euid).

Definition state_log_path (file : str) : str :=
  path_join
    (match (match state_dir with Some d => Some d | None => (fun h => path_join h (lit ".local/state")) <$> home_dir end) with
     | Some d => path_join d (lit "etr")
     | None => fallback_tmp_state_dir
     end) file.

Definition client_log_path : str := state_log_path (lit "etr.log").
Definition session_log_path : str := state_log_path (lit "etrs.log").
End Paths.

(** ** The modes before a session *)

Record Modes : Type := mkModes {
  completions : bool;
  generate_config : bool;
  write_config : option str;
  wants_merge : bool;
  log_path : option str
}.

(** The file system as [main] meets it: the content of the configuration file, if
    it exists, and the errors of creating the directories above a file and of
    writing it. *)
Record Files : Type := mkFiles {
  file_content : str -> option (result str ErrorKind);
  make_parents : str -> option ErrorKind;
  write_error : str -> option ErrorKind
}.

Inductive early : Type :=
| Output (text : str)               (* to standard output *)
| Wrote (path content : str)
| Unchanged
| EarlyError (e : ErrorKind)
| GoOn (log : option str).          (* the log file that is opened *)

Section Modes.
Context (paths_config paths_log completion_script : str) (fs : Files) (stdin_is_terminal : bool).

(** [create_dir_all] of the parent, then [fs::write]. *)
Definition write_file (make : bool) (path content : str) : early :=
  match (if make then make_parents fs path else None) with
  | Some e => EarlyError e
  | None => match write_error fs path with Some e => EarlyError e | None => Wrote path content end
  end.

Definition early_modes (m : Modes) (verbose : nat) (cfg : ClientConfig) : early :=
  if completions m then Output completion_script
  else if generate_config m then Output DEFAULT_CONFIG
  else match write_config m with
  | Some path_str => write_file true (match path_str with [] => paths_config | _ => path_str end) DEFAULT_CONFIG
  | None =>
    if wants_merge m then
      match file_content fs paths_config with
      | Some (Err e) => EarlyError e
      | Some (Ok existing) =>
        match merge_config (Some existing) with
        | Some new_content => write_file false paths_config new_content
        | None => Unchanged
        end
      | None => write_file true paths_config DEFAULT_CONFIG
      end
    else if (0 <? verbose)%nat && stdin_is_terminal then
      GoOn (Some (match log_path m with Some p => p | None => default paths_log (cfg_log_path cfg) end))
    else GoOn None
  end.
End Modes.

(** ** The configuration file *)

Record Config : Type := mkConfig { client : ClientConfig; server : ServerConfig }.

Definition default_config : Config :=
  mkConfig (mkClientConfig None None None None None None None None None None None) (mkServerConfig None None).

(** [Config::load]; [from_str] is the [toml] crate's.  The warnings are left out. *)
Definition load (fs : Files) (path : str) (from_str : str -> option Config) : Config :=
  match file_content fs path with
  | Some (Ok content) => match from_str content with Some c => c | None => default_config end
  | Some (Err _) | None => default_config
  end.

(** ** To the connection *)

Record Launch : Type := mkLaunch {
  l_settings : Settings;
  l_server_addr : SocketAddr;
  l_bind_addr : str;
  l_cert : list u8;
  l_x11_proto : str;
  l_x11_cookie : list u8
}.

Inductive main_end : Type :=
| Early (e : early)
| NoSession (s : startup)          (* help, or a bad specification *)
| ExitOne                          (* [process::exit(1)] *)
| LoopError (e : ErrorKind)        (* printed; [main] returns [Ok] *)
| Connects (l : Launch).

Definition main_exit_code (e : main_end) : option Z :=
  match e with
  | Early (EarlyError _) | ExitOne => Some 1
  | Early (GoOn _) | Connects _ => None
  | Early _ | NoSession _ | LoopError _ => Some 0
  end.

Section Client.
Context (getenv : str -> option str) (lookup_host : str -> result (list SocketAddr) ErrorKind)
  (routable : SocketAddr -> bool) (xauth : list str -> option (bool * str)) (create_tmp_dir : bool) (tmp_file : str).

(** The protocol and cookie of X11; [None] ends the process. *)
Definition x11_auth (s : Settings) : outcome (option (str * list u8)) :=
  if st_x11_enabled s then
    match getenv (lit "DISPLAY") with
    | None => Ret None
    | Some disp =>
      match get_xauth_cookie_for_mode xauth create_tmp_dir tmp_file disp (st_x11_trusted s) with
      | Panic => Panic
      | Ret (Ok auth) => Ret (Some auth)
      | Ret (Err _) => Ret (Some ([], []))
      end
    end
  else Ret (Some ([], [])).

(** The beginning of [run_connection_loop]: the peer and the local address. *)
Definition peer_address (s : Settings) (port : u16) : result (SocketAddr * str) ErrorKind :=
  match resolve_preferred lookup_host routable (host_for_lookup (st_target s) ++ [COLON] ++ dec port) (st_addr_pref s) with
  | None => Err InvalidInput
  | Some a => Ok (a, if is_ipv6 a then lit "[::]:0" else lit "0.0.0.0:0")
  end.

(** [main] after the modes; [boot] is [bootstrap_ssh] with what answers it. *)
Definition client_main (available : str -> AddrPref -> bool) (boot : Settings -> outcome (result (u16 * list u8) ErrorKind))
    (cli : Cli) (cfg : ClientConfig) : outcome main_end :=
  match settings getenv available cli cfg with
  | Start s =>
    match boot s with
    | Panic => Panic
    | Ret (Err _) => Ret ExitOne
    | Ret (Ok (server_port, server_cert)) =>
      match x11_auth s with
      | Panic => Panic
      | Ret None => Ret ExitOne
      | Ret (Some (proto, cookie)) =>
        match peer_address s server_port with
        | Err e => Ret (LoopError e)
        | Ok (addr, bind) => Ret (Connects (mkLaunch s addr bind server_cert proto cookie))
        end
      end
    end
  | other => Ret (NoSession other)
  end.
End Client.

(** ** The first message *)

Definition client_session_open (session_id : list u8) (passkey : str) (l : Launch) (st : SessionState) : SessionOpen :=
  {| so_session_id := session_id;
     so_passkey := passkey;
     so_last_received_seq := last_received_map st;
     so_reverse_forwards := st_reverse_forward_specs (l_settings l);
     so_gateway_ports := st_gateway_ports (l_settings l);
     so_x11_enabled := st_x11_enabled (l_settings l);
     so_x11_auth_proto := l_x11_proto l;
     so_x11_auth_cookie := l_x11_cookie l |}.

Definition open_envelope (session_id : list u8) (passkey : str) (l : Launch) (st : SessionState) : Envelope :=
  mkEnvelope (Some (PSessionOpen (client_session_open session_id passkey l st))).

(** The control stream up to the answer. *)
Definition open_session {C : EnvelopeCodec} (session_id : list u8) (passkey : str) (l : Launch) (st : SessionState)
    (s : SendStream) : result SendStream ErrorKind :=
  match write_all [TAG_CONTROL] s with
  | Ok s => write_msg (open_envelope session_id passkey l st) s
  | Err _ => Err OtherKind
  end.

(** The answer: the server's watermarks. *)
Definition read_accept {C : EnvelopeCodec} (r : RecvStream) : result (gmap Z Z * RecvStream) ErrorKind :=
  match read_msg r with
  | Ok (Some env, r) =>
    match payload env with
    | Some (PSessionAccept sa) => Ok (sa_last_received_seq sa, r)
    | _ => Err InvalidData
    end
  | Ok (None, _) => Err UnexpectedEof
  | Err e => Err e
  end.

(** ** Lemmas *)

Lemma parse_specs_all l specs : parse_specs l = Ok specs -> Forall (fun s => is_ok (parse s) = true) l.
Proof.
  revert specs. induction l as [|s l IH]; intros specs; cbn [parse_specs]; [constructor|].
  destruct (parse s) as [spec|e] eqn:Ep; [|done]. destruct (parse_specs l) as [specs'|e]; [|done].
  intros _. constructor; [by rewrite Ep|by eapply IH].
Qed.

Lemma settings_reverse getenv available cli cfg s :
  settings getenv available cli cfg = Start s ->
  Forall (fun r => is_ok (parse r) = true) (st_reverse_forward_specs s).
Proof.
  unfold settings. destruct (cli_target cli); [|done]. destruct (parse_specs _) as [specs|]; [|done].
  destruct (parse_specs (list_option (cli_reverse_forward cli) _)) as [rspecs|] eqn:Er; [|done].
  intros [= <-]. cbn. by eapply parse_specs_all.
Qed.

Section First.
Context {C : EnvelopeCodec} {L : LawfulCodec C}.

Lemma open_session_bytes id key l st :
  open_session id key l st (mkSend [] true) =
  Ok (mkSend (TAG_CONTROL :: frame (encode (open_envelope id key l st))) true).
Proof. done. Qed.

Lemma open_session_presents id key l st i e more :
  msg_ok (open_envelope id key l st) -> i_timely i = true ->
  i_control i = Some (mkRecv (TAG_CONTROL :: frame (encode (open_envelope id key l st)) ++ more) e) ->
  presents id key i (client_session_open id key l st) (mkRecv more e).
Proof.
  intros Hok Ht Hi. unfold presents. split; [done|]. split; [|done].
  unfold control_handshake. rewrite Hi.
  assert (read_tag (mkRecv (TAG_CONTROL :: frame (encode (open_envelope id key l st)) ++ more) e) =
    Ok (TAG_CONTROL, mkRecv (frame (encode (open_envelope id key l st)) ++ more) e)) as -> by done.
  rewrite Z.eqb_refl. cbn [negb]. by rewrite read_msg_frame.
Qed.

Lemma read_accept_answer w l e :
  msg_ok (session_accept w) -> read_accept (mkRecv (frame (encode (session_accept w)) ++ l) e) = Ok (w, mkRecv l e).
Proof. intros Hok. unfold read_accept. by rewrite read_msg_frame. Qed.
End First.

(** ** Properties *)


Definition sample_launch (s : Settings) : Launch :=
  mkLaunch s (SockV4 [10; 0; 0; 7] 49152) (lit "0.0.0.0:0") [48; 130] (lit "MIT-MAGIC-COOKIE-1") [1; 2; 3].

Definition sample_first (s : Settings) : Incoming :=
  mkIncoming 3%nat
    (match open_session (C := proto_codec) (repeat 171 16) (lit "Zx9") (sample_launch s) (new_session [] [])
             (mkSend [] true) with
     | Ok w => Some (mkRecv (written w ++ []) Lost)
     | Err _ => None
     end) true true [] 0 0 false [].


(** With [-X] and no [DISPLAY] the client exits only after the server has been
    started: the server waits for it until its timeout. *)
Example display_checked_late boot port cert :
  (forall s, boot s = Ret (Ok (port, cert))) ->
  client_main (fun _ => None) (fun _ => Err OtherKind) (fun _ => true) (fun _ => None) false [] (fun _ _ => true) boot
    (mkCli (Some (lit "host")) None 0 false false None [] [] false None [] true false [])
    (mkClientConfig None None None None None None None None None None None) = Ret ExitOne.
Proof. intros Hb. unfold client_main. cbn -[settings]. vm_compute settings. cbn. by rewrite Hb. Qed.

(** A host that does not resolve ends the client with exit code 0. *)
Example unresolved_exits_clean boot port cert :
  (forall s, boot s = Ret (Ok (port, cert))) ->
  exists e, client_main (fun _ => None) (fun _ => Err OtherKind) (fun _ => true) (fun _ => None) false [] (fun _ _ => true)
    boot (mkCli (Some (lit "host")) None 0 false false None [] [] false None [] false false [])
    (mkClientConfig None None None None None None None None None None None) = Ret e /\ main_exit_code e = Some 0.
Proof.
  intros Hb. exists (LoopError InvalidInput). split; [|reflexivity]. unfold client_main. cbn -[settings]. vm_compute settings. cbn. rewrite Hb.
  reflexivity.
Qed.
