(* ===== verification/Transport.v ===== *)
(** The QUIC endpoints' configuration ([src/quic.rs]): the transport parameters, the
    server's ephemeral certificate, and the client's, which trusts exactly the
    certificate that came over ssh.

    Certificates, keys and their verification are the [rcgen], [rustls] and [quinn]
    crates'; they are a class, with the laws that their documentation states: of a
    completed handshake only what it implies, and of one that completes only that of a
    self-signed certificate with itself as the root. *)
From S2P Require Import Prelude Text Quic Addrfam Bootstrap Settings ServerStart.

Open Scope Z_scope.
Open Scope list_scope.

(** ** Transport parameters *)

Definition STREAM_RECEIVE_WINDOW : u32 := 4 * 1024 * 1024.
Definition QUINN_ASSEMBLER_CHUNK_CAP : u32 := 1024.
Definition MIN_EXPECTED_FRAME_PAYLOAD : u32 := 1200.
Definition QUINN_PROTO_FIXED : u32 * u32 * u32 := (0, 11, 18).

(** The fields that the program sets; times in milliseconds. *)
Record TransportConfig : Type := mkTransport {
  stream_receive_window : Z;
  receive_window : Z;
  send_window : Z;
  max_idle_timeout : option Z;
  keep_alive_interval : option Z
}.

Definition high_throughput_transport : TransportConfig :=
  mkTransport STREAM_RECEIVE_WINDOW (32 * 1024 * 1024) (32 * 1024 * 1024) (Some 30000) (Some 10000).

(** [VarInt::from_u32] holds them; a stream cannot exceed the connection's window;
    and an idle connection is kept alive within its timeout. *)
Lemma transport_consistent :
  let t := high_throughput_transport in
  0 <= stream_receive_window t <= U32_MAX /\ 0 <= receive_window t <= U32_MAX /\
  stream_receive_window t <= receive_window t /\
  (forall idle alive, max_idle_timeout t = Some idle -> keep_alive_interval t = Some alive -> 2 * alive < idle).
Proof. cbn zeta. split_and!; [done..|]. intros idle alive [= <-] [= <-]. done. Qed.

(** The window is one for which the reassembler's fix is needed. *)
Example window_needs_coalescing :
  QUINN_ASSEMBLER_CHUNK_CAP * MIN_EXPECTED_FRAME_PAYLOAD < STREAM_RECEIVE_WINDOW.
Proof. reflexivity. Qed.

(** ** Certificates *)

(** One end of a handshake: its certificate, the further certificates that it sends,
    and the private keys that it holds. *)
Record Peer : Type := mkPeer { p_cert : list u8; p_extra : list (list u8); p_keys : list (list u8) }.

Class TlsLib : Type := {
  entropy : Type;
  (* [generate_simple_self_signed]: the certificate and its private key *)
  simple_self_signed : list str -> entropy -> list u8 * list u8;
  (* the private key belongs to the certificate *)
  key_of : list u8 -> list u8 -> bool;
  (* the names of a certificate, and whether it is valid at a time *)
  alt_names : list u8 -> list str;
  valid_at : list u8 -> Z -> bool;
  (* the second certificate is signed with the key of the first *)
  issued : list u8 -> list u8 -> bool;
  (* [RootCertStore::add] *)
  add_root : list u8 -> bool;
  (* a handshake of a client with these roots, for a server name, at a time, against a peer *)
  handshake : list (list u8) -> str -> Z -> Peer -> bool
}.

(** There is a path from a root to the certificate, over the further ones. *)
Inductive trusted {T : TlsLib} (roots extra : list (list u8)) : list u8 -> Prop :=
| by_root root c : root ∈ roots -> issued root c = true -> trusted roots extra c
| by_extra c' c : c' ∈ extra -> trusted roots extra c' -> issued c' c = true -> trusted roots extra c.

(** [generate_self_signed_cert]. *)
Definition generate_self_signed_cert {T : TlsLib} (rng : entropy) : list u8 * list u8 :=
  simple_self_signed [lit "etr"] rng.

Class LawfulTls (T : TlsLib) : Prop := {
  self_signed_key names rng :
    key_of (simple_self_signed names rng).1 (simple_self_signed names rng).2 = true;
  self_signed_root names rng : add_root (simple_self_signed names rng).1 = true;
  (* a client whose root is the server's self-signed certificate connects to the server
     under the certificate's names, while it is valid *)
  self_signed_accepted names rng name now :
    name ∈ names -> valid_at (simple_self_signed names rng).1 now = true ->
    handshake [(simple_self_signed names rng).1] name now
      (mkPeer (simple_self_signed names rng).1 [] [(simple_self_signed names rng).2]) = true;
  (* after a handshake the peer has shown a certificate for the name with a path from a
     root, and proved with its signature that it holds the private key *)
  handshake_verified roots name now p :
    handshake roots name now p = true ->
    trusted roots (p_extra p) (p_cert p) /\ name ∈ alt_names (p_cert p) /\
    exists k, k ∈ p_keys p /\ key_of (p_cert p) k = true
}.

(** ** The two configurations *)

Record QuicServerConfig : Type := mkQuicServer {
  qs_cert : list u8;
  qs_key : list u8;
  qs_transport : TransportConfig
}.

Record QuicClientConfig : Type := mkQuicClient {
  qc_roots : list (list u8);
  qc_transport : TransportConfig
}.

Section Configs.
Context {T : TlsLib}.

(** [with_single_cert] fails when the key is not the certificate's. *)
Definition server_config (cert key_der : list u8) : result QuicServerConfig ErrorKind :=
  if key_of cert key_der then Ok (mkQuicServer cert key_der high_throughput_transport) else Err InvalidData.

(** [with_root_certificates] fails without a root. *)
Definition client_config (cert : list u8) : result QuicClientConfig ErrorKind :=
  if add_root cert then
    let roots := [] ++ [cert] in
    if bool_decide (roots = []) then Err InvalidData else Ok (mkQuicClient roots high_throughput_transport)
  else Err InvalidData.

(** The handshake of [endpoint.connect(server_addr, "etr")]. *)
Definition connects (c : QuicClientConfig) (now : Z) (p : Peer) : bool := handshake (qc_roots c) (lit "etr") now p.

(** The server as a peer. *)
Definition server_peer (s : QuicServerConfig) : Peer := mkPeer (qs_cert s) [] [qs_key s].

(** Nobody but the server has signed anything with the certificate's key. *)
Definition unforged (cert : list u8) : Prop := forall c, issued cert c = true -> c = cert.

(** ** Lemmas *)

Lemma client_config_roots cert c : client_config cert = Ok c -> qc_roots c = [cert].
Proof. unfold client_config. destruct (add_root cert); [|done]. cbn. by intros [= <-]. Qed.

(** A single root that has signed nothing but itself vouches for nothing but itself. *)
Lemma trusted_pinned cert extra c : unforged cert -> trusted [cert] extra c -> c = cert.
Proof.
  intros Hu Ht. induction Ht as [root c Hin Hi|c' c _ _ -> Hi]; [|by apply Hu].
  apply list_elem_of_singleton in Hin as ->. by apply Hu.
Qed.
End Configs.

(** ** Properties *)

(** C7: The client trusts the certificate of the server that ssh started and no other,
    at the first connection and at every later one. For an exchange over ssh that
    succeeds and a server that gets its address, under [exchange_ok] (settings that the
    client accepts; a 16-byte identifier and an alphanumeric pass key; a target that is
    not empty and does not begin with a hyphen; a TERM without slash and without white
    space at its end; entries and a command without control characters, and no entry that
    reads as another line of the request; earlier output of the remote shell without
    carriage returns that does not read as the answer nor panics its parser),
    what the client reads is the server's own certificate. The client's configuration
    has it as its only root, so that the handshake with that server completes while the
    certificate is valid; and whoever a handshake completes with, whatever further
    certificates it sends, shows that very certificate and holds its private key, as
    long as nothing else was signed with that key. *)
Theorem pinned_server {T : TlsLib} {LT : LawfulTls T} rng
    getenv available ccli ccfg s endpoint cli cfg env_tmout before id passkey port :
  let '(cert, key) := generate_self_signed_cert rng in
  exchange_ok getenv available ccli ccfg s endpoint cert before id passkey ->
  socket_addr_parse (bind_str cli (own_pref (sc_prefer_ipv4 cli) (sc_prefer_ipv6 cli) (sv_address_family cfg)))
    ≫= endpoint = Some port ->
  exists received srv cc,
    fst (exchange endpoint id passkey s cli cfg env_tmout cert before) = Ret (Ok (port, received)) /\
    server_config cert key = Ok srv /\ client_config received = Ok cc /\ qc_roots cc = [cert] /\
    forall now,
      (valid_at cert now = true -> connects cc now (server_peer srv) = true) /\
      (unforged cert -> forall p, connects cc now p = true ->
         p_cert p = cert /\ exists k, k ∈ p_keys p /\ key_of cert k = true).
Proof.
  destruct (generate_self_signed_cert rng) as [cert key] eqn:Eg. intros Hx Hb.
  pose proof (exchange_spec _ _ _ _ _ _ cli cfg env_tmout _ _ _ _ Hx) as Hex. cbn zeta in Hex. rewrite Hb in Hex.
  unfold generate_self_signed_cert in Eg.
  pose proof (self_signed_key [lit "etr"] rng) as Hk. pose proof (self_signed_root [lit "etr"] rng) as Hr.
  pose proof (self_signed_accepted [lit "etr"] rng (lit "etr")) as Ha.
  rewrite Eg in Hk, Hr, Ha. cbn [fst snd] in Hk, Hr, Ha.
  exists cert, (mkQuicServer cert key high_throughput_transport), (mkQuicClient [cert] high_throughput_transport).
  split; [by rewrite Hex|]. split; [by unfold server_config; rewrite Hk|].
  split; [by unfold client_config; rewrite Hr|]. split; [done|]. intros now. split; [by apply Ha; left|].
  intros Huf p (Ht & _ & k & Hkp & Hkk)%handshake_verified. apply trusted_pinned in Ht; [|done]. rewrite Ht in Hkk.
  split; [done|]. by exists k.
Qed.

(** ** A library with one key pair *)

Definition sample_tls_cert (names : list str) : list u8 :=
  if bool_decide (names = [lit "etr"]) then [48; 130] else [Z.pos (countable.encode names)].

Definition sample_names (cert : list u8) : list str :=
  match cert with
  | [Z.pos p] => default [] (countable.decode p)
  | _ => [lit "etr"]
  end.

Definition sample_key_of (cert key : list u8) : bool := bool_decide (key = [7]).

#[export] Instance sample_tls : TlsLib := {
  entropy := unit;
  simple_self_signed names _ := (sample_tls_cert names, [7]);
  key_of := sample_key_of;
  alt_names := sample_names;
  valid_at _ now := (0 <=? now) && (now <? 100);
  issued a b := bool_decide (a = b);
  add_root _ := true;
  handshake roots name now p :=
    bool_decide (p_cert p ∈ roots) && bool_decide (name ∈ sample_names (p_cert p)) &&
    existsb (sample_key_of (p_cert p)) (p_keys p) && (0 <=? now) && (now <? 100)
}.

Lemma sample_cert_names names : sample_names (sample_tls_cert names) = names.
Proof. unfold sample_tls_cert. case_bool_decide as H; [by rewrite H|]. cbn. by rewrite decode_encode. Qed.

#[export] Instance sample_tls_lawful : LawfulTls sample_tls.
Proof.
  split; cbn.
  - done.
  - done.
  - intros names _ name now Hn [H1 H2]%andb_true_iff. rewrite sample_cert_names.
    rewrite !bool_decide_eq_true_2 by (done || by left). by rewrite H1, H2.
  - intros roots name now p [[[[Hr Hn]%andb_true_iff Hk]%andb_true_iff _]%andb_true_iff _]%andb_true_iff.
    apply bool_decide_eq_true in Hr, Hn. apply existsb_exists in Hk as (k & Hk%list_elem_of_In & Hkk).
    split; [|split; [done|by exists k]]. eapply by_root; [done|]. by apply bool_decide_eq_true.
Qed.

Lemma pinned_server_witness :
  exists s, settings sample_getenv (fun _ _ => true) sample_cli sample_cfg = Start s /\
    exists received srv cc,
      fst (exchange sample_endpoint (repeat 171 16) (lit "Zx9") s sample_server_cli sample_server_cfg (Some (lit "90"))
        [48; 130] [lit "welcome"]) = Ret (Ok (49152, received)) /\
      server_config [48; 130] [7] = Ok srv /\ client_config received = Ok cc /\
      connects cc 50 (server_peer srv) = true /\ connects cc 50 (mkPeer [48; 130] [] [[8]]) = false.
Proof.
  destruct (settings sample_getenv (fun _ _ => true) sample_cli sample_cfg) as [|e|s] eqn:E;
    [vm_compute in E; discriminate E..|].
  exists s. split; [reflexivity|].
  destruct (pinned_server (T := sample_tls) tt sample_getenv (fun _ _ => true) sample_cli sample_cfg s sample_endpoint
    sample_server_cli sample_server_cfg (Some (lit "90")) [lit "welcome"] (repeat 171 16) (lit "Zx9") 49152
    (sample_exchange_ok s E) ltac:(vm_compute; reflexivity)) as (received & srv & cc & Hx & Hs & Hc & _ & Hall).
  destruct (Hall 50) as [Hok Hno].
  exists received, srv, cc. split_and!; [exact Hx|exact Hs|exact Hc|apply Hok; reflexivity|].
  destruct (connects cc 50 (mkPeer [48; 130] [] [[8]])) eqn:Ec; [|reflexivity].
  destruct (Hno (fun c Hc' => eq_sym (bool_decide_eq_true_1 _ Hc')) _ Ec) as [_ (k & Hk & Hkk)].
  cbn in Hk. apply list_elem_of_singleton in Hk as ->. discriminate Hkk.
Defined.
