(* ===== verification/Reconnect.v ===== *)
(** An outage, timed: the client's attempts ([run_connection_loop] of [src/bin/etr.rs]:
    two seconds between them, fifteen for each) against the server's loop ([run_session]
    of [src/bin/etrs.rs]: one connection at a time, ten seconds for its handshake, and
    the reconnect window while none is there).

    The turns that result are those of [ClientLoop] and [ServerLoop].  What the network
    does is a function of the time.  Times are in milliseconds. *)
From S2P Require Import Prelude Text Utf8 Protocol Stream Session Proto Quic Connection ServerLoop Addrfam Settings ClientStart Console ClientLoop Transport.

Open Scope Z_scope.
Open Scope list_scope.

Definition RECONNECT_DELAY : Z := 2000.
Definition CONNECT_TIMEOUT : Z := 15000.
Definition HANDSHAKE_TIMEOUT : Z := 10000.

(** After this time without a packet an end gives the connection up. *)
Definition IDLE_TIMEOUT : Z := default 0 (max_idle_timeout high_throughput_transport).

(** ** One attempt *)

(** An attempt whose connection is lost again when the client has completed the QUIC
    handshake but not yet read the server's answer to its [SessionOpen]: how the
    handshake ends at the server, the error that ends the client's session, and when
    each of them is rid of the connection, counted from its establishment. *)
Record Broken : Type := mkBroken {
  b_server : QuicHandshake;
  b_error : ErrorKind;
  b_client_after : Z;
  b_server_after : Z
}.

(** What becomes of an attempt.  Either nothing of it gets to the server, and it fails
    by itself after some time if the limit is not up before; or it gets there after a
    delay and waits in the endpoint, and needs some more time once the server has taken
    it, and may be broken then.  One that the client has given up by then occupies the
    server until its handshake fails or the server's limit is up. *)
Inductive network : Type :=
| Unreachable (fails_after : Z)
| Reaches (delay handshake stale : Z) (broken : option Broken).

(** When the client is at the top of its loop again, and since when the server waits. *)
Record Timing : Type := mkTiming { client_at : Z; server_at : Z }.

(** An attempt that reaches the server: too late, or given up by the client when the
    server takes it, or a connection. *)
Inductive crossing : Type := TooLate | GivenUp (taken : Z) | ConnectedAt (t : Z).

Definition cross (window delay handshake : Z) (s : Timing) : crossing :=
  let start := client_at s + RECONNECT_DELAY in
  if server_at s + window <=? start + delay then TooLate
  else
    let taken := Z.max (start + delay) (server_at s) in
    if (taken + handshake <? start + CONNECT_TIMEOUT) && (handshake <? HANDSHAKE_TIMEOUT) then ConnectedAt (taken + handshake)
    else GivenUp taken.

Inductive attempt_end : Type :=
| Missed (t : Timing)
| Met (at_ : Z)
| WindowOver.

Definition attempt (window : Z) (n : network) (s : Timing) : attempt_end :=
  let start := client_at s + RECONNECT_DELAY in
  match n with
  | Unreachable fails_after => Missed (mkTiming (start + Z.min fails_after CONNECT_TIMEOUT) (server_at s))
  | Reaches delay handshake stale broken =>
    match cross window delay handshake s with
    | TooLate => WindowOver
    | GivenUp taken => Missed (mkTiming (start + CONNECT_TIMEOUT) (taken + Z.min stale HANDSHAKE_TIMEOUT))
    | ConnectedAt t =>
      match broken with
      | None => Met t
      | Some b => Missed (mkTiming (t + b_client_after b) (t + b_server_after b))
      end
    end
  end.

(** ** The turns of both loops *)

Definition server_wait (h : QuicHandshake) (i : Incoming) : Wait :=
  mkWait false None false false (Arrived (mkAttempt true h i false)).

(** What the server reads from a client that does not get its answer: no stream but the
    first, since the client opens the others after it has read the answer. *)
Definition unanswered (i : Incoming) : Incoming :=
  mkIncoming (i_conn i) (i_control i) (i_timely i) (i_accept_sent i) [] (i_control_read i) (i_chunks_read i)
    (i_control_first i) (i_live i).

(** The turns of an attempt that does not get through. *)
Definition missed_turns (window : Z) (n : network) (s : Timing) (i : Incoming) : ClientTurn * list Wait :=
  match n with
  | Unreachable d => (quiet_turn (if d <? CONNECT_TIMEOUT then HandshakeFailed else ConnectTimedOut) None, [])
  | Reaches delay handshake stale broken =>
    match cross window delay handshake s, broken with
    | ConnectedAt _, Some b =>
      (quiet_turn Connected (Some (Err (b_error b))), [server_wait (b_server b) (unanswered i)])
    | _, _ =>
      (quiet_turn ConnectTimedOut None, [server_wait (if stale <? HANDSHAKE_TIMEOUT then HsError else HsTimeout) i])
    end
  end.

Inductive outage_end : Type :=
| StillOut (s : Timing)
| Back (start at_ : Z)      (* the attempt that gets through, and when *)
| Gone.

(** At most [k] attempts; [net] gives what becomes of one by the time of its start,
    [inc] what the server then reads from it. *)
Fixpoint outage (window : Z) (net : Z -> network) (inc : Z -> Incoming) (k : nat) (s : Timing)
    : list ClientTurn * list Wait * outage_end :=
  match k with
  | O => ([], [], StillOut s)
  | S k =>
    let start := client_at s + RECONNECT_DELAY in
    match attempt window (net start) s with
    | Missed s' =>
      let '(c, w) := missed_turns window (net start) s (inc start) in
      let '(cs, ws, e) := outage window net inc k s' in (c :: cs, w ++ ws, e)
    | Met t => ([], [], Back start t)
    | WindowOver => ([], [], Gone)
    end
  end.

(** ** What the server keeps *)

Section Kept.
Context {C : EnvelopeCodec} (id : list u8) (key : str) (inc : Z -> Incoming).

(** The session is trimmed by what the client says it has received, and nothing else. *)
Definition trimmed (s s' : SessionState) : Prop :=
  exists acks, Forall (fun a => exists t so r, presents id key (inc t) so r /\ a = so_last_received_seq so) acks /\
    s' = fold_left (fun s a => apply_server_acks a s) acks s.

Definition kept (h h' : Host) : Prop :=
  trimmed (h_session h) (h_session h') /\ h_listeners h ⊆ h_listeners h' /\
  h_pty_in h' = h_pty_in h /\ h_sizes h' = h_sizes h.

Lemma kept_refl h : kept h h.
Proof. split; [by exists []|done]. Qed.

Lemma kept_cleared h : kept h (clear_connection h).
Proof. split; [by exists []|done]. Qed.

Lemma kept_trans h1 h2 h3 : kept h1 h2 -> kept h2 h3 -> kept h1 h3.
Proof.
  intros ((a1 & F1 & E1) & L1 & P1 & S1) ((a2 & F2 & E2) & L2 & P2 & S2). split.
  - exists (a1 ++ a2). split; [by apply Forall_app|]. by rewrite E2, E1, fold_left_app.
  - split; [set_solver|]. by rewrite P2, S2.
Qed.

(** A broken attempt is no clean end. *)
Lemma unanswered_kept fd t h :
  let '(r, h') := handle_connection id key fd false (unanswered (inc t)) h in
  r <> Ok true /\ kept h (clear_connection h').
Proof.
  unfold handle_connection. cbn [unanswered i_timely i_control i_conn i_accept_sent i_live].
  destruct (i_timely (inc t)) eqn:Et; cbn [negb]; [|split; [done|apply kept_cleared]].
  destruct (control_handshake (i_control (inc t))) as [[so r]|e] eqn:Ec; [|split; [done|apply kept_cleared]].
  destruct (authenticate id key so) as [e|] eqn:Ea; [split; [done|apply kept_cleared]|].
  apply authenticate_None in Ea.
  assert (trimmed (h_session h) (apply_server_acks (so_last_received_seq so) (h_session h))) as Htrim.
  { exists [so_last_received_seq so]. split; [|done]. apply Forall_singleton. exists t, so, r. split; [|done]. split; [done|]. by split. }
  destruct (i_accept_sent (inc t)); cbn [negb]; [|split; [done|]; by split].
  unfold serve. cbn [unanswered i_streams dispatch fst]. split; [done|]. unfold attach.
  destruct (start_listeners _ _ _) as [st sp] eqn:El. split; [exact Htrim|]. split; [|done]. cbn.
  intros x Hx. pose proof (start_listeners_elem (so_gateway_ports so) (so_reverse_forwards so) (h_listeners h) x) as Hel.
  cbn in El. rewrite El in Hel. apply Hel. by left.
Qed.

Lemma server_turn_kept fd q t h :
  exists h', turn id key fd (server_wait q (unanswered (inc t))) h = (None, h') /\ kept h h'.
Proof.
  unfold turn, server_wait. cbn. destruct q; try by exists h; split; [|apply kept_refl].
  pose proof (unanswered_kept fd t h) as H. destruct (handle_connection _ _ _ _ _ _) as [r h'].
  destruct H as [Hr Hk]. exists (clear_connection h'). split; [|done]. by destruct r as [[]|].
Qed.
End Kept.

(** Durations are not negative, and packets do not outlive the attempt; an end that is
    left alone gives the connection up after the idle timeout, the client counting from
    its establishment and the server from whatever it still hears from the client. *)
Definition broken_ok (b : Broken) : Prop :=
  b_error b <> ConnectionAborted /\ 0 <= b_client_after b <= IDLE_TIMEOUT /\
  0 <= b_server_after b <= b_client_after b + IDLE_TIMEOUT.

Definition network_ok (n : network) : Prop :=
  match n with
  | Unreachable d => 0 <= d
  | Reaches delay handshake stale broken =>
    0 <= delay <= CONNECT_TIMEOUT /\ 0 <= handshake /\ 0 <= stale /\ from_option broken_ok True broken
  end.

(** A working network connects within five seconds, and the connection stays. *)
Definition network_good (n : network) : Prop :=
  exists delay handshake stale, n = Reaches delay handshake stale None /\
    0 <= delay /\ 0 <= handshake /\ 0 <= stale /\ delay + handshake <= 5000.

(** ** Lemmas *)

Lemma idle_timeout : IDLE_TIMEOUT = 30000.
Proof. reflexivity. Qed.

(** A turn without a session, or with one that is lost, is followed by another. *)
Lemma quiet_goes_on {X : Crossterm} q r t :
  (q = HandshakeFailed \/ q = ConnectTimedOut \/ q = Connected /\ exists e, r = Some (Err e) /\ e <> ConnectionAborted) ->
  exists t', client_turn false false (quiet_turn q r) t = (None, t').
Proof.
  intros [-> |[-> |(-> & e & -> & He)]]; unfold client_turn, turn_end; cbn; [by eexists..|].
  unfold run_in_session, after_session. cbn. rewrite bool_decide_eq_false_2 by done. by eexists.
Qed.

Lemma missed_client {X : Crossterm} window n s i t :
  network_ok n -> exists t', client_turn false false (missed_turns window n s i).1 t = (None, t').
Proof.
  intros Hn. unfold missed_turns. destruct n as [d|delay hs stale broken].
  - apply quiet_goes_on. destruct (d <? _); auto.
  - destruct (cross _ _ _ _), broken as [b|]; apply quiet_goes_on; auto.
    destruct Hn as (_ & _ & _ & He & _). cbn in *. right; right. split; [done|]. by exists (b_error b).
Qed.

Lemma missed_server {C : EnvelopeCodec} window n s inc t id key fd ws h :
  exists h', server_loop id key fd ((missed_turns window n s (inc t)).2 ++ ws) h = server_loop id key fd ws h' /\
    kept id key inc h h'.
Proof.
  unfold missed_turns. destruct n as [d|delay hs stale broken].
  { exists h. split; [done|apply kept_refl]. }
  assert (forall q, q <> HsDone -> exists h',
    server_loop id key fd ([server_wait q (inc t)] ++ ws) h = server_loop id key fd ws h' /\ kept id key inc h h') as Hq.
  { intros q Hq. exists h. split; [by destruct q|apply kept_refl]. }
  destruct (cross _ _ _ _), broken as [b|]; try (apply Hq; by destruct (stale <? _)).
  destruct (server_turn_kept id key inc fd (b_server b) t h) as (h' & Ht & Hk).
  exists h'. split; [|done]. cbn [snd app server_loop]. by rewrite Ht.
Qed.

(** Neither loop ends during an outage. *)
Lemma outage_idle {C : EnvelopeCodec} {X : Crossterm} window net inc id key fd k s t h :
  (forall t, network_ok (net t)) ->
  let '(cs, ws, _) := outage window net inc k s in
  (client_loop false false cs t).1 = None /\
  exists h', server_loop id key fd ws h = (None, O, h') /\ kept id key inc h h'.
Proof.
  intros Hok. revert s t h. induction k as [|k IH]; intros s t h; cbn [outage].
  { split; [done|]. exists h. split; [done|apply kept_refl]. }
  set (start := client_at s + RECONNECT_DELAY).
  destruct (attempt _ _ _) as [s'| |]; try (split; [done|]; exists h; split; [done|apply kept_refl]).
  destruct (missed_client window (net start) s (inc start) t (Hok start)) as [t' Ht].
  pose proof (fun ws => missed_server window (net start) s inc start id key fd ws h) as Hs.
  destruct (missed_turns _ _ _ _) as [c w]. cbn [fst snd] in *. pose proof (IH s' t') as IHs.
  destruct (outage _ _ _ _ _) as [[cs ws] e]. destruct (Hs ws) as (h1 & Hl & Hk). destruct (IHs h1) as (Hc & h2 & Hl2 & Hk2).
  split; [cbn [client_loop]; by rewrite Ht|]. exists h2. rewrite Hl. split; [done|]. by eapply kept_trans.
Qed.

Section Timed.
Context (window : Z) (net : Z -> network) (inc : Z -> Incoming).

Lemma network_good_ok n : network_good n -> network_ok n.
Proof. intros (d & hs & st & -> & H). unfold network_ok, CONNECT_TIMEOUT. cbn. lia. Qed.

Lemma cross_times delay hs s :
  0 <= delay <= CONNECT_TIMEOUT -> 0 <= hs ->
  match cross window delay hs s with
  | TooLate => server_at s + window <= client_at s + RECONNECT_DELAY + delay
  | GivenUp taken => taken = Z.max (client_at s + RECONNECT_DELAY + delay) (server_at s)
  | ConnectedAt t =>
    client_at s + RECONNECT_DELAY <= t < client_at s + RECONNECT_DELAY + CONNECT_TIMEOUT /\ server_at s <= t
  end.
Proof.
  intros Hd Hh. unfold cross. destruct (Z.leb_spec (server_at s + window) (client_at s + RECONNECT_DELAY + delay)); [done|].
  destruct (_ && _) eqn:E; [|done]. apply andb_true_iff in E as [E%Z.ltb_lt _]. lia.
Qed.

(** A client that gets through does so before its limit. *)
Lemma met_times n s t :
  network_ok n -> attempt window n s = Met t ->
  client_at s + RECONNECT_DELAY <= t < client_at s + RECONNECT_DELAY + CONNECT_TIMEOUT.
Proof.
  unfold attempt. destruct n as [|delay hs stale broken]; [done|]. intros (Hd & Hh & _).
  pose proof (cross_times delay hs s Hd Hh) as Hc. destruct (cross _ _ _ _); try done. destruct broken; [done|].
  intros [= <-]. lia.
Qed.

(** Whatever gets to the server, gets there within the limit. *)
Lemma window_times n s :
  network_ok n -> attempt window n s = WindowOver ->
  server_at s + window <= client_at s + RECONNECT_DELAY + CONNECT_TIMEOUT.
Proof.
  unfold attempt. destruct n as [|delay hs stale broken]; [done|]. intros (Hd & Hh & _).
  pose proof (cross_times delay hs s Hd Hh) as Hc. destruct (cross _ _ _ _); try done; [lia|]. by destruct broken.
Qed.

(** The times after an attempt that fails. *)
Lemma missed_times n s s' :
  network_ok n -> attempt window n s = Missed s' ->
  client_at s + RECONNECT_DELAY <= client_at s' <= client_at s + RECONNECT_DELAY + CONNECT_TIMEOUT + IDLE_TIMEOUT /\
  server_at s <= server_at s' /\
  server_at s' - client_at s' <= Z.max IDLE_TIMEOUT (server_at s - client_at s).
Proof.
  rewrite idle_timeout. unfold attempt. destruct n as [d|delay hs stale broken].
  - unfold network_ok, RECONNECT_DELAY, CONNECT_TIMEOUT. intros Hok [= <-]. cbn. lia.
  - intros (Hd & Hh & Hst & Hb). pose proof (cross_times delay hs s Hd Hh) as Hc.
    unfold RECONNECT_DELAY, CONNECT_TIMEOUT, HANDSHAKE_TIMEOUT in *.
    destruct (cross _ _ _ _) as [|taken|t]; [done|intros [= <-]; cbn; lia|].
    destruct broken as [b|]; [|done]. destruct Hb as (_ & H1 & H2). rewrite idle_timeout in H1, H2. intros [= <-]. cbn. lia.
Qed.

(** On a working network the attempt succeeds unless the server is busy for ten more
    seconds, and then the server catches up by seven. *)
Lemma good_attempt n s :
  network_good n -> client_at s + 7000 < server_at s + window ->
  match attempt window n s with
  | Missed s' =>
    10000 <= server_at s - (client_at s + RECONNECT_DELAY) /\
    client_at s' = client_at s + RECONNECT_DELAY + CONNECT_TIMEOUT /\
    server_at s' - client_at s' <= server_at s - client_at s - 7000 /\ client_at s' - server_at s' <= 5000
  | Met _ => True
  | WindowOver => False
  end.
Proof.
  intros (delay & hs & stale & -> & Hd & Hh & Hst & Hs) Hw.
  unfold attempt, cross, RECONNECT_DELAY, CONNECT_TIMEOUT, HANDSHAKE_TIMEOUT.
  destruct (Z.leb_spec (server_at s + window) (client_at s + 2000 + delay)); [lia|].
  destruct (_ && _) eqn:E; [done|]. cbn. rewrite (proj2 (Z.ltb_lt hs 10000)), andb_true_r in E by lia.
  apply Z.ltb_ge in E. lia.
Qed.

(** One attempt, then the others. *)
Lemma outage_step k s :
  outage window net inc (S k) s =
  let start := client_at s + RECONNECT_DELAY in
  match attempt window (net start) s with
  | Missed s' =>
    let '(c, w) := missed_turns window (net start) s (inc start) in
    let '(cs, ws, e) := outage window net inc k s' in (c :: cs, w ++ ws, e)
  | Met t => ([], [], Back start t)
  | WindowOver => ([], [], Gone)
  end.
Proof. done. Qed.

(** Once the network works, the client gets through at its fourth attempt at the
    latest, if the server is busy for at most 31 seconds more. *)
Lemma healed j s :
  (forall t, client_at s + RECONNECT_DELAY <= t -> network_good (net t)) -> 12000 < window ->
  client_at s + 7000 < server_at s + window ->
  server_at s - (client_at s + RECONNECT_DELAY) < 10000 + 7000 * Z.of_nat j ->
  exists cs ws start t, outage window net inc (S j) s = (cs, ws, Back start t) /\
    t < client_at s + 17000 * (Z.of_nat j + 1).
Proof.
  revert s. induction j as [|j IH]; intros s Hnet Hwin Hw Hlag;
    pose proof (Hnet _ (Z.le_refl _)) as Hn; pose proof (good_attempt _ s Hn Hw) as Hg;
    pose proof (fun t => met_times _ s t (network_good_ok _ Hn)) as Hmet;
    rewrite outage_step; cbv zeta; destruct (attempt _ _ _) as [s'|t|]; try done;
    unfold RECONNECT_DELAY, CONNECT_TIMEOUT in *.
  - lia.
  - specialize (Hmet t eq_refl). do 4 eexists. split; [done|]. lia.
  - destruct Hg as (_ & Hc & Hl & Hd). destruct (IH s') as (cs & ws & start & t & Ho & Ht); [|lia..|].
    { intros t Ht. apply Hnet. lia. }
    destruct (missed_turns _ _ _ _). rewrite Ho. do 4 eexists. split; [done|]. lia.
  - specialize (Hmet t eq_refl). do 4 eexists. split; [done|]. lia.
Qed.

(** Until then anything may happen. *)
Lemma unhealed heal limit s :
  (forall t, network_ok (net t)) -> (forall t, heal <= t -> network_good (net t)) -> 12000 < window ->
  heal <= limit -> limit + 52000 < server_at s + window ->
  client_at s <= limit + 45000 -> server_at s - client_at s <= 30000 ->
  exists k cs ws start t, outage window net inc k s = (cs, ws, Back start t) /\ t < limit + 113000.
Proof.
  intros Hok Hheal Hwin Hl.
  induction s as [s IH] using (induction_ltof1 _ (fun s => Z.to_nat (heal - client_at s))); unfold ltof in IH.
  intros Hw Hc Hlag. destruct (Z_le_gt_dec heal (client_at s + RECONNECT_DELAY)) as [Hh|Hh].
  { destruct (healed 3 s) as (cs & ws & start & t & Ho & Ht);
      [intros t Ht; apply Hheal; lia|done|lia|unfold RECONNECT_DELAY; lia|].
    exists 4%nat, cs, ws, start, t. split; [done|]. lia. }
  destruct (attempt window (net (client_at s + RECONNECT_DELAY)) s) as [s'|t|] eqn:Ea.
  - destruct (missed_times _ _ _ (Hok _) Ea) as (H1 & H2 & H3). rewrite idle_timeout in H1, H3.
    unfold RECONNECT_DELAY, CONNECT_TIMEOUT in H1, Hh.
    destruct (IH s') as (k & cs & ws & start & t & Ho & Ht); [lia..|].
    exists (S k). rewrite outage_step; cbv zeta; rewrite Ea. destruct (missed_turns _ _ _ _). rewrite Ho. by do 4 eexists.
  - pose proof (met_times _ _ _ (Hok _) Ea) as Ht. unfold RECONNECT_DELAY, CONNECT_TIMEOUT in Ht, Hh.
    exists 1%nat. rewrite outage_step; cbv zeta; rewrite Ea. do 4 eexists. split; [done|]. lia.
  - pose proof (window_times _ _ (Hok _) Ea) as Ht. unfold RECONNECT_DELAY, CONNECT_TIMEOUT in Ht, Hh. lia.
Qed.

(** The attempt that ends an outage is not broken. *)
Lemma back_unbroken k s cs ws start t :
  outage window net inc k s = (cs, ws, Back start t) -> exists d hs st, net start = Reaches d hs st None.
Proof.
  revert s cs ws. induction k as [|k IH]; intros s cs ws; [done|]. rewrite outage_step. cbv zeta.
  destruct (attempt _ _ _) as [s'|t'|] eqn:Ea; [|intros [= _ _ <- _]|done].
  - destruct (missed_turns _ _ _ _). destruct (outage _ _ _ _ s') as [[cs' ws'] e] eqn:Eo.
    intros [= _ _ ->]. by eapply IH.
  - unfold attempt in Ea. destruct (net _) as [|d hs st [b|]]; [done| |by eexists _, _, _].
    by destruct (cross _ _ _ _).
Qed.

(** Nobody gets through to a server whose window is over. *)
Lemma nobody_back k s :
  (forall t, t < server_at s + window -> exists d, net t = Unreachable d /\ 0 <= d) ->
  (forall t, network_ok (net t)) ->
  match (outage window net inc k s).2 with
  | Back _ _ => False
  | StillOut s' => server_at s' = server_at s
  | Gone => True
  end.
Proof.
  intros Hdown Hok. revert s Hdown. induction k as [|k IH]; intros s Hdown; cbn [outage]; [done|].
  specialize (Hok (client_at s + RECONNECT_DELAY)).
  destruct (Z_lt_ge_dec (client_at s + RECONNECT_DELAY) (server_at s + window)) as [Hlt|Hge].
  - destruct (Hdown _ Hlt) as (d & -> & Hd). cbn [attempt missed_turns].
    match goal with |- context [outage _ _ _ k ?s'] => specialize (IH s' Hdown); destruct (outage window net inc k s') as [[cs ws] e] end.
    exact IH.
  - unfold attempt. destruct (net _) as [d|delay hs stale broken]; cbn [network_ok] in Hok.
    + cbn [missed_turns].
      match goal with |- context [outage _ _ _ k ?s'] => specialize (IH s' Hdown); destruct (outage window net inc k s') as [[cs ws] e] end.
      exact IH.
    + unfold cross. by rewrite (proj2 (Z.leb_le _ _)) by lia.
Qed.
End Timed.

(** ** Properties *)

(** The client's first message arrives in time and can be answered. *)
Definition resumes {C : EnvelopeCodec} (id : list u8) (key : str) (l : Launch) (st : SessionState) (i : Incoming) : Prop :=
  i_timely i = true /\ i_accept_sent i = true /\
  exists more e, i_control i = Some (mkRecv (TAG_CONTROL :: frame (encode (open_envelope id key l st)) ++ more) e).

(** C8: An interactive session survives every outage that ends 52 seconds before the
    reconnect window, counted from when the server noticed the loss, and is back within
    113 seconds of its end (of the loss, if the network works already), if the window is
    longer than 12 seconds and the shell, the user and signals let the session be. Until
    the network works again it may do anything: drop all packets, let some through, delay
    them by up to 15 seconds, make the server spend its time on attempts that the client
    has given up, or break a connection again when it is established but the client has
    not read the answer to its [SessionOpen]. Assumed of the two ends is that each gives a
    dead connection up after the idle timeout (30 seconds): the server notices the loss at
    most that long after the client, and a broken attempt likewise; of the network that it
    works, that it connects within five seconds, and that on a connection that stays the
    client's [SessionOpen], within the limit of a message, arrives in time and can be
    answered. All the while neither loop ends, and the server keeps its session, from
    which it only drops what a client with the credentials says it has received; and the
    attempt that gets through, with the client's own [SessionOpen], is let in and served
    from that session. *)
Theorem outage_survived {C : EnvelopeCodec} {L : LawfulCodec C} {X : Crossterm}
    window net inc id key fd lost noticed heal h t l st :
  msg_ok (open_envelope id key l st) ->
  (forall t, network_ok (net t)) -> (forall t, heal <= t -> network_good (net t)) ->
  (forall t d hs stale, net t = Reaches d hs stale None -> resumes id key l st (inc t)) ->
  noticed <= lost + IDLE_TIMEOUT -> 12000 < window -> Z.max heal lost + 52000 < noticed + window ->
  exists k cs ws start back h1,
    outage window net inc k (mkTiming lost noticed) = (cs, ws, Back start back) /\
    back < Z.max heal lost + 113000 /\
    (client_loop false false cs t).1 = None /\
    server_loop id key fd ws h = (None, O, h1) /\ kept id key inc h h1 /\
    let so := client_session_open id key l st in
    exists r clean h', handle_connection id key fd false (inc start) h1 = (Ok clean, h') /\
      h_active_conn h' = Some (i_conn (inc start)) /\
      (clean, h') = serve (inc start) r
        (attach (i_conn (inc start)) (i_live (inc start)) false
          (collect_replays (so_last_received_seq so) (apply_server_acks (so_last_received_seq so) (h_session h1)))
          so (record_open (i_conn (inc start)) fd so h1)).
Proof.
  intros Hm Hok Hheal Hres Hnot Hwin Hw. rewrite idle_timeout in Hnot.
  destruct (unhealed window net inc heal (Z.max heal lost) (mkTiming lost noticed))
    as (k & cs & ws & start & back & Ho & Hb); [done..|cbn; lia|cbn; lia|cbn; lia|cbn; lia|].
  pose proof (outage_idle window net inc id key fd k (mkTiming lost noticed) t h Hok) as Hi. rewrite Ho in Hi.
  destruct Hi as (Hc & h1 & Hs & Hk). exists k, cs, ws, start, back, h1. do 5 (split; [done|]).
  destruct (back_unbroken _ _ _ _ _ _ _ _ _ Ho) as (d & hs & stl & Hn).
  destruct (Hres _ _ _ _ Hn) as (Ht & Ha & more & e & Hi).
  destruct (admitted_effects id key fd false _ h1 _ _ (open_session_presents id key l st _ e more Hm Ht Hi) Ha)
    as (clean & h' & Hh & Hv & Hconn & _).
  by exists (mkRecv more e), clean, h'.
Qed.

(** Down for 100 seconds, during which one attempt gets through when it is too late, and
    one is lost again after the handshake. *)
Definition sample_broken : Broken := mkBroken HsDone BrokenPipe 30000 20000.

Definition sample_net (t : Z) : network :=
  if t =? 19000 then Reaches 14000 2000 100 None
  else if t =? 36000 then Reaches 50 120 0 (Some sample_broken)
  else if t <? 100000 then Unreachable 20000 else Reaches 50 120 0 None.

Definition sample_settings : Settings :=
  mkSettings (lit "host") 22 Auto (lit "etrs") None [] [] false [] (lit "xterm") None None false false 0.

Definition sample_crossing (t : Z) : Incoming :=
  mkIncoming (Z.to_nat (t / 1000))
    (Some (mkRecv (TAG_CONTROL :: frame (@encode proto_codec (open_envelope [171] sample_key (sample_launch sample_settings)
       (new_session [] []))) ++ []) Lost)) true true [] 0 0 false [].

Example sample_outage :
  outage 1800000 sample_net sample_crossing 9 (mkTiming 0 25000) =
  (quiet_turn ConnectTimedOut None :: quiet_turn ConnectTimedOut None :: quiet_turn Connected (Some (Err BrokenPipe)) ::
     repeat (quiet_turn ConnectTimedOut None) 2,
   [server_wait HsError (sample_crossing 19000); server_wait HsDone (unanswered (sample_crossing 36000))],
   Back 102170 102340).
Proof. reflexivity. Qed.

Lemma outage_survived_witness :
  exists k cs ws start back h1,
    outage 1800000 sample_net sample_crossing k (mkTiming 0 25000) = (cs, ws, Back start back) /\
    back < 213000 /\
    server_loop (C := proto_codec) [171] sample_key true ws (new_host [171] sample_key) = (None, O, h1) /\
    exists clean h', handle_connection (C := proto_codec) [171] sample_key true false (sample_crossing start) h1 = (Ok clean, h') /\
      h_active_conn h' = Some (Z.to_nat (start / 1000)).
Proof.
  destruct (outage_survived (C := proto_codec) (L := proto_codec_lawful) (X := sample_crossterm) 1800000 sample_net
    sample_crossing [171] sample_key true 0 25000 100000 (new_host [171] sample_key) (new_terminal None)
    (sample_launch sample_settings) (new_session [] []))
    as (k & cs & ws & start & back & h1 & Ho & Hb & _ & Hs & _ & r & clean & h' & Hh & Hconn & _).
  - small_msg.
  - intros t. unfold sample_net. destruct (t =? 19000), (t =? 36000), (t <? 100000); cbn;
      unfold CONNECT_TIMEOUT, broken_ok; rewrite ?idle_timeout; cbn; repeat split; (discriminate || lia).
  - intros t Ht. unfold sample_net.
    rewrite (proj2 (Z.eqb_neq t 19000)), (proj2 (Z.eqb_neq t 36000)), (proj2 (Z.ltb_ge t 100000)) by lia.
    exists 50, 120, 0. repeat split; discriminate.
  - intros t d hs stale _. split; [reflexivity|]. split; [reflexivity|]. exists [], Lost. reflexivity.
  - discriminate.
  - reflexivity.
  - reflexivity.
  - exists k, cs, ws, start, back, h1. split; [exact Ho|]. split; [exact Hb|]. split; [exact Hs|].
    exists clean, h'. split; [exact Hh|exact Hconn].
Defined.

(** The window is kept: when nothing gets to the server for the length of the window
    after it has noticed the loss, no attempt gets through, then or later. *)
Theorem outage_too_long window net inc lost noticed k start back :
  (forall t, network_ok (net t)) ->
  (forall t, t < noticed + window -> exists d, net t = Unreachable d /\ 0 <= d) ->
  (outage window net inc k (mkTiming lost noticed)).2 <> Back start back.
Proof.
  intros Hok Hdown Hb. pose proof (nobody_back window net inc k (mkTiming lost noticed) Hdown Hok) as H.
  by rewrite Hb in H.
Qed.
