(* ===== verification/Stress.v ===== *)
(** The load generator ([tools/stress/src/main.rs]): its commands, the pacer of the
    UDP senders, and what the senders and sinks report.

    Instants and durations are nanoseconds.  Every call of [Instant::now] takes the
    next reading of a clock, a list that does not decrease (the documented behaviour
    of [Instant]); the outcomes of the socket calls and of the reads of [STOP] are
    the turns of a loop. *)
From S2P Require Import Prelude Text.
From Stdlib Require Import Sorting.Sorted.

Open Scope Z_scope.
Open Scope list_scope.

(** ** Time *)

Abbreviation Instant := Z (only parsing).
Abbreviation Duration := Z (only parsing).

Definition MICROS : Z := 1000.
Definition MILLIS : Z := 1000 * MICROS.
Definition SECS : Z := 1000 * MILLIS.
Definition DURATION_MAX : Z := U64_MAX * SECS + (SECS - 1).

Definition saturating_mul (d : Duration) (n : Z) : Duration := Z.min (d * n) DURATION_MAX.

(** ** The command line *)

Inductive Job : Type :=
| TcpEcho (port : u16)
| UdpEcho (port : u16)
| TcpPump (port : u16)
| UdpPump (port : u16) (pace_us : u64)
| TcpSink (port : u16)
| TcpSource (host : str) (port : u16) (secs : u64)
| UdpSink (port : u16)
| UdpSource (host : str) (port : u16) (secs pace_us : u64).

(** [process::exit(1)], or a job that runs. *)
Inductive Start : Type := ExitUsage | RunJob (j : Job).

(** [expect] on a number, and indexing. *)
Definition expect {A} (o : option A) : outcome A := match o with Some a => Ret a | None => Panic end.

Definition bind {A B} (o : outcome A) (f : A -> outcome B) : outcome B :=
  match o with Ret a => f a | Panic => Panic end.

Definition index (args : list str) (n : nat) : outcome str := expect (args !! n).

(** [args.get(n).and_then(|s| s.parse().ok()).unwrap_or(0)]. *)
Definition optional_u64 (args : list str) (n : nat) : u64 :=
  default 0 (args !! n ≫= parse_uint U64_MAX).

Definition is_source (cmd : str) : bool := str_eqb cmd (lit "tcp-source") || str_eqb cmd (lit "udp-source").

Definition run_command (cmd : str) (args : list str) (port : u16) : outcome Start :=
  if str_eqb cmd (lit "tcp-echo") then Ret (RunJob (TcpEcho port))
  else if str_eqb cmd (lit "udp-echo") then Ret (RunJob (UdpEcho port))
  else if str_eqb cmd (lit "tcp-pump") then Ret (RunJob (TcpPump port))
  else if str_eqb cmd (lit "udp-pump") then Ret (RunJob (UdpPump port (optional_u64 args 3)))
  else if str_eqb cmd (lit "tcp-sink") then Ret (RunJob (TcpSink port))
  else if str_eqb cmd (lit "tcp-source") then
    bind (index args 4) (fun s => bind (expect (parse_uint U64_MAX s)) (fun secs =>
      bind (index args 2) (fun host => Ret (RunJob (TcpSource host port secs)))))
  else if str_eqb cmd (lit "udp-sink") then Ret (RunJob (UdpSink port))
  else if str_eqb cmd (lit "udp-source") then
    bind (index args 4) (fun s => bind (expect (parse_uint U64_MAX s)) (fun secs =>
      bind (index args 2) (fun host => Ret (RunJob (UdpSource host port secs (optional_u64 args 5))))))
  else Ret ExitUsage.

Definition stress_main (args : list str) : outcome Start :=
  if (length args <? 3)%nat then Ret ExitUsage
  else bind (index args 1) (fun cmd =>
    if is_source cmd && (length args <? 5)%nat then Ret ExitUsage
    else bind (index args (if is_source cmd then 3 else 2)%nat) (fun p =>
      bind (expect (parse_uint U16_MAX p)) (run_command cmd args))).

(** ** The pacer *)

Definition SPIN_HORIZON : Duration := 250 * MICROS.
Definition MAX_LAG_STEPS : Z := 8.

Definition advance_deadline (current_deadline : Instant) (step : Duration) (now : Instant)
    : Instant * option Duration :=
  let target := current_deadline + step in
  if target <=? now then
    let max_lag := saturating_mul step MAX_LAG_STEPS in
    (if max_lag <? now - target then now else target, None)
  else
    let remaining := target - now in
    (target, if SPIN_HORIZON <? remaining then Some (remaining - SPIN_HORIZON) else None).

Record Pacer : Type := mkPacer { pace_step : option Duration; next_deadline : Instant }.

Definition pacer_new (pace_us : u64) (now : Instant) : Pacer :=
  mkPacer (if 0 <? pace_us then Some (pace_us * MICROS) else None) now.

(** The busy wait: the reading that ends it and those after it. *)
Fixpoint spin (deadline : Instant) (clock : list Instant) : option (Instant * list Instant) :=
  match clock with
  | [] => None
  | t :: clock => if t <? deadline then spin deadline clock else Some (t, clock)
  end.

(** [Pacer::wait]: the first and the last reading it takes, if it takes any. *)
Definition pacer_wait (p : Pacer) (clock : list Instant)
    : option (Pacer * option (Instant * Instant) * list Instant) :=
  match pace_step p with
  | None => Some (p, None, clock)
  | Some step =>
    match clock with
    | [] => None
    | now :: clock =>
      let '(target, _) := advance_deadline (next_deadline p) step now in
      (fun '(t, clock) => (mkPacer (Some step) target, Some (now, t), clock)) <$> spin target clock
    end
  end.

(** ** The UDP senders *)

Inductive SendErrorKind : Type := WouldBlock | TimedOut | OutOfMemory | ConnectionRefused | OtherSendError.

Record io_error : Type := mkIoError { err_kind : SendErrorKind; raw_os_error : option Z }.

Inductive send_result : Type := SendOk (n : Z) | SendErr (e : io_error).

Inductive loop_end : Type := NotYet | TimeOver | StopSeen | SendFailed.

(** [last] is the last reading that was taken; [sends] holds for each datagram the
    last reading before and the first one after it. *)
Record Load : Type := mkLoad {
  load_sent : u64;
  load_pacer : Pacer;
  load_last : Instant;
  load_sends : list (Instant * Instant)
}.

Definition start_load (pace_us : u64) (now : Instant) : Load := mkLoad 0 (pacer_new pace_us now) now [].

Section Sender.
Context (ENOBUFS : Z).

Definition is_transient_udp_send_error (e : io_error) : bool :=
  match err_kind e with
  | WouldBlock | OutOfMemory | ConnectionRefused => true
  | _ => bool_decide (raw_os_error e = Some ENOBUFS)
  end.

(** The loop of [udp_source], with its limit, and of [udp_pump], without: a turn is
    what [STOP] reads and what [send] gives. *)
Fixpoint paced_loop (limit : option (Instant * Duration)) (turns : list (bool * send_result))
    (clock : list Instant) (l : Load) : option (Load * loop_end) :=
  match turns with
  | [] => Some (l, NotYet)
  | (stop, r) :: turns =>
    let body clock l :=
      if stop then Some (l, StopSeen)
      else match r with
      | SendOk n =>
        match pacer_wait (load_pacer l) clock with
        | None => None
        | Some (p, readings, clock) =>
          paced_loop limit turns clock
            (mkLoad (wrap 64 (load_sent l + n)) p
               (match readings with Some (_, t) => t | None => load_last l end)
               (load_sends l ++ match readings with Some (now, _) => [(load_last l, now)] | None => [] end))
        end
      | SendErr e => if is_transient_udp_send_error e then paced_loop limit turns clock l else Some (l, SendFailed)
      end in
    match limit with
    | None => body clock l
    | Some (start, deadline) =>
      match clock with
      | [] => None
      | t :: clock =>
        let l := mkLoad (load_sent l) (load_pacer l) t (load_sends l) in
        if t - start <? deadline then body clock l else Some (l, TimeOver)
      end
    end
  end.

(** Two readings before the loop: [start], and the pacer's first deadline. *)
Definition udp_source (secs pace_us : u64) (turns : list (bool * send_result)) (clock : list Instant)
    : option (Load * loop_end) :=
  match clock with
  | start :: now :: clock => paced_loop (Some (start, secs * SECS)) turns clock (start_load pace_us now)
  | _ => None
  end.

Definition udp_pump (pace_us : u64) (turns : list (bool * send_result)) (clock : list Instant)
    : option (Load * loop_end) :=
  match clock with
  | start :: now :: clock => paced_loop None turns clock (start_load pace_us now)
  | _ => None
  end.
End Sender.

(** ** The sinks *)

Inductive read_result : Type :=
| ReadOk (n : Z) (first last : Instant)   (* with the readings that follow *)
| ReadErr (k : SendErrorKind).

Record Sink : Type := mkSink { sink_recv : u64; sink_start : option Instant; sink_last : Instant }.

Definition new_sink (now : Instant) : Sink := mkSink 0 None now.

Definition count (n : Z) (first last : Instant) (s : Sink) : Sink :=
  mkSink (wrap 64 (sink_recv s + n)) (Some (default first (sink_start s))) last.

Inductive reads_end : Type := MoreReads | ConnectionOver | SinkStopped.

(** The inner loop of [tcp_sink]. *)
Fixpoint sink_reads (reads : list (bool * read_result)) (s : Sink) : Sink * reads_end :=
  match reads with
  | [] => (s, MoreReads)
  | (stop, r) :: reads =>
    if stop then (s, SinkStopped)
    else match r with
    | ReadOk n first last => if n =? 0 then (s, ConnectionOver) else sink_reads reads (count n first last s)
    | ReadErr (WouldBlock | TimedOut) => sink_reads reads s
    | ReadErr _ => (s, ConnectionOver)
    end
  end.

Inductive accepted : Type :=
| NoConnection                                                         (* [WouldBlock] *)
| AcceptFailed
| Connection (blocking_ok : bool) (reads : list (bool * read_result)).

(** The outer loop; [true] when it has ended. *)
Fixpoint tcp_sink (turns : list (bool * accepted)) (s : Sink) : Sink * bool :=
  match turns with
  | [] => (s, false)
  | (stop, a) :: turns =>
    if stop then (s, true)
    else match a with
    | NoConnection => tcp_sink turns s
    | AcceptFailed => (s, true)
    | Connection false _ => tcp_sink turns s
    | Connection true reads =>
      match sink_reads reads s with
      | (s', MoreReads) => (s', false)
      | (s', SinkStopped) => (s', true)
      | (s', ConnectionOver) => if sink_recv s <? sink_recv s' then (s', true) else tcp_sink turns s'
      end
    end
  end.

Fixpoint udp_sink (reads : list (bool * read_result)) (s : Sink) : Sink * bool :=
  match reads with
  | [] => (s, false)
  | (stop, r) :: reads =>
    if stop then (s, true)
    else match r with
    | ReadOk n first last => udp_sink reads (count n first last s)
    | ReadErr (WouldBlock | TimedOut) => udp_sink reads s
    | ReadErr _ => (s, true)
    end
  end.

(** What the line reports as [elapsed]. *)
Definition sink_elapsed (s : Sink) : Duration :=
  match sink_start s with
  | Some t => Z.max (sink_last s - t) MILLIS
  | None => MILLIS
  end.

(** ** The TCP senders and the echo server *)

Definition TCP_CHUNK : Z := 256 * 1024.
Definition PUMP_CHUNK : Z := 65536.

(** The loop of [tcp_source]: the reading and [STOP] of each turn, and whether
    [write_all] succeeds. *)
Fixpoint tcp_source (start : Instant) (deadline : Duration) (turns : list (Instant * bool * bool)) (sent : u64) : u64 :=
  match turns with
  | [] => sent
  | (now, stop, ok) :: turns =>
    if (now - start <? deadline) && negb stop
    then if ok then tcp_source start deadline turns (wrap 64 (sent + TCP_CHUNK)) else sent
    else sent
  end.

Fixpoint tcp_pump (turns : list (bool * bool)) (sent : u64) : u64 :=
  match turns with
  | [] => sent
  | (stop, ok) :: turns =>
    if stop then sent else if ok then tcp_pump turns (wrap 64 (sent + PUMP_CHUNK)) else sent
  end.

(** [echo_tcp_conn]: the buffers that are read, each with whether it is written. *)
Fixpoint echo_tcp_conn (reads : list (list u8 * bool)) : list u8 :=
  match reads with
  | [] => []
  | ([], _) :: _ => []
  | (_, false) :: _ => []
  | (buf, true) :: reads => buf ++ echo_tcp_conn reads
  end.

(** [tcp_echo]: each incoming connection gets a thread of its own; the loop ends with
    the first that fails.  What each connection gets back. *)
Fixpoint tcp_echo (incoming : list (option (list (list u8 * bool)))) : list (list u8) :=
  match incoming with
  | Some reads :: incoming => echo_tcp_conn reads :: tcp_echo incoming
  | _ => []
  end.

(** [udp_echo], one of its two sockets: a datagram, as much of it as the buffer takes,
    goes back to where it came from; errors are passed over. *)
Definition UDP_BUF : usize := 65535.

Definition udp_echo {A} (received : list (option (A * list u8))) : list (A * list u8) :=
  omap (fun r => (fun '(addr, data) => (addr, take (Z.to_nat UDP_BUF) data)) <$> r) received.

(** At most 50 attempts; the index of the one that connects. *)
Definition CONNECT_ATTEMPTS : nat := 50.

Fixpoint first_connect (connects : nat -> bool) (attempt tries : nat) : option nat :=
  match tries with
  | O => None
  | S tries => if connects attempt then Some attempt else first_connect connects (S attempt) tries
  end.

Definition tcp_connect_with_retry (connects : nat -> bool) : option nat :=
  first_connect connects 0 CONNECT_ATTEMPTS.

(** ** Lemmas *)

(** A step of the deadline: it advances by at least one step, and falls behind the
    clock by at most [MAX_LAG_STEPS] steps. *)
Lemma advance_deadline_spec d step now :
  0 < step ->
  let '(target, sleep) := advance_deadline d step now in
  d + step <= target /\ now - MAX_LAG_STEPS * step <= target /\
  (now <= d + (1 + MAX_LAG_STEPS) * step -> target = d + step \/ DURATION_MAX < step * MAX_LAG_STEPS) /\
  (forall s, sleep = Some s -> now + s = target - SPIN_HORIZON).
Proof.
  intros Hs. unfold advance_deadline, saturating_mul, MAX_LAG_STEPS.
  destruct (Z.leb_spec (d + step) now).
  - destruct (Z.ltb_spec (Z.min (step * 8) DURATION_MAX) (now - (d + step))); split_and!; try lia; done.
  - split_and!; try lia. intros s. destruct (Z.ltb_spec SPIN_HORIZON (d + step - now)); [|done].
    intros [= <-]. lia.
Qed.

Lemma sorted_forall x (l : list Z) : Sorted Z.le (x :: l) -> Forall (Z.le x) l.
Proof. intros Hs. apply Sorted_extends in Hs; [done|]. intros a b c ? ?. lia. Qed.

Lemma spin_spec d clock t clock' x :
  spin d clock = Some (t, clock') -> Sorted Z.le (x :: clock) -> d <= t /\ x <= t /\ Sorted Z.le (t :: clock').
Proof.
  revert x. induction clock as [|y clock IH]; intros x; [done|]. cbn [spin].
  destruct (Z.ltb_spec y d).
  - intros Hsp [Hs Hx]%Sorted_inv. apply HdRel_inv in Hx. destruct (IH y Hsp Hs) as (? & ? & ?). split_and!; [done|lia|done].
  - intros [= -> ->] [Hs Hx]%Sorted_inv. apply HdRel_inv in Hx. by split_and!.
Qed.

(** The state of a paced sender between two turns; [clock] is what is left. *)
Record load_ok (begin : Instant) (step : Duration) (clock : list Instant) (l : Load) : Prop := {
  lo_step : pace_step (load_pacer l) = Some step;
  lo_due : next_deadline (load_pacer l) <= load_last l;
  lo_clock : Sorted Z.le (load_last l :: clock);
  lo_lag : forall i a b, load_sends l !! i = Some (a, b) ->
    b + (Z.of_nat (length (load_sends l)) - Z.of_nat i - 1 - MAX_LAG_STEPS) * step <= next_deadline (load_pacer l);
  lo_apart : forall i j a b a' b', load_sends l !! i = Some (a, b) -> load_sends l !! j = Some (a', b') -> (i < j)%nat ->
    b + (Z.of_nat j - Z.of_nat i - 1 - MAX_LAG_STEPS) * step <= a';
  lo_cadence :
    (forall i a b, load_sends l !! i = Some (a, b) -> b <= begin + (Z.of_nat i + 1 + MAX_LAG_STEPS) * step) ->
    next_deadline (load_pacer l) = begin + Z.of_nat (length (load_sends l)) * step
}.

Lemma load_ok_start pace_us now clock :
  0 < pace_us -> Sorted Z.le (now :: clock) -> load_ok now (pace_us * MICROS) clock (start_load pace_us now).
Proof.
  intros Hp Hs. split; try done; unfold start_load, pacer_new; cbn; [|lia].
  by rewrite (proj2 (Z.ltb_lt _ _)).
Qed.

(** Reading the clock between two sends. *)
Lemma load_ok_read begin step t clock l :
  load_ok begin step (t :: clock) l ->
  load_ok begin step clock (mkLoad (load_sent l) (load_pacer l) t (load_sends l)).
Proof.
  intros [H1 H2 H3 H4 H5 H6]. apply Sorted_inv in H3 as [H3 Hx%HdRel_inv]. split; cbn; try done. lia.
Qed.

(** A datagram that is sent, and the wait after it. *)
Lemma load_ok_send begin step clock l p now t clock' n :
  0 < step -> step * MAX_LAG_STEPS <= DURATION_MAX -> load_ok begin step clock l -> pacer_wait (load_pacer l) clock = Some (p, Some (now, t), clock') ->
  load_ok begin step clock' (mkLoad (wrap 64 (load_sent l + n)) p t (load_sends l ++ [(load_last l, now)])).
Proof.
  intros Hstep Hmax [H1 H2 H3 H4 H5 H6]. unfold MAX_LAG_STEPS in *. unfold pacer_wait. rewrite H1. destruct clock as [|now' clock]; [done|].
  pose proof (advance_deadline_spec (next_deadline (load_pacer l)) step now' Hstep) as Ha.
  unfold MAX_LAG_STEPS in Ha. destruct (advance_deadline _ _ _) as [target sleep]. destruct Ha as (Ha1 & Ha2 & Ha3 & _).
  destruct (spin target clock) as [[t' clock2]|] eqn:Hsp; [|done]. cbn. intros [= <- -> -> ->].
  apply Sorted_inv in H3 as [H3 Hx%HdRel_inv]. destruct (spin_spec _ _ _ _ _ Hsp H3) as (Ht1 & Ht2 & Ht3).
  split; cbn [load_pacer load_last load_sends pace_step next_deadline]; try done; unfold MAX_LAG_STEPS.
  - intros i a b. rewrite length_app. cbn [length]. intros [Hi|(Hle & Hi)]%lookup_app_Some.
    + specialize (H4 i a b Hi). nia.
    + destruct (i - length (load_sends l))%nat eqn:E; [|done]. cbn in Hi. simplify_eq.
      assert (i = length (load_sends l)) as -> by lia. rewrite Nat2Z.inj_add. lia.
  - intros i j a b a' b' [Hi|(Hle & Hi)]%lookup_app_Some [Hj|(Hlej & Hj)]%lookup_app_Some Hij.
    + by eapply H5.
    + destruct (j - length (load_sends l))%nat eqn:E; [|done]. cbn in Hj. simplify_eq.
      assert (j = length (load_sends l)) as -> by lia. specialize (H4 i a b Hi). nia.
    + apply lookup_lt_Some in Hj. lia.
    + destruct (i - length (load_sends l))%nat eqn:E; [|done].
      destruct (j - length (load_sends l))%nat eqn:E'; [lia|done].
  - intros Hon. rewrite length_app. cbn [length]. rewrite H6 in Ha3.
    + pose proof (Hon (length (load_sends l)) (load_last l) now) as Hnow.
      rewrite lookup_app_r, Nat.sub_diag in Hnow by lia. specialize (Hnow eq_refl).
      rewrite Nat2Z.inj_add. destruct Ha3 as [->|]; lia.
    + intros i a b Hi. apply (Hon i a b). by apply lookup_app_l_Some.
Qed.

Lemma paced_loop_ok enobufs begin step limit turns clock l l' e :
  0 < step -> step * MAX_LAG_STEPS <= DURATION_MAX -> load_ok begin step clock l -> paced_loop enobufs limit turns clock l = Some (l', e) ->
  exists clock', load_ok begin step clock' l'.
Proof.
  intros Hstep Hmax. revert clock l. induction turns as [|[stop r] turns IH]; intros clock l Hl; cbn [paced_loop].
  { intros [= <- _]. by exists clock. }
  assert (forall clock l, load_ok begin step clock l ->
    (if stop then Some (l, StopSeen)
     else match r with
     | SendOk n =>
       match pacer_wait (load_pacer l) clock with
       | None => None
       | Some (p, readings, clock) =>
         paced_loop enobufs limit turns clock
           (mkLoad (wrap 64 (load_sent l + n)) p
              (match readings with Some (_, t) => t | None => load_last l end)
              (load_sends l ++ match readings with Some (now, _) => [(load_last l, now)] | None => [] end))
       end
     | SendErr e => if is_transient_udp_send_error enobufs e then paced_loop enobufs limit turns clock l
                    else Some (l, SendFailed)
     end) = Some (l', e) -> exists clock', load_ok begin step clock' l') as Hbody.
  { clear clock l Hl. intros clock l Hl. destruct stop; [intros [= <- _]; by exists clock|].
    destruct r as [n|err].
    - destruct (pacer_wait _ _) as [[[p [[now t]|]] clock2]|] eqn:Hw; [| |done].
      + apply IH. by eapply (load_ok_send begin step clock l p now t clock2).
      + unfold pacer_wait in Hw. rewrite (lo_step _ _ _ _ Hl) in Hw. destruct clock as [|c clock]; [done|].
        destruct (advance_deadline _ _ _). by destruct (spin _ _) as [[]|].
    - destruct (is_transient_udp_send_error enobufs err); [by apply IH|]. intros [= <- _]. by exists clock. }
  destruct limit as [[start deadline]|]; [|by apply Hbody].
  destruct clock as [|t clock]; [done|]. apply load_ok_read in Hl.
  destruct (t - start <? deadline); [by apply Hbody|]. intros [= <- _]. by exists clock.
Qed.

Lemma pace_in_range pace_us :
  0 < pace_us <= U64_MAX -> 0 < pace_us * MICROS /\ pace_us * MICROS * MAX_LAG_STEPS <= DURATION_MAX.
Proof. unfold DURATION_MAX, SECS, MILLIS, MICROS, MAX_LAG_STEPS, U64_MAX. lia. Qed.

(** The data of a connection: sizes with their readings. *)
Definition data_reads (reads : list (bool * read_result)) : list (Z * Instant * Instant) :=
  omap (fun r => match r.2 with ReadOk n a b => if n =? 0 then None else Some (n, a, b) | ReadErr _ => None end) reads.

Definition total (ds : list (Z * Instant * Instant)) : Z := fold_left (fun t d => t + d.1.1) ds 0.

(** A read that leaves the connection open, without [STOP]. *)
Definition goes_on (r : bool * read_result) : bool :=
  negb r.1 && match r.2 with ReadOk n _ _ => negb (n =? 0) | ReadErr WouldBlock | ReadErr TimedOut => true | ReadErr _ => false end.

Definition closes (r : bool * read_result) : bool :=
  negb r.1 && match r.2 with ReadOk n _ _ => n =? 0 | ReadErr WouldBlock | ReadErr TimedOut => false | ReadErr _ => true end.

(** The sink after these data. *)
Definition after_data (ds : list (Z * Instant * Instant)) (s : Sink) : Sink :=
  fold_left (fun s d => count d.1.1 d.1.2 d.2 s) ds s.

Lemma sink_reads_spec reads r rest s :
  forallb goes_on reads = true -> closes r = true ->
  sink_reads (reads ++ r :: rest) s = (after_data (data_reads reads) s, ConnectionOver).
Proof.
  revert s. induction reads as [|[stop x] reads IH]; intros s Hg Hc.
  - destruct r as [[] [n a b|k]]; try done; unfold closes in Hc; cbn in Hc |- *; [by rewrite Hc|by destruct k].
  - cbn [forallb] in Hg. apply andb_true_iff in Hg as [Hg Hgs].
    destruct stop, x as [n a b|k]; try done; unfold goes_on in Hg; cbn [fst snd negb andb] in Hg; cbn [app sink_reads].
    + apply negb_true_iff in Hg. rewrite Hg, IH by done. unfold data_reads. cbn [omap list_omap snd]. by rewrite Hg.
    + by destruct k; try done; rewrite IH.
Qed.

Lemma total_app a b : total (a ++ b) = total a + total b.
Proof.
  unfold total. rewrite fold_left_app. generalize (fold_left (fun t d => t + d.1.1) a 0). clear a.
  induction b as [|d b IH]; intros t; cbn [fold_left]; [lia|]. rewrite IH, (IH (0 + _)). lia.
Qed.

(** Bytes are counted, the first reading is kept and the last one replaced. *)
Lemma after_data_spec ds s :
  after_data ds s =
  mkSink (match ds with [] => sink_recv s | _ => wrap 64 (sink_recv s + total ds) end)
    (match sink_start s with Some t => Some t | None => (fun d => d.1.2) <$> head ds end)
    (default (sink_last s) ((fun d => d.2) <$> last ds)).
Proof.
  induction ds as [|[[n a] b] ds IH] using rev_ind.
  { destruct s as [rv [t|] la]; done. }
  unfold after_data in *. rewrite fold_left_app, IH. cbn [fold_left]. unfold count at 1.
  rewrite last_snoc, total_app. cbn [fst snd sink_recv sink_start sink_last fmap option_fmap option_map default].
  f_equal.
  - replace (total [(n, a, b)]) with n by (unfold total; cbn; lia).
    destruct ds; cbn [app]; unfold wrap; [by replace (total []) with 0 by done|].
    rewrite Zplus_mod_idemp_l. f_equal. lia.
  - destruct (sink_start s); [done|]. by destruct ds.
Qed.

(** A probe: a connection that is closed before it has sent anything. *)
Definition is_probe (t : bool * accepted) : Prop :=
  t.1 = false /\
  match t.2 with
  | NoConnection | Connection false _ => True
  | Connection true reads =>
    exists before r rest, reads = before ++ r :: rest /\ forallb goes_on before = true /\ closes r = true /\
      data_reads before = []
  | AcceptFailed => False
  end.

Lemma tcp_sink_probes probes turns s :
  Forall is_probe probes -> tcp_sink (probes ++ turns) s = tcp_sink turns s.
Proof.
  induction 1 as [|[stop a] probes [Hst Hp] Hps IH]; [done|]. cbn [fst snd] in *. subst stop. cbn [app tcp_sink].
  destruct a as [| |[] reads]; try done.
  destruct Hp as (before & r & rest & -> & Hg & Hc & Hd). rewrite sink_reads_spec, Hd by done.
  unfold after_data. cbn [fold_left]. by rewrite Z.ltb_irrefl.
Qed.

(** The command line never indexes past its end: a panic is a number that does not
    parse. *)
Lemma stress_main_panics args :
  stress_main args = Panic ->
  exists cmd, args !! 1%nat = Some cmd /\
    ((exists p, args !! (if is_source cmd then 3 else 2)%nat = Some p /\ parse_uint U16_MAX p = None) \/
     (is_source cmd = true /\ exists t, args !! 4%nat = Some t /\ parse_uint U64_MAX t = None)).
Proof.
  unfold stress_main. destruct (Nat.ltb_spec (length args) 3) as [|Hlen]; [done|].
  destruct args as [|exe [|cmd [|a2 args]]]; cbn [length] in *; try lia.
  unfold index. cbn [lookup list_lookup expect bind]. intros Hp. exists cmd. split; [done|]. revert Hp.
  assert ((length (exe :: cmd :: a2 :: args) <? 5)%nat = false -> exists a3 a4 args', args = a3 :: a4 :: args') as Hargs.
  { intros Hb%Nat.ltb_ge. destruct args as [|a3 [|a4 args]]; cbn in Hb; try lia. by eexists _, _, _. }
  destruct (is_source cmd) eqn:Es; cbn [andb].
  - destruct (_ <? 5)%nat eqn:E5; [done|]. destruct (Hargs eq_refl) as (a3 & a4 & args' & ->).
    cbn [lookup list_lookup expect bind]. destruct (parse_uint U16_MAX a3) as [port|] eqn:Ep; cbn [expect bind];
      [|intros _; left; by exists a3].
    unfold run_command, index. cbn [lookup list_lookup expect bind].
    destruct (parse_uint U64_MAX a4) as [secs|] eqn:Es4; [|intros _; right; split; [done|by exists a4]].
    cbn [expect bind]. repeat case_match; discriminate.
  - cbn [lookup list_lookup expect bind]. destruct (parse_uint U16_MAX a2) as [port|] eqn:Ep; cbn [expect bind];
      [|intros _; left; by exists a2].
    unfold is_source in Es. apply orb_false_iff in Es as [E1 E2]. unfold run_command. rewrite E1, E2.
    repeat case_match; discriminate.
Qed.

(** What is echoed is what was read, up to the end. *)
Lemma echo_prefix reads : echo_tcp_conn reads `prefix_of` concat (map fst reads).
Proof.
  induction reads as [|[[|b buf] []] reads IH]; cbn; try apply prefix_nil.
  apply (prefix_app (b :: buf)), IH.
Qed.

(** Nothing that UDP can carry is cut. *)
Lemma udp_echo_whole {A} (received : list (option (A * list u8))) :
  Forall (fun r => match r with Some (_, data) => Z.of_nat (length data) <= UDP_BUF | None => True end) received ->
  udp_echo received = omap id received.
Proof.
  unfold udp_echo. induction 1 as [|[[addr data]|] rs Hr _ IH]; cbn -[Z.to_nat]; [done| |done].
  rewrite take_ge by lia. by rewrite IH.
Qed.

(** The retry gives the first attempt that connects, of fifty. *)
Lemma connect_with_retry_spec connects :
  match tcp_connect_with_retry connects with
  | Some n => (n < CONNECT_ATTEMPTS)%nat /\ connects n = true /\ forall m, (m < n)%nat -> connects m = false
  | None => forall m, (m < CONNECT_ATTEMPTS)%nat -> connects m = false
  end.
Proof.
  unfold tcp_connect_with_retry.
  enough (forall tries attempt, (forall m, (m < attempt)%nat -> connects m = false) ->
    match first_connect connects attempt tries with
    | Some n => (n < attempt + tries)%nat /\ connects n = true /\ forall m, (m < n)%nat -> connects m = false
    | None => forall m, (m < attempt + tries)%nat -> connects m = false
    end) as H by (apply (H CONNECT_ATTEMPTS 0%nat); lia).
  induction tries as [|tries IH]; intros attempt Hlt; cbn [first_connect].
  - by rewrite Nat.add_0_r.
  - destruct (connects attempt) eqn:E; [split_and!; [lia|done|done]|].
    specialize (IH (S attempt)). rewrite <- Nat.add_succ_comm. apply IH. intros m Hm.
    destruct (decide (m = attempt)) as [->|]; [done|]. apply Hlt. lia.
Qed.

(** ** Properties *)

(** Pacing, whatever the scheduler and the socket do: between the [i]-th and the
    [j]-th datagram at least [j - i - 9] steps pass, so that after a stall of any
    length no more than nine datagrams leave ahead of the pace; and as long as no
    datagram is more than eight steps behind its deadline, the deadlines are the
    exact multiples of the step from the start, without drift. *)
Theorem pacer_bounds_bursts enobufs secs pace_us turns start begin clock l e :
  0 < pace_us <= U64_MAX -> Sorted Z.le (start :: begin :: clock) ->
  udp_source enobufs secs pace_us turns (start :: begin :: clock) = Some (l, e) \/
  udp_pump enobufs pace_us turns (start :: begin :: clock) = Some (l, e) ->
  let step := pace_us * MICROS in
  (forall i j a b a' b', load_sends l !! i = Some (a, b) -> load_sends l !! j = Some (a', b') -> (i < j)%nat ->
     (Z.of_nat j - Z.of_nat i - 9) * step <= a' - b) /\
  ((forall i a b, load_sends l !! i = Some (a, b) -> b <= begin + (Z.of_nat i + 9) * step) ->
   next_deadline (load_pacer l) = begin + Z.of_nat (length (load_sends l)) * step).
Proof.
  intros Hp [Hs _]%Sorted_inv Hrun step. destruct (pace_in_range pace_us Hp) as [Hpos Hmax].
  assert (exists clock', load_ok begin step clock' l) as [clock' Hok].
  { destruct Hrun as [Hrun|Hrun]; refine (paced_loop_ok _ _ _ _ _ _ _ _ _ Hpos Hmax _ Hrun);
      apply load_ok_start; done || lia. }
  split.
  - intros i j a b a' b' Hi Hj Hij. pose proof (lo_apart _ _ _ _ Hok i j a b a' b' Hi Hj Hij) as H.
    unfold MAX_LAG_STEPS in H. lia.
  - intros Hon. apply (lo_cadence _ _ _ _ Hok). intros i a b Hi. specialize (Hon i a b Hi). unfold MAX_LAG_STEPS. lia.
Qed.

(** Two datagrams on time, a stall of a second, and two more. *)
Definition stalled_turns : list (bool * send_result) :=
  repeat (false, SendOk 1400) 4.

Definition stalled_clock : list Instant := [10; 50000; 50010; 100000; 1000000000; 1000000001; 1000000002; 1000050003].

Lemma pacer_bounds_bursts_witness :
  exists l, udp_pump 105 50 stalled_turns (0 :: 0 :: stalled_clock) = Some (l, NotYet) /\
    load_sent l = 5600 /\ load_sends l = [(0, 10); (50000, 50010); (100000, 1000000000); (1000000001, 1000000002)] /\
    (Z.of_nat 3 - Z.of_nat 0 - 9) * (50 * MICROS) <= 1000000001 - 10.
Proof.
  destruct (udp_pump 105 50 stalled_turns (0 :: 0 :: stalled_clock))
    as [[l e]|] eqn:E; [|vm_compute in E; discriminate].
  pose proof (pacer_bounds_bursts 105 0 50 stalled_turns 0 0 stalled_clock l e ltac:(split; [reflexivity|discriminate])
    ltac:(repeat (constructor; try lia)) (or_intror E)) as [H _].
  vm_compute in E. injection E as <- <-. eexists. split; [reflexivity|]. split; [reflexivity|]. split; [reflexivity|].
  exact (H 0%nat 3%nat _ _ _ _ eq_refl eq_refl ltac:(lia)).
Defined.

(** What the TCP sink reports: connections that are closed without having sent
    anything, such as readiness probes, do not end it and do not count; the first
    one that sends data does, and the report is its bytes and the time from the
    first of them to the last, at least a millisecond, so that neither the wait for
    it nor the time after it enters the rate. *)
Theorem sink_reports_transfer probes before r rest more now first last ds :
  Forall is_probe probes -> forallb goes_on before = true -> closes r = true ->
  data_reads before = first :: ds -> last = List.last ds first ->
  0 < total (first :: ds) <= U64_MAX ->
  let '(s, over) := tcp_sink (probes ++ (false, Connection true (before ++ r :: rest)) :: more) (new_sink now) in
  over = true /\ sink_recv s = total (first :: ds) /\ sink_elapsed s = Z.max (last.2 - first.1.2) MILLIS.
Proof.
  intros Hp Hg Hc Hd -> Ht. rewrite tcp_sink_probes by done. cbn [tcp_sink]. rewrite sink_reads_spec, Hd by done.
  rewrite after_data_spec. cbn [new_sink sink_recv sink_start sink_last head fmap option_fmap option_map].
  assert (wrap 64 (0 + total (first :: ds)) = total (first :: ds)) as Hw
    by (apply wrap_small; unfold U64_MAX in Ht; lia).
  rewrite Hw, (proj2 (Z.ltb_lt _ _)) by lia. split; [done|]. split; [done|].
  unfold sink_elapsed. cbn [sink_start sink_last]. f_equal. f_equal.
  clear. destruct ds as [|d ds _] using rev_ind; [done|].
  change (first :: ds ++ [d]) with ((first :: ds) ++ [d]). by rewrite last_snoc, last_last.
Qed.

Lemma sink_reports_transfer_witness :
  let '(s, over) := tcp_sink
    [(false, NoConnection); (false, Connection true [(false, ReadErr TimedOut); (false, ReadOk 0 1 1)]);
     (false, Connection true ([(false, ReadOk 100 50 60); (false, ReadErr WouldBlock); (false, ReadOk 20 70 5000070)] ++
       (false, ReadOk 0 0 0) :: []))] (new_sink 0) in
  over = true /\ sink_recv s = 120 /\ sink_elapsed s = 5000020.
Proof.
  refine (sink_reports_transfer
    [(false, NoConnection); (false, Connection true [(false, ReadErr TimedOut); (false, ReadOk 0 1 1)])]
    [(false, ReadOk 100 50 60); (false, ReadErr WouldBlock); (false, ReadOk 20 70 5000070)] (false, ReadOk 0 0 0) [] []
    0 (100, 50, 60) (20, 70, 5000070) [(20, 70, 5000070)] _ eq_refl eq_refl eq_refl eq_refl _).
  - constructor; [by split|constructor; [|constructor]]. split; [reflexivity|].
    exists [(false, ReadErr TimedOut)], (false, ReadOk 0 1 1), []. by repeat split.
  - split; [reflexivity|discriminate].
Defined.
