(* ===== verification/UnitTests.v ===== *)
(** The unit tests of the crate and of the stress tool, as far as they concern what is modelled: each
    [Example] runs the definitions on the inputs of the test that it is named after and
    has the result that the test asserts.  Tests of argument parsing, TOML parsing and
    real sockets are left out. *)
From S2P Require Import Prelude Text Utf8 Protocol Proto Stream Session Quic Ip UdpFrame Addrfam Hex Forward X11 ShellQuote Bootstrap X11Setup Escape ClientLoop Config Transport Stress.

Open Scope Z_scope.
Open Scope list_scope.

Ltac run := vm_compute; repeat split; reflexivity.

(** ** [src/forward.rs] *)

Module ForwardTests.

(** What [ForwardSpec::parse(s).unwrap()] has in its fields. *)
Definition parsed (s : string) (bind : option string) (lp : Z) (host : string) (rp : Z) (p : ForwardProto) : Prop :=
  Forward.parse (lit s) = Ok (mkForwardSpec (lit <$> bind) lp (lit host) rp p).

#[local] Arguments parsed _%_string _ _ _%_string _ _.

Definition binds (s : string) (gateway : bool) : option (list str) :=
  match Forward.parse (lit s) with Ok spec => Some (get_bind_addresses gateway spec) | Err _ => None end.

#[local] Arguments binds _%_string _.

Definition shown (s : string) : option str :=
  match Forward.parse (lit s) with Ok spec => Some (to_string spec) | Err _ => None end.

#[local] Arguments shown _%_string.

Example test_parse_basic_tcp : parsed "8080:localhost:80" None 8080 "localhost" 80 Tcp.
Proof. run. Qed.
Example test_parse_explicit_tcp : parsed "8080:localhost:80/tcp" None 8080 "localhost" 80 Tcp.
Proof. run. Qed.
Example test_parse_udp : parsed "5353:192.168.1.1:53/udp" None 5353 "192.168.1.1" 53 Udp.
Proof. run. Qed.
Example test_parse_ipv6_remote : parsed "5432:[::1]:5432" None 5432 "[::1]" 5432 Tcp.
Proof. run. Qed.
Example test_parse_ipv6_remote_udp : parsed "1234:[::1]:5678/udp" None 1234 "[::1]" 5678 Udp.
Proof. run. Qed.
Example test_parse_with_bind_address :
  parsed "127.0.0.1:8080:localhost:80" (Some "127.0.0.1"%string) 8080 "localhost" 80 Tcp /\
  parsed "[::1]:8080:localhost:80" (Some "[::1]"%string) 8080 "localhost" 80 Tcp.
Proof. run. Qed.
Example test_parse_wildcard_bind_address : parsed "*:8080:localhost:80" (Some "*"%string) 8080 "localhost" 80 Tcp.
Proof. run. Qed.
Example test_get_bind_addresses :
  binds "8080:localhost:80" false = Some [lit "127.0.0.1"; lit "[::1]"] /\
  binds "8080:localhost:80" true = Some [lit "[::]"] /\
  binds "*:8080:localhost:80" false = Some [lit "[::]"] /\
  binds "0.0.0.0:8080:localhost:80" false = Some [lit "[::]"] /\
  binds "192.168.1.50:8080:localhost:80" false = Some [lit "192.168.1.50"].
Proof. run. Qed.
Example test_parse_missing_remote_port : is_ok (Forward.parse (lit "8080:localhost")) = false.
Proof. run. Qed.
Example test_parse_bad_local_port : is_ok (Forward.parse (lit "notaport:localhost:80")) = false.
Proof. run. Qed.
Example test_parse_bad_remote_port : is_ok (Forward.parse (lit "8080:localhost:notaport")) = false.
Proof. run. Qed.
Example test_parse_empty_host : is_ok (Forward.parse (lit "8080::80")) = false.
Proof. run. Qed.
Example test_display :
  shown "8080:localhost:80" = Some (lit "8080:localhost:80/tcp") /\
  shown "53:dns.internal:53/udp" = Some (lit "53:dns.internal:53/udp") /\
  shown "127.0.0.1:8080:localhost:80" = Some (lit "127.0.0.1:8080:localhost:80/tcp").
Proof. run. Qed.
Example test_split_ignoring_brackets :
  split_ignoring_brackets (lit "a:b:c") = [lit "a"; lit "b"; lit "c"] /\
  split_ignoring_brackets (lit "8080:[::1]:80") = [lit "8080"; lit "[::1]"; lit "80"] /\
  split_ignoring_brackets (lit "[::1]:9090:[::1]:80") = [lit "[::1]"; lit "9090"; lit "[::1]"; lit "80"] /\
  split_ignoring_brackets (lit "8080") = [lit "8080"] /\
  split_ignoring_brackets [] = [[]] /\
  split_ignoring_brackets (lit "a:b:") = [lit "a"; lit "b"; []].
Proof. run. Qed.
Example test_parse_display :
  parse_display (lit ":0") = Ok (XUnix 0) /\ parse_display (lit "unix:10.0") = Ok (XUnix 10) /\
  parse_display (lit "localhost:10.0") = Ok (XTcp (lit "localhost") 6010) /\
  display_num (XTcp (lit "localhost") 6010) = 10 /\
  parse_display (lit "/tmp/launch-123/org.xquartz:0") = Ok (XPath (lit "/tmp/launch-123/org.xquartz:0")) /\
  display_num (XPath (lit "/tmp/launch-123/org.xquartz:0")) = 0.
Proof. run. Qed.
Example test_datagram_peer_addr :
  datagram_peer_addr (lit "127.0.0.1") 53 = Some (SockV4 [127; 0; 0; 1] 53) /\
  datagram_peer_addr (lit "::1") 5000 = Some (SockV6 [0; 0; 0; 0; 0; 0; 0; 1] 5000 0 0) /\
  datagram_peer_addr (lit "127.0.0.1") 0 = None /\ datagram_peer_addr (lit "127.0.0.1") 65536 = None /\
  datagram_peer_addr (lit "127.0.0.1") 4294967295 = None /\
  datagram_peer_addr [] 53 = None /\ datagram_peer_addr (lit "not-an-ip") 53 = None /\
  datagram_peer_addr (lit "localhost") 53 = None /\ datagram_peer_addr (lit "[::1]") 53 = None.
Proof. run. Qed.
Example test_xauth_list :
  let sample := unlines [lit "host/unix:0  MIT-MAGIC-COOKIE-1  00112233445566778899aabbccddeeff";
                         lit "host/unix:10  MIT-MAGIC-COOKIE-1  fedcba9876543210fedcba9876543210"] in
  let mit := lit "MIT-MAGIC-COOKIE-1" in
  parse_xauth_list_for_display sample 0 = Ret (Some (mit, map (Z.mul 17) [0; 1; 2; 3; 4; 5; 6; 7; 8; 9; 10; 11; 12; 13; 14; 15])) /\
  parse_xauth_list_for_display sample 10 = Ret (Some (mit, [254; 220; 186; 152; 118; 84; 50; 16; 254; 220; 186; 152; 118; 84; 50; 16])) /\
  parse_xauth_list_for_display sample 2 = Ret None.
Proof. run. Qed.
End ForwardTests.

(** ** [src/addrfam.rs] *)

Module AddrfamTests.

Definition config (v : string) : AddrPref := from_config (Some (lit v)).
#[local] Arguments config _%_string.

(** [[::1]:22], [127.0.0.1:22], [[fe80::1]:22] and [10.0.0.1:22]. *)
Definition loop6 : SocketAddr := SockV6 [0; 0; 0; 0; 0; 0; 0; 1] 22 0 0.
Definition loop4 : SocketAddr := SockV4 [127; 0; 0; 1] 22.
Definition link6 : SocketAddr := SockV6 [65152; 0; 0; 0; 0; 0; 0; 1] 22 0 0.
Definition ten4 : SocketAddr := SockV4 [10; 0; 0; 1] 22.

Example from_flags_maps_each_combination :
  from_flags false false = Auto /\ from_flags true false = Ipv4 /\
  from_flags false true = Ipv6 /\ from_flags true true = Ipv6.
Proof. run. Qed.
Example from_config_accepts_aliases_and_falls_back_to_auto :
  config "ipv4" = Ipv4 /\ config " V4 " = Ipv4 /\ config "inet6" = Ipv6 /\ config "IPv6" = Ipv6 /\
  config "auto" = Auto /\ config "ipv46" = Auto /\ from_config None = Auto.
Proof. run. Qed.
Example or_only_substitutes_for_auto :
  pref_or Auto Ipv6 = Ipv6 /\ pref_or Ipv4 Ipv6 = Ipv4 /\ pref_or Ipv6 Ipv4 = Ipv6.
Proof. run. Qed.
Example wire_round_trips_and_ignores_unknown_values :
  wire Auto = None /\ from_wire <$> wire Ipv4 = Some Ipv4 /\ from_wire <$> wire Ipv6 = Some Ipv6 /\
  from_wire (lit "46") = Auto /\ from_wire [] = Auto.
Proof. run. Qed.
Example ssh_flag_matches_the_preference :
  ssh_flag Auto = None /\ ssh_flag Ipv4 = Some (lit "-4") /\ ssh_flag Ipv6 = Some (lit "-6").
Proof. run. Qed.
Example order_by_family_puts_the_preferred_family_first :
  order_by_family [loop6; loop4; link6] Ipv4 = [loop4; loop6; link6] /\
  order_by_family [loop6; loop4; link6] Ipv6 = [loop6; link6; loop4].
Proof. run. Qed.
Example order_by_family_is_stable_within_a_family :
  order_by_family [loop6; link6; loop4] Ipv6 = [loop6; link6; loop4].
Proof. run. Qed.
Example order_by_family_auto_is_identity : order_by_family [loop6; loop4] Auto = [loop6; loop4].
Proof. run. Qed.
Example order_by_family_handles_single_family_and_empty_input :
  order_by_family [loop4; ten4] Ipv6 = [loop4; ten4] /\ order_by_family [] Ipv4 = [].
Proof. run. Qed.
Example first_routable_finds_loopback_and_rejects_nothing_to_probe :
  first_routable (fun _ => true) [loop4] = Some loop4 /\ first_routable (fun _ => true) [] = None.
Proof. run. Qed.
Example test_cli_flag_beats_config_address_family :
  own_pref true false (Some (lit "ipv6")) = Ipv4 /\ own_pref false false (Some (lit "ipv6")) = Ipv6.
Proof. run. Qed.
End AddrfamTests.

(** ** [src/session/stream.rs] and [src/session/mod.rs] *)

Module SessionTests.

Definition make_stream : StreamState := new_stream 0 Protocol.Terminal.
Definition make_state : SessionState := new_session (repeat 0 16) (lit "passkey").

(** [for i in 1..=4 { s.record_send(i, vec![i as u8]) }] and the tests' letters. *)
Definition sent (ps : list (list u8)) (s : StreamState) : StreamState :=
  fold_left (fun s c => record_send c.1 c.2 s) (imap (fun i p => (Z.of_nat i + 1, p)) ps) s.
Definition four : StreamState := sent [[1]; [2]; [3]; [4]] make_stream.

Example test_acknowledge_trims_history :
  let s := acknowledge_up_to 2 four in
  length (send_history s) = 2%nat /\ head (send_history s).*1 = Some 3 /\ history_bytes s = 2.
Proof. run. Qed.
Example test_replay_from : (replay_from 2 four).*1 = [3; 4].
Proof. run. Qed.
Example test_replay_from_zero :
  replay_from 0 make_stream = [] /\ length (replay_from 0 (sent [[97]; [98]] make_stream)) = 2%nat.
Proof. run. Qed.
Example test_acknowledge_up_to_drains_all :
  let s := acknowledge_up_to U64_MAX four in send_history s = [] /\ history_bytes s = 0.
Proof. run. Qed.
Example test_acknowledge_up_to_empty_history_noop :
  let s := acknowledge_up_to 100 make_stream in send_history s = [] /\ history_bytes s = 0.
Proof. run. Qed.
Example test_acknowledge_up_to_past_end_noop :
  let s := acknowledge_up_to 0 (sent [[120]] make_stream) in
  length (send_history s) = 1%nat /\ history_bytes s = 1.
Proof. run. Qed.
Example test_initial_seq_numbers :
  next_out_seq make_stream = 1 /\ next_in_seq make_stream = 1 /\ lifecycle make_stream = Open.
Proof. run. Qed.

Example test_stream_zero_exists : stream_type <$> stream 0 make_state = Some Protocol.Terminal.
Proof. run. Qed.
Example test_open_and_close_stream :
  let s := (open_stream 1 PortForward make_state).2 in
  bool_decide (is_Some (stream 1 s)) = true /\ lifecycle <$> stream 1 (close_stream 1 s) = Some Closed.
Proof. run. Qed.
Example test_last_received_map :
  last_received_map make_state !! 0 = Some 0 /\
  last_received_map (stream_mut 0 (fun s => set_next_in s 6) make_state) !! 0 = Some 5 /\
  last_received_map (stream_mut 0 (fun s => set_next_in s 4) make_state) !! 0 = Some 3.
Proof. run. Qed.
Example test_collect_replays :
  let s := stream_mut 0 (sent [[97]; [98]; [99]]) make_state in
  map fst <$> (collect_replays {[0 := 1]} s !! 0) = Some [2; 3] /\
  map fst <$> (collect_replays ∅ s !! 0) = Some [1; 2; 3] /\
  collect_replays ∅ make_state = ∅.
Proof. run. Qed.
Example test_unknown_streams :
  stream 42 make_state = None /\ stream 99 (close_stream 99 make_state) = None /\
  stream 5 (apply_server_acks {[5 := 100]} make_state) = None.
Proof. run. Qed.
Example test_open_stream_idempotent :
  let s := (open_stream 2 PortForward (open_stream 2 PortForward make_state).2).2 in
  bool_decide (is_Some (stream 2 s)) = true /\ size (streams s) = 2%nat.
Proof. run. Qed.
End SessionTests.

(** ** [src/bin/etr.rs] *)

Module ClientTests.

Definition quoted (s r : string) : Prop := posix_shell_quote (lit s) = lit r.
#[local] Arguments quoted _%_string _%_string.

Definition window (needle seq : list u8) : bool :=
  existsb (fun i => bool_decide (take (length needle) (drop i seq) = needle)) (List.seq 0 (length seq)).
Definition modes (l : list string) (seq : list u8) : list bool := map (fun s => window (csi (lit s)) seq) l.

Definition specs : list ForwardSpec :=
  omap (fun s => match Forward.parse s with Ok x => Some x | Err _ => None end)
       [lit "8080:localhost:80"; lit "5353:127.0.0.1:53/udp"].
Definition tcp_open (host : string) (port proto : Z) : StreamOpen := mkStreamOpen 0 1 (lit host) port proto.
#[local] Arguments tcp_open _%_string _ _.

Definition valid (target term : string) (env : list str) (cmd : option str) : bool :=
  is_ok (validate_bootstrap_inputs (lit target) (lit term) env cmd).
#[local] Arguments valid _%_string _%_string _ _.

Example test_escape_char_value : [ESCAPE_CHAR] = as_bytes (lit "~").
Proof. run. Qed.
Example test_term_reset_modes_covers_critical_modes :
  modes ["?1000l"; "?1002l"; "?1003l"; "?1006l"; "?2004l"; "?25h"]%string TERM_RESET_MODES = repeat true 6 /\
  drop (length TERM_RESET_MODES - 4) TERM_RESET_MODES = csi (lit "0m") /\
  modes ["?1049l"; "r"]%string TERM_RESET_MODES = [false; false] /\ window [ESC; 99] TERM_RESET_MODES = false.
Proof. run. Qed.
Example test_term_reset_screen_leaves_alt_screen :
  modes ["?1049l"; "r"]%string TERM_RESET_SCREEN = [true; true] /\ window [ESC; 99] TERM_RESET_SCREEN = false.
Proof. run. Qed.
Example test_is_authorized_reverse_stream_enforces_x11_and_reverse_specs :
  let x11 := mkStreamOpen 0 2 [] 0 0 in
  is_authorized_reverse_stream x11 false specs = false /\
  is_authorized_reverse_stream x11 true specs = true /\
  is_authorized_reverse_stream (tcp_open "localhost" 80 0) false specs = true /\
  is_authorized_reverse_stream (tcp_open "localhost" 80 0) false [] = false /\
  is_authorized_reverse_stream (tcp_open "10.0.0.1" 80 0) false specs = false /\
  is_authorized_reverse_stream (tcp_open "localhost" 22 0) false specs = false /\
  is_authorized_reverse_stream (tcp_open "localhost" 80 1) false specs = false.
Proof. run. Qed.
Example test_posix_shell_quote :
  quoted "etrs" "etrs" /\ quoted "/usr/local/bin/etrs" "/usr/local/bin/etrs" /\
  quoted "/path/with spaces/etrs" "'/path/with spaces/etrs'" /\ quoted "/tmp/log;id" "'/tmp/log;id'" /\
  quoted "/tmp/it's.log" "'/tmp/it'\''s.log'" /\ quoted "~" "~" /\ quoted "~/" "~/" /\
  quoted "~/.local/state/etr/etrs.log" "~/.local/state/etr/etrs.log" /\
  quoted "~/my bin/etrs" "~/'my bin/etrs'" /\ quoted "~/log;id" "~/'log;id'".
Proof. run. Qed.
Example test_validate_bootstrap_inputs_rejects_option_targets_and_newlines :
  valid "user@host" "xterm-256color" [] None = true /\
  valid "-oProxyCommand=sh" "xterm-256color" [] None = false /\
  valid "" "xterm-256color" [] None = false /\
  is_ok (validate_bootstrap_inputs (lit "host") (lit "xterm" ++ [LF] ++ lit "ETRCMD:id") [] None) = false /\
  valid "host" "xterm-256color" [lit "FOO=bar" ++ [LF] ++ lit "ETRCMD:id"] None = false /\
  valid "host" "xterm-256color" [] (Some (lit "echo a" ++ [LF] ++ lit "echo b")) = false.
Proof. run. Qed.
End ClientTests.

(** ** [src/bin/etrs.rs] *)

Module ServerTests.

Definition drive (ls : list str) : BootstrapRequest :=
  read_bootstrap_lines ls (mkRequest [] [] [] [] None false Auto).
Definition safe (s : string) : bool := is_safe_client_env_var (lit s).
#[local] Arguments safe _%_string.

(** The set-up message of the tests, little-endian, with the given cookie. *)
Definition setup (cookie : list u8) : RecvStream :=
  mkRecv ([108; 0; 11; 0; 0; 0] ++ to_le 2 18 ++ to_le 2 16 ++ [0; 0] ++ MIT_MAGIC_COOKIE_1 ++ [0; 0] ++ cookie) Finished.
Definition no_cookie : RecvStream := mkRecv ([108; 0; 11; 0; 0; 0] ++ to_le 2 0 ++ to_le 2 0 ++ [0; 0]) Finished.
Definition block (r : result (RecvStream * list u8) ErrorKind) : option (list u8) :=
  match r with Ok (_, b) => Some b | Err _ => None end.

Example test_bind_default_follows_preference :
  effective_bind_ip None Auto = lit "[::]" /\ effective_bind_ip None Ipv4 = lit "0.0.0.0" /\
  effective_bind_ip None Ipv6 = lit "[::]" /\ effective_bind_ip (Some (lit "192.0.2.1")) Ipv4 = lit "192.0.2.1".
Proof. run. Qed.
Example test_bootstrap_line_parsing_covers_every_prefix :
  parse_bootstrap_line (lit "KEY=VALUE") = LEnv (lit "KEY=VALUE") /\
  parse_bootstrap_line (lit "ETRCMD:btop -1") = LCommand (lit "btop -1") /\
  parse_bootstrap_line (lit "ETRX11:true") = LX11 /\
  parse_bootstrap_line (lit "ETRPREFER:4") = LPrefer Ipv4 /\
  parse_bootstrap_line (lit "ETRPREFER:6") = LPrefer Ipv6 /\
  parse_bootstrap_line (lit "ETRPREFER:9") = LPrefer Auto /\
  parse_bootstrap_line (lit "ETRFUTURE:x") = LEnv (lit "ETRFUTURE:x").
Proof. run. Qed.
Example test_client_preference_overrides_server_default :
  forward_pref Auto Ipv6 = Ipv6 /\ forward_pref Ipv4 Ipv6 = Ipv4.
Proof. run. Qed.
Example test_hex_decode :
  hex_decode (lit "deadbeef") = Ret (Some [222; 173; 190; 239]) /\
  hex_decode (lit "odd") = Ret None /\ hex_decode (lit "zz") = Ret None.
Proof. run. Qed.
Example test_reconnect_timeout_env_var :
  resolve_reconnect_timeout None (Some (lit "7200")) (Some 3600) = 7200 /\
  resolve_reconnect_timeout (Some 900) (Some (lit "7200")) (Some 3600) = 900 /\
  resolve_reconnect_timeout None (Some (lit "not-a-number")) (Some 3600) = 3600 /\
  resolve_reconnect_timeout None None None = 1800.
Proof. run. Qed.
Example test_etrcmd_and_etrx11_line_parsing :
  let r := drive [lit "KEY=VALUE"; lit "ETRCMD:distrobox -- btop"; lit "ETRX11:true"; lit "ETRPREFER:6"; lit "OTHER=foo"] in
  b_remote_command r = Some (lit "distrobox -- btop") /\ b_x11_enabled r = true /\ b_client_pref r = Ipv6 /\
  b_extra_env r = [lit "KEY=VALUE"; lit "OTHER=foo"].
Proof. run. Qed.
Example test_bootstrap_without_etrprefer_leaves_preference_auto :
  b_client_pref (drive [lit "KEY=VALUE"; lit "ETRCMD:true"]) = Auto /\
  b_remote_command (drive [lit "KEY=VALUE"]) = None.
Proof. run. Qed.
Example test_process_x11_setup_empty_real_cookie :
  block (process_x11_setup (setup (repeat 7 16)) (repeat 7 16) []) = Some [108; 0; 11; 0; 0; 0; 0; 0; 0; 0; 0; 0].
Proof. run. Qed.
Example test_process_x11_setup_replace_cookie :
  block (process_x11_setup (setup (repeat 7 16)) (repeat 7 16) (repeat 9 16)) = Some (incoming (setup (repeat 9 16))).
Proof. run. Qed.
Example test_process_x11_setup_rejects :
  block (process_x11_setup no_cookie [] []) = None /\ block (process_x11_setup no_cookie [] (repeat 9 16)) = None /\
  block (process_x11_setup (setup (repeat 8 16)) (repeat 7 16) []) = None.
Proof. run. Qed.
Example test_is_safe_client_env_var_blocks_dangerous_linker_and_control_vars :
  safe "COLORTERM=truecolor" = true /\ safe "LANG=en_US.UTF-8" = true /\
  safe "LD_PRELOAD=/tmp/evil.so" = false /\ safe "ld_preload=/tmp/evil.so" = false /\
  safe "LD_LIBRARY_PATH=/tmp" = false /\ safe "DYLD_INSERT_LIBRARIES=/tmp/evil.dylib" = false /\
  safe "BASH_ENV=/tmp/rc" = false /\ safe "ENV=/tmp/rc" = false /\
  is_safe_client_env_var (lit "FOO=bar" ++ [LF] ++ lit "ETRCMD:id") = false /\
  safe "NO_EQUALS" = false /\ safe "=EMPTY_KEY" = false.
Proof. run. Qed.
End ServerTests.

(** ** [src/config.rs], [src/quic.rs] and the stress tool *)

Module OtherTests.

Definition all_keys : list str := CLIENT_KEY_BLOCKS.*1 ++ SERVER_KEY_BLOCKS.*1.
Definition client_ssh : str := unlines [lit "[client]"; lit "ssh_port = 2222"].

(** A file with every key, each line after the given prefix. *)
Definition full_config (prefix : str) : str :=
  let entry k := prefix ++ k ++ lit " = 0" in
  unlines (CLIENT_HEADER :: map entry CLIENT_KEY_BLOCKS.*1 ++ SERVER_HEADER :: map entry SERVER_KEY_BLOCKS.*1).

Example test_merge_defaults_empty_produces_all_keys : (merge_defaults []).2 = all_keys.
Proof. run. Qed.
Example test_merge_defaults_all_present_no_additions :
  merge_defaults (full_config []) = (full_config [], []) /\ (merge_defaults (full_config (lit "# "))).2 = [].
Proof. run. Qed.
Example test_merge_defaults_adds_missing_keys :
  (merge_defaults client_ssh).2 = List.filter (fun k => negb (str_eqb k (lit "ssh_port"))) all_keys.
Proof. run. Qed.
Example test_merge_defaults_twice :
  merge_defaults (merge_defaults client_ssh).1 = ((merge_defaults client_ssh).1, []).
Proof. run. Qed.
Example window_and_chunk_cap_relationship_is_documented :
  (QUINN_ASSEMBLER_CHUNK_CAP <? STREAM_RECEIVE_WINDOW / MIN_EXPECTED_FRAME_PAYLOAD) = true.
Proof. run. Qed.
Example pacer_zero_is_unpaced : pace_step (pacer_new 0 1000) = None.
Proof. run. Qed.
Example advance_deadline_splits_coarse_sleep_and_spin_window :
  advance_deadline 0 (1000 * MICROS) 0 = (1000 * MICROS, Some (750 * MICROS)) /\
  advance_deadline 0 (50 * MICROS) 0 = (50 * MICROS, None).
Proof. run. Qed.
Example advance_deadline_clamps_excessive_lag_without_bursting :
  advance_deadline 0 (50 * MICROS) (150 * MICROS) = (50 * MICROS, None) /\
  advance_deadline 0 (50 * MICROS) (10000 * MICROS) = (10000 * MICROS, None).
Proof. run. Qed.
End OtherTests.
